(* ===== verification/_CoqProject ===== *)
-Q . S2P
Prelude.v
GoNum.v
GoStrings.v
Json.v
Events.v
Protocol.v
Room.v
RoomRun.v
RoomInv.v
RoomSys.v
RoomResults.v
RoomProps.v
RoomBehaviour.v
RoomTelemetry.v
RoomProvenance.v
RoomScenarios.v
RoomQuery.v
Http.v
Store.v
StoreProps.v
RaceService.v
PgRepo.v
RaceServiceProps.v
RaceHandler.v
Locator.v
Registry.v
RegistryProps.v
Relay.v
RaceHub.v
RaceHubProps.v
Endpoint.v
GatewayProxy.v
Discovery.v
Leaderboard.v
LeaderboardProps.v
Auth.v
Kafka.v
Consumer.v
ConsumerProps.v
Periphery.v
Delivery.v
Persist.v
ConsumerRun.v
Processes.v
FakeBus.v
Middleware.v
RoomHost.v
Inbound.v
EndToEnd.v
Metrics.v
Tracing.v
Cluster.v
