(* ===== verification/Prelude.v ===== *)
(** * Aviron: a verification library for the race backend

    Aviron is a typing-race game.  Its backend ([src/backend]) is four processes:
    the race service ([cmd/server]) owns rooms and answers REST requests; the
    gateway ([cmd/ws-gateway]) holds the players' WebSockets and proxies REST to
    the instance that owns a race; the consumer ([cmd/consumer]) moves Kafka
    events into Postgres; the alert relay forwards alerts to Telegram.  This
    library models them in Rocq and proves what makes them correct.

    ** How the parts interact

    A request enters through the gateway ([GatewayProxy]), which asks the locator
    ([Locator], Redis) who owns the race, and is answered by a handler
    ([RaceHandler], [Leaderboard], [Auth]; the routes are in [Periphery]) behind
    the authentication middleware ([Http]).  The race service ([RaceService])
    only knows the repository as an interface; [PgRepo] shows that the tables of
    [Store] implement it.  Creating a race spawns a room in the registry
    ([Registry]), which claims it in the locator, feeds the room's inbox from the
    bus and drains its broadcasts to the bus ([Relay]).  The room is a
    single-writer actor ([Room] for what it does with an event, [RoomRun] for its
    goroutines, timers and channels).  When the race is over it persists the
    results ([Store.repo_FinishRace]), publishes them on Kafka ([Kafka], read by
    [Consumer]) and cancels itself.  Players connect to the gateway with the
    session token they got on joining ([Endpoint]); what they send goes to the
    bus, and a reference-counted hub per race fans the room's broadcasts out to
    them ([RaceHub]).

    ** The files

    - [Prelude]: record update, tactics, hints, lemmas on lists and sorting.
      [GoNum], [GoStrings], [Json]: the parts of Go's library the program leans
      on - [float64], fixed-width [int], byte strings, [encoding/json].
    - [Events], [Protocol] ([internal/ws/protocol.go]): inputs and messages of a
      room, and the decoding of client frames into them.
    - [Room], [RoomRun] ([internal/room/room.go], [lifecycle.go], [events.go]):
      a [World] is the [RoomActor] with the timers, replies and calls it makes;
      each [apply...] is one case of [applyEvent]; [exec] is one step of the
      system of senders, inbox, loop, clock and timers.  [RoomInv], [RoomSys],
      [RoomResults]: invariants.  [RoomProps], [RoomBehaviour],
      [RoomTelemetry]: theorems.  [RoomProvenance]: which events stand behind what
      a room holds, persists and broadcasts.  [RoomScenarios]: concrete races.  [RoomQuery]: a
      caller of [IsEvicted] next to the room.
    - [Http], [Store], [RaceService], [PgRepo], [RaceHandler] with [StoreProps]
      and [RaceServiceProps]: tokens, tables, service and handlers of races.
    - [Locator], [Registry], [Relay], [RaceHub], [Endpoint], [GatewayProxy],
      [Discovery] (the pool that follows the cluster) with [RegistryProps] and
      [RaceHubProps]: ownership, rooms, bus and gateway.
    - [Leaderboard] with [LeaderboardProps], [Auth], [Kafka], [Consumer] with
      [ConsumerProps], [Periphery], [Middleware] (the chain around the handlers)
      and [FakeBus] (the bus of the tests): the rest of the backend.
    - [Metrics] ([internal/metrics] and the counters of locator, bus and
      consumer) and [Tracing] (trace headers on NATS and Kafka): what is observed.
    - [ConsumerRun] ([internal/consumer/consumer.go]) and [Processes]
      ([cmd/*/run.go], the constructors and configurations they call): the
      processes - their loops interleaved, restarts, start and shutdown.
    - Compositions: [Delivery] (registry, NATS log and hubs: from a room to a
      player's socket), [Persist] (room, service, tables, Kafka and consumer:
      from a room to the tables), [RoomHost] (the registry and the rooms it runs,
      sharing channels and contexts: an instance), [Inbound] (the players'
      connections, NATS and an instance: from a player's socket to a room),
      [EndToEnd] ([Inbound] and [Delivery] sharing the registry and the
      connections: from one player to another) and [Cluster] (the registries of
      several instances, their Redis and the gateway: from a request to its
      instance).

    Definitions bear the names of the Go functions; [repo_...] are the methods of
    the Postgres repositories, [marshal_...] and [..._fields] what the struct
    tags say.

    ** What is proved

    - Rooms: results are ranked in order of finishing, cover everybody exactly
      once, and are only handed over by a started race; every step follows the
      life cycle pending, active, finished or cancelled; progress is that of the
      first frame to arrive with the highest number, so that on one connection
      neither order nor repetition matters; reconnecting keeps progress; only leaving or a lapsed grace period removes
      somebody; blocked senders can always be released.
    - Tables and service: what the finish transaction and the reconciliation
      leave of every row, exactly; open races are listed
      soundly and, up to the cap, completely; joining, starting, creating and
      leaving on every branch, against any repository, and what a join or a
      creation answers when the database is up; a handler talks to the
      registry exactly when it answers success.
    - Ownership: one owner at a time, kept by heartbeats even when one is
      missed; the registry never evicts a room in the name of another; frames of
      a room leave in order and [room_closed] comes last; whatever fails, a
      request about a race is only proxied to an instance that claimed it, and by
      a fresh answer to one whose map still finds the room while it runs.
    - Instances: a room keeps its goroutines, claim and map entry until its end is
      persisted or it is cancelled from outside, and then gives everything back in
      at most 24 steps, with every frame published before [room_closed] - all but
      the subscription of [feedInbox], which stays until the process ends.
    - Gateway: exactly the right people are connected; a connection's frames
      become exactly the room's events; each connection is sent an ordered
      subsequence of the broadcasts, and what is buffered at the end is
      delivered; the routing cache is used for exactly its TTL; the gateway and
      the service agree on the race of a request.
    - End to end: a room is handed, in order and none twice, what the connections
      to its race sent, all of it when nothing is lost; everything it holds,
      persists, publishes and broadcasts about a player goes back to what that
      player's own connections, with valid tokens, said, and no step changes what
      it holds of anybody but the user whose event it handles; a player is sent
      an ordered subsequence of the frames of the race's room, all of them when
      nothing is lost, so what players see is what players said; results a room has
      handed over stay in the tables unless another start, finish or removal is
      executed on them, and the consumer fills in
      what is missing without contradicting them.
    - Events: what is published decodes to what was sent; as long as dead-letter
      publishes get through consumption is at least once, across restarts, but for
      what the immediate commit of a malformed message skips; what a flush does on
      every branch; the batch is bounded, in size and in age, while the database is
      up.
    - Processes: waiting for the rooms terminates within the budget; every process
      closes what it opened in reverse and last, the race service after it has
      waited for its rooms; the log of a request is true.
    - Observation: no process dies of registering its metrics; instrumented calls
      do what plain ones do and the counters equal what happened; a trace crosses
      both kinds of hop.  The gateway's pool catches up with the cluster.
    - Accounts and boards: registering and logging in round-trip; nobody's
      account is overwritten; a session token opens its handshake and nothing
      else; each page is a page of a ranking, of the same one if nobody is tied.
    - Where the code does something else than it says or means, a closed run or a
      general theorem shows it ([RoomScenarios], the ends of [StoreProps],
      [RaceServiceProps], [RaceHubProps], [RoomTelemetry], [RoomHost], [LeaderboardProps], [ConsumerProps], [Persist],
      [Processes], [Middleware], [Metrics], [Discovery]).

    ** Conventions and bounds

    Concurrency is interleaving: each goroutine's atomic section (a critical
    section, a channel operation, a statement) is a step, every reachable state
    of any schedule is covered, and liveness is stated as the existence of a run
    of stated length made of the component's own steps.  Nothing in the library
    runs on fuel, except [RaceService.Prog] programs and [create_attempts], which
    are structurally bounded by the code's own loops ([maxCreateRaceAttempts]), and
    [Processes.wait_loop], whose fuel - one more than the poll intervals left - is
    proved to be enough ([drain_terminates]).
    Go's [int] wraps at 64 bits where the program computes with unbounded input
    ([GetTop], [nextBackend]); INT columns refuse what does not fit ([int4_ok]);
    a room's counters are shown to stay in range.  Iteration over a Go map is in
    the order an [Env] or [heap] parameter chooses.  Times are integers, in
    nanoseconds unless a file says otherwise.  A JSON text is the document it
    denotes.

    Libraries are interfaces with the documented behaviour the program uses: the
    JWT library ([Jwt]), bcrypt and address parsing ([Passwords]), Redis
    ([Redis]), time formatting ([TimeFormat]), NUMERIC arithmetic, the encoding of
    a sample's columns ([SampleColumns]), the Prometheus
    client ([Prometheus], [Vectors]), OpenTelemetry and its carriers
    ([OpenTelemetry], [TextMapCarrier]), the Kubernetes informer
    ([SharedInformer]); each has a concrete instance on which the witnesses run.

    ** What is not modelled

    Durations, span attributes and the spans within one process; of logging all
    but the request line.  The libraries the constructors call, the HTTP server,
    listening and signals; the reverse proxy; parsing durations; the generated API
    description; text-level JSON; the frontend.  In [Persist] a request of the
    room to the service runs alone (interleavings of the service's own programs
    are in [RaceServiceProps]) and requests of others come one statement at a
    time.  In [Cluster] Redis and the gateway have a clock each, the race-service
    instances go by that of Redis; rooms are the registry's actors, and what they
    do inside is in [RoomHost].  In [Inbound] and [EndToEnd] there is one instance;
    what Redis answers to a handshake is arbitrary, and so is what [conn.Read]
    returns and when; that a reader ends when its writer does is only in
    [RaceHub]. *)
From Stdlib Require Export ZArith Lia.
From Stdlib Require Export Sorting.Sorted Sorting.Permutation.
From stdpp Require Export base decidable tactics relations option gmap sets list strings.

(** ** Functional record update

    [r <| proj := v |>] is [r] with one field replaced, the shape of a Go
    assignment [r.field = v].  A record type provides [Eta] (its eta expansion);
    the setter of a field is computed from it by [mk_setter]. *)
Class Eta (R : Type) := eta : R -> R.
Class Setter {R T : Type} (proj : R -> T) := set : (T -> T) -> R -> R.
Arguments set {R T} proj {_} _ _.

Ltac mk_setter :=
  match goal with
  | |- @Setter ?R ?T ?proj =>
      let e := constr:(_ : Eta R) in
      let e' := eval hnf in e in
      let f := fresh "f" in
      let x := fresh "x" in
      intros f x;
      let b := eval cbv beta in (e' x) in
      let b' := eval pattern (proj x) in b in
      lazymatch b' with
      | ?g _ => let t := eval cbv beta in (g (f (proj x))) in exact t
      end
  end.

#[export] Hint Extern 1 (Setter _) => mk_setter : typeclass_instances.

Declare Scope aviron_scope.
Delimit Scope aviron_scope with aviron.
Notation "r <| proj := v |>" := (set proj (fun _ => v) r)
  (at level 1, left associativity, proj constr, v at level 200,
   format "r  <| proj  :=  v |>") : aviron_scope.
Open Scope aviron_scope.

(** ** Machine integers

    Go's [int] and [int64] are 64-bit two's complement on every platform the
    program is built for: an arithmetic result is the mathematical one wrapped
    by [wrap64].  [uint64] counters wrap modulo [2^64]. *)
Definition min_int64 : Z := -9223372036854775808.
Definition max_int64 : Z := 9223372036854775807.
Definition int64_ok (z : Z) : Prop := (min_int64 <= z <= max_int64)%Z.
Definition int64_okb (z : Z) : bool := (min_int64 <=? z)%Z && (z <=? max_int64)%Z.
Definition wrap64 (z : Z) : Z :=
  ((z + 9223372036854775808) mod 18446744073709551616 - 9223372036854775808)%Z.
Definition wrapu64 (z : Z) : Z := (z mod 18446744073709551616)%Z.

Lemma wrap64_id z : int64_ok z -> wrap64 z = z.
Proof. unfold int64_ok, wrap64, min_int64, max_int64. intros. rewrite Z.mod_small; lia. Qed.

Lemma wrap64_ok z : int64_ok (wrap64 z).
Proof.
  unfold int64_ok, wrap64, min_int64, max_int64.
  pose proof (Z.mod_pos_bound (z + 9223372036854775808) 18446744073709551616). lia.
Qed.

Lemma int64_okb_spec z : int64_okb z = true <-> int64_ok z.
Proof. unfold int64_okb, int64_ok. rewrite andb_true_iff, !Z.leb_le. done. Qed.

(** ** Errors

    A Go [error] value is opaque to most of the program: it is compared with
    sentinels by [errors.Is] and otherwise only logged. *)
Abbreviation error := string (only parsing).

(** ** Lists *)
Section lists.
Context {A : Type}.
Local Open Scope nat_scope.

(** A Go [select] with a send case and a [default] on a buffered channel:
    the value is appended when there is room, otherwise dropped. *)
Definition try_send (cap : nat) (ch : list A) (x : A) : list A :=
  if bool_decide (length ch < cap) then ch ++ [x] else ch.

Lemma try_send_room cap ch x : length ch < cap -> try_send cap ch x = ch ++ [x].
Proof. intros. unfold try_send. by rewrite bool_decide_eq_true_2. Qed.

Lemma try_send_full cap ch x : cap <= length ch -> try_send cap ch x = ch.
Proof. intros. unfold try_send. rewrite bool_decide_eq_false_2; [done | lia]. Qed.

Lemma try_send_length cap ch x :
  length ch <= cap -> length (try_send cap ch x) <= cap.
Proof.
  intros. unfold try_send. case_bool_decide; [rewrite length_app; simpl; lia | done].
Qed.

(** ** [sort.SliceStable]

    The documented contract of the standard library's stable sort for a
    comparison [less]: insertion in front of the first element that is not
    strictly smaller. *)
Variable less : A -> A -> bool.

Fixpoint insert_stable (x : A) (l : list A) : list A :=
  match l with
  | [] => [x]
  | y :: l' => if less y x then y :: insert_stable x l' else x :: y :: l'
  end.

Fixpoint stable_sort (l : list A) : list A :=
  match l with
  | [] => []
  | x :: l' => insert_stable x (stable_sort l')
  end.

Lemma insert_stable_perm x l : insert_stable x l ≡ₚ x :: l.
Proof.
  induction l as [|y l IH]; simpl; [done|].
  destruct (less y x); [|done]. rewrite IH. apply perm_swap.
Qed.

Lemma stable_sort_perm l : stable_sort l ≡ₚ l.
Proof. induction l as [|x l IH]; simpl; [done|]. by rewrite insert_stable_perm, IH. Qed.

(** [less] orders by a key: [le x y] is "y is not strictly before x". *)
Definition not_after (x y : A) : Prop := less y x = false.

Lemma insert_stable_sorted x l :
  (forall a b, less a b = true -> less b a = false) ->
  Sorted not_after l -> Sorted not_after (insert_stable x l).
Proof.
  intros Hasym Hs. induction l as [|y l IH]; simpl; [by constructor; constructor|].
  destruct (less y x) eqn:E; [|by constructor; [|constructor]].
  inversion Hs as [|? ? Hs' Hhd]; subst. constructor; [auto|].
  destruct l as [|z l]; simpl; [constructor; unfold not_after in *; auto|].
  inversion Hhd; subst. unfold not_after in *.
  destruct (less z x) eqn:Ez; constructor; auto.
Qed.

Lemma stable_sort_sorted l :
  (forall a b, less a b = true -> less b a = false) -> Sorted not_after (stable_sort l).
Proof.
  intros Hasym. induction l as [|x l IH]; simpl; [constructor|].
  by apply insert_stable_sorted.
Qed.

(** Stability: if the input is already in order it is left alone. *)
Lemma stable_sort_id l : Sorted not_after l -> stable_sort l = l.
Proof.
  induction 1 as [|x l Hs IH Hhd]; simpl; [done|]. rewrite IH.
  destruct l as [|y l]; simpl; [done|]. inversion Hhd; subst.
  unfold not_after in *. by destruct (less y x).
Qed.
End lists.

Lemma StronglySorted_weaken {A} (R R' : A -> A -> Prop) l :
  (forall x y, R x y -> R' x y) -> StronglySorted R l -> StronglySorted R' l.
Proof.
  intros HR. induction 1 as [|x l _ IH Hx]; constructor; [done|].
  eapply Forall_impl; [exact Hx|]. auto.
Qed.

(** ** Maps: iteration order

    Go randomises the order in which [range] visits a map.  A loop over a map
    is modelled as a loop over a list supplied by the environment; the only
    thing known of that list is [is_iteration]. *)
Definition values {A} (m : gmap string A) : list A := (map_to_list m).*2.
Definition is_iteration {A} (m : gmap string A) (l : list A) : Prop := l ≡ₚ values m.

Section values.
Context {A : Type}.
Implicit Types (m : gmap string A) (x y : A).

Lemma values_insert_new m k x : m !! k = None -> values (<[k := x]> m) ≡ₚ x :: values m.
Proof. intros H. unfold values. by rewrite map_to_list_insert. Qed.

Lemma values_delete m k x : m !! k = Some x -> values m ≡ₚ x :: values (delete k m).
Proof.
  intros H. rewrite <- (insert_delete_id m k x H) at 1.
  apply values_insert_new, lookup_delete_eq.
Qed.

Lemma values_insert m k x : values (<[k := x]> m) ≡ₚ x :: values (delete k m).
Proof. rewrite <- insert_delete_eq. apply values_insert_new, lookup_delete_eq. Qed.

Lemma elem_of_values m x : x ∈ values m <-> exists k, m !! k = Some x.
Proof.
  unfold values. rewrite list_elem_of_fmap. split.
  - intros ([k y] & -> & Hy). exists k. by apply elem_of_map_to_list.
  - intros [k Hk]. exists (k, x). split; [done|]. by apply elem_of_map_to_list.
Qed.

Lemma values_Forall m (P : A -> Prop) : Forall P (values m) <-> map_Forall (fun _ x => P x) m.
Proof.
  rewrite Forall_forall. split.
  - intros H k x Hk. apply H, elem_of_values. eauto.
  - intros H x [k Hk]%elem_of_values. eauto.
Qed.

Lemma length_values m : length (values m) = size m.
Proof. unfold values. by rewrite length_fmap, length_map_to_list. Qed.
End values.

Section iteration.
Context {A : Type}.
Implicit Types (m : gmap string A) (l : list A).

Lemma is_iteration_elem m l x :
  is_iteration m l -> x ∈ l <-> exists k, m !! k = Some x.
Proof. unfold is_iteration. intros ->. apply elem_of_values. Qed.

Lemma is_iteration_forall m l (P : A -> Prop) :
  is_iteration m l -> Forall P l <-> map_Forall (fun _ x => P x) m.
Proof. unfold is_iteration. intros ->. apply values_Forall. Qed.

Lemma is_iteration_self m : is_iteration m (values m).
Proof. unfold is_iteration. reflexivity. Qed.

Lemma is_iteration_length m l : is_iteration m l -> length l = size m.
Proof. unfold is_iteration. intros ->. apply length_values. Qed.
End iteration.

Create HintDb aviron.
#[export] Hint Resolve wrap64_ok is_iteration_self : aviron.

(** [simp] reduces record projections of updates, and closes what is immediate. *)
Ltac simp := repeat (progress (simpl in *; simplify_eq)).

(** ** [omap] *)

Lemma omap_ext_in {A B} (f g : A -> option B) (l : list A) :
  (forall x, x ∈ l -> f x = g x) -> omap f l = omap g l.
Proof.
  intros Heq. apply list_omap_ext. apply Forall2_same_length_lookup_2; [done|].
  intros i x y Hx Hy. simplify_eq. apply Heq. by eapply list_elem_of_lookup_2.
Qed.

Lemma omap_fmap_comp {A B C} (f : B -> option C) (g : A -> B) (l : list A) : omap f (g <$> l) = omap (fun x => f (g x)) l.
Proof. induction l as [|x l IH]; [done|]. cbn. by rewrite <- IH. Qed.

Lemma omap_omap {A B C} (f : B -> option C) (g : A -> option B) (l : list A) :
  omap f (omap g l) = omap (fun x => g x ≫= f) l.
Proof. induction l as [|x l IH]; [done|]. cbn. destruct (g x); cbn; by rewrite <- IH. Qed.

Lemma fmap_omap {A B C} (f : B -> C) (g : A -> option B) (l : list A) :
  f <$> omap g l = omap (fun x => f <$> g x) l.
Proof. induction l as [|x l IH]; [done|]. cbn. destruct (g x); cbn; by rewrite <- IH. Qed.

(** Dropping results only shortens. *)
Lemma sublist_omap {A B} (f : A -> option B) (l l' : list A) : sublist l l' -> sublist (omap f l) (omap f l').
Proof.
  induction 1; cbn; [done| |]; destruct (f x); [by constructor|done|by constructor|done].
Qed.

Lemma sublist_omap_le {A B} (f g : A -> option B) (l : list A) :
  (forall x y, f x = Some y -> g x = Some y) -> sublist (omap f l) (omap g l).
Proof.
  intros Hfg. induction l as [|x l IH]; [done|]. cbn. destruct (f x) as [y|] eqn:Hf.
  - rewrite (Hfg x y Hf). by constructor.
  - destruct (g x); [by constructor|done].
Qed.
