(* ===== verification/GoNum.v ===== *)
(** * Go floating-point numbers

    [float64] is IEEE-754 binary64, represented by the Standard Library's
    executable specification of floats.  What the program does with floats is
    carry them, convert them from and to [int], and print and parse them as
    JSON numbers. *)
From Stdlib Require Import ZArith Lia Floats.SpecFloat.
From stdpp Require Import base.
From S2P Require Import Prelude.
Local Open Scope Z_scope.

Abbreviation float64 := spec_float.

#[export] Instance float64_eq_dec : EqDecision float64.
Proof. solve_decision. Defined.

Definition float64_prec : Z := 53.
Definition float64_emax : Z := 1024.
Definition float64_0 : float64 := S754_zero false.

(** NaN and the infinities are the values [json.Marshal] refuses. *)
Definition float64_finite (f : float64) : bool :=
  match f with S754_zero _ | S754_finite _ _ _ => true | _ => false end.

(** [float64(z)]: the nearest binary64, ties to even. *)
Definition float64_of_int (z : Z) : float64 :=
  binary_normalize float64_prec float64_emax z 0 false.

(** The integral part, rounded toward zero; [None] for NaN and infinities. *)
Definition float64_trunc (f : float64) : option Z :=
  match f with
  | S754_zero _ => Some 0
  | S754_finite s m e =>
      let a := match e with
               | Z0 => Zpos m
               | Zpos p => Zpos m * 2 ^ Zpos p
               | Zneg p => Zpos m / 2 ^ Zpos p
               end in
      Some (if s then - a else a)
  | _ => None
  end.

(** [int(f)]: Go leaves the result implementation-dependent when the truncated
    value does not fit, so that case is the argument [oob]. *)
Definition int_of_float64 (oob : float64 -> Z) (f : float64) : Z :=
  match float64_trunc f with
  | Some z => if int64_okb z then z else oob f
  | None => oob f
  end.

(** ** Integers below 2^53 survive the conversion *)

Lemma digits2_shift_pos d m : digits2_pos (shift_pos d m) = (digits2_pos m + d)%positive.
Proof.
  unfold shift_pos. induction d using Pos.peano_ind; simpl; [lia|].
  rewrite Pos.iter_succ. simpl. rewrite IHd. lia.
Qed.

Lemma digits2_pos_bound m n : Zpos m < 2 ^ Zpos n -> (digits2_pos m <= n)%positive.
Proof.
  revert n. induction m as [m IH|m IH|]; intros n Hn; simpl; [| |lia].
  all: destruct (decide (n = 1%positive)) as [->|Hne]; [cbn in Hn; lia|].
  all: assert (Zpos n = Zpos (Pos.pred n) + 1) as Heq by lia.
  all: rewrite Heq, Z.pow_add_r in Hn by lia.
  all: assert (digits2_pos m <= Pos.pred n)%positive by (apply IH; lia); lia.
Qed.

Lemma float64_of_int_pos s m :
  Zpos m < 2 ^ 53 ->
  exists m' e, binary_round float64_prec float64_emax s m 0 = S754_finite s m' e /\
    ((e = 0 /\ m' = m) \/ exists d, e = Zneg d /\ m' = shift_pos d m).
Proof.
  intros Hm. pose proof (digits2_pos_bound m 53 Hm) as Hd.
  unfold binary_round, shl_align, float64_prec, float64_emax.
  assert (fexp 53 1024 (Zpos (digits2_pos m) + 0) = Zpos (digits2_pos m) - 53) as Hf.
  { unfold fexp, emin. lia. }
  rewrite Hf. destruct (Zpos (digits2_pos m) - 53 - 0) as [|p|d] eqn:E; [|lia|].
  - exists m, 0. split; [|by left]. unfold binary_round_aux, shr_fexp.
    assert (fexp 53 1024 (Zdigits2 (Zpos m) + 0) - 0 = 0) as ->.
    { cbn [Zdigits2]. unfold fexp, emin. lia. }
    cbn [shr shr_record_of_loc shr_m loc_of_shr_record round_nearest_even].
    assert (fexp 53 1024 (Zdigits2 (Zpos m) + 0) - 0 = 0) as ->.
    { cbn [Zdigits2]. unfold fexp, emin. lia. }
    reflexivity.
  - exists (shift_pos d m), (Zneg d). split; [|right; eauto].
    assert (Zpos (digits2_pos m) - 53 = Zneg d) as -> by lia.
    unfold binary_round_aux, shr_fexp.
    assert (fexp 53 1024 (Zdigits2 (Zpos (shift_pos d m)) + Zneg d) - Zneg d = 0) as Hz.
    { cbn [Zdigits2]. rewrite digits2_shift_pos. unfold fexp, emin. lia. }
    change (Pos.iter xO m d) with (shift_pos d m). rewrite Hz.
    cbn [shr shr_record_of_loc shr_m loc_of_shr_record round_nearest_even].
    rewrite Hz. reflexivity.
Qed.

Lemma shift_pos_div d m : Zpos (shift_pos d m) / 2 ^ Zpos d = Zpos m.
Proof.
  rewrite Zpower.shift_pos_correct. change (Z.pow_pos 2 d) with (2 ^ Zpos d).
  rewrite Z.mul_comm. apply Z.div_mul. lia.
Qed.

(** Every integer of magnitude below 2^53 is represented exactly: converting it
    to [float64] and back gives it again. *)
Lemma int_of_float64_of_int oob z :
  - 2 ^ 53 < z < 2 ^ 53 -> int_of_float64 oob (float64_of_int z) = z.
Proof.
  intros Hz. unfold float64_of_int, binary_normalize.
  assert (forall s m, Zpos m < 2 ^ 53 ->
    int_of_float64 oob (binary_round float64_prec float64_emax s m 0)
    = if s then Zneg m else Zpos m) as Hp.
  { intros s m Hm.
    destruct (float64_of_int_pos s m Hm) as (m' & e & -> & [[-> ->]|(d & -> & ->)]);
      unfold int_of_float64, float64_trunc; rewrite ?shift_pos_div;
      (assert (int64_okb (if s then - Zpos m else Zpos m) = true) as ->;
        [apply int64_okb_spec; unfold int64_ok, min_int64, max_int64; destruct s; lia
        |by destruct s]). }
  destruct z as [|p|p]; [done|by rewrite Hp by lia|by rewrite Hp by lia].
Qed.

(** ** Every [int] converts to a finite float *)

Lemma shr_1_bound mrs : 0 <= shr_m mrs -> 0 <= shr_m (shr_1 mrs) <= shr_m mrs.
Proof. destruct mrs as [[|[p|p|]|p] r s]; simpl; lia. Qed.

Lemma shr_iter_bound n mrs :
  0 <= shr_m mrs -> 0 <= shr_m (SpecFloat.iter_pos shr_1 n mrs) <= shr_m mrs.
Proof.
  revert mrs. induction n as [n IH|n IH|]; intros mrs Hm; simpl.
  - pose proof (shr_1_bound mrs Hm) as H1. pose proof (IH (shr_1 mrs) ltac:(lia)) as H2.
    pose proof (IH (SpecFloat.iter_pos shr_1 n (shr_1 mrs)) ltac:(lia)). lia.
  - pose proof (IH mrs Hm) as H1. pose proof (IH (SpecFloat.iter_pos shr_1 n mrs) ltac:(lia)). lia.
  - by apply shr_1_bound.
Qed.

Lemma Zdigits2_bound m n : 0 <= m < 2 ^ Zpos n -> 0 <= Zdigits2 m <= Zpos n.
Proof.
  intros Hm. destruct m as [|p|p]; simpl; [lia| |lia].
  pose proof (digits2_pos_bound p n ltac:(lia)). lia.
Qed.

Lemma shr_fexp_bound m e l n mrs e' :
  0 <= m < 2 ^ Zpos n -> 0 <= e -> shr_fexp 53 1024 m e l = (mrs, e') ->
  0 <= shr_m mrs <= m /\ 0 <= e' <= Z.max e (Zpos n + e - 53).
Proof.
  intros Hm He. unfold shr_fexp, shr. pose proof (Zdigits2_bound m n Hm) as Hd.
  assert (shr_m (shr_record_of_loc m l) = m) as Hsm.
  { destruct l as [|[]]; reflexivity. }
  assert (fexp 53 1024 (Zdigits2 m + e) = Z.max (Zdigits2 m + e - 53) (-1074)) as Hf by done.
  destruct (fexp 53 1024 (Zdigits2 m + e) - e) as [|p|p] eqn:E; intros H; simplify_eq.
  - rewrite Hsm. lia.
  - pose proof (shr_iter_bound p (shr_record_of_loc m l)) as Hi. rewrite Hsm in Hi.
    pose proof (Hi ltac:(lia)). lia.
  - rewrite Hsm. lia.
Qed.

Lemma round_nearest_even_bound m l : 0 <= m -> 0 <= round_nearest_even m l <= m + 1.
Proof. intros Hm. destruct l as [|[]]; simpl; [lia|destruct (Z.even m); lia|lia|lia]. Qed.

Lemma binary_round_aux_finite s m e l :
  0 <= m < 2 ^ 64 -> 0 <= e <= 100 ->
  float64_finite (binary_round_aux float64_prec float64_emax s m e l) = true.
Proof.
  intros Hm He. unfold binary_round_aux, float64_prec, float64_emax.
  destruct (shr_fexp 53 1024 m e l) as [mrs1 e1] eqn:E1.
  apply (shr_fexp_bound _ _ _ 64) in E1 as [Hm1 He1]; [|lia|lia].
  pose proof (round_nearest_even_bound (shr_m mrs1) (loc_of_shr_record mrs1) ltac:(lia)) as Hr.
  destruct (shr_fexp 53 1024 _ e1 loc_Exact) as [mrs2 e2] eqn:E2.
  apply (shr_fexp_bound _ _ _ 65) in E2 as [Hm2 He2]; [|lia|lia].
  destruct (shr_m mrs2) as [|p|p]; [done| |lia].
  destruct (Z.leb_spec e2 (1024 - 53)); [done|lia].
Qed.

Lemma digits2_pos_upper m : Zpos m < 2 ^ Zpos (digits2_pos m).
Proof.
  induction m as [m IH|m IH|]; simpl digits2_pos; [| |done].
  all: rewrite Pos2Z.inj_succ, Z.pow_succ_r by lia; lia.
Qed.

Lemma binary_round_finite s m :
  Zpos m < 2 ^ 64 -> float64_finite (binary_round float64_prec float64_emax s m 0) = true.
Proof.
  intros Hm. destruct (Z.ltb_spec (Zpos m) (2 ^ 53)).
  { by destruct (float64_of_int_pos s m) as (m' & e & -> & _). }
  unfold binary_round, shl_align. 
  assert (0 <= fexp float64_prec float64_emax (Zpos (digits2_pos m) + 0)) as Hf.
  { unfold fexp, emin, float64_prec, float64_emax.
    enough (53 <= Zpos (digits2_pos m)) by lia.
    destruct (decide (53 <= Zpos (digits2_pos m))); [done|].
    exfalso. pose proof (digits2_pos_upper m).
    assert (2 ^ Zpos (digits2_pos m) <= 2 ^ 52) by (apply Z.pow_le_mono_r; lia). lia. }
  destruct (fexp _ _ _ - 0) eqn:E; [|by apply binary_round_aux_finite|lia].
  by apply binary_round_aux_finite.
Qed.

Lemma float64_of_int64_finite z : int64_ok z -> float64_finite (float64_of_int z) = true.
Proof.
  unfold int64_ok, min_int64, max_int64. intros Hz.
  destruct z; [done|apply binary_round_finite; lia|apply binary_round_finite; lia].
Qed.
