(* ===== verification/GoStrings.v ===== *)
(** * The functions of Go's [strings] the program uses

    Go strings are byte strings; so are the strings here.  [TrimSpace] removes
    Unicode white space, which is spelled out in its UTF-8 encodings. *)
From Stdlib Require Import ZArith Ascii Lia.
From stdpp Require Import base list strings.
From S2P Require Import Prelude.
Local Open Scope string_scope.
Local Open Scope list_scope.

Definition bytes (s : string) : list Z :=
  (fun c => Z.of_N (N_of_ascii c)) <$> String.list_ascii_of_string s.
Definition of_bytes (l : list Z) : string :=
  String.string_of_list_ascii ((fun z => ascii_of_N (Z.to_N z)) <$> l).

(** [len(s)] *)
Definition len (s : string) : Z := Z.of_nat (String.length s).

(** [strings.HasPrefix] and [strings.TrimPrefix] *)
Fixpoint has_prefix (s p : string) {struct p} : bool :=
  match p, s with
  | EmptyString, _ => true
  | String c p', String d s' => Ascii.eqb c d && has_prefix s' p'
  | String _ _, EmptyString => false
  end.

Fixpoint drop_str (n : nat) (s : string) : string :=
  match n, s with
  | O, _ => s
  | S n', String _ s' => drop_str n' s'
  | S _, EmptyString => EmptyString
  end.

Definition trim_prefix (s p : string) : string :=
  if has_prefix s p then drop_str (String.length p) s else s.

Fixpoint rev_str (s acc : string) : string :=
  match s with EmptyString => acc | String c s' => rev_str s' (String c acc) end.

Definition has_suffix (s p : string) : bool := has_prefix (rev_str s "") (rev_str p "").

(** [strings.TrimSuffix] *)
Definition trim_suffix (s p : string) : string :=
  if has_suffix s p then String.substring 0 (String.length s - String.length p) s else s.

(** ** White space

    [space_at l] is the number of bytes of the white-space character [l] starts
    with, 0 if there is none: the ASCII ones, U+0085, U+00A0, U+1680, U+2000 to
    U+200A, U+2028, U+2029, U+202F, U+205F and U+3000. *)
Definition space1 (a : Z) : bool := ((9 <=? a) && (a <=? 13) || (a =? 32))%Z.
Definition space2 (a b : Z) : bool := ((a =? 194) && ((b =? 133) || (b =? 160)))%Z.
Definition space3 (a b c : Z) : bool :=
  ((a =? 225) && (b =? 154) && (c =? 128) ||
   (a =? 226) && (b =? 128) &&
     ((128 <=? c) && (c <=? 138) || (c =? 168) || (c =? 169) || (c =? 175)) ||
   (a =? 226) && (b =? 129) && (c =? 159) ||
   (a =? 227) && (b =? 128) && (c =? 128))%Z.

Definition space_at (l : list Z) : nat :=
  match l with
  | a :: l1 =>
      if space1 a then 1 else
      match l1 with
      | b :: l2 =>
          if space2 a b then 2 else
          match l2 with c :: _ => if space3 a b c then 3 else 0 | [] => 0 end
      | [] => 0
      end
  | [] => 0
  end.

(** The same for the end of a string, on the reversed bytes. *)
Definition space_before (l : list Z) : nat :=
  match l with
  | c :: l1 =>
      if space1 c then 1 else
      match l1 with
      | b :: l2 =>
          if space2 b c then 2 else
          match l2 with a :: _ => if space3 a b c then 3 else 0 | [] => 0 end
      | [] => 0
      end
  | [] => 0
  end.

Fixpoint trim_with (f : list Z -> nat) (fuel : nat) (l : list Z) : list Z :=
  match fuel with
  | O => l
  | S fuel' => match f l with O => l | n => trim_with f fuel' (drop n l) end
  end.

(** [strings.TrimSpace] *)
Definition trim_space (s : string) : string :=
  let l := bytes s in
  let l := trim_with space_at (length l) l in
  of_bytes (reverse (trim_with space_before (length l) (reverse l))).

(** ** [strings.Split] for a one-byte separator *)
Fixpoint split_on (c : ascii) (s : string) : list string :=
  match s with
  | EmptyString => [EmptyString]
  | String d s' =>
      if Ascii.eqb c d then EmptyString :: split_on c s'
      else match split_on c s' with
           | w :: ws => String d w :: ws
           | [] => [String d EmptyString]
           end
  end.

(** [strings.Join] *)
Fixpoint join (sep : string) (l : list string) : string :=
  match l with
  | [] => ""
  | [w] => w
  | w :: l' => w +:+ sep +:+ join sep l'
  end.

(** ** Facts *)

Lemma length_str_app a b : String.length (a +:+ b) = (String.length a + String.length b)%nat.
Proof. induction a as [|x a IH]; simpl; [done|]. by rewrite IH. Qed.

Lemma str_app_inj a b c : a +:+ b = a +:+ c -> b = c.
Proof. induction a as [|x a IH]; simpl; [done|]. intros Heq. injection Heq. exact IH. Qed.

Lemma str_app_inj_tail a b c : a +:+ c = b +:+ c -> a = b.
Proof.
  revert b. induction a as [|x a IH]; intros [|y b] Heq; [done| | |].
  - apply (f_equal String.length) in Heq. rewrite !length_str_app in Heq. cbn [String.length] in Heq. lia.
  - apply (f_equal String.length) in Heq. rewrite !length_str_app in Heq. cbn [String.length] in Heq. lia.
  - simpl in Heq. injection Heq as -> Heq. f_equal. by apply IH.
Qed.

Lemma has_prefix_app p s : has_prefix (p +:+ s) p = true.
Proof. induction p as [|c p IH]; simpl; [done|]. by rewrite Ascii.eqb_refl. Qed.

Lemma drop_str_app p s : drop_str (String.length p) (p +:+ s) = s.
Proof. induction p; simpl; auto. Qed.

Lemma trim_prefix_app p s : trim_prefix (p +:+ s) p = s.
Proof. unfold trim_prefix. by rewrite has_prefix_app, drop_str_app. Qed.

Lemma has_prefix_spec s p : has_prefix s p = true <-> exists s', s = p +:+ s'.
Proof.
  split; [|intros [s' ->]; apply has_prefix_app].
  revert s. induction p as [|c p IH]; intros s H; simpl in *; [by exists s|].
  destruct s as [|d s]; [done|]. apply andb_true_iff in H as [->%Ascii.eqb_eq H].
  destruct (IH _ H) as [s' ->]. by exists s'.
Qed.

Lemma trim_with_fix f fuel l :
  length l <= fuel -> (forall l, f l <= length l) -> f (trim_with f fuel l) = 0 \/ trim_with f fuel l = [].
Proof.
  intros Hl Hf. revert l Hl. induction fuel as [|fuel IH]; intros l Hl; simpl.
  { right. destruct l; [done|simpl in Hl; lia]. }
  destruct (f l) as [|n] eqn:E; [by left|]. apply IH. rewrite length_drop.
  specialize (Hf l). lia.
Qed.

Lemma split_on_app c w s :
  Forall (fun d => Ascii.eqb d c = false) (String.list_ascii_of_string w) ->
  split_on c (w +:+ String c s) = w :: split_on c s.
Proof.
  induction w as [|d w IH]; intros Hw; simpl.
  - by rewrite Ascii.eqb_refl.
  - inversion Hw as [|? ? Hd Hw']; subst. by rewrite (IH Hw'), Ascii.eqb_sym, Hd.
Qed.

Lemma split_on_last c w :
  Forall (fun d => Ascii.eqb d c = false) (String.list_ascii_of_string w) -> split_on c w = [w].
Proof.
  induction w as [|d w IH]; intros Hw; simpl; [done|].
  inversion Hw as [|? ? Hd Hw']; subst. rewrite (IH Hw'), Ascii.eqb_sym, Hd. done.
Qed.

Lemma split_on_cons c s w l : split_on c s = w :: l ->
  Forall (fun d => Ascii.eqb d c = false) (String.list_ascii_of_string w) /\
  ((l = [] /\ s = w) \/ exists tail, s = w +:+ String c tail /\ split_on c tail = l).
Proof.
  revert w. induction s as [|d s IH]; intros w Hs; simpl in Hs.
  - injection Hs as <- <-. split; [constructor|by left].
  - destruct (Ascii.eqb_spec c d) as [->|Hc].
    + injection Hs as <- <-. split; [constructor|right]. by exists s.
    + destruct (split_on c s) as [|w' l'] eqn:E.
      * injection Hs as <- <-. exfalso. clear -E. destruct s; simpl in E; [done|].
        destruct (Ascii.eqb _ _); [done|]. by destruct (split_on c s).
      * injection Hs as <- <-. destruct (IH w' eq_refl) as [Hw [[-> ->]|(tail & -> & Ht)]].
        -- split; [constructor; [by apply Ascii.eqb_neq|done]|by left].
        -- split; [constructor; [by apply Ascii.eqb_neq|done]|right]. by exists tail.
Qed.

Lemma space_at_le l : space_at l <= length l.
Proof.
  destruct l as [|a [|b [|c l]]]; simpl; repeat case_match; simpl; lia.
Qed.

Example trim_space_1 : trim_space "  a b 	" = "a b".
Proof. reflexivity. Qed.
Example trim_space_2 : trim_space (of_bytes [32; 227; 128; 128; 97; 194; 160]%Z) = "a".
Proof. reflexivity. Qed.
Example split_1 : split_on "/" "/a//b" = [""; "a"; ""; "b"].
Proof. reflexivity. Qed.
