(* ===== verification/Json.v ===== *)
(** * JSON documents as [encoding/json] reads and writes them

    A frame on a wire is modelled by the JSON document it carries: the document
    tree below, with object members in textual order.  This file gives the part
    of [encoding/json] the program relies on: how a document is stored into a
    struct ([unmarshal_struct]), how numbers are read into [int] and [float64]
    fields, and which values [json.Marshal] refuses. *)
From Stdlib Require Import ZArith Lia Ascii Floats.SpecFloat.
From stdpp Require Import base list strings.
From S2P Require Import Prelude GoNum.
Local Open Scope Z_scope.

(** A number literal: sign, digits and, when it has a fraction or an exponent,
    the power of ten; [NumFloat f] is the literal [strconv] prints for [f]. *)
Inductive number :=
  | NumLit (neg : bool) (digits : N) (exp : option Z)
  | NumFloat (f : float64).

Inductive json :=
  | JNull
  | JBool (b : bool)
  | JNum (n : number)
  | JStr (s : string)
  | JArr (l : list json)
  | JObj (members : list (string * json)).

#[export] Instance number_eq_dec : EqDecision number.
Proof. solve_decision. Defined.

#[export] Instance json_eq_dec : EqDecision json.
Proof.
  unfold EqDecision, Decision. fix go 1.
  intros [|b|n|s|l|ms] [|b'|n'|s'|l'|ms']; try (right; discriminate).
  - by left.
  - destruct (decide (b = b')) as [->|]; [by left|right; congruence].
  - destruct (decide (n = n')) as [->|]; [by left|right; congruence].
  - destruct (decide (s = s')) as [->|]; [by left|right; congruence].
  - destruct (List.list_eq_dec go l l') as [->|]; [by left|right; congruence].
  - destruct (List.list_eq_dec (fun x y : string * json =>
      match x, y with (k, j), (k', j') =>
        match decide (k = k'), go j j' with
        | left Hk, left Hj => left (f_equal2 pair Hk Hj)
        | right Hk, _ => right (fun H : (k, j) = (k', j') => Hk (f_equal fst H))
        | _, right Hj => right (fun H : (k, j) = (k', j') => Hj (f_equal snd H))
        end
      end) ms ms') as [->|]; [by left|right; congruence].
Defined.

Definition jint (z : Z) : json := JNum (NumLit (z <? 0) (Z.abs_N z) None).

(** ** Numbers *)

Definition decimal_to_float64 (neg : bool) (m : N) (e : Z) : float64 :=
  match m with
  | N0 => S754_zero neg
  | Npos p =>
      if 0 <=? e
      then binary_normalize float64_prec float64_emax
             (cond_Zopp neg (Zpos p * 10 ^ e)) 0 neg
      else let '(q, e', l) :=
             SFdiv_core_binary float64_prec float64_emax (Zpos p) 0 (10 ^ (- e)) 0 in
           binary_round_aux float64_prec float64_emax neg q e' l
  end.

(** [strconv.ParseInt(literal, 10, 64)].  A literal printed from a float is an
    integer literal when the float is integral (and small enough to be exact). *)
Definition number_int64 (n : number) : option Z :=
  match n with
  | NumLit neg m None =>
      let z := if neg then - Z.of_N m else Z.of_N m in
      if int64_okb z then Some z else None
  | NumLit _ _ (Some _) => None
  | NumFloat f =>
      match float64_trunc f with
      | Some z => if bool_decide (float64_of_int z = f) && (Z.abs z <? 2 ^ 53)
                  then Some z else None
      | None => None
      end
  end.

(** [strconv.ParseFloat(literal, 64)]: an overflow is an error. *)
Definition number_float64 (n : number) : option float64 :=
  let f := match n with
           | NumLit neg m e => decimal_to_float64 neg m (default 0 e)
           | NumFloat f => f
           end in
  if float64_finite f then Some f else None.

(** ** Marshalling leaves: NaN and infinities are an [UnsupportedValueError]. *)
Definition marshal_float64 (f : float64) : option json :=
  if float64_finite f then Some (JNum (NumFloat f)) else None.

Definition marshal_option {A} (enc : A -> json) (o : option A) : json :=
  match o with Some a => enc a | None => JNull end.

(** ** Struct decoding *)

(** Member names match a field exactly, or else after folding: ASCII letters
    lose their case, and U+017F and U+212A fold to [S] and [K]. *)
Definition fold_ascii (c : ascii) : ascii :=
  let n := nat_of_ascii c in
  if (Nat.leb 97 n && Nat.leb n 122)%bool then ascii_of_nat (n - 32) else c.

Fixpoint fold_name (s : string) : string :=
  match s with
  | EmptyString => EmptyString
  | String c1 s1 =>
      match s1 with
      | String c2 s2 =>
          if (nat_of_ascii c1 =? 197)%nat && (nat_of_ascii c2 =? 191)%nat
          then String "S" (fold_name s2)
          else match s2 with
               | String c3 s3 =>
                   if (nat_of_ascii c1 =? 226)%nat && (nat_of_ascii c2 =? 132)%nat
                      && (nat_of_ascii c3 =? 170)%nat
                   then String "K" (fold_name s3)
                   else String (fold_ascii c1) (fold_name s1)
               | _ => String (fold_ascii c1) (fold_name s1)
               end
      | _ => String (fold_ascii c1) (fold_name s1)
      end
  end.

Section decode.
Context {S : Type}.

(** A field: its JSON name and how a document is stored into the struct,
    [None] being an [UnmarshalTypeError]. *)
Definition field : Type := string * (json -> S -> option S).

Definition find_field (fs : list field) (key : string) : option field :=
  match List.find (fun f => String.eqb f.1 key) fs with
  | Some f => Some f
  | None => List.find (fun f => String.eqb (fold_name f.1) (fold_name key)) fs
  end.

(** Members are stored in order; unknown names are ignored; a type error makes
    the whole call fail. *)
Fixpoint decode_members (fs : list field) (ms : list (string * json)) (s : S) : option S :=
  match ms with
  | [] => Some s
  | (k, j) :: ms' =>
      match find_field fs k with
      | None => decode_members fs ms' s
      | Some f => s' ← f.2 j s; decode_members fs ms' s'
      end
  end.

Definition unmarshal_struct (fs : list field) (zero : S) (j : json) : option S :=
  match j with
  | JObj ms => decode_members fs ms zero
  | JNull => Some zero
  | _ => None
  end.

(** Storing leaves.  [null] leaves the field as it is. *)
Definition dec_string (put : string -> S -> S) (j : json) (s : S) : option S :=
  match j with JStr v => Some (put v s) | JNull => Some s | _ => None end.
Definition dec_int64 (put : Z -> S -> S) (j : json) (s : S) : option S :=
  match j with
  | JNum n => v ← number_int64 n; Some (put v s)
  | JNull => Some s | _ => None
  end.
Definition dec_float64 (put : float64 -> S -> S) (j : json) (s : S) : option S :=
  match j with
  | JNum n => v ← number_float64 n; Some (put v s)
  | JNull => Some s | _ => None
  end.
End decode.
Arguments field : clear implicits.
Arguments jint : simpl never.
Arguments dec_int64 {S} put j s : simpl never.
Arguments dec_float64 {S} put j s : simpl never.

(** ** Facts *)

Lemma find_field_elem {S} (fs : list (field S)) k f : find_field fs k = Some f -> f ∈ fs.
Proof.
  unfold find_field. intros Hf. apply list_elem_of_In.
  destruct (List.find (fun f => String.eqb f.1 k) fs) as [g|] eqn:E.
  - injection Hf as <-. by apply List.find_some in E as [? _].
  - by apply List.find_some in Hf as [? _].
Qed.

(** A property of the struct that every field's store preserves holds of what
    is decoded. *)
Lemma decode_members_inv {S} (P : S -> Prop) (fs : list (field S)) ms s s' :
  Forall (fun f => forall j s s', P s -> f.2 j s = Some s' -> P s') fs ->
  P s -> decode_members fs ms s = Some s' -> P s'.
Proof.
  intros Hfs. revert s. induction ms as [|[k j] ms IH]; intros s Hs Hd; simpl in Hd.
  { by simplify_eq. }
  destruct (find_field fs k) as [f|] eqn:Hf; [|eauto].
  apply bind_Some in Hd as (s1 & Hs1 & Hd). apply (IH s1); [|done].
  apply find_field_elem in Hf. rewrite Forall_forall in Hfs. eapply Hfs; eauto.
Qed.

Lemma number_int64_jint z : int64_ok z ->
  number_int64 (NumLit (z <? 0) (Z.abs_N z) None) = Some z.
Proof.
  intros Hz. unfold number_int64.
  assert ((if z <? 0 then - Z.of_N (Z.abs_N z) else Z.of_N (Z.abs_N z)) = z) as ->.
  { destruct (Z.ltb_spec z 0); lia. }
  apply int64_okb_spec in Hz. by rewrite Hz.
Qed.

Lemma dec_int64_jint {S} (put : Z -> S -> S) z s :
  int64_ok z -> dec_int64 put (jint z) s = Some (put z s).
Proof. intros Hz. unfold dec_int64, jint. by rewrite number_int64_jint. Qed.

Lemma number_int64_ok n z : number_int64 n = Some z -> int64_ok z.
Proof.
  unfold number_int64. destruct n as [neg m [e|]|f]; [done| |].
  - case_match; [|done]. intros; simplify_eq. by apply int64_okb_spec.
  - destruct (float64_trunc f) as [z'|]; [|done].
    case_match eqn:E; [|done]. intros; simplify_eq.
    apply andb_true_iff in E as [_ E]. apply Z.ltb_lt in E.
    unfold int64_ok, min_int64, max_int64. lia.
Qed.

Lemma number_float64_finite n f : number_float64 n = Some f -> float64_finite f = true.
Proof. unfold number_float64. case_match eqn:E; [|done]. intros; simplify_eq. done. Qed.

Lemma marshal_float64_Some f : float64_finite f = true -> marshal_float64 f = Some (JNum (NumFloat f)).
Proof. unfold marshal_float64. by intros ->. Qed.

(** What is printed for a finite float is read back as the same float. *)
Lemma dec_float64_marshal {S} (put : float64 -> S -> S) f j s :
  marshal_float64 f = Some j -> dec_float64 put j s = Some (put f s).
Proof.
  unfold marshal_float64. destruct (float64_finite f) eqn:Hf; [|done]. intros; simplify_eq.
  unfold dec_float64, number_float64. by rewrite Hf.
Qed.

Lemma dec_float64_float {S} (put : float64 -> S -> S) f s :
  float64_finite f = true -> dec_float64 put (JNum (NumFloat f)) s = Some (put f s).
Proof. intros Hf. by apply dec_float64_marshal, marshal_float64_Some. Qed.

Lemma number_float64_jint n : - 2 ^ 53 < n < 2 ^ 53 ->
  number_float64 (NumLit (n <? 0) (Z.abs_N n) None) = Some (float64_of_int n).
Proof.
  intros Hn. unfold number_float64, decimal_to_float64. simpl default.
  destruct (Z.abs_N n) as [|p] eqn:E.
  { assert (n = 0) as -> by lia. reflexivity. }
  change (0 <=? 0) with true. cbv iota.
  assert (cond_Zopp (n <? 0) (Zpos p * 10 ^ 0) = n) as ->.
  { unfold cond_Zopp. destruct (Z.ltb_spec n 0); lia. }
  assert (binary_normalize float64_prec float64_emax n 0 (n <? 0) = float64_of_int n) as ->.
  { unfold float64_of_int, binary_normalize. destruct n; [lia|done|done]. }
  rewrite float64_of_int64_finite; [done|]. unfold int64_ok, min_int64, max_int64. lia.
Qed.

(** A small integer literal read into a [float64] field. *)
Lemma dec_float64_jint {S} (put : float64 -> S -> S) n s :
  - 2 ^ 53 < n < 2 ^ 53 -> dec_float64 put (jint n) s = Some (put (float64_of_int n) s).
Proof. intros Hn. unfold dec_float64, jint. by rewrite number_float64_jint. Qed.

Example fold_name_ascii : fold_name "Race_Id" = "RACE_ID".
Proof. reflexivity. Qed.
Example decimal_half : number_float64 (NumLit false 5 (Some (-1))) = Some (S754_finite false 4503599627370496 (-53)).
Proof. vm_compute. reflexivity. Qed.
Example decimal_overflow : number_float64 (NumLit false 1 (Some 309)) = None.
Proof. vm_compute. reflexivity. Qed.

#[export] Hint Resolve number_int64_ok number_float64_finite : aviron.
