(* ===== verification/Events.v ===== *)
(** * Room events and room messages

    The closed set of inputs of a room actor ([internal/room/events.go] and the
    unexported events of [room.go] and [lifecycle.go]), the results it persists,
    and the documents it broadcasts. *)
From Stdlib Require Import ZArith Floats.SpecFloat.
From stdpp Require Import base list strings.
From S2P Require Import Prelude GoNum Json.
Local Open Scope Z_scope.

(** [RoomEvent].  The reply channel of an [evictionQuery] is named by a number. *)
Inductive RoomEvent :=
  | ParticipantJoined (UserID DisplayName : string)
  | TelemetryReceived (UserID : string) (Seq WordsCorrect : Z) (PaceWatt : float64)
  | ParticipantDisconnected (UserID : string)
  | ParticipantEvicted (UserID : string)
  | ParticipantLeft (UserID : string)
  | evictionQuery (UserID : string) (Reply : nat)
  | noShowTimeout
  | activated (PromptText : string)
  | pendingExpired.

#[export] Instance RoomEvent_eq_dec : EqDecision RoomEvent.
Proof. solve_decision. Defined.

(** [ParticipantResult]: one participant's final row. *)
Record ParticipantResult := mkResult {
  res_UserID : string;
  res_FinishRank : option Z;
  res_FinishTimeMs : option Z;
  res_AvgPaceWatt : float64;
  res_DisconnectedCount : Z
}.

#[export] Instance ParticipantResult_eq_dec : EqDecision ParticipantResult.
Proof. solve_decision. Defined.

(** [RaceResultJSON] and the conversion [finishRace] and the Kafka producer share. *)
Record RaceResultJSON := mkResultJSON {
  rr_UserID : string;
  rr_FinishRank : option Z;
  rr_FinishTimeMs : option Z;
  rr_AvgPaceWatt : float64
}.

Definition to_RaceResultJSON (res : ParticipantResult) : RaceResultJSON :=
  mkResultJSON (res_UserID res) (res_FinishRank res) (res_FinishTimeMs res) (res_AvgPaceWatt res).

Definition marshal_RaceResultJSON (r : RaceResultJSON) : option json :=
  pace ← marshal_float64 (rr_AvgPaceWatt r);
  Some (JObj [("user_id", JStr (rr_UserID r));
              ("finish_rank", marshal_option jint (rr_FinishRank r));
              ("finish_time_ms", marshal_option jint (rr_FinishTimeMs r));
              ("avg_pace_watt", pace)]).

(** [RaceFinishedMessage] *)
Definition RaceFinishedMessage (results : list RaceResultJSON) : option json :=
  rs ← mapM marshal_RaceResultJSON results;
  Some (JObj [("type", JStr "race_finished"); ("results", JArr rs)]).

(** [RaceStartedMessage] and [RaceExpiredMessage] *)
Definition RaceStartedMessage (promptText : string) : option json :=
  Some (JObj [("type", JStr "race_started"); ("prompt_text", JStr promptText)]).

Definition RaceExpiredMessage : option json :=
  Some (JObj [("type", JStr "race_expired")]).

(** [ParticipantStateJSON] and [RaceStateMessage]: [msg.Participants] starts nil
    and is only appended to, so it prints as [null] when nobody is there. *)
Record ParticipantStateJSON := mkStateJSON {
  sj_UserID : string;
  sj_DistanceM : float64;
  sj_Rank : Z
}.

Definition marshal_ParticipantStateJSON (p : ParticipantStateJSON) : option json :=
  d ← marshal_float64 (sj_DistanceM p);
  Some (JObj [("user_id", JStr (sj_UserID p)); ("distance_m", d); ("rank", jint (sj_Rank p))]).

Definition RaceStateMessage (tick : Z) (ps : list ParticipantStateJSON) : option json :=
  js ← mapM marshal_ParticipantStateJSON ps;
  Some (JObj [("type", JStr "race_state"); ("tick", jint tick);
              ("participants", match js with [] => JNull | _ => JArr js end)]).

(** The events that can be sent: they come from decoded frames, so their
    integers are in range and their floats finite. *)
Definition event_ok (ev : RoomEvent) : Prop :=
  match ev with
  | TelemetryReceived _ seq words pace =>
      int64_ok seq /\ int64_ok words /\ float64_finite pace = true
  | _ => True
  end.

(** ** When marshalling succeeds *)

Definition result_finite (r : ParticipantResult) : Prop :=
  float64_finite (res_AvgPaceWatt r) = true.

Lemma mapM_is_Some {A B} (f : A -> option B) l :
  Forall (fun x => is_Some (f x)) l -> exists l', mapM f l = Some l'.
Proof.
  induction 1 as [|x l [y Hy] _ [l' IH]]; [by exists []|].
  exists (y :: l'). cbn. by rewrite Hy; cbn; rewrite IH.
Qed.

Lemma marshal_results_Some rs :
  Forall result_finite rs ->
  exists js, mapM marshal_RaceResultJSON (to_RaceResultJSON <$> rs) = Some js.
Proof.
  intros H. apply mapM_is_Some, Forall_fmap. eapply Forall_impl; [exact H|].
  intros r Hr. unfold result_finite in Hr. simpl.
  unfold marshal_RaceResultJSON. simpl. rewrite (marshal_float64_Some _ Hr). by eexists.
Qed.

Lemma RaceFinishedMessage_Some rs :
  Forall result_finite rs ->
  exists body, RaceFinishedMessage (to_RaceResultJSON <$> rs) = Some body.
Proof.
  intros H. destruct (marshal_results_Some rs H) as [js Hjs].
  unfold RaceFinishedMessage. rewrite Hjs. eauto.
Qed.

Lemma RaceStateMessage_Some tick ps :
  Forall (fun p => float64_finite (sj_DistanceM p) = true) ps ->
  exists body, RaceStateMessage tick ps = Some body.
Proof.
  intros H. destruct (mapM_is_Some marshal_ParticipantStateJSON ps) as [js Hjs].
  { eapply Forall_impl; [exact H|]. intros p Hp. simpl.
    unfold marshal_ParticipantStateJSON. rewrite (marshal_float64_Some _ Hp). by eexists. }
  unfold RaceStateMessage. rewrite Hjs. eauto.
Qed.
