(* ===== verification/Protocol.v ===== *)
(** * The WebSocket wire protocol ([internal/ws/protocol.go])

    Decoding of client frames and their conversion to room events. *)
From Stdlib Require Import ZArith Floats.SpecFloat.
From stdpp Require Import base list strings.
From S2P Require Import Prelude GoNum Json Events.
Local Open Scope Z_scope.

(** [ClientMessage] *)
Record ClientMessage := mkClientMessage {
  Type_ : string;
  RaceID : string;
  Seq : Z;
  DistanceM : float64;
  PaceWatt : float64;
  TS : Z
}.

#[export] Instance eta_ClientMessage : Eta ClientMessage := fun m =>
  mkClientMessage (Type_ m) (RaceID m) (Seq m) (DistanceM m) (PaceWatt m) (TS m).

Definition ClientMessage_zero : ClientMessage := mkClientMessage "" "" 0 float64_0 float64_0 0.

Definition ClientMessage_fields : list (field ClientMessage) :=
  [("type", dec_string (fun v m => m <| Type_ := v |>));
   ("race_id", dec_string (fun v m => m <| RaceID := v |>));
   ("seq", dec_int64 (fun v m => m <| Seq := v |>));
   ("distance_m", dec_float64 (fun v m => m <| DistanceM := v |>));
   ("pace_watt", dec_float64 (fun v m => m <| PaceWatt := v |>));
   ("ts", dec_int64 (fun v m => m <| TS := v |>))].

(** The two errors of this package. *)
Inductive ws_error :=
  | DecodeError
  | UnknownType (t : string).

Definition known_type (t : string) : bool :=
  String.eqb t "join_race" || String.eqb t "telemetry" || String.eqb t "leave_race".

(** [DecodeClientMessage]: [None] stands for bytes that are not a JSON document. *)
Definition DecodeClientMessage (data : option json) : ClientMessage + ws_error :=
  match (j ← data; unmarshal_struct ClientMessage_fields ClientMessage_zero j) with
  | None => inr DecodeError
  | Some m => if known_type (Type_ m) then inl m else inr (UnknownType (Type_ m))
  end.

Section conversion.
(** The platform's choice for a float that does not fit an [int]. *)
Context (oob : float64 -> Z).

(** [ClientMessage.ToRoomEvent] *)
Definition ToRoomEvent (m : ClientMessage) (userID displayName : string) : RoomEvent + ws_error :=
  if String.eqb (Type_ m) "join_race" then inl (ParticipantJoined userID displayName)
  else if String.eqb (Type_ m) "telemetry" then
    inl (TelemetryReceived userID (Seq m) (int_of_float64 oob (DistanceM m)) (PaceWatt m))
  else if String.eqb (Type_ m) "leave_race" then inl (ParticipantLeft userID)
  else inr (UnknownType (Type_ m)).
End conversion.

(** What the decoder guarantees of every message it accepts: a known type,
    integers in range, finite floats. *)
Definition ClientMessage_ok (m : ClientMessage) : Prop :=
  int64_ok (Seq m) /\ int64_ok (TS m) /\
  float64_finite (DistanceM m) = true /\ float64_finite (PaceWatt m) = true.

Lemma DecodeClientMessage_ok data m :
  DecodeClientMessage data = inl m -> known_type (Type_ m) = true /\ ClientMessage_ok m.
Proof.
  unfold DecodeClientMessage. destruct (_ ≫= _) as [m'|] eqn:Hd; [|done].
  destruct (known_type (Type_ m')) eqn:Hk; [|done]. intros; simplify_eq. split; [done|].
  apply bind_Some in Hd as (j & _ & Hd). unfold unmarshal_struct in Hd.
  assert (ClientMessage_ok ClientMessage_zero) as H0 by done.
  destruct j; try done; [by simplify_eq|].
  eapply decode_members_inv; [|exact H0|exact Hd]. clear. unfold ClientMessage_fields.
  repeat first [apply Forall_nil_2 | apply Forall_cons_2]; intros j s s' Hs Hj;
    destruct Hs as (? & ? & ? & ?); unfold dec_string, dec_int64, dec_float64 in Hj;
    cbn in Hj; destruct j; simplify_eq; unfold ClientMessage_ok;
    try apply bind_Some in Hj as (v & Hv & ?); simplify_eq; simpl; split_and!; eauto with aviron.
Qed.

(** The user an event is about. *)
Definition event_user (ev : RoomEvent) : option string :=
  match ev with
  | ParticipantJoined u _ | TelemetryReceived u _ _ _ | ParticipantDisconnected u
  | ParticipantEvicted u | ParticipantLeft u | evictionQuery u _ => Some u
  | noShowTimeout | activated _ | pendingExpired => None
  end.

Lemma int_of_float64_ok oob f : (forall g, int64_ok (oob g)) -> int64_ok (int_of_float64 oob f).
Proof.
  intros Hoob. unfold int_of_float64. destruct (float64_trunc f) as [z|]; [|done].
  destruct (int64_okb z) eqn:Hz; [by apply int64_okb_spec|done].
Qed.

(** C40: what a connection can make a room do: every frame the decoder accepts
    converts to an event, without error; the event speaks for the connection's
    own user, whatever the frame says; it is one of join, telemetry and leave;
    and its numbers are in range, so no frame can put a NaN or an infinity into
    a room. *)
Theorem decoded_frame_event oob data m u d :
  (forall g, int64_ok (oob g)) -> DecodeClientMessage data = inl m ->
  exists ev, ToRoomEvent oob m u d = inl ev /\ event_user ev = Some u /\ event_ok ev /\
    match ev with ParticipantJoined _ _ | TelemetryReceived _ _ _ _ | ParticipantLeft _ => True
                | _ => False end.
Proof.
  intros Hoob (Hk & Hseq & _ & _ & Hpace)%DecodeClientMessage_ok.
  unfold known_type in Hk. unfold ToRoomEvent.
  destruct (String.eqb (Type_ m) "join_race"); [by eexists|].
  destruct (String.eqb (Type_ m) "telemetry"); simpl in Hk.
  - eexists. split_and!; [done|done| |done]. split_and!; [done|by apply int_of_float64_ok|done].
  - rewrite Hk. by eexists.
Qed.

Lemma decoded_frame_event_witness :
  exists ev, ToRoomEvent (fun _ => 0) (mkClientMessage "leave_race" "r9" 0 float64_0 float64_0 0)
    "u1" "Ann" = inl ev /\ event_user ev = Some "u1".
Proof.
  destruct (decoded_frame_event (fun _ => 0)
    (Some (JObj [("type", JStr "leave_race"); ("race_id", JStr "r9")]))
    (mkClientMessage "leave_race" "r9" 0 float64_0 float64_0 0) "u1" "Ann") as (ev & H1 & H2 & _);
    [by intros _|vm_compute; reflexivity|].
  exists ev. split; [exact H1|exact H2].
Defined.

(** The telemetry frame the browser sends for word [n]. *)
Definition telemetry_frame (seq n : Z) (pace : float64) : json :=
  JObj [("type", JStr "telemetry"); ("seq", jint seq); ("distance_m", jint n);
        ("pace_watt", JNum (NumFloat pace))].

(** No word is lost on the wire: the telemetry frame of a client reaches the
    room as exactly the telemetry it stands for, for every sequence number of 64
    bits and every word count below 2^53, although the count travels as a
    floating-point number. *)
Theorem telemetry_frame_event oob u d seq n pace :
  int64_ok seq -> - 2 ^ 53 < n < 2 ^ 53 -> float64_finite pace = true ->
  exists m, DecodeClientMessage (Some (telemetry_frame seq n pace)) = inl m /\
    ToRoomEvent oob m u d = inl (TelemetryReceived u seq n pace).
Proof.
  intros Hs Hn Hp. unfold DecodeClientMessage, telemetry_frame. simpl.
  rewrite dec_int64_jint by done. simpl. rewrite dec_float64_jint by done. simpl.
  rewrite dec_float64_float by done. simpl.
  eexists. split; [done|]. unfold ToRoomEvent. simpl. by rewrite int_of_float64_of_int.
Qed.

Lemma telemetry_frame_event_witness :
  exists m, DecodeClientMessage (Some (telemetry_frame 7 123456 float64_0)) = inl m /\
    ToRoomEvent (fun _ => 0) m "u1" "Ann" = inl (TelemetryReceived "u1" 7 123456 float64_0).
Proof.
  apply telemetry_frame_event; [unfold int64_ok, min_int64, max_int64; lia|lia|reflexivity].
Defined.
