(* ===== verification/Room.v ===== *)
(** * The room actor ([internal/room/room.go], [lifecycle.go])

    One race's single-writer actor: its state, the handling of every event, the
    broadcasts, and the calls it makes to its collaborators.

    A [World] is the actor together with what its methods act on outside the
    struct: the runtime's timers, the reply channels of queries, and the log of
    calls made to the finisher, leaver, canceller, publisher, eviction recorder
    and tick observer.  Everything a method reads from outside while it runs
    (clock, iteration order of maps, results of those calls) comes from an
    [Env], a fresh one for each event. *)
From Stdlib Require Import ZArith Floats.SpecFloat.
From stdpp Require Import base list gmap sets strings.
From S2P Require Import Prelude GoNum Json Events.
Local Open Scope Z_scope.

(** ** Durations, in nanoseconds *)
Definition gracePeriodDuration : Z := 30 * 1000000000.
Definition noShowTimeoutDuration : Z := 30 * 1000000000.
Definition PendingTimeoutDuration : Z := 5 * 60 * 1000000000.

(** ** State *)

Record ParticipantState := mkParticipant {
  ps_UserID : string;
  ps_DisplayName : string;
  ps_WordsCorrect : Z;
  ps_LastSeq : Z;
  ps_PaceWatt : float64;
  ps_ConnectedAt : Z;
  ps_DisconnectedAt : option Z;
  ps_DisconnectedCount : Z;
  ps_graceTimer : option nat;
  ps_FinishedAt : option Z;
  ps_FinishRank : option Z
}.

#[export] Instance eta_ParticipantState : Eta ParticipantState := fun p =>
  mkParticipant (ps_UserID p) (ps_DisplayName p) (ps_WordsCorrect p) (ps_LastSeq p)
    (ps_PaceWatt p) (ps_ConnectedAt p) (ps_DisconnectedAt p) (ps_DisconnectedCount p)
    (ps_graceTimer p) (ps_FinishedAt p) (ps_FinishRank p).

#[export] Instance ParticipantState_eq_dec : EqDecision ParticipantState.
Proof. solve_decision. Defined.

(** The struct's channels are buffers ([inbox], [broadcast]) and its context is
    the flag [done], set by [cancel]. *)
Record RoomActor := mkRoomActor {
  id : string;
  participants : gmap string ParticipantState;
  evicted : gset string;
  departedParticipants : gmap string ParticipantState;
  totalParticipants : Z;
  distanceMeters : Z;
  active : bool;
  tickCount : Z;
  inbox : list RoomEvent;
  broadcast : list json;
  done : bool;
  startedAt : Z;
  finished : bool;
  finishedCount : Z
}.

#[export] Instance eta_RoomActor : Eta RoomActor := fun r =>
  mkRoomActor (id r) (participants r) (evicted r) (departedParticipants r)
    (totalParticipants r) (distanceMeters r) (active r) (tickCount r) (inbox r)
    (broadcast r) (done r) (startedAt r) (finished r) (finishedCount r).

(** A pending [time.AfterFunc]: when it fires and the event its function sends. *)
Record Timer := mkTimer { tm_deadline : Z; tm_event : RoomEvent }.

(** Calls to collaborators, with the error each returned. *)
Inductive Call :=
  | CallPublishWorkoutSample (userID : string) (ts : Z) (wordsCorrect : Z) (paceWatt : float64)
      (err : option error)
  | CallFinishRace (distanceMeters : Z) (results : list ParticipantResult) (err : option error)
  | CallPublishRaceFinished (results : list ParticipantResult) (err : option error)
  | CallLeaveRace (userID : string) (err : option error)
  | CallCancelRace (err : option error)
  | CallMarkEvicted (userID : string) (err : option error)
  | CallObserveTick.

#[export] Instance Call_eq_dec : EqDecision Call.
Proof. solve_decision. Defined.

Record World := mkWorld {
  actor : RoomActor;
  timers : gmap nat Timer;
  nextTimer : nat;
  replies : gmap nat bool;
  calls : list Call
}.

#[export] Instance eta_World : Eta World := fun w =>
  mkWorld (actor w) (timers w) (nextTimer w) (replies w) (calls w).

(** ** What one event's handling reads from outside *)

(** The loops over participant maps, each with its own iteration order. *)
Inductive Loop := SnapshotLoop | FinishCheckLoop | LiveResultsLoop | DepartedResultsLoop.

Record Env := mkEnv {
  env_ts : Z;
  env_now : Z;
  env_iter : Loop -> gmap string ParticipantState -> list ParticipantState;
  err_PublishWorkoutSample : option error;
  err_FinishRace : option error;
  err_PublishRaceFinished : option error;
  err_LeaveRace : option error;
  err_CancelRace : option error;
  err_MarkEvicted : option error
}.

#[export] Instance eta_Env : Eta Env := fun e =>
  mkEnv (env_ts e) (env_now e) (env_iter e) (err_PublishWorkoutSample e) (err_FinishRace e)
    (err_PublishRaceFinished e) (err_LeaveRace e) (err_CancelRace e) (err_MarkEvicted e).

(** A possible environment: its loops visit each map exactly once per entry. *)
Definition env_ok (e : Env) : Prop := forall l m, is_iteration m (env_iter e l m).

(** An environment in which every call succeeds, at a given time. *)
Definition env_at (now : Z) : Env :=
  mkEnv now now (fun _ m => values m) None None None None None None.

Lemma env_at_ok now : env_ok (env_at now).
Proof. intros l m. apply is_iteration_self. Qed.

(** ** Channels, timers and calls *)

Definition inboxCapacity : nat := 64.
Definition broadcastBufferSize : nat := 16.

Definition with_actor (f : RoomActor -> RoomActor) (w : World) : World :=
  w <| actor := f (actor w) |>.

(** [select { case r.broadcast <- body: default: }] *)
Definition send_broadcast (body : json) (w : World) : World :=
  with_actor (fun r => r <| broadcast := try_send broadcastBufferSize (broadcast r) body |>) w.

(** [body, err := json.Marshal(m); if err != nil { return }] followed by the send *)
Definition broadcast_marshalled (m : option json) (w : World) : World :=
  match m with Some body => send_broadcast body w | None => w end.

Definition record_call (c : Call) (w : World) : World := w <| calls := calls w ++ [c] |>.

Definition cancel (w : World) : World := with_actor (fun r => r <| done := true |>) w.

Definition put_participant (u : string) (p : ParticipantState) (w : World) : World :=
  with_actor (fun r => r <| participants := <[u := p]> (participants r) |>) w.

Definition stop_timer (t : nat) (w : World) : World := w <| timers := delete t (timers w) |>.

Definition after_func (deadline : Z) (ev : RoomEvent) (w : World) : World :=
  w <| timers := <[nextTimer w := mkTimer deadline ev]> (timers w) |>
    <| nextTimer := S (nextTimer w) |>.

(** ** [NewRoomActor] *)
Definition NewRoomActor (now : Z) (raceID : string) (distance : Z) : World :=
  after_func (now + PendingTimeoutDuration) pendingExpired
    (after_func (now + noShowTimeoutDuration) noShowTimeout
      (mkWorld
        (mkRoomActor raceID ∅ ∅ ∅ 0 distance false 0 [] [] false now false 0)
        ∅ 0 ∅ [])).

(** ** Broadcasts *)

Definition more_words (a b : ParticipantState) : bool := ps_WordsCorrect b <? ps_WordsCorrect a.

Definition snapshot_ranked (e : Env) (r : RoomActor) : list ParticipantState :=
  stable_sort more_words (env_iter e SnapshotLoop (participants r)).

Definition snapshot_row (i : nat) (p : ParticipantState) : ParticipantStateJSON :=
  mkStateJSON (ps_UserID p) (float64_of_int (ps_WordsCorrect p)) (Z.of_nat i + 1).

Definition broadcastSnapshot (e : Env) (w : World) : World :=
  let ranked := snapshot_ranked e (actor w) in
  let w := with_actor (fun r => r <| tickCount := wrap64 (tickCount r + 1) |>) w in
  broadcast_marshalled (RaceStateMessage (tickCount (actor w)) (imap snapshot_row ranked)) w.

Definition broadcastRaceStarted (promptText : string) (w : World) : World :=
  broadcast_marshalled (RaceStartedMessage promptText) w.

Definition broadcastRaceExpired (w : World) : World :=
  broadcast_marshalled RaceExpiredMessage w.

(** ** The end of a race *)

(** [a.Sub(b)] saturates at the range of [Duration]; [Milliseconds] truncates. *)
Definition time_sub (a b : Z) : Z := Z.max min_int64 (Z.min max_int64 (a - b)).
Definition milliseconds (d : Z) : Z := Z.quot d 1000000.

Definition buildParticipantResult (r : RoomActor) (p : ParticipantState) : ParticipantResult :=
  mkResult (ps_UserID p)
    (match ps_FinishRank p with Some k => Some k | None => Some (totalParticipants r) end)
    (match ps_FinishedAt p with
     | Some t => Some (milliseconds (time_sub t (startedAt r)))
     | None => None
     end)
    (ps_PaceWatt p) (ps_DisconnectedCount p).

Definition finishRace (e : Env) (results : list ParticipantResult) (w : World) : World :=
  let w := broadcastSnapshot e w in
  let w := record_call (CallFinishRace (distanceMeters (actor w)) results (err_FinishRace e)) w in
  match err_FinishRace e with
  | Some _ => w
  | None =>
      let w := with_actor (fun r => r <| finished := true |>) w in
      let w := record_call (CallPublishRaceFinished results (err_PublishRaceFinished e)) w in
      let w := broadcast_marshalled (RaceFinishedMessage (to_RaceResultJSON <$> results)) w in
      cancel w
  end.

Definition expirePendingRoom (e : Env) (w : World) : World :=
  let w := record_call (CallCancelRace (err_CancelRace e)) w in
  match err_CancelRace e with
  | Some _ => w
  | None =>
      let w := broadcastRaceExpired w in
      let w := with_actor (fun r => r <| finished := true |>) w in
      cancel w
  end.

Definition still_racing (p : ParticipantState) : bool :=
  match ps_FinishRank p with None => true | Some _ => false end.

Definition race_results (e : Env) (r : RoomActor) : list ParticipantResult :=
  (buildParticipantResult r <$> env_iter e LiveResultsLoop (participants r)) ++
  (buildParticipantResult r <$> env_iter e DepartedResultsLoop (departedParticipants r)).

Definition checkRaceFinished (e : Env) (w : World) : World :=
  let r := actor w in
  if finished r then w
  else if existsb still_racing (env_iter e FinishCheckLoop (participants r)) then w
  else if negb (active r) then expirePendingRoom e w
  else finishRace e (race_results e r) w.

Definition departParticipant (e : Env) (userID : string) (p : ParticipantState) (w : World) : World :=
  let w := with_actor (fun r =>
    r <| participants := delete userID (participants r) |>
      <| departedParticipants := <[userID := p]> (departedParticipants r) |>
      <| evicted := {[userID]} ∪ evicted r |>) w in
  let w := record_call (CallMarkEvicted userID (err_MarkEvicted e)) w in
  checkRaceFinished e w.

(** ** [applyEvent] *)

Definition applyJoined (e : Env) (userID displayName : string) (w : World) : World :=
  let w :=
    match participants (actor w) !! userID with
    | Some existing =>
        match ps_DisconnectedAt existing with
        | Some _ =>
            let w := match ps_graceTimer existing with
                     | Some t => stop_timer t w
                     | None => w
                     end in
            put_participant userID
              (existing <| ps_graceTimer := None |> <| ps_DisconnectedAt := None |>) w
        | None => w
        end
    | None =>
        let w := put_participant userID
          (mkParticipant userID displayName 0 0 float64_0 (env_now e) None 0 None None None) w in
        with_actor (fun r => r <| totalParticipants := wrap64 (totalParticipants r + 1) |>) w
    end in
  broadcastSnapshot e w.

Definition applyTelemetry (e : Env) (userID : string) (seq words : Z) (pace : float64)
    (w : World) : World :=
  if negb (active (actor w)) then w else
  match participants (actor w) !! userID with
  | None => w
  | Some p =>
      if seq <=? ps_LastSeq p then w else
      let p := p <| ps_WordsCorrect := words |> <| ps_LastSeq := seq |> <| ps_PaceWatt := pace |> in
      let w := put_participant userID p w in
      let w := record_call
        (CallPublishWorkoutSample userID (env_ts e) words pace (err_PublishWorkoutSample e)) w in
      if still_racing p && (distanceMeters (actor w) <=? words) then
        let w := with_actor (fun r => r <| finishedCount := wrap64 (finishedCount r + 1) |>) w in
        let rank := finishedCount (actor w) in
        let w := put_participant userID
          (p <| ps_FinishedAt := Some (env_now e) |> <| ps_FinishRank := Some rank |>) w in
        checkRaceFinished e w
      else w
  end.

Definition applyDisconnected (e : Env) (userID : string) (w : World) : World :=
  match participants (actor w) !! userID with
  | None => w
  | Some p =>
      let w := match ps_graceTimer p with Some t => stop_timer t w | None => w end in
      let w := put_participant userID
        (p <| ps_DisconnectedAt := Some (env_now e) |>
           <| ps_DisconnectedCount := wrap64 (ps_DisconnectedCount p + 1) |>
           <| ps_graceTimer := Some (nextTimer w) |>) w in
      after_func (env_now e + gracePeriodDuration) (ParticipantEvicted userID) w
  end.

Definition applyEvicted (e : Env) (userID : string) (w : World) : World :=
  match participants (actor w) !! userID with
  | Some p => if bool_decide (is_Some (ps_DisconnectedAt p))
              then departParticipant e userID p w else w
  | None => w
  end.

Definition applyLeft (e : Env) (userID : string) (w : World) : World :=
  match participants (actor w) !! userID with
  | None => w
  | Some p =>
      if active (actor w) then departParticipant e userID p w
      else
        let w := with_actor (fun r => r <| participants := delete userID (participants r) |>) w in
        let w := record_call (CallLeaveRace userID (err_LeaveRace e)) w in
        checkRaceFinished e w
  end.

Definition applyEvictionQuery (userID : string) (reply : nat) (w : World) : World :=
  match replies w !! reply with
  | Some _ => w
  | None => w <| replies := <[reply := bool_decide (userID ∈ evicted (actor w))]> (replies w) |>
  end.

Definition applyActivated (promptText : string) (w : World) : World :=
  broadcastRaceStarted promptText (with_actor (fun r => r <| active := true |>) w).

Definition applyPendingExpired (e : Env) (w : World) : World :=
  if active (actor w) || finished (actor w) then w else expirePendingRoom e w.

Definition applyEvent (e : Env) (ev : RoomEvent) (w : World) : World :=
  match ev with
  | ParticipantJoined u d => applyJoined e u d w
  | TelemetryReceived u seq words pace => applyTelemetry e u seq words pace w
  | ParticipantDisconnected u => applyDisconnected e u w
  | ParticipantEvicted u => applyEvicted e u w
  | ParticipantLeft u => applyLeft e u w
  | evictionQuery u reply => applyEvictionQuery u reply w
  | noShowTimeout => checkRaceFinished e w
  | activated promptText => applyActivated promptText w
  | pendingExpired => applyPendingExpired e w
  end.

(** The ticker's case of [Run]. *)
Definition applyTick (e : Env) (w : World) : World :=
  record_call CallObserveTick (broadcastSnapshot e w).
