(* ===== verification/RoomRun.v ===== *)
(** * The actor's goroutines ([RoomActor.Send], [RoomActor.Run], its timers)

    A room as a transition system: goroutines blocked in [Send], the inbox they
    feed, the single-writer loop that drains it, the timers that fire into it,
    and the consumer that drains the broadcasts.  The clock is the process's
    monotonic one: handling an event reads it and may take time, and a timer
    fires once its deadline has passed, at any later moment. *)
From Stdlib Require Import ZArith.
From stdpp Require Import base list gmap sets strings.
From S2P Require Import Prelude GoNum Json Events Room.
Local Open Scope Z_scope.

Record Sys := mkSys {
  world : World;
  sending : list RoomEvent;   (** one entry per goroutine inside [Send] *)
  running : bool;             (** [Run] has not returned *)
  clock : Z                   (** the monotonic clock *)
}.

#[export] Instance eta_Sys : Eta Sys := fun s =>
  mkSys (world s) (sending s) (running s) (clock s).

(** What can happen next.  [select] picks any ready case, so every enabled step
    is possible in any state. *)
Inductive Label :=
  | Send (ev : RoomEvent)          (** some goroutine calls [Send(ev)] *)
  | Enqueue (i : nat)              (** the [i]-th blocked [Send] is accepted *)
  | GiveUp (i : nat)               (** the [i]-th blocked [Send] sees [ctx.Done()] *)
  | Apply (e : Env)                (** [Run] receives the oldest inbox event *)
  | Tick (e : Env)                 (** [Run]'s ticker case *)
  | Exit                           (** [Run] sees [ctx.Done()] *)
  | Fire (t : nat)                 (** the runtime fires timer [t] *)
  | Consume                        (** the fan-out receives the oldest broadcast *)
  | Close                          (** the context is cancelled from outside *)
  | Elapse (d : N).                (** time passes *)

Definition exec (l : Label) (s : Sys) : option Sys :=
  let w := world s in
  let r := actor w in
  match l with
  | Send ev => Some (s <| sending := sending s ++ [ev] |>)
  | Enqueue i =>
      ev ← sending s !! i;
      if bool_decide (length (inbox r) < inboxCapacity)%nat
      then Some (s <| sending := delete i (sending s) |>
                   <| world := with_actor (fun r => r <| inbox := inbox r ++ [ev] |>) w |>)
      else None
  | GiveUp i =>
      if done r && bool_decide (i < length (sending s))%nat
      then Some (s <| sending := delete i (sending s) |>) else None
  | Apply e =>
      match inbox r with
      | ev :: rest =>
          if running s && (clock s <=? env_ts e) && (env_ts e <=? env_now e)
          then Some (s <| clock := env_now e |> <| world :=
                 applyEvent e ev (with_actor (fun r => r <| inbox := rest |>) w) |>)
          else None
      | [] => None
      end
  | Tick e => if running s then Some (s <| world := applyTick e w |>) else None
  | Exit => if running s && done r then Some (s <| running := false |>) else None
  | Fire t =>
      tm ← timers w !! t;
      if tm_deadline tm <=? clock s
      then Some (s <| sending := sending s ++ [tm_event tm] |> <| world := stop_timer t w |>)
      else None
  | Consume =>
      match broadcast r with
      | _ :: rest => Some (s <| world := with_actor (fun r => r <| broadcast := rest |>) w |>)
      | [] => None
      end
  | Close => Some (s <| world := cancel w |>)
  | Elapse d => Some (s <| clock := clock s + Z.of_N d |>)
  end.

Fixpoint run (ls : list Label) (s : Sys) : option Sys :=
  match ls with
  | [] => Some s
  | l :: ls' => s' ← exec l s; run ls' s'
  end.

Definition initial (now : Z) (raceID : string) (distance : Z) : Sys :=
  mkSys (NewRoomActor now raceID distance) [] true now.

(** ** Which inputs can occur

    Events are those of decoded frames ([event_ok]); environments iterate maps
    properly. *)
Definition label_ok (l : Label) : Prop :=
  match l with
  | Send ev => event_ok ev
  | Apply e | Tick e => env_ok e
  | _ => True
  end.

(** [reachable n s]: [s] is reached from a fresh room in [n] steps. *)
Inductive reachable (now : Z) (raceID : string) (distance : Z) : nat -> Sys -> Prop :=
  | reach_init : reachable now raceID distance 0 (initial now raceID distance)
  | reach_step n l s s' :
      reachable now raceID distance n s -> label_ok l -> exec l s = Some s' ->
      reachable now raceID distance (S n) s'.

Lemma reachable_run now raceID distance n ls s s' :
  reachable now raceID distance n s -> Forall label_ok ls -> run ls s = Some s' ->
  reachable now raceID distance (n + length ls) s'.
Proof.
  intros Hr Hok. revert n s Hr. induction Hok as [|l ls Hl _ IH]; intros n s Hr Hrun; simpl in *.
  - simplify_eq. by rewrite Nat.add_0_r.
  - apply bind_Some in Hrun as (s1 & Hs1 & Hrun).
    rewrite <- Nat.add_succ_comm. eapply IH; [|done]. eapply reach_step; eauto.
Qed.
