(* ===== verification/RoomInv.v ===== *)
(** * The room actor's invariant

    What holds of a room at every moment: the maps' keys, the ledger of finish
    ranks, the bounds of the counters, and the link between teardown and the
    calls that persist an outcome. *)
From Stdlib Require Import ZArith Floats.SpecFloat.
From stdpp Require Import base list gmap sets strings.
From S2P Require Import Prelude GoNum Json Events Room RoomRun.
Local Open Scope Z_scope.

(** ** The ledger of finish ranks

    [count] finishers have been ranked so far, [total] participants were ever
    admitted, [l] are the participant states still held. *)
Record ledger (count total : Z) (l : list ParticipantState) : Prop := {
  ledger_distinct : NoDup (omap ps_FinishRank l);
  ledger_range : Forall (fun k => 1 <= k <= count) (omap ps_FinishRank l);
  ledger_room : count + Z.of_nat (length (filter (fun p => Is_true (still_racing p)) l)) <= total;
  ledger_count : 0 <= count
}.

#[export] Instance ledger_perm count total : Proper ((≡ₚ) ==> iff) (ledger count total).
Proof.
  intros l l' Hl. split; intros [Hd Hr Ho Hc]; constructor; try done;
    first [rewrite <- Hl | rewrite Hl]; done.
Qed.

Section ledger.
Implicit Types (p q : ParticipantState) (l : list ParticipantState).

Lemma ledger_nil : ledger 0 0 [].
Proof. constructor; simpl; [constructor|constructor|lia|lia]. Qed.

Lemma ledger_admit count total p l :
  ps_FinishRank p = None -> ledger count total l -> ledger count (total + 1) (p :: l).
Proof.
  intros Hp [Hd Hr Ho Hc]. constructor; simpl; rewrite ?Hp; try done.
  rewrite filter_cons, decide_True; [simpl; lia|]. unfold still_racing. by rewrite Hp.
Qed.

Lemma ledger_replace count total p q l :
  ps_FinishRank p = ps_FinishRank q -> ledger count total (p :: l) -> ledger count total (q :: l).
Proof.
  intros Hpq [Hd Hr Ho Hc]. simpl in Hd, Hr. rewrite Hpq in Hd, Hr.
  constructor; simpl; try done.
  rewrite filter_cons in *. unfold still_racing in *. rewrite Hpq in Ho.
  destruct (ps_FinishRank q); rewrite ?decide_True, ?decide_False in * by naive_solver; done.
Qed.

Lemma ledger_finish count total p q l :
  ps_FinishRank p = None -> ps_FinishRank q = Some (count + 1) ->
  ledger count total (p :: l) -> ledger (count + 1) total (q :: l).
Proof.
  intros Hp Hq [Hd Hr Ho Hc]. simpl in Hd, Hr. rewrite Hp in Hd, Hr.
  rewrite filter_cons, decide_True in Ho by (unfold still_racing; by rewrite Hp).
  constructor; simpl; rewrite ?Hq; [| | |lia].
  - constructor; [|done]. intros Hin. rewrite Forall_forall in Hr.
    specialize (Hr _ Hin). lia.
  - constructor; [lia|]. eapply Forall_impl; [exact Hr|]. simpl. lia.
  - rewrite filter_cons, decide_False by (unfold still_racing; rewrite Hq; naive_solver).
    simpl in Ho. lia.
Qed.

Lemma ledger_drop count total p l : ledger count total (p :: l) -> ledger count total l.
Proof.
  intros [Hd Hr Ho Hc]. simpl in Hd, Hr. rewrite filter_cons in Ho.
  constructor; [| | |done].
  - destruct (ps_FinishRank p); [by inversion Hd|done].
  - destruct (ps_FinishRank p); [by inversion Hr|done].
  - case_decide; simpl in Ho; lia.
Qed.
End ledger.

(** ** The invariant of the actor *)

(** [FinishedAt] and [FinishRank] are set together; numbers are in range. *)
Definition state_ok (p : ParticipantState) : Prop :=
  (is_Some (ps_FinishedAt p) <-> is_Some (ps_FinishRank p)) /\
  float64_finite (ps_PaceWatt p) = true /\ int64_ok (ps_WordsCorrect p).

Definition keyed (u : string) (p : ParticipantState) : Prop := ps_UserID p = u /\ state_ok p.

Definition states (r : RoomActor) : list ParticipantState :=
  values (participants r) ++ values (departedParticipants r).

Record actor_inv (n : nat) (r : RoomActor) : Prop := {
  inv_live : map_Forall keyed (participants r);
  inv_departed : map_Forall keyed (departedParticipants r);
  inv_evicted : evicted r = dom (departedParticipants r);
  inv_ledger : ledger (finishedCount r) (totalParticipants r) (states r);
  inv_total : totalParticipants r <= Z.of_nat n;
  inv_inactive : active r = false -> finishedCount r = 0;
  inv_inbox : Forall event_ok (inbox r)
}.

(** The fields the invariant speaks of: broadcasting, logging and cancelling
    leave them alone. *)
Definition core (r : RoomActor) :=
  (participants r, departedParticipants r, evicted r, finishedCount r, totalParticipants r,
   active r, inbox r, distanceMeters r, startedAt r, id r).

Lemma actor_inv_core n r r' : core r' = core r -> actor_inv n r -> actor_inv n r'.
Proof.
  unfold core. intros H [H1 H2 H3 H4 H5 H6 H7]. unfold states in *.
  destruct r, r'; simpl in *. simplify_eq. by constructor.
Qed.

Lemma actor_inv_mono n m r : (n <= m)%nat -> actor_inv n r -> actor_inv m r.
Proof. intros Hnm []. constructor; try done. lia. Qed.

Section core.
Context (e : Env).

Lemma core_broadcast_marshalled m w : core (actor (broadcast_marshalled m w)) = core (actor w).
Proof. by destruct m. Qed.
Lemma core_record_call c w : core (actor (record_call c w)) = core (actor w).
Proof. done. Qed.
Lemma core_cancel w : core (actor (cancel w)) = core (actor w).
Proof. done. Qed.
Lemma core_broadcastSnapshot w : core (actor (broadcastSnapshot e w)) = core (actor w).
Proof. unfold broadcastSnapshot. by rewrite core_broadcast_marshalled. Qed.
Lemma core_finishRace rs w : core (actor (finishRace e rs w)) = core (actor w).
Proof.
  unfold finishRace. destruct (err_FinishRace e).
  - by rewrite core_record_call, core_broadcastSnapshot.
  - rewrite core_cancel, core_broadcast_marshalled, core_record_call.
    exact (core_broadcastSnapshot w).
Qed.
Lemma core_expirePendingRoom w : core (actor (expirePendingRoom e w)) = core (actor w).
Proof.
  unfold expirePendingRoom. destruct (err_CancelRace e); [done|].
  rewrite core_cancel. exact (core_broadcast_marshalled RaceExpiredMessage _).
Qed.
Lemma core_checkRaceFinished w : core (actor (checkRaceFinished e w)) = core (actor w).
Proof.
  unfold checkRaceFinished. destruct (finished _); [done|]. destruct (existsb _ _); [done|].
  destruct (negb _); [apply core_expirePendingRoom|apply core_finishRace].
Qed.
End core.

Create Rewrite HintDb room_core.
#[export] Hint Rewrite core_broadcast_marshalled core_record_call core_cancel
  core_broadcastSnapshot core_finishRace core_expirePendingRoom core_checkRaceFinished
  : room_core.

(** ** The state of the world beside the actor's core

    Teardown is tied to the one call that persisted the outcome, and the
    broadcast channel respects its capacity. *)
Definition terminal (c : Call) : bool :=
  match c with CallFinishRace _ _ None | CallCancelRace None => true | _ => false end.

Definition outcomes (w : World) : list Call := filter (fun c => Is_true (terminal c)) (calls w).

Record teardown_inv (w : World) : Prop := {
  ti_done : finished (actor w) = true -> done (actor w) = true;
  ti_broadcast : (length (broadcast (actor w)) <= broadcastBufferSize)%nat;
  ti_outcomes : length (outcomes w) = if finished (actor w) then 1%nat else 0%nat;
  ti_finish_active : forall d rs err,
    CallFinishRace d rs err ∈ calls w -> active (actor w) = true
}.

Lemma outcomes_record c w :
  outcomes (record_call c w) = outcomes w ++ (if terminal c then [c] else []).
Proof.
  unfold outcomes. simpl. rewrite filter_app. f_equal.
  rewrite filter_cons, filter_nil. by destruct (terminal c).
Qed.

(** Operations that keep [finished], [done], [active] and the log, and at most
    push one more broadcast. *)
Definition quiet (w w' : World) : Prop :=
  finished (actor w') = finished (actor w) /\ done (actor w') = done (actor w) /\
  (active (actor w) = true -> active (actor w') = true) /\ calls w' = calls w /\
  (broadcast (actor w') = broadcast (actor w) \/
   exists b, broadcast (actor w') = try_send broadcastBufferSize (broadcast (actor w)) b).

Lemma teardown_quiet w w' : quiet w w' -> teardown_inv w -> teardown_inv w'.
Proof.
  intros (Hf & Hd & Ha & Hc & Hb) [H1 H2 H3 H4]. unfold outcomes in *.
  constructor; unfold outcomes; rewrite ?Hf, ?Hd, ?Hc; [done| |done|].
  - destruct Hb as [->|[b ->]]; [done|]. by apply try_send_length.
  - intros d rs err Hin. eauto.
Qed.

Lemma quiet_with_actor f w :
  finished (f (actor w)) = finished (actor w) -> done (f (actor w)) = done (actor w) ->
  (active (actor w) = true -> active (f (actor w)) = true) ->
  broadcast (f (actor w)) = broadcast (actor w) -> quiet w (with_actor f w).
Proof. unfold quiet. intros. simpl. split_and!; auto. Qed.

Lemma quiet_broadcast m w : quiet w (broadcast_marshalled m w).
Proof. unfold quiet. destruct m; simpl; split_and!; eauto. Qed.

Lemma teardown_record c w :
  terminal c = false -> (forall d rs err, c <> CallFinishRace d rs err) ->
  teardown_inv w -> teardown_inv (record_call c w).
Proof.
  intros Hc Hn [H1 H2 H3 H4]. constructor; [done|done| |].
  - by rewrite outcomes_record, Hc, app_nil_r.
  - intros d rs err [Hin|Hin%list_elem_of_singleton]%elem_of_app; [eauto|].
    by destruct (Hn d rs err).
Qed.

Lemma teardown_broadcastSnapshot e w : teardown_inv w -> teardown_inv (broadcastSnapshot e w).
Proof.
  intros H. unfold broadcastSnapshot. eapply teardown_quiet; [apply quiet_broadcast|].
  eapply teardown_quiet; [|exact H]. by apply quiet_with_actor.
Qed.

Lemma teardown_check e w : teardown_inv w -> teardown_inv (checkRaceFinished e w).
Proof.
  intros H. unfold checkRaceFinished. destruct (finished (actor w)) eqn:Hf; [done|].
  destruct (existsb _ _); [done|]. destruct (active (actor w)) eqn:Ha; simpl.
  - unfold finishRace. pose proof (teardown_broadcastSnapshot e w H) as [H1 H2 H3 H4].
    assert (finished (actor (broadcastSnapshot e w)) = false) as Hf'.
    { unfold broadcastSnapshot. by destruct (RaceStateMessage _ _). }
    assert (active (actor (broadcastSnapshot e w)) = true) as Ha'.
    { unfold broadcastSnapshot. by destruct (RaceStateMessage _ _). }
    rewrite Hf' in H3. destruct (err_FinishRace e) as [err|].
    + constructor; simpl; [by rewrite Hf'|done| |done].
      rewrite outcomes_record. simpl. by rewrite app_nil_r, Hf'.
    + match goal with |- teardown_inv (cancel (broadcast_marshalled ?m ?v)) =>
        destruct (quiet_broadcast m v) as (Q1 & Q2 & Q3 & Q4 & Q5);
        set (v' := broadcast_marshalled m v) in * end.
      constructor; simpl; [done| | |auto].
      * destruct Q5 as [->|[b ->]]; simpl; [done|]. by apply try_send_length.
      * unfold outcomes. simpl. rewrite Q4, Q1. simpl.
        rewrite !filter_app, !filter_cons, !filter_nil, !length_app. simpl.
        unfold outcomes in H3. by rewrite H3.
  - unfold expirePendingRoom. destruct H as [H1 H2 H3 H4]. rewrite Hf in H3.
    destruct (err_CancelRace e) as [err|].
    + constructor; simpl; [by rewrite Hf|done| |].
      * rewrite outcomes_record. simpl. by rewrite app_nil_r, Hf.
      * intros d rs err' [Hin|Hin%list_elem_of_singleton]%elem_of_app; [eauto|done].
    + constructor; simpl; [done|by apply try_send_length| |].
      * unfold outcomes. simpl. rewrite filter_app, filter_cons, filter_nil, length_app. simpl.
        unfold outcomes in H3. by rewrite H3.
      * intros d rs err' [Hin|Hin%list_elem_of_singleton]%elem_of_app; [eauto|done].
Qed.

(** ** Every event preserves the invariant *)

Definition world_inv (n : nat) (w : World) : Prop := actor_inv n (actor w) /\ teardown_inv w.

(** The counters stay far from their 64-bit bounds while fewer than [2^63 - 1]
    events have been applied. *)
Definition events_bound (n : nat) : Prop := Z.of_nat n < max_int64.

Section states.
Implicit Types (r : RoomActor) (u : string) (p q : ParticipantState).

Lemma states_lookup r u p : participants r !! u = Some p ->
  states r ≡ₚ p :: values (delete u (participants r)) ++ values (departedParticipants r).
Proof. intros Hp. unfold states. by rewrite (values_delete _ _ _ Hp). Qed.

Lemma states_depart r u p : participants r !! u = Some p ->
  exists old, p :: values (delete u (participants r)) ++ values (departedParticipants r) ≡ₚ
    old ++ values (delete u (participants r)) ++ values (<[u := p]> (departedParticipants r)) /\
    (length old <= 1)%nat.
Proof.
  intros Hp.
  destruct (departedParticipants r !! u) as [q|] eqn:Hq.
  - exists [q]. split; [|simpl; lia]. rewrite values_insert, (values_delete _ _ _ Hq).
    by rewrite <- !Permutation_middle.
  - exists []. split; [|simpl; lia]. rewrite values_insert, (delete_id _ _ Hq).
    simpl. apply Permutation_middle.
Qed.
End states.

Ltac split_inv H :=
  let H1 := fresh "Hlive" in let H2 := fresh "Hdep" in let H3 := fresh "Hev" in
  let H4 := fresh "Hled" in let H5 := fresh "Htot" in let H6 := fresh "Hinact" in
  let H7 := fresh "Hinbox" in destruct H as [H1 H2 H3 H4 H5 H6 H7].

(** Replacing a participant's state without touching its rank. *)
Lemma inv_put_same n r u p q :
  participants r !! u = Some p -> ps_FinishRank p = ps_FinishRank q -> keyed u q ->
  actor_inv n r -> actor_inv n (r <| participants := <[u := q]> (participants r) |>).
Proof.
  intros Hp Hrank Hq H. split_inv H. constructor; simpl; try done.
  - by apply map_Forall_insert_2.
  - rewrite (states_lookup _ _ _ Hp) in Hled.
    unfold states. simpl. rewrite values_insert. by eapply ledger_replace.
Qed.

Lemma inv_delete n r u :
  actor_inv n r -> actor_inv n (r <| participants := delete u (participants r) |>).
Proof.
  intros H. split_inv H. constructor; simpl; try done.
  - by apply map_Forall_delete.
  - destruct (participants r !! u) as [p|] eqn:Hp.
    + rewrite (states_lookup _ _ _ Hp) in Hled. by eapply ledger_drop.
    + unfold states. simpl. by rewrite delete_id.
Qed.

Lemma inv_depart n r u p :
  participants r !! u = Some p -> actor_inv n r ->
  actor_inv n (r <| participants := delete u (participants r) |>
                 <| departedParticipants := <[u := p]> (departedParticipants r) |>
                 <| evicted := {[u]} ∪ evicted r |>).
Proof.
  intros Hp H. split_inv H. constructor; simpl; try done.
  - by apply map_Forall_delete.
  - apply map_Forall_insert_2; [|done]. by apply (Hlive u p).
  - by rewrite dom_insert_L, Hev.
  - rewrite (states_lookup _ _ _ Hp) in Hled.
    destruct (states_depart r u p Hp) as (old & Hperm & Hlen). rewrite Hperm in Hled.
    unfold states. simpl. destruct old as [|q [|]]; simpl in *; [done| |lia].
    by eapply ledger_drop.
Qed.

Lemma inv_admit n r u p :
  events_bound (S n) -> participants r !! u = None -> ps_FinishRank p = None -> keyed u p ->
  actor_inv n r ->
  actor_inv (S n) (r <| participants := <[u := p]> (participants r) |>
                     <| totalParticipants := wrap64 (totalParticipants r + 1) |>).
Proof.
  unfold events_bound. intros Hb Hu Hrank Hp H. split_inv H.
  assert (wrap64 (totalParticipants r + 1) = totalParticipants r + 1) as Hw.
  { apply wrap64_id. destruct Hled as [_ _ Ho Hc]. unfold int64_ok, min_int64, max_int64 in *. lia. }
  constructor; simpl; rewrite ?Hw; try done; [| |lia].
  - by apply map_Forall_insert_2.
  - unfold states. simpl. rewrite values_insert_new by done. by apply ledger_admit.
Qed.

Lemma inv_finish n r u p q :
  events_bound (S n) -> active r = true -> participants r !! u = Some p ->
  ps_FinishRank p = None -> ps_FinishRank q = Some (finishedCount r + 1) -> keyed u q ->
  actor_inv n r ->
  wrap64 (finishedCount r + 1) = finishedCount r + 1 /\
  actor_inv n (r <| finishedCount := finishedCount r + 1 |>
                 <| participants := <[u := q]> (participants r) |>).
Proof.
  unfold events_bound. intros Hb Ha Hp Hrank Hqr Hq H. split_inv H. split.
  - apply wrap64_id. destruct Hled as [_ _ Ho Hc]. unfold int64_ok, min_int64, max_int64 in *. lia.
  - constructor; simpl; try done; [| |congruence].
    + by apply map_Forall_insert_2.
    + rewrite (states_lookup _ _ _ Hp) in Hled.
      unfold states. simpl. rewrite values_insert. by eapply ledger_finish.
Qed.

Section preservation.
Context (e : Env) (n : nat) (w : World).
Context (Hbound : events_bound (S n)) (Hinv : actor_inv n (actor w)).

Local Lemma inv_next : actor_inv (S n) (actor w).
Proof. apply (actor_inv_mono n); [lia|done]. Qed.

Local Lemma keyed_live u p : participants (actor w) !! u = Some p -> keyed u p.
Proof. intros Hp. by apply (inv_live n (actor w) Hinv). Qed.

Lemma actor_inv_joined u d : actor_inv (S n) (actor (applyJoined e u d w)).
Proof.
  unfold applyJoined. eapply actor_inv_core; [apply core_broadcastSnapshot|].
  destruct (participants (actor w) !! u) as [p|] eqn:Hp.
  - destruct (ps_DisconnectedAt p) eqn:Hd; [|exact inv_next].
    assert (keyed u (p <| ps_graceTimer := None |> <| ps_DisconnectedAt := None |>)) as Hk
      by (by destruct (keyed_live u p Hp) as [? []]).
    destruct (ps_graceTimer p); (eapply inv_put_same; [exact Hp| |exact Hk|exact inv_next]; done).
  - apply (inv_admit n (actor w)); [exact Hbound|exact Hp|done| |exact Hinv].
    split; [done|]. split; simpl; [split; intros []; done|]. done.
Qed.

Lemma actor_inv_telemetry u seq words pace :
  event_ok (TelemetryReceived u seq words pace) ->
  actor_inv (S n) (actor (applyTelemetry e u seq words pace w)).
Proof.
  intros (Hseq & Hwords & Hpace). unfold applyTelemetry.
  destruct (active (actor w)) eqn:Ha; [simpl|exact inv_next].
  destruct (participants (actor w) !! u) as [p|] eqn:Hp; [|exact inv_next].
  destruct (seq <=? ps_LastSeq p); [exact inv_next|].
  set (q := p <| ps_WordsCorrect := words |> <| ps_LastSeq := seq |> <| ps_PaceWatt := pace |>).
  assert (keyed u q) as Hq by (by destruct (keyed_live u p Hp) as [? []]).
  assert (actor_inv n ((actor w) <| participants := <[u := q]> (participants (actor w)) |>)) as Hput
    by (by eapply inv_put_same).
  destruct (still_racing q) eqn:Hr; simpl; [|apply (actor_inv_mono n); [lia|exact Hput]].
  destruct (distanceMeters (actor w) <=? words); [|apply (actor_inv_mono n); [lia|exact Hput]].
  eapply actor_inv_core; [apply core_checkRaceFinished|]. simpl.
  apply (actor_inv_mono n); [lia|].
  assert (ps_FinishRank q = None) as Hqr.
  { unfold still_racing in Hr. by destruct (ps_FinishRank q). }
  edestruct (inv_finish n ((actor w) <| participants := <[u := q]> (participants (actor w)) |>)
    u q (q <| ps_FinishedAt := Some (env_now e) |>
           <| ps_FinishRank := Some (finishedCount (actor w) + 1) |>)) as [Hw Hfin];
    try done; [by simpl; rewrite lookup_insert_eq| |].
  { destruct Hq as [Hid [Hfr ?]]. split; [done|]. split; [|done]. simpl. split; eauto. }
  simpl in Hw, Hfin. by rewrite Hw.
Qed.

Lemma actor_inv_disconnected u : actor_inv (S n) (actor (applyDisconnected e u w)).
Proof.
  unfold applyDisconnected.
  destruct (participants (actor w) !! u) as [p|] eqn:Hp; [|exact inv_next].
  set (w0 := match ps_graceTimer p with Some t => stop_timer t w | None => w end).
  assert (actor w0 = actor w) as Hw0 by (unfold w0; by destruct (ps_graceTimer p)).
  simpl. rewrite Hw0. eapply inv_put_same; [exact Hp|done| |exact inv_next].
  by destruct (keyed_live u p Hp) as [? []].
Qed.

Lemma actor_inv_depart u p :
  participants (actor w) !! u = Some p ->
  actor_inv (S n) (actor (departParticipant e u p w)).
Proof.
  intros Hp. eapply actor_inv_core; [apply core_checkRaceFinished|].
  by apply inv_depart, inv_next.
Qed.

Lemma actor_inv_left u : actor_inv (S n) (actor (applyLeft e u w)).
Proof.
  unfold applyLeft. destruct (participants (actor w) !! u) as [p|] eqn:Hp; [|exact inv_next].
  destruct (active (actor w)); [by apply actor_inv_depart|].
  eapply actor_inv_core; [apply core_checkRaceFinished|]. apply inv_delete, inv_next.
Qed.

Lemma actor_inv_applyEvent ev :
  event_ok ev -> actor_inv (S n) (actor (applyEvent e ev w)).
Proof.
  intros Hev. destruct ev as [u d|u seq words pace|u|u|u|u reply| |txt|]; cbn [applyEvent].
  - apply actor_inv_joined.
  - by apply actor_inv_telemetry.
  - apply actor_inv_disconnected.
  - unfold applyEvicted. destruct (participants (actor w) !! u) as [p|] eqn:Hp; [|exact inv_next].
    case_bool_decide; [by apply actor_inv_depart|exact inv_next].
  - apply actor_inv_left.
  - unfold applyEvictionQuery. destruct (replies w !! reply); exact inv_next.
  - eapply actor_inv_core; [apply core_checkRaceFinished|exact inv_next].
  - eapply actor_inv_core; [apply core_broadcast_marshalled|].
    pose proof inv_next as H. split_inv H. by constructor.
  - unfold applyPendingExpired. destruct (active (actor w) || finished (actor w)); [exact inv_next|].
    eapply actor_inv_core; [apply core_expirePendingRoom|exact inv_next].
Qed.
End preservation.

(** ** Teardown is preserved too *)

Lemma quiet_put u p w : quiet w (put_participant u p w).
Proof. by apply quiet_with_actor. Qed.
Lemma quiet_stop t w : quiet w (stop_timer t w).
Proof. unfold quiet. split_and!; auto. Qed.
Lemma quiet_after d ev w : quiet w (after_func d ev w).
Proof. unfold quiet. split_and!; auto. Qed.

Lemma teardown_depart e u p w : teardown_inv w -> teardown_inv (departParticipant e u p w).
Proof.
  intros H. apply teardown_check, teardown_record; [done|done|].
  eapply teardown_quiet; [|exact H]. by apply quiet_with_actor.
Qed.

Lemma teardown_expire e w :
  finished (actor w) = false -> active (actor w) = false ->
  teardown_inv w -> teardown_inv (expirePendingRoom e w).
Proof.
  intros Hf Ha H.
  pose (e' := e <| env_iter := fun _ _ => [] |>).
  pose proof (teardown_check e' w H) as Hc. unfold checkRaceFinished in Hc.
  rewrite Hf, Ha in Hc. exact Hc.
Qed.

Lemma teardown_applyEvent e ev w : teardown_inv w -> teardown_inv (applyEvent e ev w).
Proof.
  intros H. destruct ev as [u d|u seq words pace|u|u|u|u reply| |txt|]; cbn [applyEvent].
  - apply teardown_broadcastSnapshot. destruct (participants (actor w) !! u) as [p|].
    + destruct (ps_DisconnectedAt p); [|done].
      eapply teardown_quiet; [apply quiet_put|].
      destruct (ps_graceTimer p); [|done]. by eapply teardown_quiet; [apply quiet_stop|].
    + eapply teardown_quiet; [by apply quiet_with_actor|].
      by eapply teardown_quiet; [apply quiet_put|].
  - unfold applyTelemetry. destruct (negb _); [done|].
    destruct (participants (actor w) !! u) as [p|]; [|done]. destruct (_ <=? _); [done|].
    match goal with |- context [record_call ?c ?v] =>
      assert (teardown_inv (record_call c v)) as Hr;
        [apply teardown_record; [done|done|];
         by eapply teardown_quiet; [apply quiet_put|]|] end.
    destruct (_ && _); [|done]. apply teardown_check.
    eapply teardown_quiet; [apply quiet_put|].
    eapply teardown_quiet; [by apply quiet_with_actor|]. done.
  - unfold applyDisconnected. destruct (participants (actor w) !! u) as [p|]; [|done].
    eapply teardown_quiet; [apply quiet_after|]. eapply teardown_quiet; [apply quiet_put|].
    destruct (ps_graceTimer p); [|done]. by eapply teardown_quiet; [apply quiet_stop|].
  - unfold applyEvicted. destruct (participants (actor w) !! u) as [p|]; [|done].
    case_bool_decide; [by apply teardown_depart|done].
  - unfold applyLeft. destruct (participants (actor w) !! u) as [p|]; [|done].
    destruct (active _); [by apply teardown_depart|].
    apply teardown_check, teardown_record; [done|done|].
    by eapply teardown_quiet; [by apply quiet_with_actor|].
  - unfold applyEvictionQuery. destruct (replies w !! reply); [done|].
    eapply teardown_quiet; [|exact H]. unfold quiet. split_and!; auto.
  - by apply teardown_check.
  - eapply teardown_quiet; [apply quiet_broadcast|].
    eapply teardown_quiet; [|exact H]. by apply quiet_with_actor.
  - unfold applyPendingExpired. destruct (active (actor w)) eqn:Ha; [done|].
    destruct (finished (actor w)) eqn:Hf; [done|]. by apply teardown_expire.
Qed.
