(* ===== verification/RoomSys.v ===== *)
(** * Invariants of a running room

    The effect of any event on the participants is one of seven [move]s; the
    order in which finishers cross the line is an invariant of the moves; and
    every step of the transition system of [RoomRun] preserves [sys_inv], so it
    holds of every reachable room. *)
From Stdlib Require Import ZArith Floats.SpecFloat.
From stdpp Require Import base list gmap sets strings.
From S2P Require Import Prelude GoNum Json Events Room RoomRun RoomInv.
Local Open Scope Z_scope.

(** ** Moves: the abstract specification of [applyEvent]

    What an event may do to the participants of a room, up to the fields that
    only concern broadcasting and teardown. *)
Inductive move (now : Z) (r : RoomActor) : RoomActor -> Prop :=
  | move_stay r' : core r' = core r -> move now r r'
  | move_activate r' : core r' = core (r <| active := true |>) -> move now r r'
  | move_update u p q r' :
      participants r !! u = Some p ->
      ps_UserID q = ps_UserID p -> ps_FinishRank q = ps_FinishRank p ->
      ps_FinishedAt q = ps_FinishedAt p -> ps_LastSeq p <= ps_LastSeq q ->
      core r' = core (r <| participants := <[u := q]> (participants r) |>) -> move now r r'
  | move_admit u p r' :
      participants r !! u = None -> ps_UserID p = u ->
      ps_FinishRank p = None -> ps_FinishedAt p = None ->
      core r' = core (r <| participants := <[u := p]> (participants r) |>
                        <| totalParticipants := wrap64 (totalParticipants r + 1) |>) ->
      move now r r'
  | move_finish u p q r' :
      active r = true -> participants r !! u = Some p -> ps_FinishRank p = None ->
      ps_UserID q = ps_UserID p -> ps_LastSeq p <= ps_LastSeq q ->
      distanceMeters r <= ps_WordsCorrect q ->
      ps_FinishRank q = Some (wrap64 (finishedCount r + 1)) -> ps_FinishedAt q = Some now ->
      core r' = core (r <| finishedCount := wrap64 (finishedCount r + 1) |>
                        <| participants := <[u := q]> (participants r) |>) -> move now r r'
  | move_delete u p r' :
      active r = false -> participants r !! u = Some p ->
      core r' = core (r <| participants := delete u (participants r) |>) -> move now r r'
  | move_depart u p r' :
      participants r !! u = Some p ->
      core r' = core (r <| participants := delete u (participants r) |>
                        <| departedParticipants := <[u := p]> (departedParticipants r) |>
                        <| evicted := {[u]} ∪ evicted r |>) -> move now r r'.

Section moves.
Context (e : Env) (w : World).

Lemma depart_move u p : participants (actor w) !! u = Some p ->
  move (env_now e) (actor w) (actor (departParticipant e u p w)).
Proof. intros Hp. eapply move_depart; [exact Hp|]. apply core_checkRaceFinished. Qed.

Lemma joined_move u d : move (env_now e) (actor w) (actor (applyJoined e u d w)).
Proof.
  unfold applyJoined. destruct (participants (actor w) !! u) as [p|] eqn:Hp.
  - destruct (ps_DisconnectedAt p).
    + eapply (move_update _ _ u p (p <| ps_graceTimer := None |> <| ps_DisconnectedAt := None |>));
        [exact Hp|done..|simpl; lia|].
      rewrite core_broadcastSnapshot. by destruct (ps_graceTimer p).
    + apply move_stay. apply core_broadcastSnapshot.
  - eapply (move_admit _ _ u); [exact Hp|..|by rewrite core_broadcastSnapshot]; done.
Qed.

Lemma telemetry_move u seq words pace :
  move (env_now e) (actor w) (actor (applyTelemetry e u seq words pace w)).
Proof.
  unfold applyTelemetry. destruct (active (actor w)) eqn:Ha; cbn [negb]; [|by apply move_stay].
  destruct (participants (actor w) !! u) as [p|] eqn:Hp; [|by apply move_stay].
  destruct (Z.leb_spec seq (ps_LastSeq p)); [by apply move_stay|].
  destruct (still_racing _) eqn:Hr; cbn [andb].
  - destruct (_ <=? words) eqn:Hd.
    + match goal with |- context [put_participant u ?q (with_actor _ _)] =>
        eapply (move_finish _ _ u p q) end; [exact Ha|exact Hp| |done|simpl; lia|exact (proj1 (Z.leb_le _ _) Hd)|done|done|].
      { unfold still_racing in Hr. simpl in Hr. by destruct (ps_FinishRank p). }
      cbv zeta. rewrite core_checkRaceFinished. unfold core. simpl. by rewrite insert_insert_eq.
    + eapply (move_update _ _ u p); [exact Hp|..|reflexivity]; [done..|simpl; lia].
  - eapply (move_update _ _ u p); [exact Hp|..|reflexivity]; [done..|simpl; lia].
Qed.

Lemma applyEvent_move ev : move (env_now e) (actor w) (actor (applyEvent e ev w)).
Proof.
  destruct ev as [u d|u seq words pace|u|u|u|u reply| |txt|]; cbn [applyEvent].
  - apply joined_move.
  - apply telemetry_move.
  - unfold applyDisconnected.
    destruct (participants (actor w) !! u) as [p|] eqn:Hp; [|by apply move_stay].
    match goal with |- context [put_participant u ?q _] =>
      eapply (move_update _ _ u p q) end; [exact Hp|done..|simpl; lia|].
    by destruct (ps_graceTimer p).
  - unfold applyEvicted.
    destruct (participants (actor w) !! u) as [p|] eqn:Hp; [|by apply move_stay].
    case_bool_decide; [by apply depart_move|by apply move_stay].
  - unfold applyLeft.
    destruct (participants (actor w) !! u) as [p|] eqn:Hp; [|by apply move_stay].
    destruct (active (actor w)) eqn:Ha; [by apply depart_move|].
    eapply move_delete; [exact Ha|exact Hp|]. apply core_checkRaceFinished.
  - unfold applyEvictionQuery. destruct (replies w !! reply); by apply move_stay.
  - apply move_stay, core_checkRaceFinished.
  - apply move_activate. apply core_broadcast_marshalled.
  - unfold applyPendingExpired. destruct (active (actor w) || finished (actor w)).
    + by apply move_stay.
    + apply move_stay, core_expirePendingRoom.
Qed.
End moves.

(** ** Finish order *)

Definition finisher (r : RoomActor) (k t : Z) : Prop :=
  exists p, p ∈ states r /\ ps_FinishRank p = Some k /\ ps_FinishedAt p = Some t.

Record timely (now : Z) (r : RoomActor) : Prop := {
  timely_range k t : finisher r k t -> startedAt r <= t <= now;
  timely_order k t k' t' : finisher r k t -> finisher r k' t' -> k < k' -> t <= t';
  timely_started : startedAt r <= now
}.

Lemma elem_of_states r p :
  p ∈ states r <-> (exists u, participants r !! u = Some p) \/
                   (exists u, departedParticipants r !! u = Some p).
Proof. unfold states. by rewrite elem_of_app, !elem_of_values. Qed.

Lemma finisher_core r r' k t : core r' = core r -> finisher r' k t -> finisher r k t.
Proof.
  unfold core, finisher, states. destruct r, r'. simpl. intros. by simplify_eq.
Qed.

Lemma startedAt_core r r' : core r' = core r -> startedAt r' = startedAt r.
Proof. unfold core. intros. by simplify_eq. Qed.

(** A move keeps the finishers, or adds one: the next rank, now. *)
Lemma finisher_move now r r' k t : move now r r' -> finisher r' k t ->
  finisher r k t \/ (k = wrap64 (finishedCount r + 1) /\ t = now).
Proof.
  intros Hm Hf. destruct Hm as [r' Hc|r' Hc|u p q r' Hp Hid Hrk Hat Hsq Hc|u p r' Hu Hid Hrk Hat Hc
    |u p q r' Ha Hp Hrk Hid Hsq Hd Hq1 Hq2 Hc|u p r' Ha Hp Hc|u p r' Hp Hc];
    apply (finisher_core _ _ _ _ Hc) in Hf as (x & Hx & Hk & Ht);
    rewrite elem_of_states in Hx; simpl in Hx;
    unfold finisher; setoid_rewrite elem_of_states; [by left; eauto..| | | | |].
  - left. destruct Hx as [[v [[<- <-]|[? Hv]]%lookup_insert_Some]|Hx]; [|by eauto 6..].
    exists p. split_and!; [by eauto|congruence..].
  - left. destruct Hx as [[v [[<- <-]|[? Hv]]%lookup_insert_Some]|Hx]; [congruence|by eauto 6..].
  - destruct Hx as [[v [[<- <-]|[? Hv]]%lookup_insert_Some]|Hx]; [right; split; congruence|left; by eauto 6..].
  - left. destruct Hx as [[v [? Hv]%lookup_delete_Some]|Hx]; by eauto 6.
  - left. destruct Hx as [[v [? Hv]%lookup_delete_Some]|[v [[<- <-]|[? Hv]]%lookup_insert_Some]];
      by eauto 6.
Qed.

Lemma startedAt_move now r r' : move now r r' -> startedAt r' = startedAt r.
Proof.
  destruct 1 as [? Hc|? Hc|????????? Hc|??????? Hc|???????????? Hc|????? Hc|???? Hc];
    by rewrite (startedAt_core _ _ Hc).
Qed.

Lemma finishedCount_wrap n r :
  events_bound (S n) -> actor_inv n r -> wrap64 (finishedCount r + 1) = finishedCount r + 1.
Proof.
  intros Hb [_ _ _ [_ _ Ho Hc] ? _ _]. apply wrap64_id.
  unfold int64_ok, events_bound, min_int64, max_int64 in *. lia.
Qed.

Lemma timely_move now now' r r' n :
  events_bound (S n) -> actor_inv n r ->
  now <= now' -> move now' r r' -> timely now r -> timely now' r'.
Proof.
  intros Hb Hinv Hle Hm [Hrange Horder Hstart].
  pose proof (finishedCount_wrap n r Hb Hinv) as Hw.
  assert (forall k t, finisher r k t -> k <= finishedCount r) as Hbound.
  { intros k t (p & Hp & Hk & _). destruct Hinv as [_ _ _ [_ Hr _ _] _ _ _].
    rewrite Forall_forall in Hr. apply Hr. apply list_elem_of_omap. eauto. }
  constructor; rewrite ?(startedAt_move _ _ _ Hm); [| |lia].
  - intros k t Hf. apply (finisher_move _ _ _ _ _ Hm) in Hf as [Hf|[_ ->]]; [|lia].
    specialize (Hrange _ _ Hf). lia.
  - intros k t k' t' [Hf|[-> ->]]%(finisher_move _ _ _ _ _ Hm)
      [Hf'|[-> ->]]%(finisher_move _ _ _ _ _ Hm) Hlt; [by eauto| | |lia].
    + specialize (Hrange _ _ Hf). lia.
    + specialize (Hbound _ _ Hf'). lia.
Qed.

(** ** The invariant of the transition system *)

Record sys_inv (n : nat) (s : Sys) : Prop := {
  si_actor : actor_inv n (actor (world s));
  si_teardown : teardown_inv (world s);
  si_timely : timely (clock s) (actor (world s));
  si_inbox : (length (inbox (actor (world s))) <= inboxCapacity)%nat;
  si_sending : Forall event_ok (sending s);
  si_timers : map_Forall (fun _ tm => event_ok (tm_event tm)) (timers (world s))
}.

Lemma timely_core now r r' : core r' = core r -> timely now r -> timely now r'.
Proof.
  intros Hc [H1 H2 H3]. rewrite <- (startedAt_core _ _ Hc) in H1, H3.
  constructor; [| |done].
  - intros k t Hf. by eapply H1, finisher_core.
  - intros k t k' t' Hf Hf'. by apply H2; eapply finisher_core.
Qed.

Lemma timely_mono now now' r : now <= now' -> timely now r -> timely now' r.
Proof.
  intros Hle [H1 H2 H3]. constructor; [|done|lia]. intros k t Hf. specialize (H1 _ _ Hf). lia.
Qed.

(** The inbox is not part of what [timely] speaks of. *)
Lemma timely_inbox now r q : timely now r -> timely now (r <| inbox := q |>).
Proof. intros [H1 H2 H3]. by constructor. Qed.

Lemma inbox_applyEvent e ev w : inbox (actor (applyEvent e ev w)) = inbox (actor w).
Proof.
  destruct (applyEvent_move e w ev) as [? Hc|? Hc|????????? Hc|??????? Hc|???????????? Hc
    |????? Hc|???? Hc]; unfold core in Hc; by simplify_eq/=.
Qed.

(** Timers only carry the events the room creates for itself. *)
Definition timers_carry (P : RoomEvent -> Prop) (w : World) : Prop :=
  map_Forall (fun _ tm => P (tm_event tm)) (timers w).

Definition timers_ok : World -> Prop := timers_carry event_ok.

Lemma timers_carry_stop P t w : timers_carry P w -> timers_carry P (stop_timer t w).
Proof. intros H. by apply map_Forall_delete. Qed.

Lemma timers_ok_stop t w : timers_ok w -> timers_ok (stop_timer t w).
Proof. apply timers_carry_stop. Qed.

Lemma timers_broadcast m w : timers (broadcast_marshalled m w) = timers w.
Proof. by destruct m. Qed.

Lemma timers_snapshot e w : timers (broadcastSnapshot e w) = timers w.
Proof. unfold broadcastSnapshot. by rewrite timers_broadcast. Qed.

Lemma timers_check e w : timers (checkRaceFinished e w) = timers w.
Proof.
  unfold checkRaceFinished, finishRace, expirePendingRoom.
  destruct (finished _); [done|]. destruct (existsb _ _); [done|].
  destruct (negb _).
  - destruct (err_CancelRace e); [done|]. exact (timers_broadcast RaceExpiredMessage _).
  - destruct (err_FinishRace e); [exact (timers_snapshot e w)|].
    trans (timers (broadcastSnapshot e w)); [|apply timers_snapshot].
    exact (timers_broadcast _ _).
Qed.

Lemma timers_carry_applyEvent (P : RoomEvent -> Prop) e ev w :
  (forall u, P (ParticipantEvicted u)) -> timers_carry P w -> timers_carry P (applyEvent e ev w).
Proof.
  intros HP H. destruct ev as [u d|u seq words pace|u|u|u|u reply| |txt|]; cbn [applyEvent].
  - unfold timers_carry, applyJoined. rewrite timers_snapshot.
    destruct (participants (actor w) !! u) as [p|]; [|done].
    destruct (ps_DisconnectedAt p); [|done].
    destruct (ps_graceTimer p); [by apply timers_carry_stop|done].
  - unfold timers_carry, applyTelemetry. destruct (negb _); [done|].
    destruct (participants (actor w) !! u); [|done]. destruct (_ <=? _); [done|].
    destruct (_ && _); [|done]. by rewrite timers_check.
  - unfold applyDisconnected. destruct (participants (actor w) !! u) as [p|]; [|done].
    apply map_Forall_insert_2; [apply HP|].
    destruct (ps_graceTimer p); [by apply timers_carry_stop|done].
  - unfold timers_carry, applyEvicted, departParticipant.
    destruct (participants (actor w) !! u) as [p|]; [|done].
    case_bool_decide; [by rewrite timers_check|done].
  - unfold timers_carry, applyLeft, departParticipant.
    destruct (participants (actor w) !! u) as [p|]; [|done].
    destruct (active _); by rewrite timers_check.
  - unfold timers_carry, applyEvictionQuery. by destruct (replies w !! reply).
  - unfold timers_carry. by rewrite timers_check.
  - done.
  - unfold timers_carry, applyPendingExpired, expirePendingRoom. destruct (_ || _); [done|].
    by destruct (err_CancelRace e).
Qed.

Lemma timers_applyEvent e ev w : timers_ok w -> timers_ok (applyEvent e ev w).
Proof. by apply timers_carry_applyEvent. Qed.

(** The inbox is a buffered channel. *)
Lemma inbox_capacity now raceID distance n s :
  reachable now raceID distance n s -> (length (inbox (actor (world s))) <= inboxCapacity)%nat.
Proof.
  induction 1 as [|n l s s' _ IH _ Hx]; [simpl; unfold inboxCapacity; lia|].
  destruct l as [ev|i|i|e|e| |t| | |d]; simpl in Hx; try (by simplify_eq).
  - apply bind_Some in Hx as (ev & _ & Hx). case_bool_decide; simplify_eq. cbn. rewrite length_app. cbn. lia.
  - destruct (_ && _); by simplify_eq.
  - destruct (inbox (actor (world s))) as [|ev rest]; [done|]. destruct (_ && _); simplify_eq. cbn.
    rewrite inbox_applyEvent. cbn in *. lia.
  - destruct (running s); simplify_eq.
    assert (Hc : inbox (actor (broadcastSnapshot e (world s))) = inbox (actor (world s))).
    { pose proof (core_broadcastSnapshot e (world s)) as Hc. unfold core in Hc. by injection Hc. }
    cbn. by rewrite Hc.
  - destruct (_ && _); by simplify_eq.
  - apply bind_Some in Hx as (tm & _ & Hx). destruct (_ <=? _); by simplify_eq.
  - destruct (broadcast _); by simplify_eq.
Qed.

Lemma sys_inv_initial now raceID distance : sys_inv 0 (initial now raceID distance).
Proof.
  constructor; simpl.
  - constructor; simpl; [done|done|by rewrite dom_empty_L| |lia|done|constructor].
    apply ledger_nil.
  - constructor; simpl; [done|lia|done|]. intros d rs err Hin. by apply not_elem_of_nil in Hin.
  - constructor; simpl; [| |lia].
    + intros k t (p & Hp & _). by apply elem_of_nil in Hp.
    + intros k t k' t' (p & Hp & _). by apply elem_of_nil in Hp.
  - unfold inboxCapacity. lia.
  - done.
  - apply map_Forall_insert_2; [done|]. by apply map_Forall_insert_2.
Qed.

Lemma Forall_delete_elem {A} (P : A -> Prop) i l : Forall P l -> Forall P (delete i l).
Proof. intros H. revert i. induction H; intros [|i]; simpl; auto. Qed.

Lemma actor_inv_inbox n r q :
  Forall event_ok q -> actor_inv n r -> actor_inv n (r <| inbox := q |>).
Proof. intros Hq H. split_inv H. by constructor. Qed.

Lemma teardown_with_inbox q w :
  teardown_inv w -> teardown_inv (with_actor (fun r => r <| inbox := q |>) w).
Proof. intros H. eapply teardown_quiet; [by apply quiet_with_actor|done]. Qed.

(** A step keeps teardown tied to the outcome, whatever the counters do. *)
Lemma teardown_exec l s s' : teardown_inv (world s) -> exec l s = Some s' -> teardown_inv (world s').
Proof.
  intros Ht Hx. destruct l as [ev|i|i|e|e| |t| | |d]; simpl in Hx.
  - by simplify_eq.
  - apply bind_Some in Hx as (ev & Hev & Hx). case_bool_decide; simplify_eq. by apply teardown_with_inbox.
  - by destruct (_ && _); simplify_eq.
  - destruct (inbox (actor (world s))) as [|ev rest]; [done|]. destruct (_ && _); simplify_eq.
    by apply teardown_applyEvent, teardown_with_inbox.
  - destruct (running s); simplify_eq. by apply teardown_record, teardown_broadcastSnapshot.
  - by destruct (_ && _); simplify_eq.
  - apply bind_Some in Hx as (tm & Hlk & Hx). destruct (_ <=? _); simplify_eq.
    eapply teardown_quiet; [apply quiet_stop|done].
  - destruct (broadcast (actor (world s))) as [|b rest] eqn:Hbr; simplify_eq.
    destruct Ht as [H1 H2 H3 H4]. constructor; [done| |done|done]. simpl. rewrite Hbr in H2. simpl in H2. lia.
  - simplify_eq. destruct Ht as [H1 H2 H3 H4]. by constructor.
  - by simplify_eq.
Qed.

Lemma teardown_reachable now raceID distance n s : reachable now raceID distance n s -> teardown_inv (world s).
Proof. induction 1 as [|n l s s' _ IH _ Hx]; [apply (sys_inv_initial now raceID distance)|by eapply teardown_exec]. Qed.

Lemma sys_inv_exec n l s s' :
  events_bound (S n) -> label_ok l -> sys_inv n s -> exec l s = Some s' -> sys_inv (S n) s'.
Proof.
  intros Hb Hl [Ha Ht Hti Hi Hs Htm] Hx.
  assert (actor_inv (S n) (actor (world s))) as Ha' by (apply (actor_inv_mono n); [lia|done]).
  pose proof (inv_inbox _ _ Ha) as Hq. pose proof (teardown_exec _ _ _ Ht Hx) as Ht'.
  destruct l as [ev|i|i|e|e| |t| | |d]; simpl in Hx.
  - simplify_eq. constructor; simpl; try done. by apply Forall_app_2; [|constructor].
  - apply bind_Some in Hx as (ev & Hev & Hx). case_bool_decide as Hlen; simplify_eq.
    assert (event_ok ev) as Hok by (rewrite Forall_lookup in Hs; eauto).
    constructor; simpl; [|exact Ht'|by apply timely_inbox| | |done].
    + apply actor_inv_inbox; [|done]. by apply Forall_app_2; [|constructor].
    + rewrite length_app. simpl. lia.
    + by apply Forall_delete_elem.
  - destruct (_ && _); simplify_eq. constructor; simpl; try done. by apply Forall_delete_elem.
  - destruct (inbox (actor (world s))) as [|ev rest] eqn:Hin; [done|].
    destruct (running s); simpl in Hx; [|done].
    destruct (Z.leb_spec (clock s) (env_ts e)), (Z.leb_spec (env_ts e) (env_now e));
      simpl in Hx; simplify_eq.
    inversion Hq as [|? ? Hev Hrest]; subst.
    set (w := with_actor (fun r => r <| inbox := rest |>) (world s)).
    assert (actor_inv n (actor w)) as Haw by (by apply actor_inv_inbox).
    constructor; simpl; [|exact Ht'| | |done|by apply timers_applyEvent].
    + by apply actor_inv_applyEvent.
    + eapply timely_move; [exact Hb|exact Haw| |apply applyEvent_move|by apply timely_inbox]. lia.
    + rewrite inbox_applyEvent. simpl in *. lia.
  - destruct (running s); simplify_eq. assert (Hc := core_broadcastSnapshot e (world s)).
    constructor; simpl; [by eapply actor_inv_core|exact Ht'|by eapply timely_core| |done|].
    + unfold core in Hc. injection Hc. intros. simpl in *. congruence.
    + unfold timers_ok, timers_carry. by rewrite timers_snapshot.
  - destruct (_ && _); simplify_eq. by constructor.
  - apply bind_Some in Hx as (tm & Hlk & Hx). destruct (_ <=? _); simplify_eq.
    constructor; simpl; try done; [|].
    + apply Forall_app_2; [done|]. constructor; [|done]. exact (Htm _ _ Hlk).
    + by apply map_Forall_delete.
  - destruct (broadcast (actor (world s))) as [|b rest] eqn:Hbr; simplify_eq.
    by constructor; simpl; [eapply actor_inv_core, Ha'|exact Ht'|eapply timely_core, Hti|..].
  - simplify_eq. by constructor; simpl; [eapply actor_inv_core, Ha'|exact Ht'|eapply timely_core, Hti|..].
  - simplify_eq. constructor; simpl; try done. eapply timely_mono; [|exact Hti]. lia.
Qed.

Lemma sys_inv_reachable now raceID distance n s :
  events_bound n -> reachable now raceID distance n s -> sys_inv n s.
Proof.
  intros Hb Hr. induction Hr as [|n l s s' Hr IH Hl Hx]; [apply sys_inv_initial|].
  eapply sys_inv_exec; [done|done| |done]. apply IH. unfold events_bound in *. lia.
Qed.
