(* ===== verification/RoomResults.v ===== *)
(** * The results a room persists

    Where a call to the race finisher can come from, and what its results look
    like: ranks, the shared last place, finish times. *)
From Stdlib Require Import ZArith Floats.SpecFloat.
From stdpp Require Import base list gmap sets strings.
From S2P Require Import Prelude GoNum Json Events Room RoomRun RoomInv RoomSys.
Local Open Scope Z_scope.

(** ** The calls an event makes *)

(** The race is over for [r]: it started and nobody live is still racing. *)
Definition race_over (r : RoomActor) : Prop :=
  active r = true /\ map_Forall (fun _ p => is_Some (ps_FinishRank p)) (participants r).

Lemma still_racing_false p : still_racing p = false <-> is_Some (ps_FinishRank p).
Proof. unfold still_racing. destruct (ps_FinishRank p); split; intros H; [by eauto|done|done|by destruct H]. Qed.

Lemma existsb_iteration m l :
  is_iteration m l ->
  existsb still_racing l = false <-> map_Forall (fun _ p => is_Some (ps_FinishRank p)) m.
Proof.
  intros Hit. rewrite <- (is_iteration_forall m l) by done. clear Hit.
  induction l as [|p l IH]; simpl; [split; [constructor|done]|].
  rewrite orb_false_iff, Forall_cons, still_racing_false, IH. done.
Qed.

Lemma race_results_core e r r' : core r' = core r -> race_results e r' = race_results e r.
Proof.
  unfold core, race_results, buildParticipantResult. destruct r, r'. simpl. intros. by simplify_eq.
Qed.

Lemma race_over_core r r' : core r' = core r -> race_over r -> race_over r'.
Proof. unfold core, race_over. destruct r, r'. simpl. intros. by simplify_eq. Qed.
Lemma distance_core r r' : core r' = core r -> distanceMeters r' = distanceMeters r.
Proof. unfold core. intros. by simplify_eq. Qed.

Lemma calls_broadcast m w : calls (broadcast_marshalled m w) = calls w.
Proof. by destruct m. Qed.
Lemma calls_snapshot e w : calls (broadcastSnapshot e w) = calls w.
Proof. unfold broadcastSnapshot. by rewrite calls_broadcast. Qed.

Definition finish_call (c : Call) : bool :=
  match c with CallFinishRace _ _ _ => true | _ => false end.

Lemma check_finish_call e w d rs err :
  env_ok e -> CallFinishRace d rs err ∈ calls (checkRaceFinished e w) ->
  CallFinishRace d rs err ∈ calls w \/
  (race_over (actor w) /\ d = distanceMeters (actor w) /\ rs = race_results e (actor w)).
Proof.
  intros He. unfold checkRaceFinished.
  destruct (finished (actor w)); [by left|].
  destruct (existsb _ _) eqn:Hall; [by left|].
  destruct (active (actor w)) eqn:Ha; cbn [negb].
  - unfold finishRace. set (w1 := broadcastSnapshot e w).
    assert (distanceMeters (actor w1) = distanceMeters (actor w)) as Hd.
    { apply distance_core, core_broadcastSnapshot. }
    assert (race_over (actor w)) as Hover.
    { split; [done|]. eapply existsb_iteration, Hall. apply He. }
    destruct (err_FinishRace e); simpl; rewrite ?calls_broadcast; simpl;
      unfold w1; rewrite calls_snapshot, ?elem_of_app, ?list_elem_of_singleton;
      intros Hin; rewrite <- Hd; naive_solver.
  - unfold expirePendingRoom, broadcastRaceExpired.
    destruct (err_CancelRace e); simpl; rewrite elem_of_app, list_elem_of_singleton; naive_solver.
Qed.

(** Every finish call an event makes is made in the state the event leaves
    behind, with exactly that state's results. *)
Lemma applyEvent_finish_call e ev w d rs err :
  env_ok e -> CallFinishRace d rs err ∈ calls (applyEvent e ev w) ->
  CallFinishRace d rs err ∈ calls w \/
  (race_over (actor (applyEvent e ev w)) /\ d = distanceMeters (actor (applyEvent e ev w)) /\
   rs = race_results e (actor (applyEvent e ev w))).
Proof.
  intros He.
  assert (forall v, calls v = calls w \/ (exists c, finish_call c = false /\ calls v = calls w ++ [c]) ->
    CallFinishRace d rs err ∈ calls (checkRaceFinished e v) ->
    CallFinishRace d rs err ∈ calls w \/
    (race_over (actor (checkRaceFinished e v)) /\
     d = distanceMeters (actor (checkRaceFinished e v)) /\
     rs = race_results e (actor (checkRaceFinished e v)))) as Hcheck.
  { intros v Hv Hin. pose proof (core_checkRaceFinished e v) as Hc.
    apply check_finish_call in Hin as [Hin|(Hover & Hd & Hrs)]; [| |done].
    - left. destruct Hv as [Heq|(c & Hc' & Heq)]; rewrite Heq in Hin; [done|].
      rewrite elem_of_app in Hin.
      destruct Hin as [Hin| <-%list_elem_of_singleton]; done.
    - right. rewrite (race_results_core e _ _ Hc). split; [|split; [|done]].
      + by apply (race_over_core _ _ Hc).
      + by rewrite (distance_core _ _ Hc). }
  destruct ev as [u dn|u seq words pace|u|u|u|u reply| |txt|]; cbn [applyEvent].
  - unfold applyJoined. rewrite calls_snapshot. destruct (participants (actor w) !! u) as [p|]; [|auto].
    destruct (ps_DisconnectedAt p); [|auto]. destruct (ps_graceTimer p); auto.
  - unfold applyTelemetry. destruct (negb _); [auto|].
    destruct (participants (actor w) !! u); [|auto]. destruct (_ <=? _); [auto|].
    destruct (_ && _).
    + apply Hcheck. right. eexists. split; [|done]. done.
    + simpl. rewrite elem_of_app, list_elem_of_singleton. naive_solver.
  - unfold applyDisconnected. destruct (participants (actor w) !! u) as [p|]; [|auto].
    destruct (ps_graceTimer p); auto.
  - unfold applyEvicted. destruct (participants (actor w) !! u); [|auto].
    case_bool_decide; [|auto]. apply Hcheck. right. eexists. split; [|done]. done.
  - unfold applyLeft. destruct (participants (actor w) !! u); [|auto].
    destruct (active _); apply Hcheck; right; eexists; (split; [|done]); done.
  - unfold applyEvictionQuery. destruct (replies w !! reply); auto.
  - apply Hcheck. auto.
  - auto.
  - unfold applyPendingExpired. destruct (_ || _); [auto|].
    unfold expirePendingRoom, broadcastRaceExpired.
    destruct (err_CancelRace e); simpl; rewrite elem_of_app, list_elem_of_singleton; naive_solver.
Qed.

(** ** What the results of a finished race look like *)

(** The rank of a result that crossed the line. *)
Definition finisher_rank (x : ParticipantResult) : option Z :=
  match res_FinishTimeMs x with Some _ => res_FinishRank x | None => None end.

Record results_ok (rs : list ParticipantResult) : Prop := {
  results_ranked : Forall (fun x => is_Some (res_FinishRank x)) rs;
  results_distinct : NoDup (omap finisher_rank rs);
  results_positive : Forall (fun k => 1 <= k) (omap finisher_rank rs);
  results_shared x y : x ∈ rs -> y ∈ rs -> res_FinishTimeMs x = None ->
    res_FinishTimeMs y = None -> res_FinishRank x = res_FinishRank y;
  results_last x y k : x ∈ rs -> y ∈ rs -> finisher_rank x = Some k ->
    res_FinishTimeMs y = None -> exists last, res_FinishRank y = Some last /\ k < last;
  results_times x y k k' ms ms' : x ∈ rs -> y ∈ rs ->
    finisher_rank x = Some k -> finisher_rank y = Some k' -> k < k' ->
    res_FinishTimeMs x = Some ms -> res_FinishTimeMs y = Some ms' -> 0 <= ms <= ms'
}.

Lemma milliseconds_mono a b : a <= b -> milliseconds a <= milliseconds b.
Proof. unfold milliseconds. intros. apply Z.quot_le_mono; lia. Qed.

Lemma time_sub_mono a b c : a <= b -> time_sub a c <= time_sub b c.
Proof. unfold time_sub, min_int64, max_int64. lia. Qed.

Lemma finish_ms_bounds start t t' :
  start <= t <= t' ->
  0 <= milliseconds (time_sub t start) <= milliseconds (time_sub t' start).
Proof.
  intros Ht. split.
  - apply (Z.le_trans _ (milliseconds (time_sub start start))).
    + unfold milliseconds, time_sub, min_int64, max_int64. rewrite Z.sub_diag. done.
    + apply milliseconds_mono, time_sub_mono. lia.
  - apply milliseconds_mono, time_sub_mono. lia.
Qed.

(** The results are the held states, each converted. *)
Lemma race_results_states e r :
  env_ok e -> race_results e r ≡ₚ buildParticipantResult r <$> states r.
Proof.
  intros He. unfold race_results, states. rewrite fmap_app.
  by rewrite (He LiveResultsLoop (participants r)),
    (He DepartedResultsLoop (departedParticipants r)).
Qed.

Lemma elem_of_race_results e r x :
  env_ok e -> x ∈ race_results e r <->
    exists p, p ∈ states r /\ x = buildParticipantResult r p.
Proof.
  intros He. rewrite (race_results_states e r He), list_elem_of_fmap. naive_solver.
Qed.

Section results.
Context (n : nat) (now : Z) (r : RoomActor).
Context (Hinv : actor_inv n r) (Htimely : timely now r).

Lemma states_ok p : p ∈ states r -> state_ok p.
Proof.
  intros [[u Hp]|[u Hp]]%elem_of_states.
  - apply (inv_live n r Hinv) in Hp as [_ ?]. done.
  - apply (inv_departed n r Hinv) in Hp as [_ ?]. done.
Qed.

Lemma finisher_rank_build p :
  state_ok p -> finisher_rank (buildParticipantResult r p) = ps_FinishRank p.
Proof.
  intros [Hiff _]. unfold finisher_rank, buildParticipantResult. simpl.
  destruct (ps_FinishedAt p), (ps_FinishRank p); simpl; try done.
  - destruct Hiff as [Hiff _]. by destruct Hiff.
  - destruct Hiff as [_ Hiff]. by destruct Hiff.
Qed.

Lemma finisher_ranks (l : list ParticipantState) : (forall p, p ∈ l -> state_ok p) ->
  omap finisher_rank (buildParticipantResult r <$> l) = omap ps_FinishRank l.
Proof.
  induction l as [|p l IH]; intros Hl; [done|]. rewrite fmap_cons. unfold omap in *. simpl.
  rewrite finisher_rank_build, IH; [done| |]; set_solver.
Qed.

Lemma build_no_time p : res_FinishTimeMs (buildParticipantResult r p) = None ->
  state_ok p -> ps_FinishRank p = None.
Proof.
  intros H [Hiff _]. unfold buildParticipantResult in H. simpl in H.
  destruct (ps_FinishedAt p), (ps_FinishRank p); try done.
  destruct Hiff as [_ Hiff]. by destruct Hiff.
Qed.

(** With somebody still unranked, every rank given out is below the total. *)
Lemma rank_below_total p q k :
  p ∈ states r -> q ∈ states r -> ps_FinishRank p = Some k -> ps_FinishRank q = None ->
  k < totalParticipants r.
Proof.
  intros Hp Hq Hk Hn. destruct (inv_ledger n r Hinv) as [_ Hr Ho _].
  rewrite Forall_forall in Hr.
  assert (k ∈ omap ps_FinishRank (states r)) as Hin by (apply list_elem_of_omap; eauto).
  specialize (Hr _ Hin).
  assert (q ∈ filter (fun p => Is_true (still_racing p)) (states r)) as Hf.
  { apply list_elem_of_filter. split; [|done]. unfold still_racing. by rewrite Hn. }
  destruct (filter _ (states r)); [by apply elem_of_nil in Hf|]. simpl in Ho. lia.
Qed.

Lemma race_results_ok e : env_ok e -> results_ok (race_results e r).
Proof.
  intros He.
  assert (omap finisher_rank (race_results e r) ≡ₚ omap ps_FinishRank (states r)) as Hperm.
  { rewrite (race_results_states e r He), finisher_ranks; [done|apply states_ok]. }
  destruct (inv_ledger n r Hinv) as [Hd Hr Ho Hc]. constructor.
  - apply Forall_forall. intros x (p & Hp & ->)%elem_of_race_results; [|done].
    unfold buildParticipantResult. simpl. destruct (ps_FinishRank p); eauto.
  - by rewrite Hperm.
  - rewrite Hperm. eapply Forall_impl; [exact Hr|]. simpl. lia.
  - intros x y (p & Hp & ->)%elem_of_race_results (q & Hq & ->)%elem_of_race_results Hx Hy;
      [|done..]. apply build_no_time in Hx, Hy; [|by apply states_ok..].
    unfold buildParticipantResult. simpl. by rewrite Hx, Hy.
  - intros x y k (p & Hp & ->)%elem_of_race_results (q & Hq & ->)%elem_of_race_results Hx Hy;
      [|done..]. rewrite finisher_rank_build in Hx by by apply states_ok.
    apply build_no_time in Hy; [|by apply states_ok].
    exists (totalParticipants r). split; [unfold buildParticipantResult; simpl; by rewrite Hy|].
    exact (rank_below_total p q k Hp Hq Hx Hy).
  - intros x y k k' ms ms' (p & Hp & ->)%elem_of_race_results
      (q & Hq & ->)%elem_of_race_results Hx Hy Hlt Hms Hms'; [|done..].
    rewrite finisher_rank_build in Hx, Hy by by apply states_ok.
    unfold buildParticipantResult in Hms, Hms'. simpl in Hms, Hms'.
    destruct (ps_FinishedAt p) as [t|] eqn:Ht, (ps_FinishedAt q) as [t'|] eqn:Ht'; simplify_eq.
    assert (finisher r k t) as Hf by (by exists p).
    assert (finisher r k' t') as Hf' by (by exists q).
    pose proof (timely_range _ _ Htimely _ _ Hf).
    pose proof (timely_order _ _ Htimely _ _ _ _ Hf Hf' Hlt).
    apply finish_ms_bounds. lia.
Qed.
End results.
