(* ===== verification/RoomProps.v ===== *)
(** * Correctness of the room actor

    The theorems about a running room: what it persists and when, its life
    cycle, what telemetry, disconnections and departures do to a participant,
    and what its broadcasts contain. *)
From Stdlib Require Import ZArith Floats.SpecFloat.
From stdpp Require Import base list gmap sets strings.
From S2P Require Import Prelude GoNum Json Events Room RoomRun RoomInv RoomSys RoomResults.
Local Open Scope Z_scope.

(** ** Steps *)

(** What a step of the system does to the actor: it handles an event, or it
    leaves the core fields (all but the inbox) alone. *)
Definition same_room (r r' : RoomActor) : Prop :=
  core (r' <| inbox := [] |>) = core (r <| inbox := [] |>).

Lemma same_room_core r r' : core r' = core r -> same_room r r'.
Proof. unfold same_room, core. destruct r, r'. simpl. intros. by simplify_eq. Qed.

Local Ltac still := simplify_eq; solve [split_and!; [done|done|done|intros; by left]].

Lemma exec_world l s s' : exec l s = Some s' ->
  (exists e ev rest, l = Apply e /\ inbox (actor (world s)) = ev :: rest /\
     clock s <= env_ts e <= env_now e /\
     world s' = applyEvent e ev (with_actor (fun r => r <| inbox := rest |>) (world s))) \/
  (same_room (actor (world s)) (actor (world s')) /\
   finished (actor (world s')) = finished (actor (world s)) /\
   outcomes (world s') = outcomes (world s) /\
   (forall c, c ∈ calls (world s') -> c ∈ calls (world s) \/ c = CallObserveTick)).
Proof.
  intros Hx. destruct l as [ev|i|i|e|e| |t| | |d]; simpl in Hx.
  - right. still.
  - right. apply bind_Some in Hx as (ev & _ & Hx). case_bool_decide; still.
  - right. destruct (_ && _); still.
  - left. destruct (inbox (actor (world s))) as [|ev rest] eqn:Hin; [done|].
    destruct (running s); simpl in Hx; [|done].
    destruct (Z.leb_spec (clock s) (env_ts e)), (Z.leb_spec (env_ts e) (env_now e));
      simpl in Hx; simplify_eq. eauto 10.
  - right. destruct (running s); simplify_eq. split_and!.
    + apply same_room_core. exact (core_broadcastSnapshot e (world s)).
    + change (finished (actor (broadcastSnapshot e (world s))) = finished (actor (world s))).
      unfold broadcastSnapshot. by destruct (RaceStateMessage _ _).
    + change (outcomes (record_call CallObserveTick (broadcastSnapshot e (world s)))
        = outcomes (world s)).
      rewrite outcomes_record. cbn [terminal]. unfold outcomes. by rewrite calls_snapshot, app_nil_r.
    + intros c Hc. change (c ∈ calls (broadcastSnapshot e (world s)) ++ [CallObserveTick]) in Hc.
      rewrite calls_snapshot, elem_of_app, list_elem_of_singleton in Hc. exact Hc.
  - right. destruct (_ && _); still.
  - right. apply bind_Some in Hx as (tm & _ & Hx). destruct (_ <=? _); still.
  - right. destruct (broadcast _); still.
  - right. still.
  - right. still.
Qed.

(** Any step is a move of the participants. *)
Lemma exec_move l s s' : exec l s = Some s' -> exists now q,
  move now ((actor (world s)) <| inbox := q |>) ((actor (world s')) <| inbox := q |>).
Proof.
  intros [(e & ev & rest & -> & Hin & _ & Hw)|(Hsame & _)]%exec_world.
  - exists (env_now e), rest. rewrite Hw.
    pose proof (applyEvent_move e (with_actor (fun r => r <| inbox := rest |>) (world s)) ev) as Hm.
    pose proof (inbox_applyEvent e ev (with_actor (fun r => r <| inbox := rest |>) (world s))) as Hi.
    set (r' := actor (applyEvent _ _ _)) in *. simpl in Hi.
    replace (r' <| inbox := rest |>) with r'; [exact Hm|]. destruct r'. simpl in *. by subst.
  - exists 0, []. apply move_stay. exact Hsame.
Qed.

Lemma distance_move now r r' : move now r r' -> distanceMeters r' = distanceMeters r.
Proof.
  destruct 1 as [? Hc|? Hc|????????? Hc|??????? Hc|???????????? Hc|????? Hc|???? Hc];
    by rewrite (distance_core _ _ Hc).
Qed.

Lemma distance_exec l s s' : exec l s = Some s' ->
  distanceMeters (actor (world s')) = distanceMeters (actor (world s)).
Proof. intros (now & q & Hm)%exec_move. by apply distance_move in Hm. Qed.

Lemma distance_reachable now raceID distance n s :
  reachable now raceID distance n s -> distanceMeters (actor (world s)) = distance.
Proof. induction 1 as [|n l s s' _ IH _ Hx]; [done|]. by rewrite (distance_exec _ _ _ Hx). Qed.

(** ** What is persisted *)

Lemma finish_call_reachable now raceID distance n s d rs err :
  events_bound n -> reachable now raceID distance n s ->
  CallFinishRace d rs err ∈ calls (world s) -> results_ok rs /\ d = distance.
Proof.
  intros Hb Hr. induction Hr as [|n l s s' Hr IH Hl Hx]; [by intros ?%not_elem_of_nil|].
  assert (events_bound n) as Hbn by (unfold events_bound in *; lia).
  pose proof (sys_inv_reachable _ _ _ _ _ Hbn Hr) as Hinv.
  pose proof (sys_inv_exec _ _ _ _ Hb Hl Hinv Hx) as Hinv'.
  pose proof (distance_reachable _ _ _ _ _ (reach_step _ _ _ _ _ _ _ Hr Hl Hx)) as Hd.
  intros Hin. pose proof Hx as Hx'. apply exec_world in Hx' as
    [(e & ev & rest & -> & _ & _ & Hw)|(_ & _ & _ & Hcalls)].
  - rewrite Hw in Hin. apply applyEvent_finish_call in Hin as [Hin|(_ & -> & ->)];
      [by apply IH| |exact Hl]. rewrite <- Hw. split; [|exact Hd].
    eapply race_results_ok; [apply Hinv'|apply Hinv'|exact Hl].
  - apply Hcalls in Hin as [Hin|]; [by apply IH|done].
Qed.

(** C1: whatever a room hands to the race finisher, in any run: every result has
    a rank; the participants who crossed the line have pairwise distinct ranks
    starting at 1, lower ranks with earlier (non-negative) finish times; those
    who did not share one rank, which is after every finisher's; and it only
    happens in a race that was started, with the room's own distance. *)
Theorem finish_results now raceID distance n s d rs err :
  events_bound n -> reachable now raceID distance n s ->
  CallFinishRace d rs err ∈ calls (world s) ->
  results_ok rs /\ d = distance /\ active (actor (world s)) = true.
Proof.
  intros Hb Hr Hin. split_and!.
  - by eapply finish_call_reachable.
  - by eapply finish_call_reachable.
  - eapply ti_finish_active; [|exact Hin]. by eapply si_teardown, sys_inv_reachable.
Qed.

(** ** The life cycle *)

(** The abstract machine a race goes through. *)
Inductive Phase := Pending | Active | Finished | Cancelled.

#[export] Instance Phase_eq_dec : EqDecision Phase.
Proof. solve_decision. Defined.

Inductive phase_step : Phase -> Phase -> Prop :=
  | phase_start : phase_step Pending Active
  | phase_finish : phase_step Active Finished
  | phase_cancel : phase_step Pending Cancelled.

(** The phase of a room is decided by the outcome it has persisted, if any. *)
Definition phase (w : World) : Phase :=
  match outcomes w with
  | CallFinishRace _ _ _ :: _ => Finished
  | CallCancelRace _ :: _ => Cancelled
  | _ => if active (actor w) then Active else Pending
  end.

Lemma active_core r r' : core r' = core r -> active r' = active r.
Proof. unfold core. intros. by simplify_eq. Qed.

Lemma active_move now r r' : move now r r' -> active r = true -> active r' = true.
Proof.
  destruct 1 as [? Hc|? Hc|????????? Hc|??????? Hc|???????????? Hc|????? Hc|???? Hc];
    by rewrite (active_core _ _ Hc).
Qed.

(** How an event can extend the outcomes: not at all, or by the one outcome the
    phase of the room allows. *)
Inductive outcome_step (w w' : World) : Prop :=
  | outcome_none : outcomes w' = outcomes w -> outcome_step w w'
  | outcome_finish d rs :
      finished (actor w) = false -> active (actor w) = true ->
      outcomes w' = outcomes w ++ [CallFinishRace d rs None] -> outcome_step w w'
  | outcome_cancel :
      finished (actor w) = false -> active (actor w) = false -> active (actor w') = false ->
      outcomes w' = outcomes w ++ [CallCancelRace None] -> outcome_step w w'.

Lemma outcomes_broadcast m w : outcomes (broadcast_marshalled m w) = outcomes w.
Proof. unfold outcomes. by rewrite calls_broadcast. Qed.

Lemma outcomes_snapshot e w : outcomes (broadcastSnapshot e w) = outcomes w.
Proof. unfold outcomes. by rewrite calls_snapshot. Qed.

Lemma outcome_expire e w :
  finished (actor w) = false -> active (actor w) = false -> outcome_step w (expirePendingRoom e w).
Proof.
  intros Hf Ha. pose proof (active_core _ _ (core_expirePendingRoom e w)) as Ha'.
  revert Ha'. unfold expirePendingRoom. destruct (err_CancelRace e) as [err|] eqn:He; intros Ha'.
  - apply outcome_none. rewrite outcomes_record. simpl. by rewrite app_nil_r.
  - apply outcome_cancel; [done|done|by rewrite Ha'|].
    trans (outcomes (record_call (CallCancelRace None) w)); [done|]. by rewrite outcomes_record.
Qed.

Lemma outcome_check e w : outcome_step w (checkRaceFinished e w).
Proof.
  unfold checkRaceFinished. destruct (finished (actor w)) eqn:Hf; [by apply outcome_none|].
  destruct (existsb _ _); [by apply outcome_none|].
  destruct (active (actor w)) eqn:Ha; cbn [negb]; [|by apply outcome_expire].
  unfold finishRace. destruct (err_FinishRace e) as [err|].
  - apply outcome_none. rewrite outcomes_record, outcomes_snapshot. simpl. by rewrite app_nil_r.
  - eapply outcome_finish; [done|done|]. unfold outcomes at 1. simpl. rewrite calls_broadcast. simpl.
    rewrite !filter_app, calls_snapshot. fold (outcomes w). rewrite <- app_assoc. f_equal.
Qed.

(** The state an operation starts from may differ from [w] in ways the outcomes
    do not see. *)
Lemma outcome_step_from w v w' :
  finished (actor v) = finished (actor w) -> active (actor v) = active (actor w) ->
  outcomes v = outcomes w -> outcome_step v w' -> outcome_step w w'.
Proof.
  intros Hf Ha Ho [H|d rs H1 H2 H|H1 H2 H3 H].
  - apply outcome_none. congruence.
  - apply (outcome_finish _ _ d rs); congruence.
  - apply outcome_cancel; congruence.
Qed.

Lemma outcomes_quiet_call c w : terminal c = false -> outcomes (record_call c w) = outcomes w.
Proof. intros Hc. by rewrite outcomes_record, Hc, app_nil_r. Qed.

Lemma outcome_applyEvent e ev w : outcome_step w (applyEvent e ev w).
Proof.
  destruct ev as [u d|u seq words pace|u|u|u|u reply| |txt|]; cbn [applyEvent].
  - apply outcome_none. unfold applyJoined. rewrite outcomes_snapshot.
    destruct (participants (actor w) !! u) as [p|]; [|done].
    destruct (ps_DisconnectedAt p); [|done]. by destruct (ps_graceTimer p).
  - unfold applyTelemetry. destruct (negb _); [by apply outcome_none|].
    destruct (participants (actor w) !! u) as [p|]; [|by apply outcome_none].
    destruct (_ <=? _); [by apply outcome_none|]. destruct (_ && _).
    + eapply outcome_step_from; [| | |apply outcome_check]; [done|done|].
      exact (outcomes_quiet_call (CallPublishWorkoutSample _ _ _ _ _) w eq_refl).
    + apply outcome_none. exact (outcomes_quiet_call (CallPublishWorkoutSample _ _ _ _ _) w eq_refl).
  - apply outcome_none. unfold applyDisconnected.
    destruct (participants (actor w) !! u) as [p|]; [|done]. by destruct (ps_graceTimer p).
  - unfold applyEvicted. destruct (participants (actor w) !! u) as [p|]; [|by apply outcome_none].
    case_bool_decide; [|by apply outcome_none].
    eapply outcome_step_from; [| | |apply outcome_check]; [done|done|].
    exact (outcomes_quiet_call (CallMarkEvicted _ _) w eq_refl).
  - unfold applyLeft. destruct (participants (actor w) !! u) as [p|]; [|by apply outcome_none].
    destruct (active (actor w)) eqn:Ha; (eapply outcome_step_from; [| | |apply outcome_check]);
      [done|done|exact (outcomes_quiet_call (CallMarkEvicted _ _) w eq_refl)
      |done|done|exact (outcomes_quiet_call (CallLeaveRace _ _) w eq_refl)].
  - apply outcome_none. unfold applyEvictionQuery. by destruct (replies w !! reply).
  - apply outcome_check.
  - by apply outcome_none.
  - unfold applyPendingExpired. destruct (active (actor w)) eqn:Ha; [by apply outcome_none|].
    destruct (finished (actor w)) eqn:Hf; [by apply outcome_none|]. by apply outcome_expire.
Qed.

Lemma outcomes_empty w : teardown_inv w -> finished (actor w) = false -> outcomes w = [].
Proof. intros H Hf. apply nil_length_inv. by rewrite (ti_outcomes w H), Hf. Qed.

