(* ===== verification/RoomBehaviour.v ===== *)
(** * What each event does to a room

    The functional behaviour of the handlers: the finish condition, telemetry,
    reconnection, departure, eviction queries, snapshots, and the bounds of the
    channels. *)
From Stdlib Require Import ZArith Floats.SpecFloat.
From stdpp Require Import base list gmap sets strings.
From S2P Require Import Prelude GoNum Json Events Room RoomRun RoomInv RoomSys RoomResults RoomProps.
Local Open Scope Z_scope.

(** ** The finish condition *)

(** Nobody live is still racing. *)
Definition all_ranked (r : RoomActor) : Prop :=
  map_Forall (fun _ p => is_Some (ps_FinishRank p)) (participants r).

#[export] Instance all_ranked_dec r : Decision (all_ranked r).
Proof. unfold all_ranked. apply _. Defined.

Definition persist_error (e : Env) (r : RoomActor) : option error :=
  if active r then err_FinishRace e else err_CancelRace e.

Lemma finished_broadcast m w : finished (actor (broadcast_marshalled m w)) = finished (actor w).
Proof. by destruct m. Qed.
Lemma done_broadcast m w : done (actor (broadcast_marshalled m w)) = done (actor w).
Proof. by destruct m. Qed.

Lemma checkRaceFinished_ranked e w :
  env_ok e -> finished (actor w) = false -> all_ranked (actor w) ->
  checkRaceFinished e w =
    if active (actor w) then finishRace e (race_results e (actor w)) w else expirePendingRoom e w.
Proof.
  intros He Hf Hall. unfold checkRaceFinished. rewrite Hf.
  rewrite (proj2 (existsb_iteration _ _ (He FinishCheckLoop _))) by done.
  by destruct (active (actor w)).
Qed.

Lemma checkRaceFinished_racing e w :
  env_ok e -> ~ all_ranked (actor w) -> checkRaceFinished e w = w.
Proof.
  intros He Hall. unfold checkRaceFinished. destruct (finished (actor w)); [done|].
  destruct (existsb _ _) eqn:Hex; [done|]. destruct Hall.
  eapply existsb_iteration, Hex. apply He.
Qed.

(** The finish condition, on every branch: a room that is not finished tears
    down exactly when every live participant has a rank and its outcome is
    persisted without error; if persisting fails the room stays as open as it
    was, and the next check tries again. *)
Theorem checkRaceFinished_spec e w :
  env_ok e -> finished (actor w) = false ->
  let w' := checkRaceFinished e w in
  (finished (actor w') = true <-> all_ranked (actor w) /\ persist_error e (actor w) = None) /\
  (done (actor w') = true <-> done (actor w) = true \/ finished (actor w') = true) /\
  (~ all_ranked (actor w) -> w' = w) /\
  (all_ranked (actor w) ->
     (if active (actor w)
      then CallFinishRace (distanceMeters (actor w)) (race_results e (actor w)) (err_FinishRace e)
      else CallCancelRace (err_CancelRace e)) ∈ calls w').
Proof.
  intros He Hf. simpl. destruct (decide (all_ranked (actor w))) as [Hall|Hall].
  - rewrite (checkRaceFinished_ranked e w He Hf Hall). unfold persist_error.
    destruct (active (actor w)) eqn:Ha.
    + unfold finishRace. set (w1 := broadcastSnapshot e w).
      assert (finished (actor w1) = false /\ done (actor w1) = done (actor w)) as [Hf1 Hd1].
      { unfold w1, broadcastSnapshot. by rewrite finished_broadcast, done_broadcast. }
      assert (distanceMeters (actor w1) = distanceMeters (actor w)) as Hdist.
      { apply distance_core, core_broadcastSnapshot. }
      destruct (err_FinishRace e); simpl;
        rewrite ?finished_broadcast, ?calls_broadcast; simpl; rewrite ?Hf1, ?Hd1, ?Hdist;
        (split_and!; [naive_solver|naive_solver|tauto|set_solver]).
    + unfold expirePendingRoom, broadcastRaceExpired. destruct (err_CancelRace e); simpl;
        rewrite ?Hf; (split_and!; [naive_solver|naive_solver|tauto|set_solver]).
  - rewrite (checkRaceFinished_racing e w He Hall). rewrite Hf.
    split_and!; [naive_solver|naive_solver|done|done].
Qed.

(** ** Telemetry *)

Lemma participants_core r r' : core r' = core r -> participants r' = participants r.
Proof. unfold core. intros. by simplify_eq. Qed.

Lemma finishedCount_core r r' : core r' = core r -> finishedCount r' = finishedCount r.
Proof. unfold core. intros. by simplify_eq. Qed.

Lemma calls_check e w c : c ∈ calls w -> c ∈ calls (checkRaceFinished e w).
Proof.
  intros Hc. unfold checkRaceFinished, finishRace, expirePendingRoom, broadcastRaceExpired.
  destruct (finished _); [done|]. destruct (existsb _ _); [done|]. destruct (negb _).
  - destruct (err_CancelRace e); simpl; set_solver.
  - destruct (err_FinishRace e); simpl; rewrite ?calls_broadcast; simpl;
      rewrite calls_snapshot; set_solver.
Qed.

(** Telemetry is idempotent and immune to reordering: once a message with
    sequence number [seq] was handled, in any state of the room, handling it
    again or handling any older message of that user is a no-op - no state, no
    broadcast, no published sample. *)
Theorem telemetry_replay e e' u seq words pace seq' words' pace' w :
  seq' <= seq ->
  applyTelemetry e' u seq' words' pace' (applyTelemetry e u seq words pace w) =
  applyTelemetry e u seq words pace w.
Proof.
  intros Hle.
  assert (forall v, (active (actor v) = false \/
      match participants (actor v) !! u with Some p => seq <= ps_LastSeq p | None => True end) ->
    applyTelemetry e' u seq' words' pace' v = v) as Hnoop.
  { intros v Hv. unfold applyTelemetry. destruct (active (actor v)); cbn [negb]; [|done].
    destruct Hv as [|Hv]; [done|]. destruct (participants (actor v) !! u); [|done].
    rewrite (proj2 (Z.leb_le _ _)); [done|lia]. }
  apply Hnoop. unfold applyTelemetry. destruct (active (actor w)) eqn:Ha; cbn [negb]; [|auto].
  right. destruct (participants (actor w) !! u) as [p|] eqn:Hp; [|by rewrite Hp].
  destruct (Z.leb_spec seq (ps_LastSeq p)); [by rewrite Hp|].
  destruct (_ && _).
  - rewrite (participants_core _ _ (core_checkRaceFinished e _)). simpl.
    rewrite lookup_insert_eq. simpl. lia.
  - simpl. rewrite lookup_insert_eq. simpl. lia.
Qed.

(** The state of a racer after accepted telemetry. *)
Definition after_telemetry (e : Env) (r : RoomActor) (seq words : Z) (pace : float64)
    (p : ParticipantState) : ParticipantState :=
  let p := p <| ps_WordsCorrect := words |> <| ps_LastSeq := seq |> <| ps_PaceWatt := pace |> in
  if still_racing p && (distanceMeters r <=? words)
  then p <| ps_FinishedAt := Some (env_now e) |>
         <| ps_FinishRank := Some (finishedCount r + 1) |>
  else p.

(** Fresh telemetry of a live participant in an active race, in any
    reachable room: their progress is overwritten, a sample is published, and
    they finish - with the next free rank - exactly when they had not finished
    before and their words reach the distance; nobody else changes. *)
Theorem telemetry_accepted now raceID distance n s e u seq words pace p :
  events_bound (S n) -> reachable now raceID distance n s ->
  active (actor (world s)) = true -> participants (actor (world s)) !! u = Some p ->
  ps_LastSeq p < seq ->
  let w' := applyTelemetry e u seq words pace (world s) in
  participants (actor w') =
    <[u := after_telemetry e (actor (world s)) seq words pace p]> (participants (actor (world s))) /\
  CallPublishWorkoutSample u (env_ts e) words pace (err_PublishWorkoutSample e) ∈ calls w' /\
  finishedCount (actor w') = finishedCount (actor (world s)) +
    (if still_racing p && (distance <=? words) then 1 else 0).
Proof.
  intros Hb Hr Ha Hp Hseq. unfold applyTelemetry. rewrite Ha. cbn [negb]. rewrite Hp.
  rewrite (proj2 (Z.leb_gt _ _)) by done. cbv zeta.
  assert (events_bound n) as Hbn by (unfold events_bound in *; lia).
  pose proof (si_actor _ _ (sys_inv_reachable _ _ _ _ _ Hbn Hr)) as Hinv.
  pose proof (finishedCount_wrap _ _ Hb Hinv) as Hw.
  pose proof (distance_reachable _ _ _ _ _ Hr) as Hd.
  unfold after_telemetry. simpl. rewrite Hd. change (still_racing (_ <| ps_PaceWatt := _ |>)) with (still_racing p).
  destruct (still_racing p && (distance <=? words)) eqn:Hfin.
  - pose proof (core_checkRaceFinished e) as Hc. split_and!.
    + rewrite (participants_core _ _ (Hc _)). simpl. by rewrite insert_insert_eq, Hw.
    + apply calls_check. simpl. set_solver.
    + rewrite (finishedCount_core _ _ (Hc _)). simpl. by rewrite Hw.
  - simpl. split_and!; [done|set_solver|lia].
Qed.

(** ** A participant over time *)

(** While a participant stays in the room, no step of the system moves their
    sequence number back, and once they have finished, their rank and finish
    time never change - reconnections and duplicate joins included. *)
Theorem finish_is_final l s s' u p q :
  exec l s = Some s' ->
  participants (actor (world s)) !! u = Some p ->
  participants (actor (world s')) !! u = Some q ->
  ps_UserID q = ps_UserID p /\ ps_LastSeq p <= ps_LastSeq q /\
  (is_Some (ps_FinishRank p) ->
     ps_FinishRank q = ps_FinishRank p /\ ps_FinishedAt q = ps_FinishedAt p).
Proof.
  intros (now & i & Hm)%exec_move Hp Hq.
  inversion Hm as [? Hc|? Hc|v p1 q1 ? Hv Hid Hrk Hat Hsq Hc|v p1 ? Hv ? ? ? Hc
    |v p1 q1 ? ? Hv Hrk Hid Hsq ? ? ? Hc|v p1 ? ? Hv Hc|v p1 ? Hv Hc]; subst;
    apply participants_core in Hc; simpl in *; rewrite Hc in Hq;
    try apply lookup_insert_Some in Hq as [[<- <-]|[? Hq]];
    try apply lookup_delete_Some in Hq as [? Hq]; simplify_eq; try (split_and!; [done|lia|done]).
  split_and!; [done|done|]. rewrite Hrk. by intros [].
Qed.

(** Putting a participant back into the map removes nobody. *)
Lemma insert_present (m : gmap string ParticipantState) v x u p :
  m !! u = Some p -> <[v := x]> m !! u <> None.
Proof. intros Hp [Hn _]%lookup_insert_None. congruence. Qed.

(** Who an event can remove from the live participants, and how. *)
Lemma depart_removes e w u v p q :
  participants (actor w) !! u = Some p -> participants (actor w) !! v = Some q ->
  participants (actor (departParticipant e v q w)) !! u = None ->
  v = u /\ departedParticipants (actor (departParticipant e v q w)) !! u = Some p /\
  CallMarkEvicted u (err_MarkEvicted e) ∈ calls (departParticipant e v q w).
Proof.
  intros Hp Hq. unfold departParticipant.
  set (w1 := record_call _ _). pose proof (core_checkRaceFinished e w1) as Hc.
  rewrite (participants_core _ _ Hc). simpl. intros [->|Hn]%lookup_delete_None; [|congruence].
  split_and!; [done| |apply calls_check; unfold w1; simpl; set_solver].
  unfold core in Hc. injection Hc. intros _ _ _ _ _ _ _ _ -> _. simpl.
  rewrite lookup_insert_eq. congruence.
Qed.

Lemma applyEvent_removes e ev w u p :
  participants (actor w) !! u = Some p ->
  participants (actor (applyEvent e ev w)) !! u = None ->
  (ev = ParticipantLeft u \/ (ev = ParticipantEvicted u /\ is_Some (ps_DisconnectedAt p))) /\
  (active (actor w) = true ->
     departedParticipants (actor (applyEvent e ev w)) !! u = Some p /\
     CallMarkEvicted u (err_MarkEvicted e) ∈ calls (applyEvent e ev w)).
Proof.
  intros Hp. destruct ev as [v d|v seq words pace|v|v|v|v reply| |txt|]; cbn [applyEvent].
  - unfold applyJoined. rewrite (participants_core _ _ (core_broadcastSnapshot e _)).
    destruct (participants (actor w) !! v) as [q|]; [|by intros []%(insert_present _ _ _ _ _ Hp)].
    destruct (ps_DisconnectedAt q); [|congruence].
    destruct (ps_graceTimer q); by intros []%(insert_present _ _ _ _ _ Hp).
  - unfold applyTelemetry. destruct (negb _); [congruence|].
    destruct (participants (actor w) !! v) as [q|]; [|congruence].
    destruct (_ <=? _); [congruence|]. destruct (_ && _).
    + rewrite (participants_core _ _ (core_checkRaceFinished e _)). simpl.
      rewrite insert_insert_eq. by intros []%(insert_present _ _ _ _ _ Hp).
    + by intros []%(insert_present _ _ _ _ _ Hp).
  - unfold applyDisconnected. destruct (participants (actor w) !! v) as [q|]; [|congruence].
    destruct (ps_graceTimer q); by intros []%(insert_present _ _ _ _ _ Hp).
  - unfold applyEvicted. destruct (participants (actor w) !! v) as [q|] eqn:Hq; [|congruence].
    case_bool_decide; [|congruence].
    intros (-> & ? & ?)%(depart_removes _ _ _ _ _ _ Hp Hq). simplify_eq. eauto.
  - unfold applyLeft. destruct (participants (actor w) !! v) as [q|] eqn:Hq; [|congruence].
    destruct (active (actor w)).
    + intros (-> & ? & ?)%(depart_removes _ _ _ _ _ _ Hp Hq). simplify_eq. eauto.
    + rewrite (participants_core _ _ (core_checkRaceFinished e _)). simpl.
      intros [->|Hn]%lookup_delete_None; [|congruence]. split; [by left|done].
  - unfold applyEvictionQuery. destruct (replies w !! reply); simpl; congruence.
  - rewrite (participants_core _ _ (core_checkRaceFinished e _)). congruence.
  - simpl. congruence.
  - unfold applyPendingExpired. destruct (_ || _); [congruence|].
    rewrite (participants_core _ _ (core_expirePendingRoom e _)). congruence.
Qed.

(** C11: a participant leaves the room only through their own leave message or
    through an eviction that finds them still disconnected - never while
    connected, whatever timer fires; and in an active race nobody vanishes: they
    become a departed participant with the progress they had, barred from
    rejoining through the eviction record. *)
Theorem departure_cause l s s' u p :
  exec l s = Some s' ->
  participants (actor (world s)) !! u = Some p ->
  participants (actor (world s')) !! u = None ->
  exists e ev rest, l = Apply e /\ inbox (actor (world s)) = ev :: rest /\
    (ev = ParticipantLeft u \/ (ev = ParticipantEvicted u /\ is_Some (ps_DisconnectedAt p))) /\
    (active (actor (world s)) = true ->
       departedParticipants (actor (world s')) !! u = Some p /\
       CallMarkEvicted u (err_MarkEvicted e) ∈ calls (world s')).
Proof.
  intros [(e & ev & rest & -> & Hin & _ & Hw)|(Hsame & _)]%exec_world Hp Hn.
  - exists e, ev, rest. rewrite Hw in Hn. apply (applyEvent_removes _ _ _ _ p) in Hn as [H1 H2];
      [|done]. rewrite Hw. split_and!; [done|done|done|]. exact H2.
  - apply participants_core in Hsame. simpl in Hsame. congruence.
Qed.

(** ** Departed participants *)

Lemma departed_exec l s s' u : exec l s = Some s' ->
  is_Some (departedParticipants (actor (world s)) !! u) ->
  is_Some (departedParticipants (actor (world s')) !! u).
Proof.
  intros (now & i & Hm)%exec_move Hu.
  assert (forall r r', core r' = core r -> departedParticipants r' = departedParticipants r) as Hdc.
  { unfold core. intros. by simplify_eq. }
  inversion Hm as [? Hc|? Hc|v p1 q1 ? Hv Hid Hrk Hat Hsq Hc|v p1 ? Hv ? ? ? Hc
    |v p1 q1 ? ? Hv Hrk Hid Hsq ? ? ? Hc|v p1 ? ? Hv Hc|v p1 ? Hv Hc]; subst;
    apply Hdc in Hc; simpl in *; rewrite Hc; try done.
  apply lookup_insert_is_Some'. by right.
Qed.

(** An eviction is for good, and is what the reconnect check reads: in every
    reachable room, [evicted] holds exactly the departed participants, no later
    step takes anyone out of it, and a query handled now answers [true] exactly
    for them. *)
Theorem eviction_permanent now raceID distance n s l s' u reply :
  events_bound (S n) -> reachable now raceID distance n s -> label_ok l -> exec l s = Some s' ->
  replies (world s) !! reply = None ->
  (u ∈ evicted (actor (world s)) -> u ∈ evicted (actor (world s'))) /\
  replies (applyEvictionQuery u reply (world s)) !! reply =
    Some (bool_decide (u ∈ dom (departedParticipants (actor (world s))))).
Proof.
  intros Hb Hr Hl Hx Hq.
  assert (events_bound n) as Hbn by (unfold events_bound in *; lia).
  pose proof (inv_evicted _ _ (si_actor _ _ (sys_inv_reachable _ _ _ _ _ Hbn Hr))) as He.
  pose proof (inv_evicted _ _ (si_actor _ _ (sys_inv_reachable _ _ _ _ _ Hb
    (reach_step _ _ _ _ _ _ _ Hr Hl Hx)))) as He'.
  split.
  - rewrite He, He', !elem_of_dom. by apply (departed_exec l).
  - unfold applyEvictionQuery. rewrite Hq, He. simpl. by rewrite lookup_insert_eq.
Qed.

(** ** Nobody is missing from the results *)

(** C10: when a step hands results to the race finisher, they cover the whole
    room: one result per live participant and one per departed one, each under
    that participant's user id, carrying the pace and the number of
    disconnections they had. *)
Theorem finish_covers now raceID distance n s l s' d rs err :
  events_bound (S n) -> reachable now raceID distance n s -> label_ok l -> exec l s = Some s' ->
  CallFinishRace d rs err ∈ calls (world s') -> CallFinishRace d rs err ∉ calls (world s) ->
  length rs = (size (participants (actor (world s'))) +
               size (departedParticipants (actor (world s'))))%nat /\
  (forall u p, participants (actor (world s')) !! u = Some p \/
               departedParticipants (actor (world s')) !! u = Some p ->
     exists x, x ∈ rs /\ res_UserID x = u /\ res_AvgPaceWatt x = ps_PaceWatt p /\
       res_DisconnectedCount x = ps_DisconnectedCount p).
Proof.
  intros Hb Hr Hl Hx Hin Hnin.
  pose proof (si_actor _ _ (sys_inv_reachable _ _ _ _ _ Hb (reach_step _ _ _ _ _ _ _ Hr Hl Hx)))
    as Hinv.
  apply exec_world in Hx as [(e & ev & rest & -> & _ & _ & Hw)|(_ & _ & _ & Hcalls)];
    [|by apply Hcalls in Hin as [|]].
  rewrite Hw in Hin. apply applyEvent_finish_call in Hin as [|(_ & _ & Hrs)]; [done| |exact Hl].
  rewrite <- Hw in Hrs. subst rs. set (r := actor (world s')) in *. split.
  - rewrite (race_results_states e r Hl), length_fmap. unfold states.
    by rewrite length_app, !length_values.
  - intros u p Hp. exists (buildParticipantResult r p). split_and!; [|..|done|done].
    + rewrite (elem_of_race_results e r _ Hl). exists p. split; [|done].
      apply elem_of_states. naive_solver.
    + destruct Hp as [Hp|Hp];
        [by destruct (inv_live _ _ Hinv _ _ Hp)|by destruct (inv_departed _ _ Hinv _ _ Hp)].
Qed.

(** ** Reconnection *)

(** Dropping the connection and joining again within the grace period costs
    a participant nothing but the disconnection count: progress, sequence
    number, rank and name survive (the name given on the second join is
    ignored), the pending eviction of this disconnection is cancelled, nobody
    else changes and the number of participants stays the same. *)
Theorem reconnect_preserves e e' u d p w :
  participants (actor w) !! u = Some p ->
  let w' := applyJoined e' u d (applyDisconnected e u w) in
  participants (actor w') =
    <[u := p <| ps_DisconnectedAt := None |>
             <| ps_DisconnectedCount := wrap64 (ps_DisconnectedCount p + 1) |>
             <| ps_graceTimer := None |>]> (participants (actor w)) /\
  totalParticipants (actor w') = totalParticipants (actor w) /\
  departedParticipants (actor w') = departedParticipants (actor w) /\
  timers w' !! nextTimer w = None /\
  (forall t, ps_graceTimer p = Some t -> timers w' !! t = None).
Proof.
  intros Hp. unfold applyDisconnected. rewrite Hp. cbv zeta. unfold applyJoined.
  set (w1 := after_func _ _ _).
  set (w0 := match ps_graceTimer p with Some t => stop_timer t w | None => w end) in *.
  assert (actor w0 = actor w /\ nextTimer w0 = nextTimer w) as [Ha Hn]
    by (unfold w0; by destruct (ps_graceTimer p)).
  pose proof (core_broadcastSnapshot e') as Hc.
  assert (participants (actor w1) !! u = Some (p <| ps_DisconnectedAt := Some (env_now e) |>
    <| ps_DisconnectedCount := wrap64 (ps_DisconnectedCount p + 1) |>
    <| ps_graceTimer := Some (nextTimer w) |>)) as Hp1.
  { unfold w1. simpl. by rewrite lookup_insert_eq, Hn. }
  rewrite Hp1. cbn [ps_DisconnectedAt ps_graceTimer set]. cbv beta iota delta [set].
  set (w2 := put_participant _ _ (stop_timer _ _)).
  unfold core in Hc. specialize (Hc w2). injection Hc. intros _ _ _ _ _ Ht _ _ Hd Hps.
  rewrite Hps, Ht, Hd, timers_snapshot. unfold w2, w1. simpl. rewrite Ha, Hn.
  split_and!; [by rewrite insert_insert_eq|done|done|by rewrite lookup_delete_eq|].
  intros t Hgt. unfold w0. rewrite Hgt. simpl.
  destruct (decide (t = nextTimer w)) as [->|Hne]; [by rewrite lookup_delete_eq|].
  by rewrite lookup_delete_ne, lookup_insert_ne, lookup_delete_eq.
Qed.

(** ** Snapshots *)

Lemma more_words_asym a b : more_words a b = true -> more_words b a = false.
Proof. unfold more_words. rewrite Z.ltb_lt, Z.ltb_ge. lia. Qed.

Lemma not_after_words a b : not_after more_words a b <-> ps_WordsCorrect b <= ps_WordsCorrect a.
Proof. unfold not_after, more_words. apply Z.ltb_ge. Qed.

Lemma not_after_trans : Transitive (not_after more_words).
Proof. intros a b c. rewrite !not_after_words. lia. Qed.

(** The order of the snapshot: everybody once, most words first. *)
Lemma snapshot_ranked_sorted e r :
  env_ok e -> snapshot_ranked e r ≡ₚ values (participants r) /\
  StronglySorted (fun a b => ps_WordsCorrect b <= ps_WordsCorrect a) (snapshot_ranked e r).
Proof.
  intros He. unfold snapshot_ranked. split.
  - rewrite stable_sort_perm. apply He.
  - eapply StronglySorted_weaken; [|apply Sorted_StronglySorted;
      [exact not_after_trans|apply stable_sort_sorted, more_words_asym]].
    intros a b. apply not_after_words.
Qed.

(** Every snapshot shows the whole room in order: in a reachable room,
    [broadcastSnapshot] always produces a frame (marshalling cannot fail), whose
    rows are the live participants, each exactly once, by decreasing word count,
    the i-th row ranked i; the frame is queued if the channel has room and
    dropped otherwise, and nothing but the tick counter changes besides. *)
Theorem snapshot_complete now raceID distance n s e :
  events_bound n -> reachable now raceID distance n s -> env_ok e ->
  exists ranked body,
    ranked ≡ₚ values (participants (actor (world s))) /\
    StronglySorted (fun a b => ps_WordsCorrect b <= ps_WordsCorrect a) ranked /\
    RaceStateMessage (wrap64 (tickCount (actor (world s)) + 1))
      (imap (fun i p => mkStateJSON (ps_UserID p) (float64_of_int (ps_WordsCorrect p))
                          (Z.of_nat i + 1)) ranked) = Some body /\
    broadcastSnapshot e (world s) = with_actor (fun r => r
      <| tickCount := wrap64 (tickCount r + 1) |>
      <| broadcast := try_send broadcastBufferSize (broadcast r) body |>) (world s).
Proof.
  intros Hb Hr He. pose proof (si_actor _ _ (sys_inv_reachable _ _ _ _ _ Hb Hr)) as Hinv.
  destruct (snapshot_ranked_sorted e (actor (world s)) He) as [Hperm Hsort].
  destruct (RaceStateMessage_Some (wrap64 (tickCount (actor (world s)) + 1))
    (imap snapshot_row (snapshot_ranked e (actor (world s))))) as [body Hbody].
  { apply Forall_forall. intros x (i & p & -> & Hp)%elem_of_lookup_imap_1. simpl.
    apply list_elem_of_lookup_2 in Hp. rewrite Hperm in Hp. apply elem_of_values in Hp as [u Hp].
    apply float64_of_int64_finite. by destruct (inv_live _ _ Hinv _ _ Hp) as (_ & _ & _ & ?). }
  exists (snapshot_ranked e (actor (world s))), body. split_and!; [done|done|exact Hbody|].
  unfold broadcastSnapshot. cbv zeta. simpl in *. by rewrite Hbody.
Qed.

(** ** The channels *)

Lemma done_snapshot e w : done (actor (broadcastSnapshot e w)) = done (actor w).
Proof. unfold broadcastSnapshot. by rewrite done_broadcast. Qed.

Lemma done_check e w : done (actor w) = true -> done (actor (checkRaceFinished e w)) = true.
Proof.
  intros Hd. unfold checkRaceFinished, finishRace, expirePendingRoom.
  destruct (finished _); [done|]. destruct (existsb _ _); [done|]. destruct (negb _).
  - by destruct (err_CancelRace e).
  - destruct (err_FinishRace e); [|done]. simpl. by rewrite done_snapshot.
Qed.

(** Handling an event never revives a room. *)
Lemma done_applyEvent e ev w :
  done (actor w) = true -> done (actor (applyEvent e ev w)) = true.
Proof.
  intros Hd. destruct ev as [u d|u seq words pace|u|u|u|u reply| |txt|]; cbn [applyEvent].
  - unfold applyJoined. rewrite done_snapshot. destruct (participants (actor w) !! u) as [p|]; [|done].
    destruct (ps_DisconnectedAt p); [|done]. by destruct (ps_graceTimer p).
  - unfold applyTelemetry. destruct (negb _); [done|].
    destruct (participants (actor w) !! u); [|done]. destruct (_ <=? _); [done|].
    destruct (_ && _); [by apply done_check|done].
  - unfold applyDisconnected. destruct (participants (actor w) !! u) as [p|]; [|done].
    by destruct (ps_graceTimer p).
  - unfold applyEvicted. destruct (participants (actor w) !! u); [|done].
    case_bool_decide; [by apply done_check|done].
  - unfold applyLeft. destruct (participants (actor w) !! u); [|done].
    destruct (active _); by apply done_check.
  - unfold applyEvictionQuery. by destruct (replies w !! reply).
  - by apply done_check.
  - done.
  - unfold applyPendingExpired, expirePendingRoom. destruct (_ || _); [done|].
    by destruct (err_CancelRace e).
Qed.

Lemma done_exec l s s' :
  exec l s = Some s' -> done (actor (world s)) = true -> done (actor (world s')) = true.
Proof.
  intros Hx Hd. destruct l as [ev|i|i|e|e| |t| | |d]; simpl in Hx; try (injection Hx as <-; first [exact Hd|reflexivity]).
  - apply bind_Some in Hx as (ev & _ & Hx). case_bool_decide; by simplify_eq.
  - destruct (_ && _); by simplify_eq.
  - destruct (inbox (actor (world s))); [done|]. destruct (_ && _); simplify_eq.
    by apply done_applyEvent.
  - destruct (running s); simplify_eq. simpl. by rewrite done_snapshot.
  - destruct (_ && _); by simplify_eq.
  - apply bind_Some in Hx as (tm & _ & Hx). destruct (_ <=? _); by simplify_eq.
  - destruct (broadcast _); by simplify_eq.
Qed.

Local Ltac still_runs := simplify_eq; simpl in *; congruence.

(** [Run] only returns once the room's context is done. *)
Lemma stopped_done now raceID distance n s :
  reachable now raceID distance n s -> running s = false -> done (actor (world s)) = true.
Proof.
  induction 1 as [|n l s s' _ IH _ Hx]; [done|]. intros Hrun.
  destruct (running s) eqn:Hr; [|by eapply done_exec, IH].
  destruct l as [ev|i|i|e|e| |t| | |d]; simpl in Hx; rewrite ?Hr in Hx; try (by still_runs).
  - apply bind_Some in Hx as (ev & _ & Hx). case_bool_decide; by still_runs.
  - destruct (_ && _); by still_runs.
  - destruct (inbox (actor (world s))); [done|]. destruct (_ && _); by still_runs.
  - destruct (done (actor (world s))) eqn:Hd; simpl in Hx; simplify_eq; exact Hd.
  - apply bind_Some in Hx as (tm & _ & Hx). destruct (_ <=? _); by still_runs.
  - destruct (broadcast _); by still_runs.
Qed.

(** C36: the room's channels are bounded and [Send] never strands its caller: in
    every reachable state at most 64 events and 16 broadcasts are queued, and
    any goroutine blocked in [Send] can be released within two steps of the
    system, whether the actor runs, is backed up, or has already stopped. *)
Theorem send_released now raceID distance n s i ev :
  events_bound n -> reachable now raceID distance n s -> sending s !! i = Some ev ->
  (length (inbox (actor (world s))) <= 64)%nat /\
  (length (broadcast (actor (world s))) <= 16)%nat /\
  exists ls s', (length ls <= 2)%nat /\ Forall label_ok ls /\ run ls s = Some s' /\
    sending s' = delete i (sending s).
Proof.
  intros Hb Hr Hi. destruct (sys_inv_reachable _ _ _ _ _ Hb Hr) as [_ Ht _ Hlen _ _].
  split; [exact Hlen|]. split; [apply (ti_broadcast _ Ht)|].
  assert (i < length (sending s))%nat as Hlt by (by eapply lookup_lt_Some).
  destruct (decide (length (inbox (actor (world s))) < inboxCapacity)%nat) as [Hroom|Hfull].
  - exists [Enqueue i]. simpl. rewrite Hi. simpl. rewrite bool_decide_eq_true_2 by done.
    eexists. split_and!; [lia|by repeat constructor|done|done].
  - destruct (running s) eqn:Hrun.
    + destruct (inbox (actor (world s))) as [|ev' rest] eqn:Hin; [unfold inboxCapacity in *; simpl in *; lia|].
      exists [Apply (env_at (clock s)); Enqueue i]. cbn [run mbind option_bind exec].
      rewrite Hin, Hrun. cbn [env_ts env_now env_at]. rewrite Z.leb_refl. cbn [andb mbind option_bind].
      set (w := applyEvent _ _ _).
      assert (inbox (actor w) = rest) as Hrest by apply inbox_applyEvent.
      simpl. rewrite Hi. simpl. rewrite Hrest, bool_decide_eq_true_2 by (simpl in Hlen; lia).
      eexists. split_and!; [lia| |done|done].
      apply Forall_cons_2; [apply env_at_ok|by apply Forall_cons_2].
    + exists [GiveUp i]. simpl. rewrite (stopped_done _ _ _ _ _ Hr Hrun), bool_decide_eq_true_2 by done.
      eexists. split_and!; [lia|by apply Forall_cons_2|done|done].
Qed.
