(* ===== verification/RoomTelemetry.v ===== *)
(** * Which frame a racer's progress is ([RoomActor.applyEvent])

    Frames of a racer pass a socket, NATS and an inbox; some are repeated, some
    arrive late.  The room compares sequence numbers across all of a racer's
    connections: its knowledge of their progress is the first frame to arrive of
    those with the highest number, whatever else happens in between. *)
From Stdlib Require Import ZArith.
From stdpp Require Import base list gmap sets strings.
From S2P Require Import Prelude GoNum Json Events Room RoomRun RoomInv RoomSys RoomProps RoomBehaviour.
Local Open Scope Z_scope.

(** Sequence number, words and pace. *)
Definition Frame : Type := Z * Z * float64.

Definition progress (p : ParticipantState) : Frame := (ps_LastSeq p, ps_WordsCorrect p, ps_PaceWatt p).

Definition frame_seq (f : Frame) : Z := f.1.1.

(** [applyTelemetry] on the progress alone. *)
Definition newer_frame (f g : Frame) : Frame := if frame_seq g <=? frame_seq f then f else g.

(** Events handled one after the other. *)
Definition handle (evs : list (Env * RoomEvent)) (w : World) : World :=
  foldl (fun w x => applyEvent x.1 x.2 w) w evs.

(** The frames of a racer among them. *)
Definition frames_of (u : string) (evs : list (Env * RoomEvent)) : list Frame :=
  omap (fun x => match x.2 with
                 | TelemetryReceived v seq words pace => if String.eqb v u then Some (seq, words, pace) else None
                 | _ => None
                 end) evs.

(** The racer neither leaves nor is evicted. *)
Definition stays (u : string) (ev : RoomEvent) : Prop := ev <> ParticipantLeft u /\ ev <> ParticipantEvicted u.

(** ** One event *)

Lemma participants_snapshot e w : participants (actor (broadcastSnapshot e w)) = participants (actor w).
Proof. apply participants_core, core_broadcastSnapshot. Qed.

Lemma participants_check e w : participants (actor (checkRaceFinished e w)) = participants (actor w).
Proof. apply participants_core, core_checkRaceFinished. Qed.

Lemma telemetry_progress e u v seq words pace w p :
  active (actor w) = true -> participants (actor w) !! u = Some p -> exists p',
    participants (actor (applyTelemetry e v seq words pace w)) !! u = Some p' /\
    progress p' = if String.eqb v u then newer_frame (progress p) (seq, words, pace) else progress p.
Proof.
  intros Ha Hp. unfold applyTelemetry, newer_frame, frame_seq. rewrite Ha. cbn [negb progress fst].
  destruct (String.eqb_spec v u) as [->|Hne].
  - rewrite Hp. destruct (seq <=? ps_LastSeq p); [by exists p|]. destruct (_ && _); cbn zeta; rewrite ?participants_check; cbn;
      rewrite ?insert_insert_eq, lookup_insert_eq; by eexists.
  - destruct (participants (actor w) !! v) as [q|]; [|by exists p]. destruct (seq <=? ps_LastSeq q); [by exists p|].
    destruct (_ && _); cbn zeta; rewrite ?participants_check; cbn; rewrite ?insert_insert_eq, lookup_insert_ne by done; by exists p.
Qed.

Lemma event_progress e u ev w p :
  active (actor w) = true -> participants (actor w) !! u = Some p -> stays u ev -> exists p',
    participants (actor (applyEvent e ev w)) !! u = Some p' /\
    progress p' = foldl newer_frame (progress p) (frames_of u [(e, ev)]).
Proof.
  intros Ha Hp [Hl He]. destruct ev as [v d|v seq words pace|v|v|v|v reply| |txt|]; cbn [applyEvent frames_of omap list_omap snd].
  - unfold applyJoined. rewrite participants_snapshot. cbn [foldl].
    destruct (participants (actor w) !! v) as [q|] eqn:Hq.
    + destruct (ps_DisconnectedAt q); [|by exists p]. destruct (decide (v = u)) as [->|Hne]; simplify_eq.
      * destruct (ps_graceTimer p); cbn; rewrite lookup_insert_eq; by eexists.
      * destruct (ps_graceTimer q); cbn; rewrite lookup_insert_ne by done; by exists p.
    + cbn. rewrite lookup_insert_ne by congruence. by exists p.
  - destruct (telemetry_progress e u v seq words pace w p Ha Hp) as (p' & Hp' & Hpr). exists p'. split; [exact Hp'|].
    rewrite Hpr. by destruct (String.eqb v u).
  - unfold applyDisconnected. destruct (participants (actor w) !! v) as [q|] eqn:Hq; [|by exists p].
    destruct (decide (v = u)) as [->|Hne]; simplify_eq.
    + destruct (ps_graceTimer p); cbn; rewrite ?insert_insert_eq, lookup_insert_eq; by eexists.
    + destruct (ps_graceTimer q); cbn; rewrite ?insert_insert_eq, lookup_insert_ne by done; by exists p.
  - assert (v <> u) by congruence. unfold applyEvicted, departParticipant. destruct (participants (actor w) !! v); [|by exists p].
    case_bool_decide; [|by exists p]. rewrite participants_check. cbn. rewrite lookup_delete_ne by done. by exists p.
  - assert (v <> u) by congruence. unfold applyLeft, departParticipant. rewrite Ha. destruct (participants (actor w) !! v); [|by exists p].
    rewrite participants_check. cbn. rewrite lookup_delete_ne by done. by exists p.
  - unfold applyEvictionQuery. destruct (replies w !! reply); by exists p.
  - rewrite participants_check. by exists p.
  - exists p. split; [|done]. unfold applyActivated, broadcastRaceStarted.
    by rewrite (participants_core _ _ (core_broadcast_marshalled _ _)).
  - unfold applyPendingExpired. rewrite Ha. by exists p.
Qed.

(** ** A run of events *)

Lemma frames_of_cons u x evs : frames_of u (x :: evs) = frames_of u [x] ++ frames_of u evs.
Proof. apply (omap_app _ [x]). Qed.

Lemma handle_progress u evs : Forall (fun x => stays u x.2) evs -> forall w p,
  active (actor w) = true -> participants (actor w) !! u = Some p -> exists q,
    participants (actor (handle evs w)) !! u = Some q /\ progress q = foldl newer_frame (progress p) (frames_of u evs).
Proof.
  induction 1 as [|[e ev] evs Hs _ IH]; intros w p Ha Hp; [by exists p|].
  destruct (event_progress e u ev w p Ha Hp Hs) as (p1 & Hp1 & Hpr).
  assert (Ha1 : active (actor (applyEvent e ev w)) = true) by (eapply active_move; [apply applyEvent_move|done]).
  destruct (IH _ _ Ha1 Hp1) as (q & Hq & Hpq). exists q. split; [exact Hq|].
  by rewrite Hpq, Hpr, (frames_of_cons _ _ evs), foldl_app.
Qed.

(** The newest frame wins; what was there wins ties. *)
Lemma newest fs : forall f, let r := foldl newer_frame f fs in
  (r = f \/ r ∈ fs /\ frame_seq f < frame_seq r) /\ frame_seq f <= frame_seq r /\
  forall g, g ∈ fs -> frame_seq g <= frame_seq r.
Proof.
  induction fs as [|g fs IH]; intros f; cbn [foldl].
  - split_and!; [by left|lia|]. by intros g Hg%elem_of_nil.
  - destruct (IH (newer_frame f g)) as (H1 & H2 & H3). set (r := foldl _ _ _) in *. unfold newer_frame in H1, H2.
    destruct (Z.leb_spec (frame_seq g) (frame_seq f)) as [Hle|Hlt]; split_and!; try lia.
    + destruct H1 as [|[Hin Hlt]]; [by left|right]. split; [by right|lia].
    + intros x [->|Hx]%elem_of_cons; [lia|by apply H3].
    + right. destruct H1 as [->|[Hin Hlt']]; (split; [|lia]); [by left|by right].
    + intros x [->|Hx]%elem_of_cons; [lia|by apply H3].
Qed.

Lemma newest_unique fs fs' f :
  (forall g, g ∈ fs <-> g ∈ fs') -> (forall g h, g ∈ fs -> h ∈ fs -> frame_seq g = frame_seq h -> g = h) ->
  foldl newer_frame f fs = foldl newer_frame f fs'.
Proof.
  intros Hsame Huniq. destruct (newest fs f) as (H1 & _ & H3), (newest fs' f) as (H1' & _ & H3').
  set (r := foldl newer_frame f fs) in *. set (r' := foldl newer_frame f fs') in *.
  destruct H1 as [Hr|[Hin Hlt]], H1' as [Hr'|[Hin' Hlt']]; [congruence| | |].
  - apply Hsame, H3 in Hin'. rewrite Hr in Hin'. lia.
  - apply Hsame, H3' in Hin. rewrite Hr' in Hin. lia.
  - apply Huniq; [done|by apply Hsame|]. assert (frame_seq r <= frame_seq r') by (apply H3', Hsame, Hin).
    assert (frame_seq r' <= frame_seq r) by (apply H3, Hsame, Hin'). lia.
Qed.

(** The winner of a delivery: the first frame with the highest number, if that is
    above what was there. *)
Definition wins_delivery (f : Frame) (fs : list Frame) (r : Frame) : Prop :=
  (r = f /\ forall g, g ∈ fs -> frame_seq g <= frame_seq f) \/
  (exists pre post, fs = pre ++ r :: post /\ frame_seq f < frame_seq r /\
     (forall g, g ∈ pre -> frame_seq g < frame_seq r) /\ (forall g, g ∈ post -> frame_seq g <= frame_seq r)).

Lemma newest_first fs : forall f, wins_delivery f fs (foldl newer_frame f fs).
Proof.
  induction fs as [|g fs IH]; intros f; cbn [foldl].
  - left. split; [done|]. by intros g ?%elem_of_nil.
  - unfold newer_frame at 2. destruct (Z.leb_spec (frame_seq g) (frame_seq f)) as [Hle|Hlt].
    + destruct (IH f) as [[Hr Hfs]|(pre & post & Hfs & Hlt & Hpre & Hpost)].
      * left. split; [done|]. intros h [->|Hh]%elem_of_cons; [done|by apply Hfs].
      * right. exists (g :: pre), post. split_and!; [cbn; congruence|done| |done].
        intros h [->|Hh]%elem_of_cons; [lia|by apply Hpre].
    + right. destruct (IH g) as [[-> Hfs]|(pre & post & Hfs & Hlt' & Hpre & Hpost)].
      * exists [], fs. split_and!; [done|done| |done]. by intros h ?%elem_of_nil.
      * exists (g :: pre), post. split_and!; [cbn; congruence|lia| |done].
        intros h [->|Hh]%elem_of_cons; [done|by apply Hpre].
Qed.

(** C12: which frame a racer's progress is.  In a running race, whatever else
    happens in the room - others joining, typing, finishing, leaving or being
    evicted, the racer dropping and reconnecting, persistence failing - the
    words, pace and sequence number of a racer who stays are those of the first
    frame to arrive among their frames with the highest number, if that is above
    the number they had, and else unchanged: a late or repeated frame, and one
    of a new connection whose counter starts again, is ignored until it passes
    the highest number so far.  So two deliveries of the same frames, in any
    order and each any number of times, leave the same progress whenever equal
    numbers stand for equal frames, as they do on one connection. *)
Theorem telemetry_converges w u p evs :
  active (actor w) = true -> participants (actor w) !! u = Some p -> Forall (fun x => stays u x.2) evs ->
  exists q, participants (actor (handle evs w)) !! u = Some q /\
    wins_delivery (progress p) (frames_of u evs) (progress q) /\
    forall evs', Forall (fun x => stays u x.2) evs' -> (forall f, f ∈ frames_of u evs <-> f ∈ frames_of u evs') ->
      (forall f g, f ∈ frames_of u evs -> g ∈ frames_of u evs -> frame_seq f = frame_seq g -> f = g) ->
      exists q', participants (actor (handle evs' w)) !! u = Some q' /\ progress q' = progress q.
Proof.
  intros Ha Hp Hs. destruct (handle_progress u evs Hs w p Ha Hp) as (q & Hq & Hpq). exists q. split; [done|]. split.
  - rewrite Hpq. apply newest_first.
  - intros evs' Hs' Hsame Huniq. destruct (handle_progress u evs' Hs' w p Ha Hp) as (q' & Hq' & Hpq').
    exists q'. split; [done|]. rewrite Hpq, Hpq'. symmetry. by apply newest_unique.
Qed.

(** ** In a race of two *)

Definition demo_pace : float64 := float64_of_int 5.

Definition demo_race : World :=
  handle [(env_at 1, ParticipantJoined "a" "A"); (env_at 2, ParticipantJoined "b" "B"); (env_at 3, activated "text")]
    (NewRoomActor 0 "r" 10).

Definition demo_frame (seq words : Z) : RoomEvent := TelemetryReceived "a" seq words demo_pace.

(** In order; and late, repeated, around a reconnect, while the other one leaves. *)
Definition demo_ordered : list (Env * RoomEvent) := [(env_at 4, demo_frame 1 2); (env_at 5, demo_frame 2 4)].

Definition demo_scrambled : list (Env * RoomEvent) :=
  [(env_at 4, demo_frame 2 4); (env_at 5, ParticipantDisconnected "a"); (env_at 6, demo_frame 1 2);
   (env_at 7, ParticipantLeft "b"); (env_at 8, ParticipantJoined "a" "A"); (env_at 9, demo_frame 2 4)].

Lemma demo_frames : frames_of "a" demo_ordered = [(1, 2, demo_pace); (2, 4, demo_pace)].
Proof. reflexivity. Qed.

Lemma demo_frames' : frames_of "a" demo_scrambled = [(2, 4, demo_pace); (1, 2, demo_pace); (2, 4, demo_pace)].
Proof. reflexivity. Qed.

(** [stays] by evaluation. *)
Definition staysb (u : string) (ev : RoomEvent) : bool :=
  match ev with ParticipantLeft v | ParticipantEvicted v => negb (String.eqb v u) | _ => true end.

Lemma stays_ok u evs : forallb (fun x : Env * RoomEvent => staysb u x.2) evs = true -> Forall (fun x => stays u x.2) evs.
Proof.
  rewrite forallb_forall, Forall_forall. intros H [e ev] Hx%list_elem_of_In%H. unfold stays. cbn [snd] in *.
  destruct ev; cbn in Hx; split; try done; intros [= ->]; by rewrite String.eqb_refl in Hx.
Qed.

Lemma telemetry_converges_witness : exists q q',
  participants (actor (handle demo_ordered demo_race)) !! "a" = Some q /\
  participants (actor (handle demo_scrambled demo_race)) !! "a" = Some q' /\
  progress q' = progress q /\ frame_seq (progress q) = 2.
Proof.
  assert (Hp : exists p, participants (actor demo_race) !! "a" = Some p) by (vm_compute; by eexists).
  destruct Hp as [p Hp].
  assert (Hps : frame_seq (progress p) = 0).
  { assert (H0 : ps_LastSeq <$> participants (actor demo_race) !! "a" = Some 0) by (vm_compute; reflexivity).
    rewrite Hp in H0. injection H0 as H0. exact H0. }
  destruct (telemetry_converges demo_race "a" p demo_ordered) as (q & Hq & Hwin & Hsame).
  - vm_compute. reflexivity.
  - exact Hp.
  - apply stays_ok. vm_compute. reflexivity.
  - destruct (Hsame demo_scrambled) as (q' & Hq' & Hpr).
    + apply stays_ok. vm_compute. reflexivity.
    + intros f. rewrite demo_frames, demo_frames', !elem_of_cons, !elem_of_nil. tauto.
    + intros f g. rewrite demo_frames, !elem_of_cons, !elem_of_nil. intros [->|[->|[]]] [->|[->|[]]]; [done|discriminate|discriminate|done].
    + exists q, q'. split; [exact Hq|]. split; [exact Hq'|]. split; [exact Hpr|]. rewrite demo_frames in Hwin.
      destruct Hwin as [[Heq Hall]|(pre & post & Hfs & Hlt & Hpre & Hpost)].
      * specialize (Hall (2, 4, demo_pace) ltac:(right; by left)). rewrite Hps in Hall. cbn in Hall. lia.
      * assert (Hin : progress q ∈ [(1, 2, demo_pace); (2, 4, demo_pace)]) by (rewrite Hfs, elem_of_app; right; left).
        rewrite !elem_of_cons, elem_of_nil in Hin. destruct Hin as [Hin|[Hin|[]]]; rewrite Hin in *; [|reflexivity].
        exfalso. destruct pre as [|g0 [|g1 pre]]; cbn in Hfs.
        -- injection Hfs as <-. specialize (Hpost (2, 4, demo_pace) ltac:(by left)). cbn in Hpost. lia.
        -- discriminate Hfs.
        -- injection Hfs as _ _ Hfs. exact (app_cons_not_nil _ _ _ Hfs).
Defined.

(** A client whose counter starts again on a new connection, as the protocol
    has it, is not heard until it passes its old number: with two words more
    after the reconnect, the room still knows of four. *)
Theorem restarted_counter_ignored :
  let evs := demo_ordered ++ [(env_at 6, ParticipantDisconnected "a"); (env_at 7, ParticipantJoined "a" "A");
                              (env_at 8, demo_frame 1 5); (env_at 9, demo_frame 2 6)] in
  ps_WordsCorrect <$> participants (actor (handle evs demo_race)) !! "a" = Some 4.
Proof. vm_compute. reflexivity. Qed.
