(* ===== verification/RoomProvenance.v ===== *)
(** * Where a room's knowledge comes from

    What a room holds of a participant, and what it persists and publishes of
    them, is all taken from events about that participant.  [P] is any set of
    events that contains those a room receives from outside; the theorem that
    uses this file ([Inbound]) takes for [P] what the connections of the players
    have sent. *)
From Stdlib Require Import ZArith Floats.SpecFloat.
From stdpp Require Import base list gmap sets strings.
From S2P Require Import Prelude GoNum Json Events Protocol Room RoomRun RoomInv RoomSys RoomResults RoomProps RoomBehaviour RoomTelemetry.
Local Open Scope Z_scope.

(** The events no frame of a player decodes to: those of the room's timers, and
    those of the process it runs in. *)
Definition timer_event (ev : RoomEvent) : bool :=
  match ev with ParticipantEvicted _ | noShowTimeout | pendingExpired => true | _ => false end.

Definition server_event (ev : RoomEvent) : bool :=
  match ev with activated _ | evictionQuery _ _ => true | _ => false end.

(** ** One user at a time *)

(** Everything a room holds under a user. *)
Definition entry (u : string) (r : RoomActor) : option ParticipantState * option ParticipantState * bool :=
  (participants r !! u, departedParticipants r !! u, bool_decide (u ∈ evicted r)).

Lemma entry_core u r r' : core r' = core r -> entry u r' = entry u r.
Proof. unfold core, entry. intros Hc. destruct r, r'; simpl in *. by simplify_eq. Qed.

Lemma entry_of_core u w w' r : core (actor w') = core r -> entry u r = entry u (actor w) -> entry u (actor w') = entry u (actor w).
Proof. intros Hc <-. by apply entry_core. Qed.

Lemma entry_put u v p w : v <> u -> entry u (actor (put_participant v p w)) = entry u (actor w).
Proof. intros Hne. unfold entry. simpl. by rewrite lookup_insert_ne. Qed.

Lemma entry_depart e u v p w : v <> u -> entry u (actor (departParticipant e v p w)) = entry u (actor w).
Proof.
  intros Hne. eapply entry_of_core; [apply core_checkRaceFinished|]. unfold entry. simpl.
  rewrite lookup_delete_ne, lookup_insert_ne by done. do 2 f_equal. apply bool_decide_ext. set_solver.
Qed.

(** An event touches the entry of nobody but its own user. *)
Lemma entry_applyEvent e ev u w : event_user ev <> Some u -> entry u (actor (applyEvent e ev w)) = entry u (actor w).
Proof.
  intros Hu. destruct ev as [v d|v seq words pace|v|v|v|v reply| |txt|]; cbn [applyEvent event_user] in *;
    try assert (Hne : v <> u) by congruence.
  - unfold applyJoined. eapply entry_of_core; [apply core_broadcastSnapshot|].
    destruct (participants (actor w) !! v) as [q|]; [|exact (entry_put u v _ w Hne)].
    destruct (ps_DisconnectedAt q); [|done]. destruct (ps_graceTimer q); by rewrite entry_put.
  - unfold applyTelemetry. destruct (negb _); [done|]. destruct (participants (actor w) !! v) as [q|]; [|done].
    destruct (_ <=? _); [done|]. destruct (_ && _); [|exact (entry_put u v _ w Hne)]. cbn zeta.
    eapply entry_of_core; [apply core_checkRaceFinished|]. rewrite entry_put by done. exact (entry_put u v _ w Hne).
  - unfold applyDisconnected. destruct (participants (actor w) !! v) as [q|]; [|done].
    destruct (ps_graceTimer q); exact (entry_put u v _ w Hne).
  - unfold applyEvicted. destruct (participants (actor w) !! v); [|done]. case_bool_decide; [by apply entry_depart|done].
  - unfold applyLeft. destruct (participants (actor w) !! v); [|done]. destruct (active (actor w)); [by apply entry_depart|].
    eapply entry_of_core; [apply core_checkRaceFinished|]. unfold entry. simpl. by rewrite lookup_delete_ne.
  - unfold applyEvictionQuery. by destruct (replies w !! reply).
  - apply entry_core, core_checkRaceFinished.
  - exact (entry_core u _ _ (core_broadcast_marshalled _ _)).
  - unfold applyPendingExpired. destruct (_ || _); [done|]. apply entry_core, core_expirePendingRoom.
Qed.

(** What changes the entry of a user, in any step of a room: an event of
    theirs, or an eviction that finds them disconnected. *)
Lemma entry_exec l s s' u :
  exec l s = Some s' -> entry u (actor (world s')) <> entry u (actor (world s)) ->
  exists e ev rest, l = Apply e /\ inbox (actor (world s)) = ev :: rest /\ event_user ev = Some u /\
    (forall v reply, ev <> evictionQuery v reply) /\
    (forall v, ev = ParticipantEvicted v ->
       exists p, participants (actor (world s)) !! u = Some p /\ is_Some (ps_DisconnectedAt p)).
Proof.
  intros [(e & ev & rest & -> & Hin & _ & Hw)|(Hsame & _)]%exec_world Hne.
  - exists e, ev, rest. rewrite Hw in Hne.
    set (w := with_actor (fun r => r <| inbox := rest |>) (world s)) in *. change (entry u (actor (world s))) with (entry u (actor w)) in Hne.
    assert (Hu : event_user ev = Some u).
    { destruct (decide (event_user ev = Some u)) as [|Hn]; [done|]. destruct Hne. by apply entry_applyEvent. }
    split_and!; [done..| |].
    + intros v reply ->. apply Hne. cbn [applyEvent]. unfold applyEvictionQuery. by destruct (replies w !! reply).
    + intros v ->. cbn [event_user] in Hu. injection Hu as ->. cbn [applyEvent] in Hne. unfold applyEvicted in Hne.
      change (participants (actor (world s))) with (participants (actor w)).
      destruct (participants (actor w) !! u) as [p|]; [|done]. exists p. split; [done|]. by case_bool_decide.
  - destruct Hne. exact (entry_core u _ _ Hsame).
Qed.

Lemma entry_other l s s' u :
  (forall e, l <> Apply e) -> exec l s = Some s' -> entry u (actor (world s')) = entry u (actor (world s)).
Proof.
  intros Hl Hx. destruct (decide (entry u (actor (world s')) = entry u (actor (world s)))) as [|Hne]; [done|].
  destruct (entry_exec _ _ _ _ Hx Hne) as (e & ev & rest & Heq & _). by apply Hl in Heq.
Qed.

(** ** What is held and said of a user *)
Section provenance.
Context (dist : Z).

(** [u] reported [words] with [pace]; [u] reported the end of the race. *)
Definition reported (P : RoomEvent -> Prop) (u : string) (words : Z) (pace : float64) : Prop :=
  exists seq, P (TelemetryReceived u seq words pace).

Definition reached_end (P : RoomEvent -> Prop) (u : string) : Prop :=
  exists words pace, reported P u words pace /\ dist <= words.

(** A participant's state is theirs: they joined; their progress is that of one
    of their own frames, if any; they have finished only if they reported the
    end, and are counted as disconnected only if their connection dropped. *)
Record backed (P : RoomEvent -> Prop) (u : string) (p : ParticipantState) : Prop := {
  bk_user : ps_UserID p = u;
  bk_joined : P (ParticipantJoined u (ps_DisplayName p));
  bk_progress : progress p = (0, 0, float64_0) \/
    exists seq words pace, progress p = (seq, words, pace) /\ P (TelemetryReceived u seq words pace);
  bk_finished : is_Some (ps_FinishRank p) \/ is_Some (ps_FinishedAt p) -> reached_end P u;
  bk_dropped : is_Some (ps_DisconnectedAt p) \/ ps_DisconnectedCount p <> 0 -> P (ParticipantDisconnected u)
}.

(** Of those who have departed, they left or their connection dropped. *)
Definition gone (P : RoomEvent -> Prop) (u : string) : Prop := P (ParticipantLeft u) \/ P (ParticipantDisconnected u).

Record backed_result (P : RoomEvent -> Prop) (r : ParticipantResult) : Prop := {
  br_joined : exists d, P (ParticipantJoined (res_UserID r) d);
  br_pace : res_AvgPaceWatt r = float64_0 \/ exists words, reported P (res_UserID r) words (res_AvgPaceWatt r);
  br_time : is_Some (res_FinishTimeMs r) -> reached_end P (res_UserID r);
  br_dropped : res_DisconnectedCount r <> 0 -> P (ParticipantDisconnected (res_UserID r))
}.

(** What goes to the database, to Kafka and to Redis. *)
Definition backed_call (P : RoomEvent -> Prop) (c : Call) : Prop :=
  match c with
  | CallPublishWorkoutSample u _ words pace _ => reported P u words pace
  | CallFinishRace d rs _ => d = dist /\ Forall (backed_result P) rs
  | CallPublishRaceFinished rs _ => Forall (backed_result P) rs
  | CallLeaveRace u _ => P (ParticipantLeft u)
  | CallMarkEvicted u _ => gone P u
  | CallCancelRace _ | CallObserveTick => True
  end.

(** What goes out on the broadcast channel. *)
Definition backed_row (P : RoomEvent -> Prop) (row : ParticipantStateJSON) : Prop :=
  (exists d, P (ParticipantJoined (sj_UserID row) d)) /\
  exists words, sj_DistanceM row = float64_of_int words /\
    (words = 0 \/ exists pace, reported P (sj_UserID row) words pace).

Definition backed_frame (P : RoomEvent -> Prop) (frame : json) : Prop :=
  (exists tick rows, RaceStateMessage tick rows = Some frame /\ Forall (backed_row P) rows) \/
  (exists rs, RaceFinishedMessage (to_RaceResultJSON <$> rs) = Some frame /\ Forall (backed_result P) rs) \/
  (exists promptText, RaceStartedMessage promptText = Some frame) \/ RaceExpiredMessage = Some frame.

Record backed_room (P : RoomEvent -> Prop) (r : RoomActor) : Prop := {
  bw_distance : distanceMeters r = dist;
  bw_live : map_Forall (backed P) (participants r);
  bw_departed : map_Forall (fun u p => backed P u p /\ gone P u) (departedParticipants r)
}.

Record backed_world (P : RoomEvent -> Prop) (w : World) : Prop := {
  bw_room : backed_room P (actor w);
  bw_calls : Forall (backed_call P) (calls w);
  bw_frames : Forall (backed_frame P) (broadcast (actor w))
}.

(** More events back no less. *)
Lemma reached_end_mono (P Q : RoomEvent -> Prop) u : (forall ev, P ev -> Q ev) -> reached_end P u -> reached_end Q u.
Proof. intros HPQ (words & pace & (seq & Hev) & Hd). exists words, pace. split; [exists seq; auto|done]. Qed.

Lemma backed_mono (P Q : RoomEvent -> Prop) u p : (forall ev, P ev -> Q ev) -> backed P u p -> backed Q u p.
Proof.
  intros HPQ [H1 H2 H3 H4 H5]. split; [done|auto| |intros Hf; by eapply reached_end_mono, H4|auto].
  destruct H3 as [|(seq & words & pace & ? & ?)]; [by left|right; eauto 6].
Qed.

Lemma backed_result_mono (P Q : RoomEvent -> Prop) r : (forall ev, P ev -> Q ev) -> backed_result P r -> backed_result Q r.
Proof.
  intros HPQ [(d & H1) H2 H3 H4]. split; [eauto| |intros Hf; by eapply reached_end_mono, H3|auto].
  destruct H2 as [|(words & seq & ?)]; [by left|right]. exists words, seq. auto.
Qed.

Lemma backed_results_mono (P Q : RoomEvent -> Prop) rs :
  (forall ev, P ev -> Q ev) -> Forall (backed_result P) rs -> Forall (backed_result Q) rs.
Proof. intros HPQ Hr. eapply Forall_impl; [exact Hr|]. intros r. by apply backed_result_mono. Qed.

Lemma backed_frame_mono (P Q : RoomEvent -> Prop) b : (forall ev, P ev -> Q ev) -> backed_frame P b -> backed_frame Q b.
Proof.
  intros HPQ [(tick & rows & Hm & Hr)|[(rs & Hm & Hr)|Hb]]; [left|right; left|right; right; exact Hb].
  - exists tick, rows. split; [done|]. eapply Forall_impl; [exact Hr|]. intros row [[d Hd] (words & Hw & Hp)].
    split; [exists d; auto|]. exists words. split; [done|]. destruct Hp as [|(pace & seq & ?)]; [by left|right].
    exists pace, seq. auto.
  - exists rs. split; [done|]. by eapply backed_results_mono.
Qed.

Lemma backed_world_mono (P Q : RoomEvent -> Prop) w : (forall ev, P ev -> Q ev) -> backed_world P w -> backed_world Q w.
Proof.
  intros HPQ [[H1 H2 H3] H4 H5]. split; [split; [done| |]| |].
  - intros u p Hp. by eapply backed_mono, H2.
  - intros u p Hp. destruct (H3 u p Hp) as [Hb Hg]. split; [by eapply backed_mono|]. unfold gone in *. naive_solver.
  - eapply Forall_impl; [exact H4|]. intros c Hc.
    assert (Hrs := fun rs => backed_results_mono P Q rs HPQ).
    unfold backed_call, gone, reported in *. destruct c as [u ts words pace err|d rs err|rs err|u err|err|u err|];
      [destruct Hc; eauto|destruct Hc; eauto|auto|auto|done|destruct Hc; auto|done].
  - eapply Forall_impl; [exact H5|]. intros b. by apply backed_frame_mono.
Qed.

(** What a room may be sent. *)
Definition known (P : RoomEvent -> Prop) (ev : RoomEvent) : Prop := P ev \/ timer_event ev = true \/ server_event ev = true.

Lemma known_mono (P Q : RoomEvent -> Prop) ev : (forall ev, P ev -> Q ev) -> known P ev -> known Q ev.
Proof. unfold known. intros HPQ [|]; auto. Qed.

(** ** Handling an event *)
Section step.
Context (P : RoomEvent -> Prop) (e : Env).
Hypothesis (Henv : env_ok e).

(** What the records speak of. *)
Definition held (r : RoomActor) := (distanceMeters r, participants r, departedParticipants r).

Lemma held_core r r' : core r' = core r -> held r' = held r.
Proof. intros Hc. unfold core in Hc. destruct r, r'; simpl in *. by simplify_eq. Qed.

Lemma backed_same w w' : held (actor w') = held (actor w) -> calls w' = calls w ->
  broadcast (actor w') = broadcast (actor w) -> backed_world P w -> backed_world P w'.
Proof. intros [= H1 H2 H3] Hl Hb [[] H4 H5]. split; [split; by rewrite ?H1, ?H2, ?H3|by rewrite Hl|by rewrite Hb]. Qed.

Lemma backed_broadcast m w :
  (forall b, m = Some b -> backed_frame P b) -> backed_world P w -> backed_world P (broadcast_marshalled m w).
Proof.
  intros Hm [H1 H2 H3]. destruct m as [b|]; [|done]. split; [by destruct H1|done|]. cbn. unfold try_send. case_bool_decide; [|done].
  apply Forall_app_2; [done|]. constructor; [by apply Hm|done].
Qed.

(** Every row of a snapshot is of a live participant. *)
Lemma backed_rows w : backed_world P w -> Forall (backed_row P) (imap snapshot_row (snapshot_ranked e (actor w))).
Proof.
  intros Hw. apply Forall_forall. intros row Hrow. apply elem_of_lookup_imap in Hrow as (i & p & -> & Hp).
  apply list_elem_of_lookup_2 in Hp. unfold snapshot_ranked in Hp. rewrite stable_sort_perm in Hp.
  apply (is_iteration_elem _ _ _ (Henv _ _)) in Hp as [u Hu]. destruct (bw_live _ _ (bw_room _ _ Hw) _ _ Hu) as [H1 H2 H3 _ _].
  unfold snapshot_row. split; cbn; rewrite H1; [by eexists|]. exists (ps_WordsCorrect p). split; [done|].
  unfold progress in H3. destruct H3 as [[= _ -> _]|(seq & words & pace & [= _ -> _] & Hev)]; [by left|right].
  by exists pace, seq.
Qed.

Lemma backed_snapshot w : backed_world P w -> backed_world P (broadcastSnapshot e w).
Proof.
  intros Hw. unfold broadcastSnapshot. apply backed_broadcast; [|by apply (backed_same w)].
  intros b Hb. left. eexists _, _. split; [exact Hb|]. by apply backed_rows.
Qed.

Lemma backed_record c w : backed_call P c -> backed_world P w -> backed_world P (record_call c w).
Proof. intros Hc [H1 H2 H3]. split; [done| |done]. by apply Forall_app_2; [|constructor]. Qed.

(** The results are those of the held states. *)
Lemma backed_built r u p : backed P u p -> backed_result P (buildParticipantResult r p).
Proof.
  intros [<- H2 H3 H4 H5]. split; cbn; [eauto| |intros Hf; apply H4; right; by destruct (ps_FinishedAt p)|auto].
  unfold progress in H3. destruct H3 as [[= _ _ ->]|(seq & words & pace & [= _ _ <-] & ?)]; [by left|right].
  by exists words, seq.
Qed.

Lemma backed_results r : backed_room P r -> Forall (backed_result P) (race_results e r).
Proof.
  intros [_ Hl Hd]. apply Forall_forall. intros x Hx.
  rewrite (race_results_states _ _ Henv) in Hx. apply list_elem_of_fmap in Hx as (p & -> & Hp).
  apply elem_of_states in Hp as [[u Hu]|[u Hu]]; eapply backed_built; [by apply Hl|by apply (Hd u p)].
Qed.

Lemma backed_expire w : backed_world P w -> backed_world P (expirePendingRoom e w).
Proof.
  intros Hw. unfold expirePendingRoom. assert (Hr := backed_record (CallCancelRace (err_CancelRace e)) w I Hw).
  set (w1 := record_call _ w) in *. destruct (err_CancelRace e); [done|].
  apply (backed_same (broadcastRaceExpired w1)); [done..|]. apply backed_broadcast; [|done]. intros b Hb. by right; right; right.
Qed.

Lemma backed_check w : backed_world P w -> backed_world P (checkRaceFinished e w).
Proof.
  intros Hw. unfold checkRaceFinished. destruct (finished (actor w)); [done|]. destruct (existsb _ _); [done|].
  destruct (negb _); [by apply backed_expire|]. assert (Hrs := backed_results _ (bw_room _ _ Hw)).
  unfold finishRace. set (w1 := broadcastSnapshot e w). assert (Hw1 : backed_world P w1) by by apply backed_snapshot.
  set (w2 := record_call _ w1).
  assert (Hw2 : backed_world P w2) by (apply backed_record; [split; [apply (bw_room _ _ Hw1)|done]|done]).
  destruct (err_FinishRace e); [done|].
  set (w3 := record_call _ (with_actor _ w2)). assert (Hw3 : backed_world P w3).
  { apply backed_record; [exact Hrs|]. by apply (backed_same w2). }
  set (m := RaceFinishedMessage _). apply (backed_same (broadcast_marshalled m w3)); [done..|].
  apply backed_broadcast; [|done]. intros b Hb. right; left. by eexists.
Qed.

Lemma backed_put u p w : backed P u p -> backed_world P w -> backed_world P (put_participant u p w).
Proof. intros Hp [[H1 H2 H3] H4 H5]. split; [|done|done]. split; [done|by apply map_Forall_insert_2|done]. Qed.

Lemma backed_depart u p w :
  participants (actor w) !! u = Some p -> gone P u -> backed_world P w -> backed_world P (departParticipant e u p w).
Proof.
  intros Hp Hg [[H1 H2 H3] H4 H5]. apply backed_check, backed_record; [done|]. split; [|done|done].
  split; [done|by apply map_Forall_delete|]. apply map_Forall_insert_2; [|done]. by split; [apply (H2 u)|].
Qed.

Lemma backed_joined u d w : P (ParticipantJoined u d) -> backed_world P w -> backed_world P (applyJoined e u d w).
Proof.
  intros HP Hw.
  apply backed_snapshot. destruct (participants (actor w) !! u) as [p|] eqn:Hp.
  - destruct (bw_live _ _ (bw_room _ _ Hw) _ _ Hp) as [H1 H2 H3 H4 H5]. destruct (ps_DisconnectedAt p); [|done].
    apply backed_put; [|by destruct (ps_graceTimer p); [apply (backed_same w)|]]. split; [done..|]. cbn. intros [[? [=]]|?]; auto.
  - eapply (backed_same (put_participant u (mkParticipant u d 0 0 float64_0 (env_now e) None 0 None None None) w));
      [done..|]. apply backed_put; [|done].
    split; cbn; [done|done|by left|by intros [[? [=]]|[? [=]]]|by intros [[? [=]]|?]].
Qed.

Lemma backed_telemetry u seq words pace w :
  P (TelemetryReceived u seq words pace) -> backed_world P w -> backed_world P (applyTelemetry e u seq words pace w).
Proof.
  intros HP Hw.
  unfold applyTelemetry. destruct (negb _); [done|]. destruct (participants (actor w) !! u) as [p|] eqn:Hp; [|done].
  destruct (_ <=? _); [done|]. destruct (bw_live _ _ (bw_room _ _ Hw) _ _ Hp) as [H1 H2 H3 H4 H5].
  set (q := p <| ps_WordsCorrect := words |> <| ps_LastSeq := seq |> <| ps_PaceWatt := pace |>).
  assert (Hq : backed P u q) by (split; [done|done|right; by exists seq, words, pace|done|done]).
  set (w1 := record_call _ _). assert (Hw1 : backed_world P w1) by (apply backed_record; [by exists seq|by apply backed_put]).
  destruct (still_racing q); cbn [andb]; [|done]. destruct (Z.leb_spec (distanceMeters (actor w1)) words) as [Hd|]; [|done].
  apply backed_check, backed_put; [|by apply (backed_same w1)].
  destruct Hq as [Q1 Q2 Q3 Q4 Q5]. split; [done..| |done]. intros _. exists words, pace. split; [by exists seq|].
  by rewrite (bw_distance _ _ (bw_room _ _ Hw1)) in Hd.
Qed.

(** Handling an event that [P] contains, or one of the room's or the process's
    own, keeps everything backed by [P]. *)
Lemma backed_applyEvent ev w : known P ev -> backed_world P w -> backed_world P (applyEvent e ev w).
Proof.
  intros HP Hw. destruct ev as [u d|u seq words pace|u|u|u|u reply| |txt|]; cbn [applyEvent];
    try (destruct HP as [HP|[HP|HP]]; [|discriminate HP..]).
  - by apply backed_joined.
  - by apply backed_telemetry.
  - unfold applyDisconnected. destruct (participants (actor w) !! u) as [p|] eqn:Hp; [|done].
    destruct (bw_live _ _ (bw_room _ _ Hw) _ _ Hp) as [H1 H2 H3 H4 H5].
    match goal with |- context [put_participant u ?q _] => apply (backed_same (put_participant u q w)) end;
      [by destruct (ps_graceTimer p)..|]. by apply backed_put.
  - unfold applyEvicted. destruct (participants (actor w) !! u) as [p|] eqn:Hp; [|done].
    case_bool_decide; [|done]. apply backed_depart; [done| |done]. right.
    apply (bk_dropped _ _ _ (bw_live _ _ (bw_room _ _ Hw) _ _ Hp)). by left.
  - unfold applyLeft. destruct (participants (actor w) !! u) as [p|] eqn:Hp; [|done].
    destruct (active (actor w)); [by apply backed_depart; [|left|]|]. apply backed_check, backed_record; [done|].
    destruct Hw as [[W1 W2 W3] W4 W5]. split; [|done|done]. by split; [|apply map_Forall_delete|].
  - unfold applyEvictionQuery. destruct (replies w !! reply); by apply (backed_same w).
  - by apply backed_check.
  - apply backed_broadcast; [|by apply (backed_same w)]. intros b Hb. right; right; left. by eexists.
  - unfold applyPendingExpired. destruct (_ || _); [done|]. by apply backed_expire.
Qed.
End step.

(** ** A running room *)

(** Whatever is on its way to the room may be sent to it. *)
Record backed_sys (P : RoomEvent -> Prop) (s : Sys) : Prop := {
  bs_world : backed_world P (world s);
  bs_inbox : Forall (known P) (inbox (actor (world s)));
  bs_sending : Forall (known P) (sending s);
  bs_timers : timers_carry (fun ev => timer_event ev = true) (world s)
}.

Lemma backed_sys_mono (P Q : RoomEvent -> Prop) s : (forall ev, P ev -> Q ev) -> backed_sys P s -> backed_sys Q s.
Proof.
  intros HPQ [H1 H2 H3 H4]. split; [by eapply backed_world_mono| | |done];
    (eapply Forall_impl; [eassumption|]; intros ev; by apply known_mono).
Qed.

Lemma backed_initial P now raceID : backed_sys P (initial now raceID dist).
Proof.
  split; [|constructor|constructor|].
  - split; [|constructor|constructor]. split; [done|apply map_Forall_empty..].
  - apply map_Forall_insert_2; [done|]. by apply map_Forall_insert_2; [|apply map_Forall_empty].
Qed.

Lemma backed_exec P l s s' :
  (forall e, l = Apply e \/ l = Tick e -> env_ok e) -> (forall ev, l = Send ev -> known P ev) -> backed_sys P s -> exec l s = Some s' -> backed_sys P s'.
Proof.
  intros Hl Hsend [Hw Hi Hs Ht] Hx. destruct l as [ev|i|i|e|e| |t| | |d]; simpl in Hx.
  - simplify_eq. split; [done|done| |done]. apply Forall_app_2; [done|]. constructor; [by apply Hsend|done].
  - apply bind_Some in Hx as (ev & Hev & Hx). case_bool_decide; simplify_eq.
    split; [by apply (backed_same P (world s))| |by apply Forall_delete_elem|done].
    apply Forall_app_2; [done|]. constructor; [|done]. by eapply (Forall_lookup_1 _ _ _ _ Hs).
  - destruct (_ && _); simplify_eq. by split; [..|apply Forall_delete_elem|].
  - destruct (inbox (actor (world s))) as [|ev rest] eqn:Hin; [done|]. destruct (_ && _); simplify_eq.
    apply Forall_cons in Hi as [Hev Hrest]. set (w := with_actor (fun r => r <| inbox := rest |>) (world s)).
    split; cbn; [|by rewrite inbox_applyEvent|done|by apply timers_carry_applyEvent].
    apply backed_applyEvent; [apply Hl; by left|exact Hev|by apply (backed_same P (world s))].
  - destruct (running s); simplify_eq. split; cbn; [apply backed_record; [done|apply backed_snapshot; [apply Hl; by right|done]]| |done|].
    + assert (Hc := core_broadcastSnapshot e (world s)). unfold core in Hc. injection Hc. intros. congruence.
    + unfold timers_carry. simpl. by rewrite timers_snapshot.
  - by destruct (_ && _); simplify_eq.
  - apply bind_Some in Hx as (tm & Htm & Hx). destruct (_ <=? _); simplify_eq.
    split; [by apply (backed_same P (world s))|done| |by apply timers_carry_stop]. apply Forall_app_2; [done|]. constructor; [|done].
    right; left. exact (Ht _ _ Htm).
  - destruct (broadcast (actor (world s))) as [|b rest] eqn:Hb; simplify_eq. destruct Hw as [W1 W2 W3]. rewrite Hb in W3.
    apply Forall_cons in W3 as [_ W3]. split; [by split; [destruct W1|..]|done..].
  - simplify_eq. by split; [apply (backed_same P (world s))|..].
  - by simplify_eq.
Qed.
End provenance.
