(* ===== verification/RoomScenarios.v ===== *)
(** * Concrete races

    Runs of the transition system on concrete inputs: the witnesses of the
    room's theorems, and the runs that show where the code and its comments, or
    its intention, part ways. *)
From Stdlib Require Import ZArith Floats.SpecFloat.
From stdpp Require Import base list gmap sets strings.
From S2P Require Import Prelude GoNum Json Events Room RoomRun RoomInv RoomSys RoomResults RoomProps RoomBehaviour.
Local Open Scope Z_scope.
Local Open Scope string_scope.
Local Open Scope list_scope.

(** ** Playing events *)

(** One event sent, accepted and handled at time [t], every call succeeding. *)
Definition deliver (t : Z) (ev : RoomEvent) : list Label :=
  [Send ev; Enqueue 0; Apply (env_at t)].

Fixpoint play (l : list (Z * RoomEvent)) : list Label :=
  match l with
  | [] => []
  | (t, ev) :: l' => deliver t ev ++ play l'
  end.

Definition event_okb (ev : RoomEvent) : bool :=
  match ev with
  | TelemetryReceived _ seq words pace => int64_okb seq && int64_okb words && float64_finite pace
  | _ => true
  end.

Lemma event_okb_ok ev : event_okb ev = true -> event_ok ev.
Proof. destruct ev; try done. simpl. rewrite !andb_true_iff, !int64_okb_spec. tauto. Qed.

Lemma play_ok l : Forall (fun x => event_ok x.2) l -> Forall label_ok (play l).
Proof.
  induction 1 as [|[t ev] l Hev _ IH]; [done|]. simpl in *.
  repeat (apply Forall_cons_2; [done || apply env_at_ok|]). exact IH.
Qed.

(** The room [raceID] of distance 10, created at time 0, after a run. *)
Definition room_after (ls : list Label) : option Sys := run ls (initial 0 "r1" 10).

Lemma room_after_reachable ls s :
  Forall label_ok ls -> room_after ls = Some s -> reachable 0 "r1" 10 (length ls) s.
Proof.
  intros Hok Hrun. change (length ls) with (0 + length ls)%nat.
  eapply reachable_run; [constructor|exact Hok|exact Hrun].
Qed.

Definition after_events (l : list (Z * RoomEvent)) : Sys :=
  default (initial 0 "r1" 10) (room_after (play l)).

Lemma events_okb_ok (l : list (Z * RoomEvent)) :
  forallb (fun x => event_okb x.2) l = true -> Forall (fun x => event_ok x.2) l.
Proof.
  intros H. rewrite forallb_forall in H. apply Forall_forall.
  intros x Hx%list_elem_of_In. by apply event_okb_ok, H.
Qed.

Lemma after_events_reachable l :
  forallb (fun x => event_okb x.2) l = true ->
  bool_decide (is_Some (room_after (play l))) = true ->
  reachable 0 "r1" 10 (length (play l)) (after_events l).
Proof.
  intros Hok Hrun. unfold after_events. apply bool_decide_eq_true_1 in Hrun as [s Hs].
  rewrite Hs. apply room_after_reachable; [|done]. by apply play_ok, events_okb_ok.
Qed.

(** Membership and other decidable facts by evaluation. *)
Local Ltac decided := refine (bool_decide_unpack _ _); vm_compute; exact Logic.I.

Definition ms (t : Z) : Z := t * 1000000.
Definition pace : float64 := float64_of_int 40.

(** ** A race between two people *)
Definition lobby : list (Z * RoomEvent) :=
  [(ms 1, ParticipantJoined "a" "Ann"); (ms 2, ParticipantJoined "b" "Bob")].
Definition started : list (Z * RoomEvent) := lobby ++ [(ms 3, activated "the text")].
Definition one_done : list (Z * RoomEvent) :=
  started ++ [(ms 4, TelemetryReceived "a" 1 5 pace); (ms 5, TelemetryReceived "a" 2 10 pace)].
Definition both_done : list (Z * RoomEvent) :=
  one_done ++ [(ms 6, TelemetryReceived "b" 1 12 pace)].

Local Ltac reached := apply after_events_reachable; vm_compute; reflexivity.
Local Ltac few := apply (bool_decide_unpack (_ < _)); vm_compute; exact Logic.I.

Lemma lobby_reachable : reachable 0 "r1" 10 (length (play lobby)) (after_events lobby).
Proof. reached. Qed.
Lemma started_reachable : reachable 0 "r1" 10 (length (play started)) (after_events started).
Proof. reached. Qed.
Lemma one_done_reachable : reachable 0 "r1" 10 (length (play one_done)) (after_events one_done).
Proof. reached. Qed.
Lemma both_done_reachable : reachable 0 "r1" 10 (length (play both_done)) (after_events both_done).
Proof. reached. Qed.

Definition both_results : list ParticipantResult :=
  [mkResult "a" (Some 1) (Some 5) pace 0; mkResult "b" (Some 2) (Some 6) pace 0].

Lemma finish_results_witness :
  CallFinishRace 10 both_results None ∈ calls (world (after_events both_done)) /\
  results_ok both_results /\ 10 = 10 /\ active (actor (world (after_events both_done))) = true.
Proof.
  assert (CallFinishRace 10 both_results None ∈ calls (world (after_events both_done))) as Hin
    by decided.
  split; [exact Hin|].
  apply (finish_results 0 "r1" 10 (length (play both_done)) (after_events both_done) 10
    both_results None); [few|exact both_done_reachable|exact Hin].
Defined.

(** The moment before the last telemetry is handled, and the step that does it. *)
Definition last_word : RoomEvent := TelemetryReceived "b" 1 12 pace.
Definition ready_labels : list Label := play one_done ++ [Send last_word; Enqueue 0].
Definition ready : Sys := default (initial 0 "r1" 10) (room_after ready_labels).
Definition final : Sys := default ready (exec (Apply (env_at (ms 6))) ready).

Lemma ready_reachable : reachable 0 "r1" 10 (length ready_labels) ready.
Proof.
  assert (is_Some (room_after ready_labels)) as [s Hs] by decided.
  unfold ready. rewrite Hs. apply room_after_reachable; [|exact Hs].
  apply Forall_app_2; [apply play_ok, events_okb_ok; vm_compute; reflexivity|].
  apply Forall_cons_2; [apply event_okb_ok; vm_compute; reflexivity|by apply Forall_cons_2].
Qed.

Lemma final_step : exec (Apply (env_at (ms 6))) ready = Some final.
Proof.
  unfold final. destruct (exec _ ready) eqn:Hx; [done|]. exfalso.
  assert (is_Some (exec (Apply (env_at (ms 6))) ready)) as [? Hs] by decided. congruence.
Qed.


Lemma checkRaceFinished_spec_witness :
  finished (actor (world ready)) = false /\ ~ all_ranked (actor (world ready)) /\
  checkRaceFinished (env_at 0) (world ready) = world ready.
Proof.
  assert (finished (actor (world ready)) = false) as Hf by (vm_compute; reflexivity).
  assert (~ all_ranked (actor (world ready))) as Hn by decided.
  split; [exact Hf|]. split; [exact Hn|].
  exact (proj1 (proj2 (proj2 (checkRaceFinished_spec (env_at 0) (world ready) (env_at_ok 0) Hf))) Hn).
Defined.

Lemma telemetry_replay_witness :
  let w := world (after_events one_done) in
  applyTelemetry (env_at (ms 7)) "b" 3 9 pace (applyTelemetry (env_at (ms 6)) "b" 4 8 pace w) =
  applyTelemetry (env_at (ms 6)) "b" 4 8 pace w.
Proof. apply (telemetry_replay (env_at (ms 6)) (env_at (ms 7)) "b" 4 8 pace 3 9 pace). lia. Defined.

Definition participant (u : string) (s : Sys) : ParticipantState :=
  default (mkParticipant u "" 0 0 float64_0 0 None 0 None None None)
    (participants (actor (world s)) !! u).

Lemma telemetry_accepted_witness :
  let w' := applyTelemetry (env_at (ms 6)) "b" 1 12 pace (world (after_events one_done)) in
  finishedCount (actor w') = finishedCount (actor (world (after_events one_done))) + 1.
Proof.
  pose proof (telemetry_accepted 0 "r1" 10 (length (play one_done)) (after_events one_done)
    (env_at (ms 6)) "b" 1 12 pace (participant "b" (after_events one_done))) as H.
  assert (still_racing (participant "b" (after_events one_done)) && (10 <=? 12)%Z = true) as Hr
    by (vm_compute; reflexivity).
  rewrite Hr in H. apply H; [few|exact one_done_reachable|vm_compute; reflexivity..].
Defined.

Lemma finish_is_final_witness :
  ps_FinishRank (participant "a" final) = ps_FinishRank (participant "a" ready).
Proof.
  apply (finish_is_final (Apply (env_at (ms 6))) ready final "a" (participant "a" ready)
    (participant "a" final)); [exact final_step|vm_compute; reflexivity|vm_compute; reflexivity|].
  vm_compute. eauto.
Defined.

Lemma finish_covers_witness :
  length both_results = 2%nat /\ exists x, x ∈ both_results /\ res_UserID x = "b".
Proof.
  pose proof (finish_covers 0 "r1" 10 (length ready_labels) ready (Apply (env_at (ms 6))) final
    10 both_results None) as H.
  destruct H as [Hlen Hall];
    [few|exact ready_reachable|apply env_at_ok|exact final_step|decided|decided|].
  split; [exact Hlen|].
  destruct (Hall "b" (participant "b" final)) as (x & Hx & Hu & _); [left; vm_compute; reflexivity|].
  exists x. split; [exact Hx|exact Hu].
Defined.

Lemma snapshot_complete_witness :
  exists ranked : list ParticipantState, length ranked = 2%nat.
Proof.
  destruct (snapshot_complete 0 "r1" 10 (length (play one_done)) (after_events one_done)
    (env_at (ms 7))) as (ranked & body & Hperm & _);
    [few|exact one_done_reachable|apply env_at_ok|].
  exists ranked. rewrite Hperm. vm_compute. reflexivity.
Defined.

(** ** Leaving and coming back *)
Definition leaving_labels : list Label := play started ++ [Send (ParticipantLeft "a"); Enqueue 0].
Definition leaving : Sys := default (initial 0 "r1" 10) (room_after leaving_labels).
Definition left_room : Sys := default leaving (exec (Apply (env_at (ms 6))) leaving).

Lemma leaving_reachable : reachable 0 "r1" 10 (length leaving_labels) leaving.
Proof.
  assert (is_Some (room_after leaving_labels)) as [s Hs] by decided.
  unfold leaving. rewrite Hs. apply room_after_reachable; [|exact Hs].
  apply Forall_app_2; [apply play_ok, events_okb_ok; vm_compute; reflexivity|].
  by repeat apply Forall_cons_2.
Qed.

Lemma left_step : exec (Apply (env_at (ms 6))) leaving = Some left_room.
Proof.
  assert (is_Some (exec (Apply (env_at (ms 6))) leaving)) as [s Hs] by decided.
  unfold left_room. by rewrite Hs.
Qed.

Lemma departure_cause_witness :
  departedParticipants (actor (world left_room)) !! "a" = Some (participant "a" leaving).
Proof.
  destruct (departure_cause (Apply (env_at (ms 6))) leaving left_room "a" (participant "a" leaving))
    as (e & ev & rest & _ & _ & _ & H);
    [exact left_step|vm_compute; reflexivity|vm_compute; reflexivity|].
  apply H. vm_compute. reflexivity.
Defined.

Lemma eviction_permanent_witness :
  replies (applyEvictionQuery "a" 0 (world leaving)) !! 0%nat =
    Some (bool_decide ("a" ∈ dom (departedParticipants (actor (world leaving))))).
Proof.
  apply (eviction_permanent 0 "r1" 10 (length leaving_labels) leaving (Apply (env_at (ms 6)))
    left_room); [few|exact leaving_reachable|apply env_at_ok|exact left_step|].
  vm_compute. reflexivity.
Defined.

Lemma reconnect_preserves_witness :
  let w := world (after_events one_done) in
  totalParticipants (actor (applyJoined (env_at (ms 9)) "b" "Robert"
    (applyDisconnected (env_at (ms 8)) "b" w))) = totalParticipants (actor w).
Proof.
  apply (reconnect_preserves (env_at (ms 8)) (env_at (ms 9)) "b" "Robert"
    (participant "b" (after_events one_done)) (world (after_events one_done))).
  vm_compute. reflexivity.
Defined.

(** A room that has torn down, with a sender still blocked. *)
Definition blocked_labels : list Label := play both_done ++ [Exit; Send (ParticipantDisconnected "a")].
Definition blocked : Sys := default (initial 0 "r1" 10) (room_after blocked_labels).

Lemma blocked_reachable : reachable 0 "r1" 10 (length blocked_labels) blocked.
Proof.
  assert (is_Some (room_after blocked_labels)) as [s Hs] by decided.
  unfold blocked. rewrite Hs. apply room_after_reachable; [|exact Hs].
  apply Forall_app_2; [apply play_ok, events_okb_ok; vm_compute; reflexivity|].
  by repeat apply Forall_cons_2.
Qed.

Lemma send_released_witness :
  exists ls s', (length ls <= 2)%nat /\ run ls blocked = Some s' /\ sending s' = [].
Proof.
  destruct (send_released 0 "r1" 10 (length blocked_labels) blocked 0 (ParticipantDisconnected "a"))
    as (_ & _ & ls & s' & Hlen & _ & Hrun & Hs);
    [few|exact blocked_reachable|vm_compute; reflexivity|].
  exists ls, s'. split; [exact Hlen|]. split; [exact Hrun|]. rewrite Hs. vm_compute. reflexivity.
Defined.

(** ** Where the code parts from its comments *)

(** "participants" are not always distinct people.  A racer with two open
    connections who leaves on one of them and joins again on the other is
    admitted as a fresh participant, although evicted: the results then hold
    two rows for one user. *)
Theorem evicted_rejoin_duplicates :
  exists n s rs, reachable 0 "r1" 10 n s /\
    CallFinishRace 10 rs None ∈ calls (world s) /\ ~ NoDup (res_UserID <$> rs).
Proof.
  set (l := started ++ [(ms 4, ParticipantLeft "a"); (ms 5, ParticipantJoined "a" "Ann");
    (ms 6, TelemetryReceived "a" 1 10 pace); (ms 7, TelemetryReceived "b" 1 10 pace)]).
  exists (length (play l)), (after_events l),
    [mkResult "a" (Some 1) (Some 6) pace 0; mkResult "b" (Some 2) (Some 7) pace 0;
     mkResult "a" (Some 3) None float64_0 0].
  split; [reached|]. split; decided.
Qed.

(** The shared last place is not always the number of distinct people: a
    participant who leaves the lobby and joins again counts twice, so the
    non-finisher of a race between two people is ranked third. *)
Theorem lobby_rejoin_counts_twice :
  exists n s rs, reachable 0 "r1" 10 n s /\
    CallFinishRace 10 rs None ∈ calls (world s) /\
    length rs = 2%nat /\ mkResult "a" (Some 3) None float64_0 0 ∈ rs.
Proof.
  set (l := lobby ++ [(ms 3, ParticipantLeft "a"); (ms 4, ParticipantJoined "a" "Ann");
    (ms 5, activated "the text"); (ms 6, TelemetryReceived "b" 1 10 pace);
    (ms 7, ParticipantLeft "a")]).
  exists (length (play l)), (after_events l),
    [mkResult "b" (Some 1) (Some 6) pace 0; mkResult "a" (Some 3) None float64_0 0].
  split; [reached|]. split; [decided|]. split; [reflexivity|decided].
Qed.

(** The grace period can be cut short.  An eviction whose timer has fired
    but which is still on its way to the inbox survives a reconnection; if the
    participant then drops again, it evicts them at once, long before the new
    grace period has passed. *)
Theorem stale_eviction_honoured :
  exists n s e s' t p, reachable 0 "r1" 10 n s /\ exec (Apply e) s = Some s' /\
    participants (actor (world s)) !! "a" = Some p /\ ps_DisconnectedAt p = Some t /\
    env_now e - t < gracePeriodDuration /\
    participants (actor (world s')) !! "a" = None /\ "a" ∈ evicted (actor (world s')).
Proof.
  set (ls := play (started ++ [(ms 4, ParticipantDisconnected "a")]) ++
    [Elapse 30000000000; Fire 2; Send (ParticipantJoined "a" "Ann"); Enqueue 1;
     Apply (env_at (ms 30005)); Send (ParticipantDisconnected "a"); Enqueue 1;
     Apply (env_at (ms 30006)); Enqueue 0]).
  set (s := default (initial 0 "r1" 10) (room_after ls)).
  exists (length ls), s, (env_at (ms 30007)), (default s (exec (Apply (env_at (ms 30007))) s)),
    (ms 30006), (participant "a" s).
  split.
  { assert (is_Some (room_after ls)) as [s0 Hs] by decided.
    unfold s. rewrite Hs. apply room_after_reachable; [|exact Hs].
    apply Forall_app_2; [apply play_ok, events_okb_ok; vm_compute; reflexivity|].
    repeat (apply Forall_cons_2; [first [exact Logic.I|apply env_at_ok]|]). apply Forall_nil_2. }
  split_and!; [|vm_compute; reflexivity..|decided].
  assert (is_Some (exec (Apply (env_at (ms 30007))) s)) as [s1 Hs1] by decided. by rewrite Hs1.
Qed.

(** Equal word counts are not shown in the order people joined: the same
    room can broadcast two different orders, because the loop that collects the
    participants runs in map order before the stable sort. *)
Theorem tie_order_arbitrary :
  exists n s e e', reachable 0 "r1" 10 n s /\ env_ok e /\ env_ok e' /\
    (ps_UserID <$> snapshot_ranked e (actor (world s))) = ["a"; "b"] /\
    (ps_UserID <$> snapshot_ranked e' (actor (world s))) = ["b"; "a"].
Proof.
  pose (rev_env := (env_at 0) <| env_iter := fun _ m => reverse (values m) |>).
  assert (env_ok rev_env) as Hrev.
  { intros k m. unfold is_iteration. simpl. apply reverse_Permutation. }
  exists (length (play lobby)), (after_events lobby).
  exists (env_at 0), rev_env.
  split; [exact lobby_reachable|]. split; [apply env_at_ok|]. split; [exact Hrev|].
  split; vm_compute; reflexivity.
Qed.

(** "start" and "expire" are not mutually exclusive for the clients: a room
    whose cancellation has been persisted still announces [race_started] when
    the activation is already in its inbox. *)
Theorem started_after_expired :
  exists n s, reachable 0 "r1" 10 n s /\ phase (world s) = Cancelled /\
    active (actor (world s)) = true /\
    exists before, broadcast (actor (world s)) = before ++
      [JObj [("type", JStr "race_expired")];
       JObj [("type", JStr "race_started"); ("prompt_text", JStr "the text")]].
Proof.
  set (l := lobby ++ [(ms 300000, pendingExpired); (ms 300001, activated "the text")]).
  exists (length (play l)), (after_events l).
  split; [reached|]. split; [vm_compute; reflexivity|]. split; [vm_compute; reflexivity|].
  exists (take 2 (broadcast (actor (world (after_events l))))). vm_compute. reflexivity.
Qed.
