(* ===== verification/RoomQuery.v ===== *)
(** * Asking a room ([RoomActor.IsEvicted])

    The actor's synchronous query: the caller sends an [evictionQuery] carrying a
    reply channel of its own and waits for the answer or for the room to go away.
    The caller is a goroutine of its own next to the system of [RoomRun]; both
    its [select]s are steps. *)
From Stdlib Require Import ZArith.
From stdpp Require Import base list gmap sets strings.
From S2P Require Import Prelude GoNum Json Events Room RoomRun RoomInv RoomSys RoomBehaviour.
Local Open Scope Z_scope.

(** Where the caller is in [IsEvicted]: before it, at the first [select], at the
    second, or returned. *)
Inductive Caller := NotYet | Asking | Awaiting | Answered (b : bool).

(** The room and a caller; [was_evicted] remembers the room at the call. *)
Record Asked := mkAsked { room : Sys; caller : Caller; was_evicted : bool }.

#[export] Instance eta_Asked : Eta Asked := fun x => mkAsked (room x) (caller x) (was_evicted x).

Definition is_evicted (u : string) (s : Sys) : bool := bool_decide (u ∈ evicted (actor (world s))).

(** The reply channel [q] is nobody else's. *)
Definition mentions (q : nat) (ev : RoomEvent) : bool :=
  match ev with evictionQuery _ reply => Nat.eqb reply q | _ => false end.

Inductive QueryStep :=
  | QRoom (l : Label)    (** the room, and everybody else *)
  | QCall                (** [IsEvicted(userID)] is called *)
  | QSend                (** [case r.inbox <- evictionQuery{...}] *)
  | QReply               (** [case evicted := <-reply] *)
  | QGone.               (** [case <-r.ctx.Done()] of either [select] *)

Section query.
Context (userID : string) (q : nat).

Definition query_exec (l : QueryStep) (x : Asked) : option Asked :=
  let s := room x in
  match l with
  | QRoom l' =>
      if match l' with Send ev => mentions q ev | _ => false end then None else
      s' ← exec l' s; Some (x <| room := s' |>)
  | QCall =>
      match caller x with
      | NotYet => Some (x <| caller := Asking |> <| was_evicted := is_evicted userID s |>)
      | _ => None
      end
  | QSend =>
      match caller x with
      | Asking =>
          if bool_decide (length (inbox (actor (world s))) < inboxCapacity)%nat
          then Some (x <| room := s <| world :=
                 with_actor (fun r => r <| inbox := inbox r ++ [evictionQuery userID q] |>) (world s) |> |>
                 <| caller := Awaiting |>)
          else None
      | _ => None
      end
  | QReply =>
      match caller x with
      | Awaiting => b ← replies (world s) !! q; Some (x <| caller := Answered b |>)
      | _ => None
      end
  | QGone =>
      match caller x with
      | Asking | Awaiting => if done (actor (world s)) then Some (x <| caller := Answered false |>) else None
      | _ => None
      end
  end.

Fixpoint query_run (ls : list QueryStep) (x : Asked) : option Asked :=
  match ls with
  | [] => Some x
  | l :: ls' => x' ← query_exec l x; query_run ls' x'
  end.

Definition query_ok (l : QueryStep) : Prop := match l with QRoom l' => label_ok l' | _ => True end.

Inductive query_reachable (now : Z) (raceID : string) (distance : Z) : Asked -> Prop :=
  | query_init : query_reachable now raceID distance (mkAsked (initial now raceID distance) NotYet false)
  | query_next l x x' : query_reachable now raceID distance x -> query_ok l -> query_exec l x = Some x' ->
      query_reachable now raceID distance x'.

(** ** What handling an event does to the replies and to [evicted] *)

Lemma replies_snapshot e w : replies (broadcastSnapshot e w) = replies w.
Proof. unfold broadcastSnapshot, broadcast_marshalled. by destruct (RaceStateMessage _ _). Qed.

Lemma replies_check e w : replies (checkRaceFinished e w) = replies w.
Proof.
  unfold checkRaceFinished, finishRace, expirePendingRoom. destruct (finished _); [done|].
  destruct (existsb _ _); [done|]. destruct (negb _).
  - by destruct (err_CancelRace e).
  - destruct (err_FinishRace e); [exact (replies_snapshot e w)|]. etransitivity; [|apply (replies_snapshot e w)].
    unfold cancel, with_actor, broadcast_marshalled. cbn. by destruct (RaceFinishedMessage _).
Qed.

Lemma replies_applyEvent e ev w r : mentions r ev = false -> replies (applyEvent e ev w) !! r = replies w !! r.
Proof.
  intros Hm. destruct ev as [u d|u seq words pace|u|u|u|u reply| |txt|]; cbn [applyEvent].
  - unfold applyJoined. rewrite replies_snapshot. destruct (participants (actor w) !! u) as [p|]; [|done].
    destruct (ps_DisconnectedAt p); [|done]. by destruct (ps_graceTimer p).
  - unfold applyTelemetry. destruct (negb _); [done|]. destruct (participants (actor w) !! u); [|done].
    destruct (_ <=? _); [done|]. destruct (_ && _); [by rewrite replies_check|done].
  - unfold applyDisconnected. destruct (participants (actor w) !! u) as [p|]; [|done]. by destruct (ps_graceTimer p).
  - unfold applyEvicted, departParticipant. destruct (participants (actor w) !! u); [|done].
    case_bool_decide; [by rewrite replies_check|done].
  - unfold applyLeft, departParticipant. destruct (participants (actor w) !! u); [|done].
    destruct (active _); by rewrite replies_check.
  - unfold applyEvictionQuery. destruct (replies w !! reply); [done|]. cbn. cbn in Hm. apply Nat.eqb_neq in Hm.
    by rewrite lookup_insert_ne.
  - by rewrite replies_check.
  - done.
  - unfold applyPendingExpired, expirePendingRoom. destruct (_ || _); [done|]. by destruct (err_CancelRace e).
Qed.

Lemma evicted_move now r r' u : move now r r' -> u ∈ evicted r -> u ∈ evicted r'.
Proof.
  intros Hm Hu. destruct Hm as [? Hc|? Hc|????????? Hc|??????? Hc|???????????? Hc|????? Hc|???? Hc];
    unfold core in Hc; simplify_eq/=; [congruence..|]. set_solver.
Qed.

Lemma evicted_exec l s s' : exec l s = Some s' -> is_evicted userID s = true -> is_evicted userID s' = true.
Proof.
  unfold is_evicted. rewrite !bool_decide_eq_true. intros Hx Hu.
  destruct l as [ev|i|i|e|e| |t| | |d]; simpl in Hx; try (by simplify_eq).
  - apply bind_Some in Hx as (ev & _ & Hx). case_bool_decide; by simplify_eq.
  - destruct (_ && _); by simplify_eq.
  - destruct (inbox (actor (world s))) as [|ev rest]; [done|]. destruct (_ && _); simplify_eq. cbn.
    eapply evicted_move; [apply applyEvent_move|done].
  - destruct (running s); simplify_eq. cbn. pose proof (core_broadcastSnapshot e (world s)) as Hc.
    unfold core in Hc. simplify_eq. congruence.
  - destruct (_ && _); by simplify_eq.
  - apply bind_Some in Hx as (tm & _ & Hx). destruct (_ <=? _); by simplify_eq.
  - destruct (broadcast _); by simplify_eq.
Qed.

(** ** One step of the room, as the query sees it *)

Definition foreign (ev : RoomEvent) : Prop := mentions q ev = false.

Lemma exec_view l s s' :
  match l with Send ev => mentions q ev | _ => false end = false -> exec l s = Some s' ->
  timers_carry foreign (world s) -> Forall foreign (sending s) ->
  timers_carry foreign (world s') /\ Forall foreign (sending s') /\
  ((replies (world s') !! q = replies (world s) !! q /\
    exists evs, Forall foreign evs /\ inbox (actor (world s')) = inbox (actor (world s)) ++ evs) \/
   (exists e ev rest, inbox (actor (world s)) = ev :: rest /\
      world s' = applyEvent e ev (with_actor (fun r => r <| inbox := rest |>) (world s)))).
Proof.
  intros Hp Hx Ht Hs.
  assert (Hquiet : forall r, r = inbox (actor (world s)) -> exists evs, Forall foreign evs /\ r = inbox (actor (world s)) ++ evs)
    by (intros r ->; exists []; by rewrite app_nil_r).
  destruct l as [ev|i|i|e|e| |t| | |d]; simpl in Hx; try (simplify_eq; split_and!; [done|done|left; split; [done|by apply Hquiet]]).
  - simplify_eq. split_and!; [done|by apply Forall_app_2; [|constructor]|left; split; [done|by apply Hquiet]].
  - apply bind_Some in Hx as (ev & Hev & Hx). case_bool_decide; simplify_eq.
    split_and!; [done|by apply Forall_delete_elem|left; split; [done|]]. exists [ev]. split; [|done].
    constructor; [|done]. by eapply Forall_lookup_1 in Hs.
  - destruct (_ && _); simplify_eq. split_and!; [done|by apply Forall_delete_elem|left; split; [done|by apply Hquiet]].
  - destruct (inbox (actor (world s))) as [|ev rest] eqn:Hin; [done|]. destruct (_ && _); simplify_eq.
    split_and!; [|done|right; by exists e, ev, rest]. by apply timers_carry_applyEvent.
  - destruct (running s); simplify_eq. split_and!; [|done|left; split].
    + unfold timers_carry. cbn. by rewrite timers_snapshot.
    + cbn. by rewrite replies_snapshot.
    + apply Hquiet. pose proof (core_broadcastSnapshot e (world s)) as Hc. unfold core in Hc. cbn. by simplify_eq.
  - destruct (_ && _); simplify_eq. split_and!; [done|done|left; split; [done|by apply Hquiet]].
  - apply bind_Some in Hx as (tm & Hlk & Hx). destruct (_ <=? _); simplify_eq.
    split_and!; [by apply timers_carry_stop| |left; split; [done|by apply Hquiet]].
    apply Forall_app_2; [done|]. constructor; [|done]. by apply (Ht t).
  - destruct (broadcast _); simplify_eq. split_and!; [done|done|left; split; [done|by apply Hquiet]].
Qed.

(** ** The invariant of a query *)

Definition sent (c : Caller) : bool := match c with NotYet | Asking => false | _ => true end.

(** What an answer says about the room as it is now. *)
Definition true_answer (b : bool) (x : Asked) : Prop :=
  (b = true -> is_evicted userID (room x) = true) /\
  (b = false -> was_evicted x = false \/ done (actor (world (room x))) = true).

Record asked_ok (x : Asked) : Prop := {
  ak_timers : timers_carry foreign (world (room x));
  ak_sending : Forall foreign (sending (room x));
  ak_inbox : Forall (fun ev => foreign ev \/ sent (caller x) = true /\ ev = evictionQuery userID q) (inbox (actor (world (room x))));
  ak_unsent : sent (caller x) = false -> replies (world (room x)) !! q = None;
  ak_owed : caller x = Awaiting -> replies (world (room x)) !! q = None ->
    evictionQuery userID q ∈ inbox (actor (world (room x)));
  ak_reply b : replies (world (room x)) !! q = Some b -> true_answer b x;
  ak_was : caller x <> NotYet -> was_evicted x = true -> is_evicted userID (room x) = true;
  ak_answer b : caller x = Answered b -> true_answer b x
}.

Lemma true_answer_exec b l x s' :
  exec l (room x) = Some s' -> true_answer b x -> true_answer b (x <| room := s' |>).
Proof.
  intros Hx [H1 H2]. split; cbn; intros Hb.
  - by eapply evicted_exec, H1.
  - destruct (H2 Hb) as [|Hd]; [by left|right]. by eapply done_exec.
Qed.

Lemma asked_ok_room l x s' :
  match l with Send ev => mentions q ev | _ => false end = false -> exec l (room x) = Some s' ->
  asked_ok x -> asked_ok (x <| room := s' |>).
Proof.
  intros Hp Hx [Ht Hs Hi Hu Ho Hr Hw Ha].
  destruct (exec_view _ _ _ Hp Hx Ht Hs) as (Ht' & Hs' & Hv).
  assert (Hw' : caller x <> NotYet -> was_evicted x = true -> is_evicted userID s' = true)
    by (intros; eapply evicted_exec; eauto).
  assert (Ha' : forall b, caller x = Answered b -> true_answer b (x <| room := s' |>))
    by (intros; eapply true_answer_exec; eauto).
  destruct Hv as [(Hq & evs & Hevs & Hin)|(e & ev & rest & Hin & Hworld)].
  - split; cbn; try done.
    + rewrite Hin. apply Forall_app_2; [done|]. eapply Forall_impl; [exact Hevs|]. by left.
    + by rewrite Hq.
    + rewrite Hq, Hin. intros Hc Hn. apply elem_of_app. left. by apply Ho.
    + rewrite Hq. intros b Hb. by eapply true_answer_exec; eauto.
  - rewrite Hin in Hi. apply Forall_cons in Hi as [Hev Hrest].
    assert (Hin' : inbox (actor (world s')) = rest) by (by rewrite Hworld, inbox_applyEvent).
    destruct Hev as [Hev|[Hsent ->]].
    + assert (Hq : replies (world s') !! q = replies (world (room x)) !! q) by (by rewrite Hworld, replies_applyEvent).
      split; cbn; try done.
      * by rewrite Hin'.
      * by rewrite Hq.
      * rewrite Hq, Hin'. intros Hc Hn. specialize (Ho Hc Hn). rewrite Hin in Ho.
        apply elem_of_cons in Ho as [<-|Ho]; [|done]. unfold foreign in Hev. cbn in Hev. by rewrite Nat.eqb_refl in Hev.
      * rewrite Hq. intros b Hb. by eapply true_answer_exec; eauto.
    + assert (Hq : exists b, replies (world s') !! q = Some b /\ true_answer b (x <| room := s' |>)).
      { destruct (replies (world (room x)) !! q) as [b|] eqn:Hb.
        - exists b. split; [|by eapply true_answer_exec; eauto].
          rewrite Hworld. cbn [applyEvent]. unfold applyEvictionQuery. cbn. by rewrite Hb.
        - exists (is_evicted userID (room x)). split.
          + rewrite Hworld. cbn [applyEvent]. unfold applyEvictionQuery. cbn. rewrite Hb. by apply lookup_insert_eq.
          + split; cbn; [by eapply evicted_exec|]. intros Hf. left. destruct (was_evicted x) eqn:Hwas; [|done].
            rewrite Hw in Hf; [done| |done]. by intros Hc; rewrite Hc in Hsent. }
      destruct Hq as (b & Hb & Htrue). split; cbn; try done.
      * by rewrite Hin'.
      * intros Hc. by rewrite Hc in Hsent.
      * intros _ Hn. by rewrite Hn in Hb.
      * intros b' Hb'. by replace b' with b by congruence.
Qed.

Lemma asked_ok_step l x x' : query_exec l x = Some x' -> asked_ok x -> asked_ok x'.
Proof.
  intros Hx Hok. destruct l as [l| | | |]; cbn in Hx.
  - destruct (match l with Send ev => mentions q ev | _ => false end) eqn:Hp; [done|].
    apply bind_Some in Hx as (s' & Hs & Hx). simplify_eq. by eapply asked_ok_room.
  - destruct Hok as [Ht Hs Hi Hu Ho Hr Hw Ha]. destruct (caller x) eqn:Hc; simplify_eq.
    split; cbn; try done.
    + intros b Hb. cbn in Hu. by rewrite Hu in Hb.
  - destruct Hok as [Ht Hs Hi Hu Ho Hr Hw Ha]. destruct (caller x) eqn:Hc; try done. case_bool_decide; simplify_eq.
    split; cbn; try done.
    + apply Forall_app_2; [|constructor; [by right|done]]. eapply Forall_impl; [exact Hi|]. cbn. naive_solver.
    + intros _ _. apply elem_of_app. right. by left.
    + intros _. by apply Hw.
  - destruct Hok as [Ht Hs Hi Hu Ho Hr Hw Ha]. destruct (caller x) eqn:Hc; try done.
    apply bind_Some in Hx as (b & Hb & Hx). simplify_eq. split; cbn; try done.
    + intros _. by apply Hw.
    + intros b' [= <-]. by apply Hr.
  - destruct (caller x) eqn:Hc; try done; destruct (done (actor (world (room x)))) eqn:Hd; try done;
      simplify_eq; destruct Hok as [Ht Hs Hi Hu Ho Hr Hw Ha]; rewrite Hc in *; split; cbn; try done.
    + eapply Forall_impl; [exact Hi|]. cbn. naive_solver.
    + intros _. by apply Hw.
    + intros b [= <-]. split; [done|]. by right.
    + intros _. by apply Hw.
    + intros b [= <-]. split; [done|]. by right.
Qed.

Section reached.
Context (now : Z) (raceID : string) (distance : Z).

Lemma query_reachable_ok x : query_reachable now raceID distance x -> asked_ok x.
Proof.
  induction 1 as [|l x x' _ IH _ Hx]; [|by eapply asked_ok_step].
  split; cbn; try done. by repeat apply map_Forall_insert_2.
Qed.

(** The room of a query is a reachable room: the caller is one more sender. *)
Lemma query_room x : query_reachable now raceID distance x -> exists n, reachable now raceID distance n (room x).
Proof.
  induction 1 as [|l x x' _ [n IH] Hok Hx]; [exists 0%nat; constructor|]. destruct l as [l| | | |]; cbn in Hx.
  - destruct (match l with Send ev => mentions q ev | _ => false end); [done|].
    apply bind_Some in Hx as (s' & Hs & Hx). simplify_eq. exists (S n). by eapply reach_step.
  - destruct (caller x); simplify_eq. by exists n.
  - destruct (caller x); try done. case_bool_decide as Hl; simplify_eq.
    set (s := room x) in *. exists (S (S n)).
    apply (reach_step _ _ _ (S n) (Enqueue (length (sending s))) (s <| sending := sending s ++ [evictionQuery userID q] |>)).
    + by apply (reach_step _ _ _ n (Send (evictionQuery userID q)) s).
    + done.
    + cbn. rewrite lookup_app_r, Nat.sub_diag by lia. cbn. rewrite bool_decide_true by done. f_equal.
      unfold set. cbn. f_equal. rewrite delete_take_drop, take_app_length, drop_ge, app_nil_r; [done|rewrite length_app; cbn; lia].
  - destruct (caller x); try done. apply bind_Some in Hx as (b & _ & Hx). simplify_eq. by exists n.
  - destruct (caller x); try done; destruct (done _); simplify_eq; by exists n.
Qed.

Lemma query_run_app ls ls' x : query_run (ls ++ ls') x = x' ← query_run ls x; query_run ls' x'.
Proof.
  revert x. induction ls as [|l ls IH]; intros x; [done|]. cbn [app query_run].
  destruct (query_exec l x); [apply IH|done].
Qed.

(** The loop takes what is ahead of the query out of the inbox, then answers it. *)
Lemma drain_to_query k : forall x, running (room x) = true ->
  inbox (actor (world (room x))) !! k = Some (evictionQuery userID q) ->
  exists ls x', length ls = S k /\ Forall query_ok ls /\ query_run ls x = Some x' /\ caller x' = caller x /\
    is_Some (replies (world (room x')) !! q).
Proof.
  induction k as [|k IH]; intros x Hrun Hk; destruct (inbox (actor (world (room x)))) as [|ev rest] eqn:Hin; try done;
    set (s := room x) in *; set (e := env_at (clock s));
    set (s' := s <| clock := clock s |> <| world := applyEvent e ev (with_actor (fun r => r <| inbox := rest |>) (world s)) |>);
    assert (Hx : query_exec (QRoom (Apply e)) x = Some (x <| room := s' |>))
      by (cbn [query_exec exec]; fold s; rewrite Hin, Hrun; cbn [env_ts env_now e env_at]; by rewrite Z.leb_refl).
  - exists [QRoom (Apply e)], (x <| room := s' |>). split_and!; [done|repeat constructor; apply env_at_ok|by cbn [query_run]; rewrite Hx|done|].
    cbn in Hk. simplify_eq. cbn. unfold applyEvictionQuery. cbn. destruct (replies (world s) !! q) eqn:Hq; cbn.
    + rewrite Hq. by eexists.
    + rewrite lookup_insert_eq. by eexists.
  - destruct (IH (x <| room := s' |>)) as (ls & x' & Hl & Hok & Hr & Hc & Ha); [done|cbn; by rewrite inbox_applyEvent|].
    exists (QRoom (Apply e) :: ls), x'. split_and!; [cbn; lia|constructor; [apply env_at_ok|done]| |done|done].
    cbn [query_run]. by rewrite Hx.
Qed.

Lemma awaiting_returns x : query_reachable now raceID distance x -> caller x = Awaiting ->
  exists ls x' b, (length ls <= 65)%nat /\ Forall query_ok ls /\ query_run ls x = Some x' /\ caller x' = Answered b.
Proof.
  intros Hr Hc. destruct (query_room x Hr) as [n Hn].
  destruct (running (room x)) eqn:Hrun.
  - assert (Hlast : forall y, caller y = Awaiting -> is_Some (replies (world (room y)) !! q) ->
      exists b, query_run [QReply] y = Some (y <| caller := Answered b |>)).
    { intros y Hy [b Hb]. exists b. cbn. by rewrite Hy, Hb. }
    destruct (replies (world (room x)) !! q) as [b|] eqn:Hq.
    + destruct (Hlast x Hc) as [b' Hb]; [by rewrite Hq|]. exists [QReply]. eexists _, b'. split_and!; [simpl; lia|by repeat constructor|exact Hb|done].
    + apply (ak_owed _ (query_reachable_ok _ Hr) Hc), list_elem_of_lookup in Hq as [k Hk].
      destruct (drain_to_query k x Hrun Hk) as (ls & x' & Hl & Hok & Hx & Hc' & Ha).
      destruct (Hlast x') as [b Hb]; [congruence|done|].
      apply lookup_lt_Some in Hk. pose proof (inbox_capacity _ _ _ _ _ Hn) as Hcap.
      exists (ls ++ [QReply]). eexists _, b. rewrite query_run_app, length_app, Hx.
      split_and!; [unfold inboxCapacity in Hcap; simpl; lia|by apply Forall_app_2; [|repeat constructor]|exact Hb|done].
  - exists [QGone], (x <| caller := Answered false |>), false. cbn. rewrite Hc, (stopped_done _ _ _ _ _ Hn Hrun).
    split_and!; [lia|by repeat constructor|done|done].
Qed.

(** Asking a room whether somebody was evicted is safe and always returns:
    an answer is [true] only if they are evicted by now, and [false] only if
    they were not when [IsEvicted] was called or the room is gone; and whatever
    the state of the inbox and of the room, a caller inside [IsEvicted] has a run
    of at most 67 steps to its answer. *)
Theorem IsEvicted_answers x :
  query_reachable now raceID distance x ->
  match caller x with
  | Answered b =>
      (b = true -> userID ∈ evicted (actor (world (room x)))) /\
      (b = false -> was_evicted x = false \/ done (actor (world (room x))) = true)
  | NotYet => True
  | _ => exists ls x' b, (length ls <= 67)%nat /\ Forall query_ok ls /\ query_run ls x = Some x' /\ caller x' = Answered b
  end.
Proof.
  intros Hr. destruct (caller x) as [| | |b] eqn:Hc; [done| | |].
  - destruct (query_room x Hr) as [n Hn]. pose proof (inbox_capacity _ _ _ _ _ Hn) as Hcap.
    destruct (running (room x)) eqn:Hrun.
    + assert (Hsend : exists ls x', (length ls <= 2)%nat /\ Forall query_ok ls /\ query_run ls x = Some x' /\ caller x' = Awaiting).
      { destruct (decide (length (inbox (actor (world (room x)))) < inboxCapacity)%nat) as [Hl|Hl].
        - exists [QSend]. eexists. cbn. rewrite Hc, bool_decide_true by done. split_and!; [lia|by repeat constructor|done|done].
        - destruct (inbox (actor (world (room x)))) as [|ev rest] eqn:Hin; [unfold inboxCapacity in Hl; simpl in Hl; lia|].
          exists [QRoom (Apply (env_at (clock (room x)))); QSend]. eexists. cbn [query_run query_exec exec].
          rewrite Hin, Hrun. cbn [env_ts env_now env_at]. rewrite Z.leb_refl. cbn [andb mbind option_bind].
          set (w := applyEvent _ _ _). assert (inbox (actor w) = rest) as Hrest by apply inbox_applyEvent.
          cbn. rewrite Hc, Hrest, bool_decide_true by (simpl in Hcap; lia).
          split_and!; [lia|repeat constructor; apply env_at_ok|done|done]. }
      destruct Hsend as (ls & x1 & Hl & Hok & Hx & Hc1).
      assert (Hr1 : query_reachable now raceID distance x1).
      { clear -Hr Hok Hx. revert x Hr Hx. induction Hok as [|l ls Hl _ IH]; intros x Hr Hx; [by injection Hx as <-|].
        cbn in Hx. apply bind_Some in Hx as (x2 & H2 & Hx). eapply IH; [|exact Hx]. by eapply query_next. }
      destruct (awaiting_returns x1 Hr1 Hc1) as (ls' & x' & b & Hl' & Hok' & Hx' & Hc').
      exists (ls ++ ls'), x', b. rewrite query_run_app, length_app, Hx. split_and!; [lia|by apply Forall_app_2|done|done].
    + exists [QGone], (x <| caller := Answered false |>), false. cbn. rewrite Hc, (stopped_done _ _ _ _ _ Hn Hrun).
      split_and!; [lia|by repeat constructor|done|done].
  - destruct (awaiting_returns x Hr Hc) as (ls & x' & b & Hl & ?). exists ls, x', b. split; [lia|done].
  - destruct (ak_answer _ (query_reachable_ok _ Hr) b Hc) as [H1 H2]. split; [|exact H2].
    intros Hb. by apply H1, bool_decide_eq_true in Hb.
Qed.
End reached.
End query.

(** [u] quits a running race; asking about them then says so. *)
Definition demo_query : list QueryStep :=
  let event ev := [QRoom (Send ev); QRoom (Enqueue 0); QRoom (Apply (env_at 0))] in
  event (ParticipantJoined "u" "U") ++ event (ParticipantJoined "v" "V") ++ event (activated "text") ++
  event (ParticipantLeft "u") ++ [QCall; QSend].

Lemma demo_query_ok : Forall query_ok demo_query.
Proof. repeat (apply Forall_cons_2; [first [done|apply env_at_ok]|]). constructor. Qed.

Lemma query_run_reachable u q now raceID distance ls : Forall query_ok ls -> forall x x',
  query_reachable u q now raceID distance x -> query_run u q ls x = Some x' -> query_reachable u q now raceID distance x'.
Proof.
  induction 1 as [|l ls Hl _ IH]; intros x x' Hr Hx; [by injection Hx as <-|].
  cbn in Hx. apply bind_Some in Hx as (x2 & H2 & Hx). eapply IH; [|exact Hx]. by eapply query_next.
Qed.

Lemma IsEvicted_answers_witness : exists x,
  query_run "u" 7 (demo_query ++ [QRoom (Apply (env_at 0)); QReply]) (mkAsked (initial 0 "r" 10) NotYet false) = Some x /\
  caller x = Answered true /\ "u" ∈ evicted (actor (world (room x))).
Proof.
  destruct (query_run "u" 7 (demo_query ++ [QRoom (Apply (env_at 0)); QReply]) (mkAsked (initial 0 "r" 10) NotYet false))
    as [x|] eqn:Hx; [|by vm_compute in Hx].
  exists x. assert (Hc : caller x = Answered true) by (vm_compute in Hx; by simplify_eq).
  split_and!; [done|done|]. pose proof (IsEvicted_answers "u" 7 0 "r" 10 x) as Ht. rewrite Hc in Ht. apply Ht; [|done].
  eapply query_run_reachable; [|apply query_init|exact Hx].
  apply Forall_app_2; [apply demo_query_ok|]. apply Forall_cons_2; [apply env_at_ok|]. by repeat constructor.
Defined.
