(* ===== verification/Http.v ===== *)
(** * HTTP responses and tokens

    [internal/httpx], [internal/middleware/auth.go],
    [internal/wsgateway/session_token.go].  The JWT library is an interface: what
    it signs it parses back, under the same secret, until it expires, and not after. *)
From Stdlib Require Import ZArith.
From stdpp Require Import base gmap strings.
From S2P Require Import Prelude GoNum Json GoStrings.
Local Open Scope string_scope.
Local Open Scope Z_scope.
Local Open Scope list_scope.

(** ** Responses *)
Record Response := mkResponse { status : Z; body : json }.

#[export] Instance json_inhabited : Inhabited json := populate JNull.

Definition WriteJSON (status : Z) (body : json) : Response := mkResponse status body.

Definition WriteError (status : Z) (code : string) : Response :=
  WriteJSON status (JObj [("error", JStr code)]).

(** A [map[string]string] as [encoding/json] writes it: in the order of its
    keys. *)
Definition marshal_string_map (m : list (string * string)) : json :=
  JObj ((fun e => (e.1, JStr e.2)) <$> stable_sort (fun a b => String.ltb a.1 b.1) m).

(** ** Tokens *)
Definition Claims := gmap string json.

(** The library: [jwt_parse now secret token] is [jwt.Parse] with the key
    function both callers use (HMAC methods only, this secret), including its
    default validation of [exp] against the clock, in seconds. *)
Class Jwt := {
  jwt_sign : string -> Claims -> string + error;
  jwt_parse : Z -> string -> string -> option Claims;
  jwt_parse_sign now secret c t : jwt_sign secret c = inl t ->
    (exists exp, c !! "exp" = Some (jint exp) /\ now < exp) -> jwt_parse now secret t = Some c;
  jwt_parse_expired now secret c t exp : jwt_sign secret c = inl t -> c !! "exp" = Some (jint exp) -> exp <= now ->
    jwt_parse now secret t = None;
  (** [claims.GetExpirationTime()]: [None] is an error or a missing claim *)
  expiration : Claims -> option Z;
  expiration_jint c z : c !! "exp" = Some (jint z) -> expiration c = Some z
}.

Definition string_claim (c : Claims) (k : string) : option string :=
  match c !! k with Some (JStr s) => if String.eqb s "" then None else Some s | _ => None end.

Section tokens.
Context `{Jwt} (jwtSecret : string).

Definition bearer : string := "Bearer ".

(** The user [Auth] lets a request through as; [None] is a 401.  [now] is the
    clock in seconds. *)
Definition authenticated (now : Z) (authHeader : string) : option string :=
  if negb (has_prefix authHeader bearer) then None else
  let tokenString := trim_prefix authHeader bearer in
  if String.eqb tokenString "" then None else
  claims ← jwt_parse now jwtSecret tokenString;
  expiresAt ← expiration claims;
  if expiresAt <? now then None else string_claim claims "sub".

(** [Auth]: the wrapped handler runs with the user it authenticated. *)
Definition Auth {Req : Type} (next : string -> Req -> Response) (now : Z) (authHeader : string)
    (r : Req) : Response :=
  match authenticated now authHeader with
  | Some userID => next userID r
  | None => WriteError 401 "unauthorized"
  end.

(** [verifySessionToken]: the user and the race a handshake is for. *)
Definition verifySessionToken (now : Z) (tokenString : string) : option (string * string) :=
  claims ← jwt_parse now jwtSecret tokenString;
  expiresAt ← expiration claims;
  if expiresAt <? now then None else
  userID ← string_claim claims "user_id";
  raceID ← string_claim claims "race_id";
  Some (userID, raceID).

(** ** The two kinds of tokens the program issues *)

(** [Login]'s claims and [signSessionToken]'s. *)
Definition login_claims (userID email : string) (exp : Z) : Claims :=
  <["sub" := JStr userID]> (<["email" := JStr email]> (<["exp" := jint exp]> ∅)).

Definition session_claims (raceID userID : string) (exp : Z) : Claims :=
  <["race_id" := JStr raceID]> (<["user_id" := JStr userID]> (<["exp" := jint exp]> ∅)).

Definition session_ttl : Z := 6 * 3600.
Definition login_ttl : Z := 24 * 3600.

Definition signSessionToken (now : Z) (raceID userID : string) : string + error :=
  jwt_sign jwtSecret (session_claims raceID userID (now + session_ttl)).

Definition signLoginToken (now : Z) (userID email : string) : string + error :=
  jwt_sign jwtSecret (login_claims userID email (now + login_ttl)).
End tokens.

(** ** Facts *)

Lemma session_exp raceID userID exp : session_claims raceID userID exp !! "exp" = Some (jint exp).
Proof. unfold session_claims. by simplify_map_eq. Qed.

Lemma login_exp userID email exp : login_claims userID email exp !! "exp" = Some (jint exp).
Proof. unfold login_claims. by simplify_map_eq. Qed.

Section facts.
Context `{Jwt} (secret : string).

(** What a token is parsed to, at any time. *)
Lemma parse_signed now' c t exp :
  jwt_sign secret c = inl t -> c !! "exp" = Some (jint exp) ->
  jwt_parse now' secret t = (if now' <? exp then Some c else None).
Proof.
  intros Hs He. destruct (Z.ltb_spec now' exp); [|by eapply jwt_parse_expired].
  eapply jwt_parse_sign; [done|]. by exists exp.
Qed.

(** A handshake with a session token. *)
Lemma verify_signed now now' raceID userID token :
  signSessionToken secret now raceID userID = inl token -> raceID <> "" -> userID <> "" ->
  verifySessionToken secret now' token = (if now' <? now + session_ttl then Some (userID, raceID) else None).
Proof.
  intros Hs Hr Hu. unfold verifySessionToken.
  rewrite (parse_signed _ _ _ _ Hs (session_exp _ _ _)). destruct (Z.ltb_spec now' (now + session_ttl)); [|done].
  simpl. rewrite (expiration_jint _ _ (session_exp _ _ _)). simpl. rewrite (proj2 (Z.ltb_ge _ _)) by lia.
  unfold string_claim, session_claims. simplify_map_eq.
  by rewrite !(proj2 (String.eqb_neq _ _)) by done.
Qed.

(** A request with a login token. *)
Lemma authenticated_signed now now' userID email token :
  signLoginToken secret now userID email = inl token -> token <> "" -> userID <> "" ->
  authenticated secret now' (bearer +:+ token) = (if now' <? now + login_ttl then Some userID else None).
Proof.
  intros Hs Ht Hu. unfold authenticated. rewrite has_prefix_app, trim_prefix_app. simpl.
  rewrite (proj2 (String.eqb_neq _ _)) by done.
  rewrite (parse_signed _ _ _ _ Hs (login_exp _ _ _)). destruct (Z.ltb_spec now' (now + login_ttl)); [|done].
  simpl. rewrite (expiration_jint _ _ (login_exp _ _ _)). simpl. rewrite (proj2 (Z.ltb_ge _ _)) by lia.
  unfold string_claim, login_claims. simplify_map_eq. by rewrite (proj2 (String.eqb_neq _ _)) by done.
Qed.

(** C35: a session token opens exactly the handshake it was issued for: at every
    time before six hours have passed since it was signed, [verifySessionToken]
    returns its user and its race, and at every time after that it refuses it; and
    it never authenticates a REST request, at any time. *)
Theorem session_token_scope now raceID userID token :
  signSessionToken secret now raceID userID = inl token -> raceID <> "" -> userID <> "" ->
  forall now', verifySessionToken secret now' token = (if now' <? now + session_ttl then Some (userID, raceID) else None) /\
    authenticated secret now' (bearer +:+ token) = None.
Proof.
  intros Hs Hr Hu now'. split; [by eapply verify_signed|].
  unfold authenticated. rewrite has_prefix_app, trim_prefix_app. simpl.
  destruct (String.eqb token ""); [done|].
  rewrite (parse_signed _ _ _ _ Hs (session_exp _ _ _)). destruct (now' <? now + session_ttl); [|done].
  simpl. rewrite (expiration_jint _ _ (session_exp _ _ _)). simpl. destruct (_ <? now'); [done|].
  unfold string_claim, session_claims. by simplify_map_eq.
Qed.

(** A login token authenticates its user on the REST API until it expires,
    a day later, not after, and is never accepted as a handshake token. *)
Theorem login_token_scope now userID email token :
  signLoginToken secret now userID email = inl token -> token <> "" -> userID <> "" ->
  forall now', authenticated secret now' (bearer +:+ token) = (if now' <? now + login_ttl then Some userID else None) /\
    verifySessionToken secret now' token = None.
Proof.
  intros Hs Ht Hu now'. split; [by eapply authenticated_signed|]. unfold verifySessionToken.
  rewrite (parse_signed _ _ _ _ Hs (login_exp _ _ _)). destruct (now' <? now + login_ttl); [|done].
  simpl. rewrite (expiration_jint _ _ (login_exp _ _ _)). simpl. destruct (_ <? now'); [done|].
  unfold string_claim, login_claims. by simplify_map_eq.
Qed.
End facts.

(** ** A library that signs two tokens

    A concrete [Jwt], so that the theorems above can be applied. *)
Definition demo_session : Claims := session_claims "race1" "u1" (1000 + session_ttl).
Definition demo_login : Claims := login_claims "u1" "a@b.c" (1000 + login_ttl).

Definition demo_sign (secret : string) (c : Claims) : string + error :=
  if decide (c = demo_session) then inl ("s" +:+ secret)
  else if decide (c = demo_login) then inl ("l" +:+ secret) else inr "unsupported".

Definition demo_parse (now : Z) (secret token : string) : option Claims :=
  if String.eqb token ("s" +:+ secret) then
    if now <? 1000 + session_ttl then Some demo_session else None
  else if String.eqb token ("l" +:+ secret) then
    if now <? 1000 + login_ttl then Some demo_login else None
  else None.

Lemma jint_inj a b : jint a = jint b -> a = b.
Proof. unfold jint. intros. simplify_eq. destruct (Z.ltb_spec a 0), (Z.ltb_spec b 0); lia. Qed.

Definition demo_expiration (c : Claims) : option Z :=
  match c !! "exp" with
  | Some (JNum (NumLit neg m None)) => Some (if neg then - Z.of_N m else Z.of_N m)
  | _ => None
  end.

#[export] Instance demo_jwt : Jwt.
Proof.
  refine {| jwt_sign := demo_sign; jwt_parse := demo_parse; expiration := demo_expiration |}.
  - intros now secret c t Hs (exp & Hexp & Hlt). unfold demo_sign in Hs. unfold demo_parse.
    case_decide; simplify_eq; [|case_decide; simplify_eq].
    + rewrite String.eqb_refl. unfold demo_session in Hexp. rewrite session_exp in Hexp.
      assert (1000 + session_ttl = exp) as Heq by (apply jint_inj; congruence). by rewrite (proj2 (Z.ltb_lt _ _)) by lia.
    + simpl. rewrite String.eqb_refl. unfold demo_login in Hexp. rewrite login_exp in Hexp.
      assert (1000 + login_ttl = exp) as Heq by (apply jint_inj; congruence). by rewrite (proj2 (Z.ltb_lt _ _)) by lia.
  - intros now secret c t exp Hs Hexp Hle. unfold demo_sign in Hs. unfold demo_parse.
    case_decide; simplify_eq; [|case_decide; simplify_eq].
    + rewrite String.eqb_refl. unfold demo_session in Hexp. rewrite session_exp in Hexp.
      assert (1000 + session_ttl = exp) as Heq by (apply jint_inj; congruence). by rewrite (proj2 (Z.ltb_ge _ _)) by lia.
    + simpl. rewrite String.eqb_refl. unfold demo_login in Hexp. rewrite login_exp in Hexp.
      assert (1000 + login_ttl = exp) as Heq by (apply jint_inj; congruence). by rewrite (proj2 (Z.ltb_ge _ _)) by lia.
  - intros c z Hc. unfold demo_expiration. rewrite Hc. unfold jint. f_equal. destruct (Z.ltb_spec z 0); lia.
Defined.

Lemma demo_sign_session : signSessionToken "k" 1000 "race1" "u1" = inl "sk".
Proof.
  unfold signSessionToken. cbn [jwt_sign demo_jwt]. unfold demo_sign. by rewrite decide_True.
Qed.

Lemma demo_sign_login : signLoginToken "k" 1000 "u1" "a@b.c" = inl "lk".
Proof.
  unfold signLoginToken. cbn [jwt_sign demo_jwt]. unfold demo_sign.
  rewrite decide_False, decide_True; [done|done|].
  intros Heq%(f_equal (fun c : Claims => c !! "sub")).
  unfold demo_session, login_claims, session_claims in Heq. by simplify_map_eq.
Qed.

Lemma session_token_scope_witness :
  verifySessionToken "k" 22599 "sk" = Some ("u1", "race1") /\ verifySessionToken "k" 22600 "sk" = None /\
  authenticated "k" 22600 (bearer +:+ "sk") = None.
Proof.
  assert (forall now', _) as Hs by
    (apply (session_token_scope "k" 1000 "race1" "u1" "sk"); [exact demo_sign_session|discriminate|discriminate]).
  split; [exact (proj1 (Hs 22599))|]. split; [exact (proj1 (Hs 22600))|exact (proj2 (Hs 22600))].
Defined.

Lemma login_token_scope_witness :
  authenticated "k" 2000 (bearer +:+ "lk") = Some "u1" /\ verifySessionToken "k" 200000 "lk" = None.
Proof.
  assert (forall now', _) as Hs by
    (apply (login_token_scope "k" 1000 "u1" "a@b.c" "lk"); [exact demo_sign_login|discriminate|discriminate]).
  split; [exact (proj1 (Hs 2000))|exact (proj2 (Hs 200000))].
Defined.
