(* ===== verification/Store.v ===== *)
(** * The race tables ([internal/race/race.go], [repository.go],
    [internal/postgres/race_repository.go])

    The Postgres tables the repository works on, and one definition per method,
    statement by statement.  A statement is executed by a connection that may
    fail before it took effect or lose the answer after it did; a transaction
    takes effect as a whole at its commit. *)
From Stdlib Require Import ZArith QArith Floats.SpecFloat.
From stdpp Require Import base list gmap sets strings.
From S2P Require Import Prelude GoNum Events.
Local Open Scope string_scope.
Local Open Scope Z_scope.
Local Open Scope list_scope.

(** ** The errors of the race domain *)
Inductive race_error :=
  | ErrRaceNotFound
  | ErrAlreadyJoined
  | ErrRaceNotPending
  | ErrNotCreator
  | ErrPromptNotReady
  | ErrRaceFull
  | ErrNotParticipant
  | ErrOther (msg : error).

#[export] Instance race_error_eq_dec : EqDecision race_error.
Proof. solve_decision. Defined.

Definition MaxParticipants : Z := 10.

(** ** Rows and tables *)
Record RaceRow := mkRace {
  race_Name : string;
  race_DistanceMeters : Z;
  race_Status : string;
  race_CreatedBy : string;
  race_CreatedAt : Z;
  race_StartedAt : option Z;
  race_EndedAt : option Z;
  race_PromptText : option string
}.

#[export] Instance eta_RaceRow : Eta RaceRow := fun r =>
  mkRace (race_Name r) (race_DistanceMeters r) (race_Status r) (race_CreatedBy r)
    (race_CreatedAt r) (race_StartedAt r) (race_EndedAt r) (race_PromptText r).

(** A row of [race_participants]. *)
Record ParticipantRow := mkRow {
  row_finish_rank : option Z;
  row_finish_time_ms : option Z;
  row_avg_pace : option float64;
  row_disconnected_count : Z;
  row_joined_at : Z
}.

#[export] Instance eta_ParticipantRow : Eta ParticipantRow := fun r =>
  mkRow (row_finish_rank r) (row_finish_time_ms r) (row_avg_pace r) (row_disconnected_count r)
    (row_joined_at r).

(** A row of [leaderboard_alltime]; NUMERIC columns are exact. *)
Record BoardRow := mkBoard {
  board_best : option Z;
  board_races : Z;
  board_distance : Z;
  board_wins : Z;
  board_pace_sum : Q;
  board_updated_at : Z
}.

(** The tables; of [users] only what the joins read. *)
Record DB := mkDB {
  users : gmap string string;
  races : gmap string RaceRow;
  race_participants : gmap (string * string) ParticipantRow;
  leaderboard_alltime : gmap string BoardRow
}.

#[export] Instance eta_DB : Eta DB := fun d =>
  mkDB (users d) (races d) (race_participants d) (leaderboard_alltime d).

(** ** Statements *)

(** What happens to a statement sent to the server. *)
Inductive Conn :=
  | Up                    (** executed and answered *)
  | Failed (e : error)    (** not executed; the caller gets [e] *)
  | Lost (e : error).     (** executed, but the caller gets [e] *)

Definition answer {A} (c : Conn) (db db' : DB) (r : A + race_error) : DB * (A + race_error) :=
  match c with
  | Up => (db', r)
  | Failed e => (db, inr (ErrOther e))
  | Lost e => (db', inr (ErrOther e))
  end.

(** A column of type INT. *)
Definition int4_ok (z : Z) : bool := (-2147483648 <=? z) && (z <=? 2147483647).

Definition int4_option_ok (o : option Z) : bool :=
  match o with Some z => int4_ok z | None => true end.

(** ** Races *)

Definition maxCreateRaceAttempts : nat := 5.

(** [CreateRace]: [ids] are the results of successive calls of [GenerateRaceID],
    [conns] what happens to the successive inserts. *)
Fixpoint create_attempts (attempts : nat) (ids : list (string + error)) (conns : list Conn)
    (now : Z) (name : string) (distanceMeters : Z) (createdBy : string) (db : DB)
    : DB * ((string * RaceRow) + race_error) :=
  match attempts, ids with
  | O, _ => (db, inr (ErrOther "exhausted attempts"))
  | S _, [] => (db, inr (ErrOther "no more randomness"))
  | S _, inr e :: _ => (db, inr (ErrOther e))
  | S attempts', inl id :: ids' =>
      let row := mkRace name distanceMeters "pending" createdBy now None None None in
      let c := match conns with c :: _ => c | [] => Up end in
      if negb (int4_ok distanceMeters) then (db, inr (ErrOther "encode distance_meters")) else
      match races db !! id with
      | Some _ =>
          match c with
          | Up => create_attempts attempts' ids' (drop 1 conns) now name distanceMeters createdBy db
          | Failed e | Lost e => (db, inr (ErrOther e))
          end
      | None =>
          if bool_decide (is_Some (users db !! createdBy))
          then answer c db (db <| races := <[id := row]> (races db) |>) (inl (id, row))
          else answer c db db (inr (ErrOther "foreign key"))
      end
  end.

Definition repo_CreateRace := create_attempts maxCreateRaceAttempts.

Definition repo_GetRace (c : Conn) (raceID : string) (db : DB) : DB * (RaceRow + race_error) :=
  answer c db db
    (match races db !! raceID with Some r => inl r | None => inr ErrRaceNotFound end).

(** The row a started race gets. *)
Definition started_row (now : Z) (promptText : string) (r : RaceRow) : RaceRow :=
  r <| race_Status := "active" |> <| race_StartedAt := Some now |>
    <| race_PromptText := Some promptText |>.

Definition repo_StartRace (c : Conn) (now : Z) (raceID promptText : string) (db : DB)
    : DB * (RaceRow + race_error) :=
  match races db !! raceID with
  | Some r =>
      let r' := started_row now promptText r in
      answer c db (db <| races := <[raceID := r']> (races db) |>) (inl r')
  | None => answer c db db (inr (ErrOther "no rows"))
  end.

Definition repo_GetRaceText (c : Conn) (raceID : string) (db : DB) : DB * (string + race_error) :=
  answer c db db
    (match races db !! raceID with
     | None => inr ErrRaceNotFound
     | Some r => match race_PromptText r with Some t => inl t | None => inr ErrPromptNotReady end
     end).

Definition repo_CancelRace (c : Conn) (now : Z) (raceID : string) (db : DB)
    : DB * (unit + race_error) :=
  match races db !! raceID with
  | Some r =>
      if String.eqb (race_Status r) "pending"
      then answer c db (db <| races := <[raceID := r <| race_Status := "cancelled" |>
                                              <| race_EndedAt := Some now |>]> (races db) |>) (inl ())
      else answer c db db (inl ())
  | None => answer c db db (inl ())
  end.

(** ** Participants *)

Definition repo_AddParticipant (c : Conn) (now : Z) (raceID userID : string) (db : DB)
    : DB * (unit + race_error) :=
  match race_participants db !! (raceID, userID) with
  | Some _ => answer c db db (inr ErrAlreadyJoined)
  | None =>
      if bool_decide (is_Some (races db !! raceID)) && bool_decide (is_Some (users db !! userID))
      then answer c db (db <| race_participants :=
             <[(raceID, userID) := mkRow None None None 0 now]> (race_participants db) |>) (inl ())
      else answer c db db (inr (ErrOther "foreign key"))
  end.

Definition repo_RemoveParticipant (c : Conn) (raceID userID : string) (db : DB)
    : DB * (unit + race_error) :=
  match race_participants db !! (raceID, userID) with
  | Some _ => answer c db (db <| race_participants :=
                delete (raceID, userID) (race_participants db) |>) (inl ())
  | None => answer c db db (inr ErrNotParticipant)
  end.

(** The rows of a race, with their users, in the order of the primary key. *)
Definition rows_of (raceID : string) (db : DB) : list (string * ParticipantRow) :=
  omap (fun kv => if String.eqb kv.1.1 raceID then Some (kv.1.2, kv.2) else None)
    (map_to_list (race_participants db)).

Definition count_participants (raceID : string) (db : DB) : Z :=
  Z.of_nat (length (rows_of raceID db)).

Definition repo_CountParticipants (c : Conn) (raceID : string) (db : DB) : DB * (Z + race_error) :=
  answer c db db (inl (count_participants raceID db)).

Definition repo_IsParticipant (c : Conn) (raceID userID : string) (db : DB)
    : DB * (bool + race_error) :=
  answer c db db (inl (bool_decide (is_Some (race_participants db !! (raceID, userID))))).

(** ** Reading a race and listing races

    SQL leaves rows that tie in an ORDER BY in any order: [heap] is the order in
    which the server happens to produce them before sorting. *)
Record Participant := mkParticipantInfo {
  pi_UserID : string;
  pi_DisplayName : string;
  pi_JoinedAt : Z;
  pi_FinishRank : option Z;
  pi_FinishTimeMs : option Z;
  pi_AvgPaceWatt : float64
}.

Definition participant_of (db : DB) (x : string * ParticipantRow) : option Participant :=
  name ← users db !! x.1;
  Some (mkParticipantInfo x.1 name (row_joined_at x.2) (row_finish_rank x.2)
    (row_finish_time_ms x.2) (default float64_0 (row_avg_pace x.2))).

Definition joined_before (a b : Participant) : bool := pi_JoinedAt a <? pi_JoinedAt b.

Definition repo_GetRaceWithParticipants (heap : list Participant -> list Participant)
    (c1 c2 : Conn) (raceID : string) (db : DB) : DB * ((RaceRow * list Participant) + race_error) :=
  match answer c1 db db (match races db !! raceID with Some r => inl r | None => inr ErrRaceNotFound end) with
  | (_, inr e) => (db, inr e)
  | (_, inl r) =>
      answer c2 db db (inl (r, stable_sort joined_before (heap (omap (participant_of db) (rows_of raceID db)))))
  end.

Record OpenRace := mkOpenRace {
  or_ID : string;
  or_Name : string;
  or_DistanceMeters : Z;
  or_HostDisplayName : string;
  or_PlayerCount : Z;
  or_MaxPlayers : Z;
  or_CreatedAt : Z
}.

Definition openRacesLimit : nat := 20.

Definition newer (a b : OpenRace) : bool := or_CreatedAt b <? or_CreatedAt a.

(** One group of the query: the race joined with its host, if it passes the
    WHERE and HAVING clauses. *)
Definition open_row (excludeUserID : string) (db : DB) (x : string * RaceRow) : option OpenRace :=
  host ← users db !! race_CreatedBy x.2;
  if String.eqb (race_Status x.2) "pending"
     && negb (bool_decide (is_Some (race_participants db !! (x.1, excludeUserID))))
     && (count_participants x.1 db <? MaxParticipants)
  then Some (mkOpenRace x.1 (race_Name x.2) (race_DistanceMeters x.2) host
               (count_participants x.1 db) MaxParticipants (race_CreatedAt x.2))
  else None.

Definition repo_ListOpenRaces (heap : list OpenRace -> list OpenRace) (c : Conn)
    (excludeUserID : string) (db : DB) : DB * (list OpenRace + race_error) :=
  answer c db db
    (inl (take openRacesLimit (stable_sort newer
            (heap (omap (open_row excludeUserID db) (map_to_list (races db))))))).

(** ** The finish transaction *)

Section finish.
(** How the driver turns a float into NUMERIC. *)
Context (numeric : float64 -> Q).

Definition won (res : ParticipantResult) : Z :=
  match res_FinishRank res with Some k => if k =? 1 then 1 else 0 | None => 0 end.

(** The CASE expression of the upsert. *)
Definition better (excluded old : option Z) : option Z :=
  match excluded, old with
  | None, _ => old
  | Some x, None => Some x
  | Some x, Some y => if x <? y then Some x else Some y
  end.

Definition finish_participant (raceID : string) (res : ParticipantResult) (db : DB) : DB :=
  match race_participants db !! (raceID, res_UserID res) with
  | Some row => db <| race_participants := <[(raceID, res_UserID res) :=
      mkRow (res_FinishRank res) (res_FinishTimeMs res) (Some (res_AvgPaceWatt res))
        (res_DisconnectedCount res) (row_joined_at row)]> (race_participants db) |>
  | None => db
  end.

Definition upsert_board (now distanceMeters : Z) (res : ParticipantResult) (old : option BoardRow)
    : BoardRow :=
  match old with
  | None => mkBoard (res_FinishTimeMs res) 1 distanceMeters (won res) (numeric (res_AvgPaceWatt res)) now
  | Some b => mkBoard (better (res_FinishTimeMs res) (board_best b)) (board_races b + 1)
      (board_distance b + distanceMeters) (board_wins b + won res)
      (board_pace_sum b + numeric (res_AvgPaceWatt res))%Q now
  end.

(** The two statements for one result; [None] when one of them is refused: a
    parameter or a counter does not fit INT, or the user does not exist. *)
Definition finish_one (now distanceMeters : Z) (raceID : string) (res : ParticipantResult) (db : DB)
    : option DB :=
  if int4_option_ok (res_FinishRank res) && int4_ok (res_DisconnectedCount res) then
    let db := finish_participant raceID res db in
    let b := upsert_board now distanceMeters res (leaderboard_alltime db !! res_UserID res) in
    if bool_decide (is_Some (users db !! res_UserID res)) && int4_ok (board_races b) && int4_ok (board_wins b)
    then Some (db <| leaderboard_alltime := <[res_UserID res := b]> (leaderboard_alltime db) |>)
    else None
  else None.

Fixpoint finish_all (now distanceMeters : Z) (raceID : string) (results : list ParticipantResult)
    (db : DB) : option DB :=
  match results with
  | [] => Some db
  | res :: results' =>
      db' ← finish_one now distanceMeters raceID res db;
      finish_all now distanceMeters raceID results' db'
  end.

Definition mark_finished (now : Z) (raceID : string) (db : DB) : DB :=
  match races db !! raceID with
  | Some r => db <| races := <[raceID := r <| race_Status := "finished" |>
                                           <| race_EndedAt := Some now |>]> (races db) |>
  | None => db
  end.

(** [FinishRace]: [body] says whether a statement before the commit failed on
    the connection, [commit] what happens to the commit. *)
Definition repo_FinishRace (body : option error) (commit : Conn) (now : Z) (raceID : string)
    (distanceMeters : Z) (results : list ParticipantResult) (db : DB) : DB * (unit + race_error) :=
  match body with
  | Some e => (db, inr (ErrOther e))
  | None =>
      match finish_all now distanceMeters raceID results (mark_finished now raceID db) with
      | Some db' => answer commit db db' (inl ())
      | None => (db, inr (ErrOther "finish race"))
      end
  end.
End finish.

(** ** The consumer's safety net *)

Definition reconcile_one (raceID : string) (res : RaceResultJSON) (db : DB) : option DB :=
  if int4_option_ok (rr_FinishRank res) then
    match race_participants db !! (raceID, rr_UserID res) with
    | Some row =>
        match row_finish_rank row with
        | None => Some (db <| race_participants := <[(raceID, rr_UserID res) :=
            row <| row_finish_rank := rr_FinishRank res |> <| row_finish_time_ms := rr_FinishTimeMs res |>
                <| row_avg_pace := Some (rr_AvgPaceWatt res) |>]> (race_participants db) |>)
        | Some _ => Some db
        end
    | None => Some db
    end
  else None.

Fixpoint reconcile_all (raceID : string) (results : list RaceResultJSON) (db : DB) : option DB :=
  match results with
  | [] => Some db
  | res :: results' => db' ← reconcile_one raceID res db; reconcile_all raceID results' db'
  end.

Definition repo_ReconcileParticipantResults (body : option error) (commit : Conn)
    (raceID : string) (results : list RaceResultJSON) (db : DB) : DB * (unit + race_error) :=
  match body with
  | Some e => (db, inr (ErrOther e))
  | None =>
      match reconcile_all raceID results db with
      | Some db' => answer commit db db' (inl ())
      | None => (db, inr (ErrOther "reconcile participant results"))
      end
  end.
