(* ===== verification/StoreProps.v ===== *)
(** * What the race tables promise

    Referential integrity, atomicity and accounting of the finish transaction,
    the safety net of the consumer, and the list of open races. *)
From Stdlib Require Import ZArith QArith Floats.SpecFloat.
From stdpp Require Import base list gmap sets strings.
From S2P Require Import Prelude GoNum Events Store.
Local Open Scope string_scope.
Local Open Scope Z_scope.
Local Open Scope list_scope.

(** ** The finish transaction *)

Section finish.
Context (numeric : float64 -> Q) (now distance : Z) (raceID : string).

(** The results of one user. *)
Definition mine (u : string) (rs : list ParticipantResult) : list ParticipantResult :=
  filter (fun r => res_UserID r = u) rs.

Definition upsert_all (rs : list ParticipantResult) (old : option BoardRow) : option BoardRow :=
  fold_left (fun b r => Some (upsert_board numeric now distance r b)) rs old.

Lemma board_finish_participant r db :
  leaderboard_alltime (finish_participant raceID r db) = leaderboard_alltime db.
Proof. unfold finish_participant. by destruct (race_participants db !! _). Qed.

Lemma finish_one_board r db db' u :
  finish_one numeric now distance raceID r db = Some db' ->
  leaderboard_alltime db' !! u =
    if decide (res_UserID r = u) then Some (upsert_board numeric now distance r (leaderboard_alltime db !! u))
    else leaderboard_alltime db !! u.
Proof.
  unfold finish_one. destruct (_ && int4_ok (res_DisconnectedCount r)); [|done].
  rewrite board_finish_participant. destruct (_ && _ && _); intros; simplify_eq/=.
  case_decide as Hu; [by rewrite Hu, lookup_insert_eq|by rewrite lookup_insert_ne].
Qed.

(** The leaderboard row of a user after the transaction: their results, one
    after the other. *)
Lemma finish_all_board rs db db' u :
  finish_all numeric now distance raceID rs db = Some db' ->
  leaderboard_alltime db' !! u = upsert_all (mine u rs) (leaderboard_alltime db !! u).
Proof.
  revert db. induction rs as [|r rs IH]; intros db Hf; simpl in Hf; [by simplify_eq|].
  apply bind_Some in Hf as (db1 & H1 & Hf). rewrite (IH _ Hf), (finish_one_board _ _ _ u H1).
  unfold mine. rewrite filter_cons. by case_decide.
Qed.

Lemma board_mark_finished db :
  leaderboard_alltime (mark_finished now raceID db) = leaderboard_alltime db.
Proof. unfold mark_finished. by destruct (races db !! raceID). Qed.

(** The best time of a list of results, [old] included. *)
Definition best_of (old : option Z) (rs : list ParticipantResult) (best : option Z) : Prop :=
  (forall t, Some t = old \/ Some t ∈ res_FinishTimeMs <$> rs -> exists b, best = Some b /\ b <= t) /\
  (best = old \/ best ∈ res_FinishTimeMs <$> rs).

Definition wins (rs : list ParticipantResult) : Z :=
  Z.of_nat (length (filter (fun r => res_FinishRank r = Some 1) rs)).

Lemma won_wins r rs : wins (r :: rs) = won r + wins rs.
Proof.
  unfold wins, won. rewrite filter_cons. destruct (res_FinishRank r) as [k|]; case_decide; simplify_eq/=.
  - lia.
  - destruct (Z.eqb_spec k 1); [congruence|lia].
  - lia.
Qed.

Lemma won_range r : 0 <= won r <= 1.
Proof. unfold won. destruct (res_FinishRank r) as [k|]; [destruct (k =? 1)|]; lia. Qed.

Lemma int4_ok_range z : int4_ok z = true <-> -2147483648 <= z <= 2147483647.
Proof. unfold int4_ok. by rewrite andb_true_iff, !Z.leb_le. Qed.

Lemma better_spec x old : (forall t, Some t = old \/ Some t = x -> exists b, better x old = Some b /\ b <= t) /\
  (better x old = old \/ better x old = x).
Proof.
  destruct x as [x|], old as [y|]; simpl; try (split; [|by auto]; intros t [?|?]; simplify_eq; eauto with lia).
  destruct (Z.ltb_spec x y); split; auto; intros t [?|?]; simplify_eq; eauto with lia.
Qed.

(** The row of a user who has not finished a race yet, before the first upsert. *)
Definition no_board : BoardRow := mkBoard None 0 0 0 0%Q 0.

Fixpoint pace_of (rs : list ParticipantResult) : Q :=
  match rs with [] => 0%Q | r :: rs => (numeric (res_AvgPaceWatt r) + pace_of rs)%Q end.

Lemma upsert_all_pace rs b b' :
  upsert_all rs (Some b) = Some b' -> (board_pace_sum b' == board_pace_sum b + pace_of rs)%Q.
Proof.
  revert b. induction rs as [|r rs IH]; intros b Hb; [simplify_eq/=; ring|].
  rewrite (IH _ Hb). simpl. ring.
Qed.

Lemma upsert_all_now rs b b' : rs <> [] -> upsert_all rs b = Some b' -> board_updated_at b' = now.
Proof.
  destruct rs as [|r rs] using rev_ind; [done|]. intros _. unfold upsert_all. rewrite fold_left_app. simpl.
  intros; simplify_eq. by destruct (fold_left _ _ _).
Qed.

Lemma upsert_all_row rs b : exists b',
  upsert_all rs (Some b) = Some b' /\
  board_races b' = board_races b + Z.of_nat (length rs) /\
  board_distance b' = board_distance b + distance * Z.of_nat (length rs) /\
  board_wins b' = board_wins b + wins rs /\ best_of (board_best b) rs (board_best b').
Proof.
  revert b. induction rs as [|r rs IH]; intros b.
  - exists b. unfold wins. simpl. split_and!; [done|lia..|].
    split; [|by left]. intros t [Ht|Ht]; [eauto with lia|by apply elem_of_nil in Ht].
  - destruct (IH (upsert_board numeric now distance r (Some b))) as (b' & Hb & H1 & H2 & H3 & H4 & H5).
    exists b'. split; [exact Hb|]. simpl in H1, H2, H3, H4, H5. rewrite won_wins.
    destruct (better_spec (res_FinishTimeMs r) (board_best b)) as [Hle Hin].
    split_and!; [rewrite H1; simpl; lia|rewrite H2; simpl; lia|lia|split].
    + intros t [Ht|Ht].
      * destruct (Hle t) as (m & Hm & ?); [by left|]. destruct (H4 m) as (b'' & -> & ?); [by left|]. eauto with lia.
      * rewrite fmap_cons, elem_of_cons in Ht. destruct Ht as [Ht|Ht].
        -- destruct (Hle t) as (m & Hm & ?); [by right|]. destruct (H4 m) as (b'' & -> & ?); [by left|]. eauto with lia.
        -- apply H4. by right.
    + rewrite fmap_cons, elem_of_cons. destruct H5 as [->|H5]; [destruct Hin as [->| ->]|]; auto.
Qed.

(** A first row counts like one that was there with nothing on it. *)
Lemma upsert_all_counts rs old : rs <> [] -> exists b', upsert_all rs old = Some b' /\
  let b := default no_board old in
  board_races b' = board_races b + Z.of_nat (length rs) /\
  board_distance b' = board_distance b + distance * Z.of_nat (length rs) /\
  board_wins b' = board_wins b + wins rs /\
  (board_pace_sum b' == board_pace_sum b + pace_of rs)%Q /\
  best_of (board_best b) rs (board_best b') /\ board_updated_at b' = now.
Proof.
  intros Hrs. destruct old as [b|].
  - destruct (upsert_all_row rs b) as (b' & Hb & H1 & H2 & H3 & H4). exists b'. split; [done|].
    split_and!; [done..|by apply upsert_all_pace|done|by eapply upsert_all_now].
  - destruct rs as [|r rs]; [done|].
    destruct (upsert_all_row (r :: rs) no_board) as (b' & Hb & H1 & H2 & H3 & H4).
    set (b1 := upsert_board numeric now distance r None).
    destruct (upsert_all_row rs b1) as (b1' & Hb1 & G1 & G2 & G3 & G4 & G5).
    exists b1'. split; [exact Hb1|]. cbn in G1, G2, G3, G4, G5. rewrite won_wins. cbn [default no_board board_races
      board_distance board_wins board_pace_sum board_best length pace_of].
    split_and!; [lia..| | |].
    + rewrite (upsert_all_pace _ _ _ Hb1). cbn. ring.
    + split.
      * intros t [Ht|Ht]; [done|]. apply G4. rewrite fmap_cons, elem_of_cons in Ht. tauto.
      * right. rewrite fmap_cons, elem_of_cons. tauto.
    + by eapply (upsert_all_now (r :: rs) None).
Qed.
End finish.

Lemma races_finish_one numeric now distance raceID r db db' :
  finish_one numeric now distance raceID r db = Some db' -> races db' = races db.
Proof.
  unfold finish_one, finish_participant. destruct (_ && int4_ok (res_DisconnectedCount r)); [|done].
  destruct (race_participants db !! _); destruct (_ && _ && _); intros; by simplify_eq/=.
Qed.

Lemma races_finish_all numeric now distance raceID rs db db' :
  finish_all numeric now distance raceID rs db = Some db' -> races db' = races db.
Proof.
  revert db. induction rs as [|r rs IH]; intros db Hf; simpl in Hf; [by simplify_eq|].
  apply bind_Some in Hf as (db1 & H1 & Hf). by rewrite (IH _ Hf), (races_finish_one _ _ _ _ _ _ _ H1).
Qed.

(** The row a result leaves behind. *)
Definition result_row (res : ParticipantResult) (row : ParticipantRow) : ParticipantRow :=
  mkRow (res_FinishRank res) (res_FinishTimeMs res) (Some (res_AvgPaceWatt res)) (res_DisconnectedCount res)
    (row_joined_at row).

Lemma finish_one_rows numeric now distance raceID r db db' k :
  finish_one numeric now distance raceID r db = Some db' ->
  race_participants db' !! k =
    if decide (k = (raceID, res_UserID r)) then result_row r <$> race_participants db !! k
    else race_participants db !! k.
Proof.
  unfold finish_one, finish_participant. destruct (_ && int4_ok (res_DisconnectedCount r)); [|done].
  destruct (race_participants db !! (raceID, res_UserID r)) as [row|] eqn:Hrow; destruct (_ && _ && _);
    intros; simplify_eq/=; case_decide as Hk.
  - by rewrite Hk, Hrow, lookup_insert_eq.
  - by rewrite lookup_insert_ne.
  - by rewrite Hk, Hrow.
  - done.
Qed.

(** The transaction touches the rows of its race only, and a row ends up with
    the last result of its user. *)
Lemma finish_all_other_rows numeric now distance raceID rs db db' k :
  finish_all numeric now distance raceID rs db = Some db' -> k.2 ∉ (res_UserID <$> rs) \/ k.1 <> raceID ->
  race_participants db' !! k = race_participants db !! k.
Proof.
  intros Hf Hk. revert db Hf. induction rs as [|r rs IH]; intros db Hf; simpl in Hf; [by simplify_eq|].
  apply bind_Some in Hf as (db1 & H1 & Hf). rewrite fmap_cons, not_elem_of_cons in Hk. rewrite (IH ltac:(tauto) _ Hf).
  rewrite (finish_one_rows _ _ _ _ _ _ _ k H1). case_decide as Heq; [|done]. subst k. cbn in Hk. tauto.
Qed.

Lemma finish_all_row numeric now distance raceID pre res post db db' :
  finish_all numeric now distance raceID (pre ++ res :: post) db = Some db' ->
  res_UserID res ∉ (res_UserID <$> post) ->
  forall row, race_participants db !! (raceID, res_UserID res) = Some row ->
  race_participants db' !! (raceID, res_UserID res) = Some (result_row res row).
Proof.
  intros Hf Hpost. revert db Hf. induction pre as [|r pre IH]; intros db Hf row Hrow; simpl in Hf;
    apply bind_Some in Hf as (db1 & H1 & Hf); pose proof (finish_one_rows _ _ _ _ _ _ _ (raceID, res_UserID res) H1) as H2;
    rewrite Hrow in H2.
  - rewrite (finish_all_other_rows _ _ _ _ _ _ _ _ Hf) by (by left). by rewrite decide_True in H2.
  - case_decide; [|by eapply IH]. by rewrite (IH _ Hf _ H2).
Qed.

Lemma finish_all_ranks numeric now distance raceID rs db db' :
  finish_all numeric now distance raceID rs db = Some db' ->
  Forall (fun res => int4_option_ok (res_FinishRank res) = true) rs.
Proof.
  revert db. induction rs as [|r rs IH]; intros db Hf; simpl in Hf; [constructor|].
  apply bind_Some in Hf as (db1 & H1 & Hf). constructor; [|by eapply IH].
  unfold finish_one in H1. destruct (int4_option_ok (res_FinishRank r)); [done|]. done.
Qed.

(** An answered statement either took effect or reported an error. *)
Lemma answer_cases {A} c db db1 (r : A + race_error) db' res :
  answer c db db1 r = (db', res) ->
  (db' = db1 /\ (res = r \/ exists e, res = inr (ErrOther e))) \/
  (db' = db /\ exists e, res = inr (ErrOther e)).
Proof. destruct c; intros; simplify_eq/=; eauto 6. Qed.

(** The rows of the race after the transaction: each carries the last result
    of its user, every other row is untouched. *)
Lemma finish_all_rows numeric now distance raceID rs db db' k :
  finish_all numeric now distance raceID rs db = Some db' ->
  race_participants db' !! k =
    match last (mine k.2 rs) with
    | Some res => if decide (k.1 = raceID) then result_row res <$> race_participants db !! k
                  else race_participants db !! k
    | None => race_participants db !! k
    end.
Proof.
  revert db. induction rs as [|r rs IH]; intros db Hf; simpl in Hf; [by simplify_eq|].
  apply bind_Some in Hf as (db1 & H1 & Hf). rewrite (IH _ Hf), (finish_one_rows _ _ _ _ _ _ _ k H1).
  unfold mine. rewrite filter_cons. destruct k as [i u]. cbn [fst snd].
  destruct (decide (res_UserID r = u)) as [<-|Hne].
  - rewrite last_cons. destruct (last _); destruct (decide (i = raceID)) as [->|Hi].
    + rewrite decide_True by done. by destruct (race_participants db !! _).
    + rewrite decide_False by congruence. done.
    + by rewrite decide_True.
    + by rewrite decide_False by congruence.
  - by rewrite (decide_False (P := (i, u) = _)) by congruence.
Qed.

Lemma users_finish_all numeric now distance raceID rs db db' :
  finish_all numeric now distance raceID rs db = Some db' -> users db' = users db.
Proof.
  revert db. induction rs as [|r rs IH]; intros db Hf; simpl in Hf; [by simplify_eq|].
  apply bind_Some in Hf as (db1 & H1 & Hf). rewrite (IH _ Hf). revert H1.
  unfold finish_one, finish_participant. destruct (_ && int4_ok (res_DisconnectedCount r)); [|done].
  destruct (race_participants db !! _); destruct (_ && _ && _); intros; by simplify_eq/=.
Qed.

Lemma mark_finished_frame now raceID db :
  users (mark_finished now raceID db) = users db /\
  race_participants (mark_finished now raceID db) = race_participants db /\
  forall k, races (mark_finished now raceID db) !! k =
    if decide (k = raceID) then (fun r => r <| race_Status := "finished" |> <| race_EndedAt := Some now |>)
                                  <$> races db !! k
    else races db !! k.
Proof.
  unfold mark_finished. destruct (races db !! raceID) as [r|] eqn:Hr; split_and!; try done; intros k; simpl;
    case_decide as Hk; subst; rewrite ?Hr; try done; [by rewrite lookup_insert_eq|by rewrite lookup_insert_ne].
Qed.

(** What a result adds to the counters of its user's board row. *)
Definition board_fits (n : Z) (db : DB) (u : string) : Prop :=
  n <= 2147483647 /\
  forall b, leaderboard_alltime db !! u = Some b ->
    0 <= board_races b /\ board_races b + n <= 2147483647 /\
    0 <= board_wins b /\ board_wins b + n <= 2147483647.

Definition storable (db : DB) (res : ParticipantResult) : Prop :=
  int4_option_ok (res_FinishRank res) = true /\ int4_ok (res_DisconnectedCount res) = true /\
  is_Some (users db !! res_UserID res).

(** Nothing but the data itself can refuse the statements of the transaction. *)
Lemma finish_all_total numeric now distance raceID rs db :
  (forall res, res ∈ rs -> storable db res) ->
  (forall u, board_fits (Z.of_nat (length rs)) db u) ->
  is_Some (finish_all numeric now distance raceID rs db).
Proof.
  revert db. induction rs as [|r rs IH]; intros db Hs Hb; [by eexists|]. cbn [finish_all].
  destruct (Hs r) as (Hrank & Hdisc & Huser); [left|].
  assert (exists db1, finish_one numeric now distance raceID r db = Some db1) as [db1 H1].
  { unfold finish_one. rewrite Hrank, Hdisc. cbn [andb]. rewrite board_finish_participant.
    assert (users (finish_participant raceID r db) = users db) as ->
      by (unfold finish_participant; by destruct (race_participants db !! _)).
    rewrite bool_decide_true by done. specialize (Hb (res_UserID r)) as [Hn Hb]. cbn [length] in Hn, Hb.
    pose proof (won_range r) as Hw.
    assert (int4_ok (board_races (upsert_board numeric now distance r (leaderboard_alltime db !! res_UserID r))) = true /\
      int4_ok (board_wins (upsert_board numeric now distance r (leaderboard_alltime db !! res_UserID r))) = true)
      as [-> ->]; [|by eexists].
    rewrite !int4_ok_range. destruct (leaderboard_alltime db !! res_UserID r) as [b|]; cbn;
      [specialize (Hb _ eq_refl)|]; lia. }
  rewrite H1. cbn. apply IH.
  - intros res Hres. destruct (Hs res) as (? & ? & Hu); [by right|]. unfold storable.
    assert (users db1 = users db) as ->
      by (apply (users_finish_all numeric now distance raceID [r]); simpl; by rewrite H1).
    done.
  - intros u. destruct (Hb u) as [Hn Hbu]. cbn [length] in Hn, Hbu. split; [lia|]. intros b.
    rewrite (finish_one_board _ _ _ _ _ _ _ u H1). case_decide as Hu; [|intros Hl; specialize (Hbu _ Hl); lia].
    subst u. pose proof (won_range r) as Hw.
    destruct (leaderboard_alltime db !! res_UserID r) as [b0|]; intros Hl; simplify_eq/=;
      [specialize (Hbu _ eq_refl)|]; lia.
Qed.

(** C9: the finish transaction is all or nothing, and keeps the books straight.
    Whatever fails, the tables afterwards are either untouched, and an error is
    reported, or carry the whole outcome and nothing else: the race, and no
    other, is finished; the participant row of everybody with a result carries
    that result's rank, time, pace and disconnects, and every other row, of this
    or another race, is as before; the leaderboard row of everybody with a
    result - a new one, counted from zero, for who had none - has grown by
    exactly their results, the distance, wins and pace they brought, and holds
    the best time seen so far; everybody else's is as before.  With the
    connection up, results of known users and counters within INT, it succeeds. *)
Theorem FinishRace_atomic numeric body commit now raceID distance rs db db' res :
  repo_FinishRace numeric body commit now raceID distance rs db = (db', res) ->
  ((db' = db /\ exists e, res = inr e) \/
  (users db' = users db /\
   (forall k, races db' !! k = if decide (k = raceID)
      then (fun r => r <| race_Status := "finished" |> <| race_EndedAt := Some now |>) <$> races db !! k
      else races db !! k) /\
   (forall k, race_participants db' !! k = match last (mine k.2 rs) with
      | Some res => if decide (k.1 = raceID) then result_row res <$> race_participants db !! k
                    else race_participants db !! k
      | None => race_participants db !! k end) /\
   (forall u, mine u rs = [] -> leaderboard_alltime db' !! u = leaderboard_alltime db !! u) /\
   (forall u, mine u rs <> [] -> exists b', leaderboard_alltime db' !! u = Some b' /\
      let b := default no_board (leaderboard_alltime db !! u) in
      board_races b' = board_races b + Z.of_nat (length (mine u rs)) /\
      board_distance b' = board_distance b + distance * Z.of_nat (length (mine u rs)) /\
      board_wins b' = board_wins b + wins (mine u rs) /\
      (board_pace_sum b' == board_pace_sum b + pace_of numeric (mine u rs))%Q /\
      best_of (board_best b) (mine u rs) (board_best b') /\ board_updated_at b' = now))) /\
  (body = None -> commit = Up -> (forall r, r ∈ rs -> storable db r) ->
   (forall u, board_fits (Z.of_nat (length rs)) db u) -> res = inl ()).
Proof.
  unfold repo_FinishRace. destruct (mark_finished_frame now raceID db) as (Hmu & Hmp & Hmr).
  destruct body as [e|]; [intros; simplify_eq; split; [left; eauto|done]|].
  destruct (finish_all _ _ _ _ _ _) as [db1|] eqn:Hf.
  - intros Ha. split; [|by intros _ -> _ _; simplify_eq/=].
    apply answer_cases in Ha as [[-> _]|[-> [e ->]]]; [right|left; eauto]. split_and!.
    + by rewrite (users_finish_all _ _ _ _ _ _ _ Hf).
    + intros k. by rewrite (races_finish_all _ _ _ _ _ _ _ Hf), Hmr.
    + intros k. by rewrite (finish_all_rows _ _ _ _ _ _ _ k Hf), Hmp.
    + intros u Hu. by rewrite (finish_all_board _ _ _ _ _ _ _ u Hf), board_mark_finished, Hu.
    + intros u Hu. rewrite (finish_all_board _ _ _ _ _ _ _ u Hf), board_mark_finished.
      by apply upsert_all_counts.
  - intros [= <- <-]. split; [left; eauto|]. intros _ _ Hs Hb. exfalso.
    destruct (finish_all_total numeric now distance raceID rs (mark_finished now raceID db)) as [? ?]; [| |congruence].
    + intros r Hr. unfold storable. rewrite Hmu. by apply Hs.
    + intros u. unfold board_fits. rewrite board_mark_finished. apply Hb.
Qed.

(** The finish transaction is not idempotent: when a commit takes effect but
    its answer is lost, the room sees an error, stays open and finishes again at
    the next opportunity - and everybody's races, distance and wins count
    twice. *)
Theorem FinishRace_retry_counts_twice numeric e now now' raceID distance rs db db0 db1 r1 db2 u b :
  finish_all numeric now distance raceID rs (mark_finished now raceID db) = Some db0 ->
  repo_FinishRace numeric None (Lost e) now raceID distance rs db = (db1, r1) ->
  repo_FinishRace numeric None Up now' raceID distance rs db1 = (db2, inl ()) ->
  leaderboard_alltime db !! u = Some b ->
  r1 = inr (ErrOther e) /\ exists b2, leaderboard_alltime db2 !! u = Some b2 /\
    board_races b2 = board_races b + 2 * Z.of_nat (length (mine u rs)) /\
    board_distance b2 = board_distance b + 2 * distance * Z.of_nat (length (mine u rs)) /\
    board_wins b2 = board_wins b + 2 * wins (mine u rs).
Proof.
  unfold repo_FinishRace. intros Hf1 H1 H2 Hu. rewrite Hf1 in H1. simpl in H1. simplify_eq.
  destruct (finish_all _ now' _ _ _ _) as [db2'|] eqn:Hf2; [|simplify_eq]. simpl in H2. simplify_eq.
  rewrite (finish_all_board _ _ _ _ _ _ _ u Hf2), board_mark_finished,
    (finish_all_board _ _ _ _ _ _ _ u Hf1), board_mark_finished, Hu.
  destruct (upsert_all_row numeric now distance (mine u rs) b) as (b1 & -> & Hr & Hd & Hw & _).
  destruct (upsert_all_row numeric now' distance (mine u rs) b1) as (b2 & -> & Hr' & Hd' & Hw' & _).
  split; [done|]. exists b2. split_and!; [done|lia|lia|lia].
Qed.

(** ** The consumer's safety net *)

Definition rank_at (raceID u : string) (db : DB) : option Z :=
  row ← race_participants db !! (raceID, u); row_finish_rank row.

(** The rows of a race carry a rank for every listed result. *)
Definition all_set (raceID : string) (rs : list RaceResultJSON) (db : DB) : Prop :=
  Forall (fun r => match race_participants db !! (raceID, rr_UserID r) with
                   | Some row => is_Some (row_finish_rank row)
                   | None => True end) rs.

(** What reconciling one result changes. *)
Lemma reconcile_one_frame raceID r db db' :
  reconcile_one raceID r db = Some db' ->
  users db' = users db /\ races db' = races db /\ leaderboard_alltime db' = leaderboard_alltime db /\
  (forall k row, race_participants db !! k = Some row -> is_Some (row_finish_rank row) ->
     race_participants db' !! k = Some row) /\
  (forall k, is_Some (race_participants db' !! k) <-> is_Some (race_participants db !! k)).
Proof.
  unfold reconcile_one. destruct (int4_option_ok _); [|done].
  destruct (race_participants db !! (raceID, rr_UserID r)) as [row|] eqn:Hrow; [|by intros; simplify_eq].
  destruct (row_finish_rank row) as [k|] eqn:Hk; [by intros; simplify_eq|].
  intros; simplify_eq/=. split_and!; [done..| |].
  - intros k row' Hrow' [j Hj].
    rewrite lookup_insert_ne; [done|]. intros <-. congruence.
  - intros k. rewrite lookup_insert_is_Some'. naive_solver.
Qed.

Lemma reconcile_all_frame raceID rs db db' :
  reconcile_all raceID rs db = Some db' ->
  users db' = users db /\ races db' = races db /\ leaderboard_alltime db' = leaderboard_alltime db /\
  (forall k row, race_participants db !! k = Some row -> is_Some (row_finish_rank row) ->
     race_participants db' !! k = Some row) /\
  (forall k, is_Some (race_participants db' !! k) <-> is_Some (race_participants db !! k)).
Proof.
  revert db. induction rs as [|r rs IH]; intros db Hf; simpl in Hf; [by simplify_eq|].
  apply bind_Some in Hf as (db1 & H1 & Hf).
  apply reconcile_one_frame in H1 as (Hu & Hr & Hb & Hp & Hk).
  destruct (IH _ Hf) as (Hu' & Hr' & Hb' & Hp' & Hk').
  split_and!; [congruence|congruence|congruence|auto|].
  intros k. by rewrite Hk', Hk.
Qed.

Lemma reconcile_one_sets raceID r db db' :
  is_Some (rr_FinishRank r) -> reconcile_one raceID r db = Some db' ->
  match race_participants db' !! (raceID, rr_UserID r) with
  | Some row => is_Some (row_finish_rank row)
  | None => True
  end.
Proof.
  intros Hr. unfold reconcile_one. destruct (int4_option_ok _); [|done].
  destruct (race_participants db !! (raceID, rr_UserID r)) as [row|] eqn:Hrow.
  - destruct (row_finish_rank row) as [k|] eqn:Hk; intros; simplify_eq/=.
    + rewrite Hrow, Hk. by eexists.
    + by rewrite lookup_insert_eq.
  - intros. simplify_eq. by rewrite Hrow.
Qed.

(** A rank that is set stays set along later results. *)
Lemma all_set_mono raceID rs db db' :
  (forall k row, race_participants db !! k = Some row -> is_Some (row_finish_rank row) ->
     race_participants db' !! k = Some row) ->
  (forall k, is_Some (race_participants db' !! k) <-> is_Some (race_participants db !! k)) ->
  all_set raceID rs db -> all_set raceID rs db'.
Proof.
  intros Hp Hk Hs. eapply Forall_impl; [exact Hs|]. simpl. intros r Hr.
  destruct (race_participants db !! (raceID, rr_UserID r)) as [row|] eqn:Hrow.
  - by rewrite (Hp _ _ Hrow Hr).
  - destruct (race_participants db' !! _) as [row|] eqn:Hrow'; [|done].
    destruct (proj1 (Hk (raceID, rr_UserID r))) as [? ?]; [by eexists|congruence].
Qed.

Lemma reconcile_all_sets raceID rs db db' :
  Forall (fun r => is_Some (rr_FinishRank r)) rs ->
  reconcile_all raceID rs db = Some db' -> all_set raceID rs db'.
Proof.
  intros Hrs. revert db. induction Hrs as [|r rs Hr _ IH]; intros db Hf; [constructor|].
  simpl in Hf. apply bind_Some in Hf as (db1 & H1 & Hf). constructor; [|by eapply IH].
  destruct (reconcile_all_frame _ _ _ _ Hf) as (_ & _ & _ & Hp & Hk).
  assert (all_set raceID [r] db1) as Hs1 by (constructor; [by eapply reconcile_one_sets|constructor]).
  apply (all_set_mono _ _ _ _ Hp Hk) in Hs1. by inversion Hs1.
Qed.

Lemma reconcile_all_encodable raceID rs db db' :
  reconcile_all raceID rs db = Some db' ->
  forallb (fun r => int4_option_ok (rr_FinishRank r)) rs = true.
Proof.
  revert db. induction rs as [|r rs IH]; intros db Hf; [done|]. simpl in Hf |- *.
  apply bind_Some in Hf as (db1 & H1 & Hf). apply andb_true_iff. split; [|by eapply IH].
  unfold reconcile_one in H1. by destruct (int4_option_ok _).
Qed.

Lemma reconcile_all_total raceID rs db :
  forallb (fun r => int4_option_ok (rr_FinishRank r)) rs = true -> is_Some (reconcile_all raceID rs db).
Proof.
  revert db. induction rs as [|r rs IH]; intros db Hok; [by eexists|]. simpl in Hok |- *.
  apply andb_true_iff in Hok as [Hr Hok]. unfold reconcile_one. rewrite Hr.
  destruct (race_participants db !! _) as [row|]; [destruct (row_finish_rank row)|]; simpl; by apply IH.
Qed.

(** The result that decides a row: the first one of the user that carries a
    rank; while none does, the last. *)
Fixpoint deciding (rs : list RaceResultJSON) : option RaceResultJSON :=
  match rs with
  | [] => None
  | r :: rs' => match rr_FinishRank r, deciding rs' with
                | None, Some r' => Some r'
                | _, _ => Some r
                end
  end.

Definition claims_of (u : string) (rs : list RaceResultJSON) : list RaceResultJSON :=
  filter (fun r => rr_UserID r = u) rs.

(** What reconciliation promises for one row. *)
Definition filled_row (row : ParticipantRow) (r : RaceResultJSON) : ParticipantRow :=
  mkRow (rr_FinishRank r) (rr_FinishTimeMs r) (Some (rr_AvgPaceWatt r)) (row_disconnected_count row)
    (row_joined_at row).

Definition reconciled (raceID : string) (rs : list RaceResultJSON) (k : string * string)
    (row : ParticipantRow) : ParticipantRow :=
  match row_finish_rank row, deciding (claims_of k.2 rs) with
  | None, Some r => if decide (k.1 = raceID) then filled_row row r else row
  | _, _ => row
  end.

Lemma reconciled_one raceID r k row :
  reconciled raceID [r] k row =
    if bool_decide (k = (raceID, rr_UserID r) /\ row_finish_rank row = None) then filled_row row r else row.
Proof.
  unfold reconciled, claims_of. rewrite filter_cons, filter_nil. destruct k as [i u]. cbn [fst snd].
  assert (deciding [r] = Some r) as Hd by (cbn; by destruct (rr_FinishRank r)).
  destruct (row_finish_rank row); [by rewrite bool_decide_false by naive_solver|].
  destruct (decide (rr_UserID r = u)) as [<-|Hu]; [|by rewrite bool_decide_false by naive_solver].
  rewrite Hd. destruct (decide (i = raceID)) as [->|Hi];
    [by rewrite bool_decide_true|by rewrite bool_decide_false by naive_solver].
Qed.

Lemma reconcile_one_row raceID r db db' k :
  reconcile_one raceID r db = Some db' ->
  race_participants db' !! k = reconciled raceID [r] k <$> race_participants db !! k.
Proof.
  unfold reconcile_one. destruct (int4_option_ok _); [|done].
  destruct (decide (k = (raceID, rr_UserID r))) as [->|Hk].
  - destruct (race_participants db !! (raceID, rr_UserID r)) as [row|] eqn:Hrow;
      [destruct (row_finish_rank row) eqn:Hrank|]; intros [= <-]; cbn [race_participants];
      rewrite ?lookup_insert_eq, ?Hrow; try done; cbn [fmap option_fmap option_map]; rewrite reconciled_one;
      [rewrite bool_decide_false by (rewrite Hrank; by intros [_ ?])|rewrite bool_decide_true by done]; [done|]. by apply lookup_insert_eq.
  - intros Hf. assert (race_participants db' !! k = race_participants db !! k) as ->.
    { destruct (race_participants db !! (raceID, rr_UserID r)) as [row|]; [destruct (row_finish_rank row)|];
        injection Hf as <-; try done. cbn. by rewrite lookup_insert_ne. }
    destruct (race_participants db !! k) as [row'|]; [|done]. cbn [fmap option_fmap option_map].
    rewrite reconciled_one, bool_decide_false; [done|by intros [? _]].
Qed.

Lemma reconciled_cons raceID r rs k row :
  reconciled raceID rs k (reconciled raceID [r] k row) = reconciled raceID (r :: rs) k row.
Proof.
  unfold reconciled, claims_of. rewrite !filter_cons, filter_nil.
  destruct (row_finish_rank row) eqn:Hrank; [by rewrite Hrank|].
  destruct (decide (rr_UserID r = k.2)); [|cbn; by rewrite Hrank].
  cbn [deciding]. destruct (decide (k.1 = raceID)), (rr_FinishRank r) eqn:Hr; cbn [row_finish_rank filled_row];
    rewrite ?Hrank, ?Hr; try done; by destruct (deciding _).
Qed.

Lemma reconcile_all_row raceID rs db db' k :
  reconcile_all raceID rs db = Some db' ->
  race_participants db' !! k = reconciled raceID rs k <$> race_participants db !! k.
Proof.
  revert db. induction rs as [|r rs IH]; intros db Hf; simpl in Hf.
  - simplify_eq. destruct (race_participants db' !! k) as [row|]; [|done]. cbn. unfold reconciled, claims_of.
    rewrite filter_nil. cbn. by destruct (row_finish_rank row).
  - apply bind_Some in Hf as (db1 & H1 & Hf). rewrite (IH _ Hf), (reconcile_one_row _ _ _ _ _ H1).
    destruct (race_participants db !! k) as [row|]; [|done]. cbn. by rewrite reconciled_cons.
Qed.

Lemma reconciled_idem raceID rs k row :
  reconciled raceID rs k (reconciled raceID rs k row) = reconciled raceID rs k row.
Proof.
  unfold reconciled. destruct (row_finish_rank row) eqn:Hrank; [by rewrite Hrank|].
  destruct (deciding _) as [r|]; [|by rewrite Hrank].
  destruct (decide (k.1 = raceID)); [|by rewrite Hrank].
  cbn. by destruct (rr_FinishRank r) eqn:Hr; rewrite <- ?Hr.
Qed.

Lemma reconcile_all_idem raceID rs db db' :
  reconcile_all raceID rs db = Some db' -> reconcile_all raceID rs db' = Some db'.
Proof.
  intros Hf. destruct (reconcile_all_total raceID rs db') as [db2 H2]; [by eapply reconcile_all_encodable|].
  rewrite H2. f_equal. destruct (reconcile_all_frame _ _ _ _ H2) as (Hu & Hr & Hb & _).
  assert (race_participants db2 = race_participants db') as Hp.
  { apply map_eq. intros k. rewrite (reconcile_all_row _ _ _ _ k H2), (reconcile_all_row _ _ _ _ k Hf).
    destruct (race_participants db !! k) as [row|]; [|done]. cbn. by rewrite reconciled_idem. }
  destruct db2, db'. cbn in *. by subst.
Qed.

(** C30: the consumer's reconciliation is an exact, repeatable fill-in.  Either
    an error is reported and nothing has changed, or the listed results are in:
    a row of this race without a rank whose user is listed carries the rank,
    time and pace of the result that decides it, and every other row - ranked
    already, of a user not listed, or of another race - is as it was; no row is
    added or removed, users, races and leaderboards are untouched.  The consumer
    may see the same event again: applying it a second time changes nothing
    more.  With the connection up and ranks within INT it succeeds, and a
    success means the results are in. *)
Theorem reconcile_fill_in body commit raceID rs db db' res :
  repo_ReconcileParticipantResults body commit raceID rs db = (db', res) ->
  ((db' = db /\ exists e, res = inr e) \/
   (users db' = users db /\ races db' = races db /\ leaderboard_alltime db' = leaderboard_alltime db /\
    (forall k, race_participants db' !! k = reconciled raceID rs k <$> race_participants db !! k) /\
    (forall c, fst (repo_ReconcileParticipantResults None c raceID rs db') = db'))) /\
  (body = None -> commit = Up -> forallb (fun r => int4_option_ok (rr_FinishRank r)) rs = true -> res = inl ()).
Proof.
  unfold repo_ReconcileParticipantResults.
  destruct body as [e|]; [intros [= <- <-]; split; [left; eauto|done]|].
  destruct (reconcile_all raceID rs db) as [db1|] eqn:Hf.
  - intros Ha. split; [|by intros _ -> _; simplify_eq/=].
    apply answer_cases in Ha as [[-> _]|[-> [e ->]]]; [right|left; eauto].
    destruct (reconcile_all_frame _ _ _ _ Hf) as (Hu & Hr & Hb & _).
    split_and!; [done..|intros k; by apply reconcile_all_row|].
    intros c. rewrite (reconcile_all_idem _ _ _ _ Hf). by destruct c.
  - intros [= <- <-]. split; [left; eauto|]. intros _ _ Hok.
    destruct (reconcile_all_total raceID rs db Hok) as [? ?]. congruence.
Qed.

(** ** Open races *)

Lemma newer_asym a b : newer a b = true -> newer b a = false.
Proof. unfold newer. rewrite Z.ltb_lt, Z.ltb_ge. lia. Qed.

Lemma stable_sort_newer l :
  StronglySorted (fun a b => or_CreatedAt b <= or_CreatedAt a) (stable_sort newer l).
Proof.
  eapply StronglySorted_weaken; [|apply Sorted_StronglySorted; [|apply stable_sort_sorted, newer_asym]].
  - intros a b. unfold not_after, newer. by rewrite Z.ltb_ge.
  - intros a b c. unfold not_after, newer. rewrite !Z.ltb_ge. lia.
Qed.

Lemma StronglySorted_take_drop {A} (R : A -> A -> Prop) n l x y :
  StronglySorted R l -> x ∈ take n l -> y ∈ drop n l -> R x y.
Proof.
  intros Hs. revert n. induction Hs as [|z l Hs IH Hz]; intros n Hx Hy.
  - rewrite take_nil in Hx. by apply elem_of_nil in Hx.
  - destruct n as [|n]; [by apply elem_of_nil in Hx|]. simpl in Hx, Hy.
    apply elem_of_cons in Hx as [->|Hx]; [|by eapply IH].
    rewrite Forall_forall in Hz. apply Hz. by apply (subseteq_drop n l) in Hy.
Qed.

Lemma StronglySorted_take {A} (R : A -> A -> Prop) n l :
  StronglySorted R l -> StronglySorted R (take n l).
Proof.
  intros Hs. revert n. induction Hs as [|z l Hs IH Hz]; intros [|n]; simpl; constructor; auto.
  by apply Forall_take.
Qed.

(** The race a row of the list stands for. *)
Definition is_open (user : string) (db : DB) (o : OpenRace) : Prop :=
  exists r host, races db !! or_ID o = Some r /\ race_Status r = "pending" /\
    users db !! race_CreatedBy r = Some host /\
    race_participants db !! (or_ID o, user) = None /\
    count_participants (or_ID o) db < 10 /\
    o = mkOpenRace (or_ID o) (race_Name r) (race_DistanceMeters r) host
          (count_participants (or_ID o) db) 10 (race_CreatedAt r).

Lemma elem_of_open user db o :
  o ∈ omap (open_row user db) (map_to_list (races db)) <-> is_open user db o.
Proof.
  rewrite list_elem_of_omap. unfold is_open, open_row. split.
  - intros ([id r] & Hin%elem_of_map_to_list & Hrow). simpl in Hrow.
    apply bind_Some in Hrow as (host & Hhost & Hrow).
    destruct (String.eqb_spec (race_Status r) "pending"); [|done].
    case_bool_decide as Hp; [done|]. destruct (Z.ltb_spec (count_participants id db) MaxParticipants); [|done].
    simplify_eq/=. exists r, host. split_and!; try done. by apply eq_None_not_Some.
  - intros (r & host & Hr & Hs & Hh & Hp & Hc & Ho). exists (or_ID o, r).
    split; [by apply elem_of_map_to_list|]. simpl. rewrite Hh, Hs, Hp. simpl.
    rewrite (proj2 (Z.ltb_lt _ _)) by done. change 10 with MaxParticipants in Ho; by rewrite <- Ho.
Qed.

Lemma open_ids_nodup user db : NoDup (or_ID <$> omap (open_row user db) (map_to_list (races db))).
Proof.
  pose proof (NoDup_fst_map_to_list (races db)) as Hnd. revert Hnd. generalize (map_to_list (races db)) as l.
  assert (Hid : forall x o, open_row user db x = Some o -> or_ID o = x.1).
  { intros [id r] o. unfold open_row. cbn. intros (host & _ & Ho)%bind_Some. by destruct (_ && _); simplify_eq/=. }
  induction l as [|x l IH]; [constructor|]. cbn [fmap list_fmap]. intros [Hnew Hnd]%NoDup_cons.
  cbn [omap list_omap]. destruct (open_row user db x) as [o|] eqn:Ho; [|by apply IH].
  cbn [fmap list_fmap]. constructor; [|by apply IH]. rewrite (Hid _ _ Ho).
  intros (o' & Heq & (y & Hy & Hrow)%list_elem_of_omap)%list_elem_of_fmap. apply Hnew. rewrite Heq, (Hid _ _ Hrow).
  by apply list_elem_of_fmap_2.
Qed.


(** ** A concrete race *)

Definition demo_row : ParticipantRow := mkRow None None None 0 100.

(** A race of [u1], active, in which [u1] and [u2] race; [u1] has raced before. *)
Definition demo_db (status : string) : DB :=
  mkDB {[ "u1" := "Ana"; "u2" := "Bo" ]} {[ "R" := mkRace "Race" 5 status "u1" 100 None None None ]}
    {[ ("R", "u1") := demo_row; ("R", "u2") := demo_row ]}
    {[ "u1" := mkBoard (Some 900) 3 15 1 0 50 ]}.

Definition demo_results : list ParticipantResult :=
  [mkResult "u1" (Some 1) (Some 800) float64_0 0; mkResult "u2" (Some 2) None float64_0 1].

Definition no_numeric (f : float64) : Q := 0%Q.

Lemma FinishRace_atomic_witness :
  let r := repo_FinishRace no_numeric None Up 700 "R" 5 demo_results (demo_db "active") in
  snd r = inl () /\
  (exists b, leaderboard_alltime (fst r) !! "u1" = Some b /\ board_races b = 4 /\ board_wins b = 2) /\
  (exists b, leaderboard_alltime (fst r) !! "u2" = Some b /\ board_races b = 1) /\
  race_participants (fst r) !! ("R", "u2") = Some (mkRow (Some 2) None (Some float64_0) 1 100).
Proof.
  cbv zeta. split; [vm_compute; reflexivity|].
  destruct (FinishRace_atomic no_numeric None Up 700 "R" 5 demo_results (demo_db "active") _ _
    (surjective_pairing _)) as [[[_ [e He]]|(_ & _ & Hp & _ & Hb)] _]; [vm_compute in He; discriminate He|].
  destruct (Hb "u1") as (b & Hl & Hr & _ & Hw & _); [discriminate|].
  destruct (Hb "u2") as (b2 & Hl2 & Hr2 & _); [discriminate|].
  split_and!; [exists b; split_and!|exists b2; split|].
  - exact Hl.
  - rewrite Hr. reflexivity.
  - rewrite Hw. reflexivity.
  - exact Hl2.
  - rewrite Hr2. reflexivity.
  - rewrite Hp. reflexivity.
Defined.

Lemma FinishRace_retry_counts_twice_witness :
  let db1 := fst (repo_FinishRace no_numeric None (Lost "reset") 700 "R" 5 demo_results (demo_db "active")) in
  let db2 := fst (repo_FinishRace no_numeric None Up 701 "R" 5 demo_results db1) in
  exists b2, leaderboard_alltime db2 !! "u1" = Some b2 /\ board_wins b2 = 1 + 2 * 1.
Proof.
  intros db1 db2.
  destruct (finish_all no_numeric 700 5 "R" demo_results (mark_finished 700 "R" (demo_db "active")))
    as [db0|] eqn:H0; [|vm_compute in H0; discriminate H0].
  destruct (FinishRace_retry_counts_twice no_numeric "reset" 700 701 "R" 5 demo_results (demo_db "active")
    db0 db1 (snd (repo_FinishRace no_numeric None (Lost "reset") 700 "R" 5 demo_results (demo_db "active")))
    db2 "u1" (mkBoard (Some 900) 3 15 1 0 50) H0) as (_ & b2 & Hb & _ & _ & Hw).
  - apply surjective_pairing.
  - assert (snd (repo_FinishRace no_numeric None Up 701 "R" 5 demo_results db1) = inl ()) as <-
      by (vm_compute; reflexivity). apply surjective_pairing.
  - reflexivity.
  - exists b2. split; [exact Hb|exact Hw].
Defined.

Lemma reconcile_fill_in_witness :
  let rs := [mkResultJSON "u1" (Some 1) (Some 800) float64_0] in
  let db' := fst (repo_ReconcileParticipantResults None Up "R" rs (demo_db "finished")) in
  race_participants db' !! ("R", "u1") = Some (mkRow (Some 1) (Some 800) (Some float64_0) 0 100) /\
  race_participants db' !! ("R", "u2") = Some demo_row /\
  fst (repo_ReconcileParticipantResults None Up "R" rs db') = db'.
Proof.
  cbv zeta.
  destruct (reconcile_fill_in None Up "R" [mkResultJSON "u1" (Some 1) (Some 800) float64_0] (demo_db "finished")
    _ (inl ()) eq_refl) as [[[_ [e He]]|(_ & _ & _ & Hk & Hi)] _]; [discriminate He|].
  split_and!; [rewrite Hk; reflexivity|rewrite Hk; reflexivity|exact (Hi Up)].
Defined.

