(* ===== verification/RaceService.v ===== *)
(** * The race service ([internal/race/service.go], [id.go], [prompt.go])

    The service is written against the [RaceRepository] interface; here it is a
    program whose only effects are calls of that interface, so that it can be
    run on any repository and interleaved, call by call, with others.  The
    interface is the class [RaceRepository]: what each method promises of the
    races and participants a client can see; the service's theorems use nothing
    else, and the Postgres tables of [Store] are an instance. *)
From Stdlib Require Import ZArith QArith Ascii.
From stdpp Require Import base list gmap sets strings.
From S2P Require Import Prelude GoNum Events Json GoStrings Http Store.
Local Open Scope string_scope.
Local Open Scope Z_scope.
Local Open Scope list_scope.

(** ** The interface *)
Inductive Op : Type -> Type :=
  | OpCreateRace (name : string) (distanceMeters : Z) (createdBy : string) : Op (string * RaceRow)
  | OpGetRace (raceID : string) : Op RaceRow
  | OpAddParticipant (raceID userID : string) : Op unit
  | OpCountParticipants (raceID : string) : Op Z
  | OpIsParticipant (raceID userID : string) : Op bool
  | OpRemoveParticipant (raceID userID : string) : Op unit
  | OpStartRace (raceID promptText : string) : Op RaceRow
  | OpGetRaceText (raceID : string) : Op string
  | OpGetRaceWithParticipants (raceID : string) : Op (RaceRow * list Participant)
  | OpListOpenRaces (excludeUserID : string) : Op (list OpenRace)
  | OpFinishRace (raceID : string) (distanceMeters : Z) (results : list ParticipantResult) : Op unit
  | OpCancelRace (raceID : string) : Op unit.

(** What a client can see of a repository's state [St]; [E] is what one call
    reads from outside (clock, connection, randomness).  A call may fail, or take
    effect and lose its answer; when it is [reachable] it does neither.  [draws_id]
    says that a creation settles on an id: the randomness it reads gives it, after
    ids that are taken, within the attempts there are. *)
Class RaceRepository (St E : Type) := {
  repo_call : forall {B}, E -> Op B -> St -> St * (B + race_error);
  view_race : St -> string -> option RaceRow;
  view_in : St -> string -> string -> bool;
  view_count : St -> string -> Z;
  known_user : St -> string -> Prop;
  reachable : E -> Prop;
  draws_id : E -> St -> string -> Prop;
  get_race_up e raceID s : reachable e ->
    snd (repo_call e (OpGetRace raceID) s) = match view_race s raceID with Some r => inl r | None => inr ErrRaceNotFound end;
  is_participant_up e raceID u s : reachable e ->
    snd (repo_call e (OpIsParticipant raceID u) s) = inl (view_in s raceID u);
  count_up e raceID s : reachable e -> snd (repo_call e (OpCountParticipants raceID) s) = inl (view_count s raceID);
  add_up e raceID u s : reachable e -> is_Some (view_race s raceID) -> known_user s u ->
    snd (repo_call e (OpAddParticipant raceID u) s) = (if view_in s raceID u then inr ErrAlreadyJoined else inl ());
  create_up e name d by_ s id : reachable e -> known_user s by_ -> int4_ok d = true -> draws_id e s id ->
    exists row, snd (repo_call e (OpCreateRace name d by_) s) = inl (id, row);
  get_race_law e raceID s s' r : repo_call e (OpGetRace raceID) s = (s', inl r) ->
    s' = s /\ view_race s raceID = Some r;
  is_participant_law e raceID u s s' b : repo_call e (OpIsParticipant raceID u) s = (s', inl b) ->
    s' = s /\ b = view_in s raceID u;
  count_law e raceID s s' n : repo_call e (OpCountParticipants raceID) s = (s', inl n) ->
    s' = s /\ n = view_count s raceID;
  reads_law e raceID u s :
    fst (repo_call e (OpGetRace raceID) s) = s /\ fst (repo_call e (OpIsParticipant raceID u) s) = s /\
    fst (repo_call e (OpCountParticipants raceID) s) = s;
  add_law e raceID u s s' r : repo_call e (OpAddParticipant raceID u) s = (s', r) ->
    (s' = s /\ r <> inl ()) \/
    (view_in s raceID u = false /\ view_in s' raceID u = true /\
     view_count s' raceID = view_count s raceID + 1 /\
     (forall raceID', view_race s' raceID' = view_race s raceID') /\
     (forall raceID' u', (raceID', u') <> (raceID, u) -> view_in s' raceID' u' = view_in s raceID' u') /\
     (forall raceID', raceID' <> raceID -> view_count s' raceID' = view_count s raceID'));
  remove_law e raceID u s s' r : repo_call e (OpRemoveParticipant raceID u) s = (s', r) ->
    (s' = s /\ r <> inl ()) \/
    (view_in s raceID u = true /\ view_in s' raceID u = false /\
     view_count s' raceID = view_count s raceID - 1 /\
     (forall raceID', view_race s' raceID' = view_race s raceID') /\
     (forall raceID' u', (raceID', u') <> (raceID, u) -> view_in s' raceID' u' = view_in s raceID' u'));
  start_law e raceID text s s' r : repo_call e (OpStartRace raceID text) s = (s', r) ->
    (s' = s /\ exists err, r = inr err) \/
    (exists r0 now, view_race s raceID = Some r0 /\
       view_race s' raceID = Some (started_row now text r0) /\
       (r = inl (started_row now text r0) \/ exists err, r = inr err) /\
       (forall raceID', raceID' <> raceID -> view_race s' raceID' = view_race s raceID') /\
       (forall raceID' u', view_in s' raceID' u' = view_in s raceID' u'));
  create_law e name d by_ s s' res : repo_call e (OpCreateRace name d by_) s = (s', res) ->
    (s' = s /\ exists err, res = inr err) \/
    (exists id row, (res = inl (id, row) \/ exists err, res = inr err) /\
       view_race s id = None /\ view_race s' id = Some row /\
       race_Name row = name /\ race_DistanceMeters row = d /\ race_CreatedBy row = by_ /\
       race_Status row = "pending" /\
       (forall raceID', raceID' <> id -> view_race s' raceID' = view_race s raceID') /\
       (forall raceID' u', view_in s' raceID' u' = view_in s raceID' u') /\
       (forall u', known_user s u' -> known_user s' u'))
}.

(** ** Programs over the interface *)
Inductive Prog (A : Type) : Type :=
  | Ret (a : A)
  | Call {B : Type} (op : Op B) (k : B + race_error -> Prog A).
Arguments Ret {A} a.
Arguments Call {A B} op k.

(** [v, err := call; if err != nil { return err }; rest] *)
Definition bind_call {A B} (op : Op B) (k : B -> Prog (A + race_error)) : Prog (A + race_error) :=
  Call op (fun r => match r with inl b => k b | inr e => Ret (inr e) end).

Notation "x <- 'call' op ; k" := (bind_call op (fun x => k))
  (at level 20, op at level 100, k at level 200, right associativity) : aviron_scope.

Section run.
Context {St E : Type} `{!RaceRepository St E}.

(** Running a program alone: [env i] is what its [i]-th call reads. *)
Fixpoint run_prog {A} (p : Prog A) (env : nat -> E) (i : nat) (s : St) : St * A :=
  match p with
  | Ret a => (s, a)
  | Call op k => let '(s', r) := repo_call (env i) op s in run_prog (k r) env (i + 1) s'
  end.

(** One call of a program, for interleavings. *)
Definition step_prog {A} (p : Prog A) (e : E) (s : St) : St * Prog A :=
  match p with
  | Ret a => (s, Ret a)
  | Call op k => let '(s', r) := repo_call e op s in (s', k r)
  end.
End run.

(** ** Race ids *)
Definition base58Alphabet : string := "123456789ABCDEFGHJKLMNPQRSTUVWXYZabcdefghijkmnopqrstuvwxyz".
Definition raceIDLength : nat := 12.

(** [GenerateRaceID], given the numbers below 58 (or the failure) that
    [crypto/rand] returns. *)
Fixpoint generate_from (n : nat) (draws : list (nat + error)) : string + error :=
  match n, draws with
  | O, _ => inl ""
  | S _, [] => inr "no randomness"
  | S _, inr e :: _ => inr e
  | S n', inl d :: draws' =>
      match String.get d base58Alphabet, generate_from n' draws' with
      | Some c, inl s => inl (String c s)
      | _, inr e => inr e
      | None, _ => inr "index out of range"
      end
  end.

Definition GenerateRaceID := generate_from raceIDLength.

(** [raceIDPattern]: [^[1-9A-HJ-NP-Za-km-z]{12}$] *)
Definition in_range (a b : ascii) (c : ascii) : bool :=
  (N.leb (N_of_ascii a) (N_of_ascii c) && N.leb (N_of_ascii c) (N_of_ascii b))%bool.

Definition id_char (c : ascii) : bool :=
  in_range "1" "9" c || in_range "A" "H" c || in_range "J" "N" c || in_range "P" "Z" c
  || in_range "a" "k" c || in_range "m" "z" c.

Definition isValidRaceID (s : string) : bool :=
  (String.length s =? 12)%nat && forallb id_char (String.list_ascii_of_string s).

(** ** Prompts *)

(** [generatePromptText]: [word i] is the [i]-th word of the corpus. *)
Definition generatePromptText (word : nat -> string) (wordCount : Z) : string :=
  join " " (word <$> seq 0 (Z.to_nat wordCount)).

(** ** The service *)
Section service.
Context `{Jwt} (jwtSecret : string) (word : nat -> string).

Definition validateCreateRace (name : string) (distanceMeters : Z) : list (string * string) :=
  (if (len (trim_space name) =? 0) || (100 <? len name)
   then [("name", "must be 1-100 characters")] else []) ++
  (if distanceMeters <=? 0 then [("distance_meters", "must be a positive integer")] else []).

Definition sign (now : Z) (raceID userID : string) : string + race_error :=
  match signSessionToken jwtSecret now raceID userID with
  | inl t => inl t
  | inr e => inr (ErrOther e)
  end.

(** [CreateRace]: field errors, or the race with its creator's token. *)
Definition CreateRace (now : Z) (name : string) (distanceMeters : Z) (createdBy : string)
    : Prog ((list (string * string) + (string * RaceRow * string)) + race_error) :=
  match validateCreateRace name distanceMeters with
  | [] =>
      r <- call OpCreateRace (trim_space name) distanceMeters createdBy;
      _ <- call OpAddParticipant r.1 createdBy;
      match sign now r.1 createdBy with
      | inl token => Ret (inl (inr (r.1, r.2, token)))
      | inr e => Ret (inr e)
      end
  | errs => Ret (inl (inl errs))
  end.

Definition JoinRace (now : Z) (raceID userID : string) : Prog (string + race_error) :=
  r <- call OpGetRace raceID;
  alreadyIn <- call OpIsParticipant raceID userID;
  if (alreadyIn : bool) then Ret (sign now raceID userID) else
  if negb (String.eqb (race_Status r) "pending") then Ret (inr ErrRaceNotPending) else
  count <- call OpCountParticipants raceID;
  if MaxParticipants <=? count then Ret (inr ErrRaceFull) else
  _ <- call OpAddParticipant raceID userID;
  Ret (sign now raceID userID).

Definition LeaveRace (raceID userID : string) : Prog (unit + race_error) :=
  r <- call OpGetRace raceID;
  if negb (String.eqb (race_Status r) "pending") then Ret (inr ErrRaceNotPending) else
  Call (OpRemoveParticipant raceID userID) Ret.

Definition StartRace (raceID callerID : string) : Prog (RaceRow + race_error) :=
  r <- call OpGetRace raceID;
  if negb (String.eqb (race_CreatedBy r) callerID) then Ret (inr ErrNotCreator) else
  if negb (String.eqb (race_Status r) "pending") then Ret (inr ErrRaceNotPending) else
  Call (OpStartRace raceID (generatePromptText word (race_DistanceMeters r))) Ret.

Definition GetRaceText (raceID : string) : Prog (string + race_error) :=
  Call (OpGetRaceText raceID) Ret.
Definition GetRaceDetail (raceID : string) : Prog ((RaceRow * list Participant) + race_error) :=
  Call (OpGetRaceWithParticipants raceID) Ret.
Definition ListOpenRaces (callerID : string) : Prog (list OpenRace + race_error) :=
  Call (OpListOpenRaces callerID) Ret.
Definition FinishRace (raceID : string) (distanceMeters : Z) (results : list ParticipantResult)
    : Prog (unit + race_error) := Call (OpFinishRace raceID distanceMeters results) Ret.
Definition CancelRace (raceID : string) : Prog (unit + race_error) :=
  Call (OpCancelRace raceID) Ret.
End service.
