(* ===== verification/PgRepo.v ===== *)
(** * The Postgres repository implements the interface of the service *)
From Stdlib Require Import ZArith QArith.
From stdpp Require Import base list gmap sets strings.
From S2P Require Import Prelude GoNum Events Store RaceService.
Local Open Scope string_scope.
Local Open Scope Z_scope.
Local Open Scope list_scope.

(** What one call of the Postgres repository reads from outside. *)
Record PgEnv := mkPgEnv {
  pg_now : Z;
  pg_conn : Conn;
  pg_conn2 : Conn;
  pg_inserts : list Conn;
  pg_ids : list (string + error);
  pg_body : option error;
  pg_heap : list Participant -> list Participant;
  pg_heap_races : list OpenRace -> list OpenRace;
  pg_numeric : float64 -> Q
}.

Definition pg_call {B} (e : PgEnv) (op : Op B) (db : DB) : DB * (B + race_error) :=
  match op in Op B return DB * (B + race_error) with
  | OpCreateRace name d by_ => repo_CreateRace (pg_ids e) (pg_inserts e) (pg_now e) name d by_ db
  | OpGetRace id => repo_GetRace (pg_conn e) id db
  | OpAddParticipant id u => repo_AddParticipant (pg_conn e) (pg_now e) id u db
  | OpCountParticipants id => repo_CountParticipants (pg_conn e) id db
  | OpIsParticipant id u => repo_IsParticipant (pg_conn e) id u db
  | OpRemoveParticipant id u => repo_RemoveParticipant (pg_conn e) id u db
  | OpStartRace id text => repo_StartRace (pg_conn e) (pg_now e) id text db
  | OpGetRaceText id => repo_GetRaceText (pg_conn e) id db
  | OpGetRaceWithParticipants id =>
      repo_GetRaceWithParticipants (pg_heap e) (pg_conn e) (pg_conn2 e) id db
  | OpListOpenRaces u => repo_ListOpenRaces (pg_heap_races e) (pg_conn e) u db
  | OpFinishRace id d rs => repo_FinishRace (pg_numeric e) (pg_body e) (pg_conn e) (pg_now e) id d rs db
  | OpCancelRace id => repo_CancelRace (pg_conn e) (pg_now e) id db
  end.

(** ** Counting participants *)

Definition row_if (raceID : string) (kv : (string * string) * ParticipantRow)
    : option (string * ParticipantRow) :=
  if String.eqb kv.1.1 raceID then Some (kv.1.2, kv.2) else None.

Lemma rows_insert raceID raceID' u row db :
  race_participants db !! (raceID', u) = None ->
  rows_of raceID (db <| race_participants := <[(raceID', u) := row]> (race_participants db) |>) ≡ₚ
    (if String.eqb raceID' raceID then [(u, row)] else []) ++ rows_of raceID db.
Proof.
  intros Hn. unfold rows_of. cbn [race_participants].
  change (race_participants (set race_participants ?f db)) with (f (race_participants db)).
  assert (map_to_list (<[(raceID', u) := row]> (race_participants db)) ≡ₚ
    ((raceID', u), row) :: map_to_list (race_participants db)) as Hp by (by apply map_to_list_insert).
  trans (omap (row_if raceID) (((raceID', u), row) :: map_to_list (race_participants db))).
  - change (omap (row_if raceID) (map_to_list (<[(raceID', u) := row]> (race_participants db))) ≡ₚ
      omap (row_if raceID) (((raceID', u), row) :: map_to_list (race_participants db))).
    by rewrite Hp.
  - unfold row_if at 1. unfold omap. simpl. by destruct (String.eqb raceID' raceID).
Qed.

Lemma count_insert raceID raceID' u row db :
  race_participants db !! (raceID', u) = None ->
  count_participants raceID
    (db <| race_participants := <[(raceID', u) := row]> (race_participants db) |>) =
  count_participants raceID db + (if String.eqb raceID' raceID then 1 else 0).
Proof.
  intros Hn. unfold count_participants. rewrite (rows_insert raceID _ _ row _ Hn), length_app.
  destruct (String.eqb raceID' raceID); simpl; lia.
Qed.

Lemma count_delete raceID u row db :
  race_participants db !! (raceID, u) = Some row ->
  count_participants raceID (db <| race_participants := delete (raceID, u) (race_participants db) |>) =
  count_participants raceID db - 1.
Proof.
  intros Hr. set (db' := db <| race_participants := delete (raceID, u) (race_participants db) |>).
  assert (db = db' <| race_participants := <[(raceID, u) := row]> (race_participants db') |>) as Heq.
  { unfold db'. destruct db as [us rs ps bs]. simpl in *. f_equal.
    by rewrite insert_delete_id. }
  pose proof (count_insert raceID raceID u row db') as Hc. rewrite <- Heq, String.eqb_refl in Hc.
  rewrite Hc; [lia|]. unfold db'. simpl. apply lookup_delete_eq.
Qed.

(** ** The instance *)

Lemma answer_same {A} c db (r : A + race_error) db' v :
  answer c db db r = (db', inl v) -> db' = db /\ r = inl v.
Proof. destruct c; intros; by simplify_eq/=. Qed.

Lemma create_attempts_law n ids conns now name d by_ db db' res :
  create_attempts n ids conns now name d by_ db = (db', res) ->
  (db' = db /\ exists err, res = inr err) \/
  exists id, let row := mkRace name d "pending" by_ now None None None in
    (res = inl (id, row) \/ exists err, res = inr err) /\
    races db !! id = None /\ db' = db <| races := <[id := row]> (races db) |>.
Proof.
  revert ids conns. induction n as [|n IH]; intros ids conns; simpl; [intros; simplify_eq; eauto|].
  destruct ids as [|[i|e] ids]; [intros; simplify_eq; eauto| |intros; simplify_eq; eauto].
  destruct (negb (int4_ok d)); [intros; simplify_eq; eauto|].
  destruct (races db !! i) as [r|] eqn:Hi.
  - destruct conns as [|[] conns]; simpl; try apply IH; intros; simplify_eq; eauto.
  - case_bool_decide; destruct conns as [|[] conns]; simpl; intros; simplify_eq; eauto 10.
Qed.

(** With the database up, a creation goes through on the first id that is free. *)
Lemma create_attempts_up pre : forall n post id now name d by_ db,
  (length pre < n)%nat -> Forall (fun x => is_Some (races db !! x)) pre -> races db !! id = None ->
  is_Some (users db !! by_) -> int4_ok d = true ->
  snd (create_attempts n ((inl <$> pre) ++ inl id :: post) [] now name d by_ db) =
    inl (id, mkRace name d "pending" by_ now None None None).
Proof.
  induction pre as [|x pre IH]; intros n post id now name d by_ db Hn Hpre Hid Hby Hd;
    (destruct n as [|n]; [simpl in Hn; lia|]); cbn [create_attempts fmap list_fmap app]; rewrite Hd; cbn [negb].
  - rewrite Hid, bool_decide_true by done. done.
  - apply Forall_cons in Hpre as [[r Hx] Hpre]. rewrite Hx. apply IH; [simpl in Hn; lia|done..].
Qed.

#[export] Program Instance pg_repository : RaceRepository DB PgEnv := {
  repo_call := @pg_call;
  view_race db id := races db !! id;
  view_in db id u := bool_decide (is_Some (race_participants db !! (id, u)));
  view_count db id := count_participants id db;
  known_user db u := is_Some (users db !! u);
  reachable e := pg_conn e = Up /\ pg_inserts e = [];
  draws_id e db id := exists pre post, pg_ids e = (inl <$> pre) ++ inl id :: post /\ (length pre < maxCreateRaceAttempts)%nat /\
    Forall (fun x => is_Some (races db !! x)) pre /\ races db !! id = None
}.
Next Obligation. intros e id db [He _]. simpl. unfold repo_GetRace. by rewrite He. Qed.
Next Obligation.
  intros e id u db [He _]. simpl. unfold repo_IsParticipant. by rewrite He.
Qed.
Next Obligation. intros e id db [He _]. simpl. unfold repo_CountParticipants. by rewrite He. Qed.
Next Obligation.
  intros e id u db [He _] Hr Hu. simpl in *. unfold repo_AddParticipant. rewrite He.
  destruct (race_participants db !! (id, u)) eqn:Hp; [by rewrite bool_decide_true by by eexists|].
  rewrite (bool_decide_true (is_Some (races db !! id))), (bool_decide_true (is_Some (users db !! u))) by done.
  by rewrite bool_decide_false by by intros [? ?].
Qed.
Next Obligation.
  intros e name d by_ db id [_ He] Hu Hd (pre & post & Hids & Hlen & Hpre & Hid). simpl in *. unfold repo_CreateRace.
  rewrite He, Hids. eexists. by apply create_attempts_up.
Qed.
Next Obligation.
  simpl. unfold repo_GetRace. intros e id db db' r Hx. apply answer_same in Hx as [-> Hx].
  destruct (races db !! id); by simplify_eq.
Qed.
Next Obligation.
  simpl. unfold repo_IsParticipant. intros e id u db db' b Hx.
  apply answer_same in Hx as [-> Hx]. by simplify_eq.
Qed.
Next Obligation.
  simpl. unfold repo_CountParticipants. intros e id db db' n Hx.
  apply answer_same in Hx as [-> Hx]. by simplify_eq.
Qed.
Next Obligation.
  simpl. unfold repo_GetRace, repo_IsParticipant, repo_CountParticipants.
  intros e id u db. by destruct (pg_conn e).
Qed.
Next Obligation.
  simpl. unfold repo_AddParticipant. intros e id u db db' r.
  destruct (race_participants db !! (id, u)) as [row|] eqn:Hp.
  - intros Hx. left. destruct (pg_conn e); by simplify_eq/=.
  - case_bool_decide as Hr; [case_bool_decide as Hu|]; simpl; intros Hx;
      [|left; destruct (pg_conn e); by simplify_eq/=..].
    assert ((db' = db /\ r <> inl ()) \/ db' = db <| race_participants :=
      <[(id, u) := mkRow None None None 0 (pg_now e)]> (race_participants db) |>) as [?| ->]
      by (destruct (pg_conn e); simplify_eq/=; auto); [by left|right].
    rewrite count_insert, String.eqb_refl by done. split_and!; try done.
    + simpl. by rewrite lookup_insert_eq.
    + intros id' u' Hne. simpl. by rewrite lookup_insert_ne by congruence.
    + intros id' Hne. rewrite count_insert by done.
      rewrite (proj2 (String.eqb_neq id id')) by done. lia.
Qed.
Next Obligation.
  simpl. unfold repo_RemoveParticipant. intros e id u db db' r.
  destruct (race_participants db !! (id, u)) as [row|] eqn:Hp; intros Hx.
  - assert ((db' = db /\ r <> inl ()) \/ db' = db <| race_participants :=
      delete (id, u) (race_participants db) |>) as [?| ->]
      by (destruct (pg_conn e); simplify_eq/=; auto); [by left|right].
    rewrite (count_delete _ _ _ _ Hp). split_and!; try done.
    + simpl. by rewrite lookup_delete_eq.
    + intros id' u' Hne. simpl. by rewrite lookup_delete_ne by congruence.
  - left. destruct (pg_conn e); by simplify_eq/=.
Qed.
Next Obligation.
  simpl. unfold repo_StartRace. intros e id text db db' r.
  destruct (races db !! id) as [r0|] eqn:Hr; intros Hx.
  - assert ((db' = db /\ exists err, r = inr err) \/
      (db' = db <| races := <[id := started_row (pg_now e) text r0]> (races db) |> /\
       (r = inl (started_row (pg_now e) text r0) \/ exists err, r = inr err))) as [?|[-> Hres]]
      by (destruct (pg_conn e); simplify_eq/=; eauto 8); [by left|right].
    exists r0, (pg_now e). split_and!; try done.
    + simpl. by rewrite lookup_insert_eq.
    + intros id' Hne. simpl. by rewrite lookup_insert_ne.
  - left. destruct (pg_conn e); simplify_eq/=; eauto.
Qed.
Next Obligation.
  simpl. intros e name d by_ db db' res Hx.
  apply create_attempts_law in Hx as [?|(id & Hres & Hn & ->)]; [by left|right].
  exists id. eexists. split; [exact Hres|]. split_and!; try done.
  - simpl. by rewrite lookup_insert_eq.
  - intros id' Hne. simpl. by rewrite lookup_insert_ne.
Qed.
