(* ===== verification/RaceServiceProps.v ===== *)
(** * What the race service guarantees

    Proved against the repository interface, for any implementation: what holds
    whatever a call does, and what is answered when the database is up.  The
    concrete runs at the end are on the Postgres tables. *)
From Stdlib Require Import ZArith QArith Ascii.
From stdpp Require Import base list gmap sets strings.
From S2P Require Import Prelude GoNum Events Json GoStrings Http Store RaceService PgRepo.
Local Open Scope string_scope.
Local Open Scope Z_scope.
Local Open Scope list_scope.

Section service.
Context `{Jwt} (secret : string) (word : nat -> string).
Context {St E : Type} `{!RaceRepository St E}.

(** One step of a program that calls and stops at an error. *)
Lemma run_bind {A B} (op : Op B) (k : B -> Prog (A + race_error)) env i s :
  run_prog (bind_call op k) env i s =
    match repo_call (env i) op s with
    | (s', inl b) => run_prog (k b) env (i + 1) s'
    | (s', inr e) => (s', inr e)
    end.
Proof. simpl. by destruct (repo_call (env i) op s) as [s' [b|e]]. Qed.

(** What the reads answer when the database is up. *)
Lemma get_up e raceID s : reachable e ->
  repo_call e (OpGetRace raceID) s = (s, match view_race s raceID with Some r => inl r | None => inr ErrRaceNotFound end).
Proof.
  intros He. rewrite (surjective_pairing (repo_call _ _ _)), (get_race_up e raceID s He).
  by destruct (reads_law e raceID "" s) as (-> & _).
Qed.

Lemma is_participant_call_up e raceID u s : reachable e ->
  repo_call e (OpIsParticipant raceID u) s = (s, inl (view_in s raceID u)).
Proof.
  intros He. rewrite (surjective_pairing (repo_call _ _ _)), (is_participant_up e raceID u s He).
  by destruct (reads_law e raceID u s) as (_ & -> & _).
Qed.

Lemma count_call_up e raceID s : reachable e ->
  repo_call e (OpCountParticipants raceID) s = (s, inl (view_count s raceID)).
Proof.
  intros He. rewrite (surjective_pairing (repo_call _ _ _)), (count_up e raceID s He).
  by destruct (reads_law e raceID "" s) as (_ & _ & ->).
Qed.

(** The answer that carries a session token of this user for this race. *)
Definition fresh_token (now : Z) (raceID u : string) : string + race_error :=
  match signSessionToken secret now raceID u with inl t => inl t | inr e => inr (ErrOther e) end.

(** A token that opens the handshake of this user with this race, and no other,
    for six hours. *)
Definition opens_handshake (now : Z) (raceID u token : string) : Prop :=
  signSessionToken secret now raceID u = inl token /\
  (raceID <> "" -> u <> "" -> forall now', verifySessionToken secret now' token =
     if now' <? now + session_ttl then Some (u, raceID) else None).

Lemma fresh_token_opens now raceID u token : fresh_token now raceID u = inl token -> opens_handshake now raceID u token.
Proof.
  unfold fresh_token. destruct (signSessionToken _ _ _ _) as [t|e] eqn:Hs; intros; simplify_eq.
  split; [done|]. intros. by apply (verify_signed secret now).
Qed.

(** How a join goes when the database is up: what it finds decides. *)
Definition join_decided (now : Z) (raceID u : string) (s s' : St) (res : string + race_error) : Prop :=
  match view_race s raceID with
  | None => s' = s /\ res = inr ErrRaceNotFound
  | Some r =>
      if view_in s raceID u then s' = s /\ res = fresh_token now raceID u
      else if decide (race_Status r <> "pending") then s' = s /\ res = inr ErrRaceNotPending
      else if decide (10 <= view_count s raceID) then s' = s /\ res = inr ErrRaceFull
      else known_user s u ->
        view_in s' raceID u = true /\ view_count s' raceID = view_count s raceID + 1 /\ res = fresh_token now raceID u
  end.

Lemma join_up now raceID u env s s' res :
  (forall i, reachable (env i)) -> run_prog (JoinRace secret now raceID u) env 0 s = (s', res) ->
  join_decided now raceID u s s' res.
Proof.
  intros Hup. unfold JoinRace, join_decided. rewrite run_bind, get_up by done.
  destruct (view_race s raceID) as [r|] eqn:Hr; [|intros; by simplify_eq].
  rewrite run_bind, is_participant_call_up by done.
  destruct (view_in s raceID u) eqn:Hin; [intros; by simplify_eq/=|].
  destruct (String.eqb_spec (race_Status r) "pending") as [Hp|Hp]; cbn [negb];
    [rewrite decide_False by auto|rewrite decide_True by done; intros; by simplify_eq/=].
  rewrite run_bind, count_call_up by done. unfold MaxParticipants.
  destruct (Z.leb_spec 10 (view_count s raceID)); [rewrite decide_True by done; intros; by simplify_eq/=|].
  rewrite decide_False by lia. intros Hrun Hu. rewrite run_bind in Hrun.
  pose proof (add_up (env (0 + 1 + 1 + 1)%nat) raceID u s (Hup _) ltac:(by eexists) Hu) as Hadd. rewrite Hin in Hadd.
  destruct (repo_call _ (OpAddParticipant raceID u) s) as [s1 ra] eqn:H4. cbn in Hadd. subst ra.
  cbn in Hrun. simplify_eq. apply add_law in H4 as [[_ Hra]|(_ & Hv2 & Hv3 & _)]; [done|]. done.
Qed.

(** C27: joining, run on its own against any repository.  Whatever fails, a token
    is only handed to somebody who is a participant afterwards of a race that
    exists, and it opens the handshake of this user with this race for six hours;
    newcomers are only admitted while the race is pending and has fewer than ten
    participants, one at a time; nothing else changes; and a second join never
    changes anything.  When the database is up, what the join finds decides its
    answer: no such race; a participant - of a race in whatever state - gets a
    fresh token and nothing changes; a newcomer is refused because the race is not
    pending, or because it is full, and is otherwise admitted, with a token.  In
    particular a join repeated after a success is answered with a fresh token. *)
Theorem JoinRace_spec now raceID u env s s' res :
  run_prog (JoinRace secret now raceID u) env 0 s = (s', res) ->
  (forall token, res = inl token ->
     is_Some (view_race s raceID) /\ view_in s' raceID u = true /\ opens_handshake now raceID u token) /\
  (s' = s \/
   (exists r, view_race s raceID = Some r /\ race_Status r = "pending" /\
      view_count s raceID < 10 /\ view_in s raceID u = false /\
      view_in s' raceID u = true /\ view_count s' raceID = view_count s raceID + 1)) /\
  (forall raceID' u', (raceID', u') <> (raceID, u) -> view_in s' raceID' u' = view_in s raceID' u') /\
  (forall raceID', view_race s' raceID' = view_race s raceID') /\
  ((forall i, reachable (env i)) -> join_decided now raceID u s s' res) /\
  (view_in s' raceID u = true -> forall now' env', let again := run_prog (JoinRace secret now' raceID u) env' 0 s' in
     fst again = s' /\
     ((forall i, reachable (env' i)) -> is_Some (view_race s' raceID) -> snd again = fresh_token now' raceID u)).
Proof.
  intros Hrun.
  assert (view_in s' raceID u = true -> forall now' env', let again := run_prog (JoinRace secret now' raceID u) env' 0 s' in
    fst again = s' /\
    ((forall i, reachable (env' i)) -> is_Some (view_race s' raceID) -> snd again = fresh_token now' raceID u)) as Hagain.
  { clear Hrun. intros Hin now' env' again. split.
    - subst again. unfold JoinRace. rewrite run_bind.
      destruct (reads_law (env' 0%nat) raceID u s') as (Hg & _ & _).
      destruct (repo_call _ (OpGetRace raceID) s') as [s1 [r|e]] eqn:H1; simpl in Hg; subst s1; [|done].
      rewrite run_bind. destruct (reads_law (env' (0 + 1)%nat) raceID u s') as (_ & Hi & _).
      destruct (repo_call _ (OpIsParticipant raceID u) s') as [s1 [b|e]] eqn:H2; simpl in Hi; subst s1; [|done].
      apply is_participant_law in H2 as [_ ->]. by rewrite Hin.
    - intros Hup [r Hr]. pose proof (join_up now' raceID u env' s' _ _ Hup (surjective_pairing _)) as Hd.
      unfold join_decided in Hd. rewrite Hr, Hin in Hd. exact (proj2 Hd). }
  assert ((forall i, reachable (env i)) -> join_decided now raceID u s s' res) as Hdec by (intros; by eapply join_up).
  unfold JoinRace in Hrun. rewrite run_bind in Hrun.
  destruct (reads_law (env 0%nat) raceID u s) as (Hg & _ & _).
  destruct (repo_call _ (OpGetRace raceID) s) as [s1 [r|e]] eqn:H1; simpl in Hg; subst s1;
    [|simplify_eq; by split_and!; auto].
  apply get_race_law in H1 as [_ Hr].
  rewrite run_bind in Hrun. destruct (reads_law (env (0 + 1)%nat) raceID u s) as (_ & Hi & _).
  destruct (repo_call _ (OpIsParticipant raceID u) s) as [s1 [b|e]] eqn:H2; simpl in Hi; subst s1;
    [|simplify_eq; by split_and!; auto].
  apply is_participant_law in H2 as [_ Hb]. destruct b.
  { simpl in Hrun. simplify_eq. split_and!; auto. intros token Ht. split_and!; [by eexists|done|by apply fresh_token_opens]. }
  destruct (String.eqb_spec (race_Status r) "pending") as [Hp|Hp]; simpl negb in Hrun; cbv iota in Hrun;
    [|simpl in Hrun; simplify_eq; by split_and!; auto].
  rewrite run_bind in Hrun. destruct (reads_law (env (0 + 1 + 1)%nat) raceID u s) as (_ & _ & Hc).
  destruct (repo_call _ (OpCountParticipants raceID) s) as [s1 [n|e]] eqn:H3; simpl in Hc; subst s1;
    [|simplify_eq; by split_and!; auto].
  apply count_law in H3 as [_ Hn].
  destruct (Z.leb_spec MaxParticipants n) as [Hmax|Hmax];
    [simpl in Hrun; simplify_eq; by split_and!; auto|]. unfold MaxParticipants in Hmax.
  rewrite run_bind in Hrun.
  destruct (repo_call _ (OpAddParticipant raceID u) s) as [s1 ra] eqn:H4.
  apply add_law in H4 as [[-> Hra]|(Hv1 & Hv2 & Hv3 & Hv4 & Hv5 & Hv6)].
  - destruct ra as [[]|e]; [done|]. simplify_eq. by split_and!; auto.
  - assert (s' = s1 /\ forall token, res = inl token -> fresh_token now raceID u = inl token) as [-> Htok]
      by (destruct ra; simpl in Hrun; by simplify_eq).
    split_and!; [intros token Ht; split_and!; [by eexists|done|by apply fresh_token_opens, Htok]
      |right; exists r; split_and!; auto; lia|auto..].
Qed.

Lemma StartRace_run raceID caller env s s' res :
  run_prog (StartRace word raceID caller) env 0 s = (s', res) ->
  (s' = s /\ exists e, res = inr e) \/
  (exists r t, view_race s raceID = Some r /\ race_CreatedBy r = caller /\ race_Status r = "pending" /\
     view_race s' raceID = Some (started_row t (generatePromptText word (race_DistanceMeters r)) r) /\
     (res = inl (started_row t (generatePromptText word (race_DistanceMeters r)) r) \/
      exists e, res = inr e)).
Proof.
  unfold StartRace. rewrite run_bind.
  destruct (reads_law (env 0%nat) raceID caller s) as (Hg & _ & _).
  destruct (repo_call _ (OpGetRace raceID) s) as [s1 [r|e]] eqn:H1; simpl in Hg; subst s1;
    [|intros; simplify_eq; by left; eauto].
  apply get_race_law in H1 as [_ Hr].
  destruct (String.eqb_spec (race_CreatedBy r) caller) as [Hc|Hc]; simpl negb; cbv iota;
    [|simpl; intros; simplify_eq; by left; eauto].
  destruct (String.eqb_spec (race_Status r) "pending") as [Hp|Hp]; simpl negb; cbv iota;
    [|simpl; intros; simplify_eq; by left; eauto].
  simpl. destruct (repo_call _ (OpStartRace raceID _) s) as [s1 rs] eqn:H2. intros; simplify_eq.
  apply start_law in H2 as [?|(r0 & t & Hr0 & Hs' & Hres & _)]; [by left|].
  simplify_eq. right. exists r, t. split_and!; done.
Qed.

(** Only the creator can start a race, only while it is pending, and then
    it becomes active with a prompt of its own; the state does not change in any
    other case - except that a lost answer may hide a start that took effect. *)
Theorem StartRace_spec raceID caller env s s' res :
  run_prog (StartRace word raceID caller) env 0 s = (s', res) ->
  (forall started, res = inl started ->
     exists r t, view_race s raceID = Some r /\ race_CreatedBy r = caller /\ race_Status r = "pending" /\
       started = started_row t (generatePromptText word (race_DistanceMeters r)) r /\
       view_race s' raceID = Some started /\ race_Status started = "active") /\
  (s' = s \/ exists r t, view_race s raceID = Some r /\ race_CreatedBy r = caller /\
     race_Status r = "pending" /\
     view_race s' raceID = Some (started_row t (generatePromptText word (race_DistanceMeters r)) r)).
Proof.
  intros [[-> [e ->]]|(r & t & Hr & Hc & Hp & Hs' & Hres)]%StartRace_run; [by split; auto|].
  split; [|right; eauto 8]. intros started ->. destruct Hres as [Hres|[e He]]; simplify_eq.
  exists r, t. split_and!; done.
Qed.

Lemma CreateRace_success now name d caller env s s' id row token :
  run_prog (CreateRace secret now name d caller) env 0 s = (s', inl (inr (id, row, token))) ->
  validateCreateRace name d = [] /\ view_race s id = None /\ view_race s' id = Some row /\
  race_Name row = trim_space name /\ race_DistanceMeters row = d /\
  race_Status row = "pending" /\ race_CreatedBy row = caller /\ view_in s' id caller = true /\
  (forall id', id' <> id -> view_race s' id' = view_race s id') /\
  (forall id' u', (id', u') <> (id, caller) -> view_in s' id' u' = view_in s id' u') /\
  fresh_token now id caller = inl token.
Proof.
  unfold CreateRace. destruct (validateCreateRace name d) as [|err errs]; [|done].
  rewrite run_bind.
  destruct (repo_call _ (OpCreateRace _ _ _) s) as [s1 [[id1 row1]|e]] eqn:H1; [|done].
  apply create_law in H1 as [[_ [? ?]]|(id' & row' & [Hres|[? ?]] & Hn & Hr & Hname & Hd & Hby & Hst & Hother & Hins & _)]; try done.
  simplify_eq. rewrite run_bind. simpl fst. simpl snd.
  destruct (repo_call _ (OpAddParticipant _ _) s1) as [s2 [[]|e]] eqn:H2; [|done].
  apply add_law in H2 as [[_ Hbad]|(_ & Hin & _ & Hraces & Hins' & _)]; [done|].
  unfold sign. destruct (signSessionToken _ _ _ _) as [tk|e] eqn:Hs; simpl; intros; simplify_eq.
  split_and!; try done; [by rewrite Hraces| | |by unfold fresh_token; rewrite Hs].
  - intros id2 Hne. rewrite Hraces. by apply Hother.
  - intros id2 u2 Hne. rewrite Hins' by done. apply Hins.
Qed.

(** What is wrong with the fields of a creation: a name is blank, or longer than
    100 bytes before its spaces are trimmed. *)
Definition name_refused (name : string) : Prop := trim_space name = "" \/ 100 < len name.
Definition refused_fields (name : string) (d : Z) : list (string * string) :=
  (if decide (name_refused name) then [("name", "must be 1-100 characters")] else []) ++
  (if decide (d <= 0) then [("distance_meters", "must be a positive integer")] else []).

Lemma len_zero s : len s = 0 <-> s = "".
Proof. unfold len. destruct s; simpl; split; try done; lia. Qed.

Lemma validate_fields name d : validateCreateRace name d = refused_fields name d.
Proof.
  unfold validateCreateRace, refused_fields, name_refused. f_equal.
  - destruct (Z.eqb_spec (len (trim_space name)) 0) as [Hz|Hz]; cbn [orb].
    + rewrite decide_True; [done|]. left. by apply len_zero.
    + destruct (Z.ltb_spec 100 (len name)); [by rewrite decide_True by auto|].
      rewrite decide_False; [done|]. intros [Hx|Hx]; [by apply Hz, len_zero|lia].
  - destruct (Z.leb_spec d 0); [by rewrite decide_True|by rewrite decide_False by lia].
Qed.

(** A race that is there although its creation was answered with an error: no
    other race is touched, and at most its creator is in it. *)
Definition orphan (name : string) (d : Z) (caller : string) (s s' : St) : Prop :=
  exists id row, view_race s id = None /\ view_race s' id = Some row /\ race_Name row = trim_space name /\
    race_DistanceMeters row = d /\ race_Status row = "pending" /\ race_CreatedBy row = caller /\
    (forall id', id' <> id -> view_race s' id' = view_race s id') /\
    (forall id' u', (id', u') <> (id, caller) -> view_in s' id' u' = view_in s id' u').


(** Leaving over REST only ever removes the caller, and only from a race that
    is still pending. *)
Theorem LeaveRace_spec raceID u env s s' res :
  run_prog (LeaveRace raceID u) env 0 s = (s', res) ->
  (s' = s /\ res <> inl ()) \/
  (exists r, view_race s raceID = Some r /\ race_Status r = "pending" /\
     view_in s raceID u = true /\ view_in s' raceID u = false /\
     (forall raceID' u', (raceID', u') <> (raceID, u) -> view_in s' raceID' u' = view_in s raceID' u')).
Proof.
  unfold LeaveRace. rewrite run_bind.
  destruct (reads_law (env 0%nat) raceID u s) as (Hg & _ & _).
  destruct (repo_call _ (OpGetRace raceID) s) as [s1 [r|e]] eqn:H1; simpl in Hg; subst s1;
    [|intros; simplify_eq; by left].
  apply get_race_law in H1 as [_ Hr].
  destruct (String.eqb_spec (race_Status r) "pending") as [Hp|Hp]; simpl negb; cbv iota;
    [|simpl; intros; simplify_eq; by left].
  simpl. destruct (repo_call _ (OpRemoveParticipant raceID u) s) as [s1 rs] eqn:H2. intros; simplify_eq.
  apply remove_law in H2 as [[-> Hrs]|(Hv & Hv' & _ & _ & Hothers)]; [by left|right; eauto 8].
Qed.
End service.

(** ** Race ids and prompts *)

Lemma alphabet_chars n c : String.get n base58Alphabet = Some c -> id_char c = true.
Proof.
  intros Hc. assert (n < 58)%nat as Hn.
  { destruct (decide (n < 58)%nat) as [|Hge]; [done|]. exfalso.
    assert (forall s m, (String.length s <= m)%nat -> String.get m s = None) as Hout.
    { induction s as [|d s IH]; intros m Hm; [by destruct m|].
      destruct m as [|m]; simpl in *; [lia|]. apply IH. lia. }
    rewrite Hout in Hc; [done|]. simpl. lia. }
  do 58 (destruct n as [|n]; [injection Hc as <-; reflexivity|]). lia.
Qed.

Lemma generate_from_valid n draws s :
  generate_from n draws = inl s ->
  String.length s = n /\ forallb id_char (String.list_ascii_of_string s) = true.
Proof.
  revert draws s. induction n as [|n IH]; intros draws s; cbn [generate_from]; [by intros; simplify_eq|].
  destruct draws as [|[d|e] draws]; [done| |done].
  destruct (String.get d base58Alphabet) as [c|] eqn:Hc; [|by destruct (generate_from n draws)].
  destruct (generate_from n draws) as [s1|e] eqn:Hg; [|done].
  intros; simplify_eq. destruct (IH _ _ Hg) as [Hl Hf]. simpl.
  by rewrite Hl, (alphabet_chars _ _ Hc), Hf.
Qed.

(** Every id the generator produces is accepted by the handlers' pattern,
    whatever the random draws - and it takes exactly twelve of them. *)
Theorem generated_id_valid draws s : GenerateRaceID draws = inl s -> isValidRaceID s = true.
Proof.
  intros Hg. apply generate_from_valid in Hg as [Hl Hf]. unfold isValidRaceID, raceIDLength in *.
  by rewrite Hl, Hf.
Qed.

Lemma generated_id_valid_witness :
  GenerateRaceID (replicate 12 (inl 57%nat)) = inl "zzzzzzzzzzzz" /\ isValidRaceID "zzzzzzzzzzzz" = true.
Proof. split; [reflexivity|]. apply (generated_id_valid (replicate 12 (inl 57%nat))). reflexivity. Defined.

Definition space : ascii := " ".

Lemma split_join l :
  l <> [] -> Forall (fun w => Forall (fun d => Ascii.eqb d space = false) (String.list_ascii_of_string w)) l ->
  split_on space (join " " l) = l.
Proof.
  intros Hne Hl. induction Hl as [|w l Hw Hl IH]; [done|]. destruct l as [|w' l].
  - simpl. by apply split_on_last.
  - change (join " " (w :: w' :: l)) with (w +:+ String space (join " " (w' :: l))).
    rewrite split_on_app by done. by rewrite IH.
Qed.

(** The prompt has exactly as many words as the race is long, so typing it
    all reaches the distance exactly, provided the corpus only has words without
    spaces. *)
Theorem prompt_word_count word n :
  0 < n ->
  (forall i, Forall (fun d => Ascii.eqb d space = false) (String.list_ascii_of_string (word i))) ->
  Z.of_nat (length (split_on space (generatePromptText word n))) = n.
Proof.
  intros Hn Hw. unfold generatePromptText. rewrite split_join.
  - rewrite length_fmap, length_seq. lia.
  - destruct (Z.to_nat n) eqn:E; [lia|done].
  - apply Forall_fmap, Forall_true. exact Hw.
Qed.

Lemma prompt_word_count_witness :
  Z.of_nat (length (split_on space (generatePromptText (fun _ => "word") 7))) = 7.
Proof. apply (prompt_word_count (fun _ => "word") 7); [done|]. intros _. by repeat constructor. Defined.

(** ** Runs on the tables *)

Definition pg_env (now : Z) : PgEnv :=
  mkPgEnv now Up Up [] [inl "race1"] None (fun l => l) (fun l => l) (fun _ => 0%Q).

Definition host_race (status : string) : RaceRow := mkRace "Race" 5 status "u1" 100 None None None.

(** A race of [u1] that [u1] and the given users have joined. *)
Definition tables (status : string) (us : list string) : DB :=
  mkDB (list_to_map ((fun u => (u, u)) <$> ["u1"; "b"; "c"; "d"; "e"; "f"; "g"; "h"; "i"; "j"; "k"]))
    {[ "R" := host_race status ]}
    (list_to_map ((fun u => (("R", u), mkRow None None None 0 100)) <$> "u1" :: us)) ∅.

Definition env_seq (now : Z) : nat -> PgEnv := fun _ => pg_env now.


(** A race of "c", which "u1" has not joined. *)
Definition race_of_c (status : string) : DB :=
  mkDB (list_to_map ((fun u => (u, u)) <$> ["u1"; "c"])) {[ "race1" := mkRace "Race" 5 status "c" 100 None None None ]}
    {[ ("race1", "c") := mkRow None None None 0 100 ]} ∅.

Lemma env_seq_reachable now : forall i, reachable (St := DB) (env_seq now i).
Proof. done. Qed.

Lemma demo_fresh_token : fresh_token (H := demo_jwt) "k" 1000 "race1" "u1" = inl "sk".
Proof. unfold fresh_token. by rewrite demo_sign_session. Qed.

Lemma JoinRace_spec_witness :
  let r := run_prog (JoinRace (H := demo_jwt) "k" 1000 "race1" "u1") (env_seq 1000) 0 (race_of_c "pending") in
  snd r = inl "sk" /\ view_in (fst r) "race1" "u1" = true /\ view_in (fst r) "race1" "c" = true /\
  verifySessionToken (H := demo_jwt) "k" 2000 "sk" = Some ("u1", "race1") /\
  snd (run_prog (JoinRace (H := demo_jwt) "k" 1000 "race1" "u1") (env_seq 1000) 0 (fst r)) = inl "sk".
Proof.
  intros r.
  pose proof (JoinRace_spec (H := demo_jwt) "k" (St := DB) (E := PgEnv) 1000 "race1" "u1" (env_seq 1000)
    (race_of_c "pending") (fst r) (snd r) (surjective_pairing r)) as (Htok & _ & Hothers & Hraces & Hup & Hagain).
  specialize (Hup (env_seq_reachable 1000)). unfold join_decided in Hup.
  assert (view_race (race_of_c "pending") "race1" = Some (mkRace "Race" 5 "pending" "c" 100 None None None)) as Hr by (vm_compute; reflexivity).
  rewrite Hr in Hup.
  assert (view_in (race_of_c "pending") "race1" "u1" = false) as Hi by (vm_compute; reflexivity). rewrite Hi in Hup.
  rewrite decide_False in Hup by (intros Hne; by apply Hne).
  assert (view_count (race_of_c "pending") "race1" = 1) as Hc by (vm_compute; reflexivity).
  rewrite Hc in Hup. rewrite decide_False in Hup by lia.
  destruct Hup as (Hin & _ & Hres); [by exists "u1"|]. rewrite demo_fresh_token in Hres.
  destruct (Htok "sk" Hres) as (_ & _ & _ & Hver). destruct (Hagain Hin 1000 (env_seq 1000)) as [_ Hs].
  split_and!; [exact Hres|exact Hin| |exact (Hver ltac:(discriminate) ltac:(discriminate) 2000)|].
  - rewrite (Hothers "race1" "c") by congruence. vm_compute. reflexivity.
  - rewrite <- demo_fresh_token. apply Hs; [apply env_seq_reachable|]. rewrite Hraces, Hr. by eexists.
Defined.

Lemma StartRace_spec_witness :
  let r := run_prog (StartRace (fun _ => "go") "R" "u1") (env_seq 200) 0 (tables "pending" ["b"]) in
  exists started, snd r = inl started /\ race_Status started = "active".
Proof.
  pose (started := started_row 200 "go go go go go" (host_race "pending")).
  exists started. split; [vm_compute; reflexivity|].
  destruct (StartRace_spec (St := DB) (E := PgEnv) (fun _ => "go") "R" "u1" (env_seq 200) (tables "pending" ["b"])
    (fst (run_prog (StartRace (fun _ => "go") "R" "u1") (env_seq 200) 0 (tables "pending" ["b"])))
    (inl started)) as [H _]; [vm_compute; reflexivity|].
  destruct (H started eq_refl) as (r & t & _ & _ & _ & _ & _ & Hs). exact Hs.
Defined.

Definition no_races : DB := tables "pending" [].


(** The creation of a race is no transaction: when the insertion of its creator
    fails after the race was inserted, the caller is answered with an error and
    the race stays, pending, with nobody in it - and without a room, which the
    handler would only spawn afterwards, so that nothing ever cancels it. *)
Definition failing_env : nat -> PgEnv :=
  fun i => if (i =? 0)%nat then pg_env 1000 else mkPgEnv 1000 (Failed "timeout") Up [] [] None (fun l => l) (fun l => l) (fun _ => 0%Q).

Theorem create_leaves_orphan :
  let r := run_prog (CreateRace (H := demo_jwt) "k" 1000 "Fun" 5 "u1") failing_env 0 no_races in
  snd r = inr (ErrOther "timeout") /\ view_race no_races "race1" = None /\
  race_Status <$> view_race (fst r) "race1" = Some "pending" /\ view_count (fst r) "race1" = 0.
Proof. vm_compute. split_and!; reflexivity. Qed.

Lemma LeaveRace_spec_witness :
  let r := run_prog (LeaveRace "R" "b") (env_seq 200) 0 (tables "active" ["b"]) in
  fst r = tables "active" ["b"].
Proof.
  destruct (LeaveRace_spec (St := DB) (E := PgEnv) "R" "b" (env_seq 200) (tables "active" ["b"]) _ _
    (surjective_pairing (run_prog (LeaveRace "R" "b") (env_seq 200) 0 (tables "active" ["b"]))))
    as [[H _]|(r & Hr & Hs & _)]; [exact H|]. vm_compute in Hr. injection Hr as <-. discriminate Hs.
Defined.

(** ** Interleavings

    Two requests handled at the same time: [sched] says whose call comes next. *)
Fixpoint interleave {A B} (sched : list bool) (p : Prog A) (q : Prog B) (e : PgEnv) (db : DB)
    : DB * Prog A * Prog B :=
  match sched with
  | [] => (db, p, q)
  | true :: sched' => let '(db', p') := step_prog p e db in interleave sched' p' q e db'
  | false :: sched' => let '(db', q') := step_prog q e db in interleave sched' p q' e db'
  end.

(** The limit of ten is only a limit for requests handled one after the
    other: two joins that both count before either inserts bring a race of nine
    to eleven. *)
Theorem concurrent_joins_exceed_limit `{Jwt} :
  let db := tables "pending" ["b"; "c"; "d"; "e"; "f"; "g"; "h"; "i"] in
  count_participants "R" db = 9 /\
  count_participants "R" (fst (fst (interleave [true; true; true; false; false; false; true; false]
    (JoinRace "k" 1000 "R" "j") (JoinRace "k" 1000 "R" "k") (pg_env 1000) db))) = 11.
Proof. split; vm_compute; reflexivity. Qed.

(** Starting and cancelling a race are not exclusive in the tables: the start
    checks that the race is pending and then updates it unconditionally, so a
    cancellation that commits in between is overwritten, and a race whose room
    is gone is left active. *)
Theorem start_overwrites_cancel :
  let db := tables "pending" ["b"] in
  let r := interleave [true; false; true] (StartRace (fun _ => "go") "R" "u1") (CancelRace "R")
             (pg_env 300) db in
  race_Status <$> races (fst (fst r)) !! "R" = Some "active" /\
  race_EndedAt <$> races (fst (fst r)) !! "R" = Some (Some 300) /\
  snd r = Ret (inl ()).
Proof. split_and!; vm_compute; reflexivity. Qed.

(** The length of a name is measured in bytes, not in the characters the
    error message speaks of, and on the name before trimming: a name of 34
    three-byte characters is refused, and so is a one-letter name followed by a
    hundred spaces. *)
Theorem name_length_in_bytes :
  let euro := of_bytes [226; 130; 172] in
  validateCreateRace (String.concat "" (replicate 34 euro)) 10 = [("name", "must be 1-100 characters")] /\
  validateCreateRace ("a" +:+ String.concat "" (replicate 100 " ")) 10 =
    [("name", "must be 1-100 characters")].
Proof. split; vm_compute; reflexivity. Qed.
