(* ===== verification/RaceHandler.v ===== *)
(** * The race endpoints ([internal/race/handler.go], [dtos.go])

    One definition per handler: what it answers, what it does to the repository,
    and what it tells the room registry.  [userID] is what [UserIDFromContext]
    returns; a body is the first JSON document of the request. *)
From Stdlib Require Import ZArith.
From stdpp Require Import base list gmap sets strings.
From S2P Require Import Prelude GoNum Events Json GoStrings Http Room Store RaceService PgRepo RaceServiceProps.
Local Open Scope string_scope.
Local Open Scope Z_scope.
Local Open Scope list_scope.

(** What a handler does to the registry. *)
Inductive RegistryCall :=
  | Spawned (raceID : string) (distanceMeters : Z)
  | MarkedActive (raceID promptText : string).

(** [createRaceRequest] *)
Record createRaceRequest := mkCreateRequest { req_Name : string; req_DistanceMeters : Z }.

#[export] Instance eta_createRaceRequest : Eta createRaceRequest := fun r =>
  mkCreateRequest (req_Name r) (req_DistanceMeters r).

Definition createRaceRequest_fields : list (field createRaceRequest) :=
  [("name", dec_string (fun v m => m <| req_Name := v |>));
   ("distance_meters", dec_int64 (fun v m => m <| req_DistanceMeters := v |>))].

Definition field_errors (errs : list (string * string)) : json :=
  JObj [("errors", marshal_string_map errs)].

(** The status and code of a service error; [None] stands for the cases a
    handler does not single out, all answered 500. *)
Definition error_response (known : race_error -> option (Z * string)) (e : race_error) : Response :=
  match known e with
  | Some (st, code) => WriteError st code
  | None => WriteError 500 "internal_error"
  end.

Definition join_errors (e : race_error) : option (Z * string) :=
  match e with
  | ErrRaceNotFound => Some (404, "race_not_found")
  | ErrRaceNotPending => Some (409, "race_not_pending")
  | ErrAlreadyJoined => Some (409, "already_joined")
  | ErrRaceFull => Some (409, "race_full")
  | _ => None
  end.

Definition start_errors (e : race_error) : option (Z * string) :=
  match e with
  | ErrRaceNotFound => Some (404, "race_not_found")
  | ErrNotCreator => Some (403, "forbidden")
  | ErrRaceNotPending => Some (409, "race_not_pending")
  | _ => None
  end.

Definition text_errors (e : race_error) : option (Z * string) :=
  match e with
  | ErrRaceNotFound => Some (404, "race_not_found")
  | ErrPromptNotReady => Some (409, "prompt_not_ready")
  | _ => None
  end.

Definition status_errors (e : race_error) : option (Z * string) :=
  match e with ErrRaceNotFound => Some (404, "race_not_found") | _ => None end.

Section handler.
Context `{Jwt} (jwtSecret : string) (word : nat -> string).
Context {St E : Type} `{!RaceRepository St E}.
(** [time.Time.Format(time.RFC3339)] in the process's time zone. *)
Context (rfc3339 : Z -> string).

Definition Outcome : Type := St * Response * list RegistryCall.

Definition unauthorized (s : St) : Outcome := (s, WriteError 401 "unauthorized", []).
Definition invalid_race_id (s : St) : Outcome := (s, WriteError 400 "invalid_race_id", []).

Definition createRaceResponse (id : string) (r : RaceRow) (token : string) : json :=
  JObj [("id", JStr id); ("name", JStr (race_Name r)); ("distance_meters", jint (race_DistanceMeters r));
        ("status", JStr (race_Status r)); ("created_by", JStr (race_CreatedBy r));
        ("created_at", JStr (rfc3339 (race_CreatedAt r))); ("session_token", JStr token)].

Definition Create (now : Z) (userID : option string) (body : option json) (env : nat -> E) (s : St)
    : Outcome :=
  match userID with
  | None => unauthorized s
  | Some userID =>
      match (j ← body; unmarshal_struct createRaceRequest_fields (mkCreateRequest "" 0) j) with
      | None => (s, WriteError 400 "invalid_body", [])
      | Some req =>
          match run_prog (CreateRace jwtSecret now (req_Name req) (req_DistanceMeters req) userID) env 0 s with
          | (s', inl (inl errs)) => (s', WriteJSON 400 (field_errors errs), [])
          | (s', inr _) => (s', WriteError 500 "internal_error", [])
          | (s', inl (inr (id, r, token))) =>
              (s', WriteJSON 201 (createRaceResponse id r token), [Spawned id (race_DistanceMeters r)])
          end
      end
  end.

Definition joinRaceResponse (raceID token : string) : json :=
  JObj [("race_id", JStr raceID); ("session_token", JStr token)].

Definition Join (now : Z) (userID : option string) (raceID : string) (env : nat -> E) (s : St) : Outcome :=
  match userID with
  | None => unauthorized s
  | Some userID =>
      if negb (isValidRaceID raceID) then invalid_race_id s else
      match run_prog (JoinRace jwtSecret now raceID userID) env 0 s with
      | (s', inr e) => (s', error_response join_errors e, [])
      | (s', inl token) =>
          (s', WriteJSON 200 (joinRaceResponse raceID token), [])
      end
  end.

Definition startRaceResponse (id status startedAt promptText : string) : json :=
  JObj [("id", JStr id); ("status", JStr status); ("started_at", JStr startedAt); ("prompt_text", JStr promptText)].

(** [registered] is what [registry.Get] finds at that moment. *)
Definition Start (userID : option string) (raceID : string) (registered : bool) (env : nat -> E) (s : St)
    : Outcome :=
  match userID with
  | None => unauthorized s
  | Some userID =>
      if negb (isValidRaceID raceID) then invalid_race_id s else
      match run_prog (StartRace word raceID userID) env 0 s with
      | (s', inr e) => (s', error_response start_errors e, [])
      | (s', inl started) =>
          let promptText := default "" (race_PromptText started) in
          let startedAt := match race_StartedAt started with Some t => rfc3339 t | None => "" end in
          if negb registered then (s', WriteError 500 "internal_error", []) else
          (s', WriteJSON 200 (startRaceResponse raceID (race_Status started) startedAt promptText),
           [MarkedActive raceID promptText])
      end
  end.

Definition getRaceTextResponse (promptText : string) : json := JObj [("prompt_text", JStr promptText)].

Definition Text (userID : option string) (raceID : string) (env : nat -> E) (s : St) : Outcome :=
  match userID with
  | None => unauthorized s
  | Some _ =>
      if negb (isValidRaceID raceID) then invalid_race_id s else
      match run_prog (GetRaceText raceID) env 0 s with
      | (s', inr e) => (s', error_response text_errors e, [])
      | (s', inl text) => (s', WriteJSON 200 (getRaceTextResponse text), [])
      end
  end.

Definition openRaceResponse (o : OpenRace) : json :=
  JObj [("id", JStr (or_ID o)); ("name", JStr (or_Name o));
        ("distance_meters", jint (or_DistanceMeters o));
        ("host_display_name", JStr (or_HostDisplayName o)); ("player_count", jint (or_PlayerCount o));
        ("max_players", jint (or_MaxPlayers o)); ("created_at", JStr (rfc3339 (or_CreatedAt o)))].

Definition listOpenRacesResponse (rs : list OpenRace) : json := JObj [("races", JArr (openRaceResponse <$> rs))].

Definition ListOpen (userID : option string) (env : nat -> E) (s : St) : Outcome :=
  match userID with
  | None => unauthorized s
  | Some userID =>
      match run_prog (ListOpenRaces userID) env 0 s with
      | (s', inr _) => (s', WriteError 500 "internal_error", [])
      | (s', inl rs) => (s', WriteJSON 200 (listOpenRacesResponse rs), [])
      end
  end.

Definition participantResponse (p : Participant) : option json :=
  pace ← marshal_float64 (pi_AvgPaceWatt p);
  Some (JObj [("user_id", JStr (pi_UserID p)); ("display_name", JStr (pi_DisplayName p));
              ("joined_at", JStr (rfc3339 (pi_JoinedAt p)));
              ("finish_rank", marshal_option jint (pi_FinishRank p));
              ("finish_time_ms", marshal_option jint (pi_FinishTimeMs p));
              ("avg_pace_watt", pace)]).

Definition raceStatusResponse (id : string) (r : RaceRow) (ps : list Participant) (pendingExpiresAt : option string)
    : option json :=
  js ← mapM participantResponse ps;
  Some (JObj [("id", JStr id); ("name", JStr (race_Name r)); ("distance_meters", jint (race_DistanceMeters r));
              ("status", JStr (race_Status r)); ("created_by", JStr (race_CreatedBy r)); ("participants", JArr js);
              ("pending_expires_at", marshal_option JStr pendingExpiresAt)]).

(** A body that cannot be encoded is not written: the status is already sent. *)
Definition Status (userID : option string) (raceID : string) (env : nat -> E) (s : St) : Outcome :=
  match userID with
  | None => unauthorized s
  | Some _ =>
      if negb (isValidRaceID raceID) then invalid_race_id s else
      match run_prog (GetRaceDetail raceID) env 0 s with
      | (s', inr e) => (s', error_response status_errors e, [])
      | (s', inl (r, ps)) =>
          let pendingExpiresAt :=
            if String.eqb (race_Status r) "pending"
            then Some (rfc3339 (race_CreatedAt r + PendingTimeoutDuration)) else None in
          let body := raceStatusResponse raceID r ps pendingExpiresAt in
          (s', WriteJSON 200 (default JNull body), [])
      end
  end.
End handler.

(** ** Properties *)
Section properties.
Context `{Jwt} (secret : string) (word : nat -> string).
Context {St E : Type} `{!RaceRepository St E} (rfc3339 : Z -> string).

Local Ltac refused :=
  unfold unauthorized, invalid_race_id; intros; simplify_eq; right; split; [done|first [by left|by right; left|by right; right]].

(** A room is spawned exactly when the creator is told 201, for the race just
    created, with its id and its distance - never for a refused or failed
    request, and never twice. *)
Theorem Create_spawns now userID body env s :
  let '(s', resp, cs) := Create secret rfc3339 now userID body env s in
  (status resp = 201 /\ exists id row, cs = [Spawned id (race_DistanceMeters row)] /\
     view_race s id = None /\ view_race s' id = Some row /\ race_Status row = "pending" /\
     exists u, userID = Some u /\ view_in s' id u = true) \/
  (cs = [] /\ (status resp = 400 \/ status resp = 401 \/ status resp = 500)).
Proof.
  destruct (Create _ _ _ _ _ _ _) as [[s' resp] cs] eqn:Hc. revert Hc.
  unfold Create. destruct userID as [u|]; [|refused].
  destruct (body ≫= _) as [req|]; [|refused].
  destruct (run_prog _ env 0 s) as [s1 [[errs|[[id row] token]]|e]] eqn:Hrun; [refused| |refused].
  intros; simplify_eq. left.
  apply CreateRace_success in Hrun as (_ & Hn & Hr & _ & _ & Hst & _ & Hin & _).
  split; [done|]. exists id, row. split_and!; eauto.
Qed.

(** C29: a room is told that its race is active exactly when the starter is told
    200: then the race is active in the repository, started by its creator out
    of pending, and the room gets the very prompt that was stored. *)
Theorem Start_marks_active userID raceID registered env s :
  let '(s', resp, cs) := Start word rfc3339 userID raceID registered env s in
  (status resp = 200 /\ registered = true /\
     exists u r t, userID = Some u /\ view_race s raceID = Some r /\ race_CreatedBy r = u /\
       race_Status r = "pending" /\
       view_race s' raceID = Some (started_row t (generatePromptText word (race_DistanceMeters r)) r) /\
       cs = [MarkedActive raceID (generatePromptText word (race_DistanceMeters r))]) \/
  (cs = [] /\ status resp <> 200).
Proof.
  destruct (Start _ _ _ _ _ _ _) as [[s' resp] cs] eqn:Hc. revert Hc.
  unfold Start, unauthorized, invalid_race_id. destruct userID as [u|]; [|intros; simplify_eq; right; done].
  destruct (isValidRaceID raceID); simpl negb; cbv iota; [|intros; simplify_eq; right; done].
  destruct (run_prog _ env 0 s) as [s1 [started|e]] eqn:Hrun.
  - apply StartRace_run in Hrun as [[_ [e ?]]|(r & t & Hr & Hc & Hp & Hs1 & [Hres|[e ?]])]; simplify_eq.
    destruct registered; simpl; intros; simplify_eq; [|right; done].
    left. split_and!; [done|done|]. eauto 10.
  - intros; simplify_eq. right. split; [done|].
    unfold error_response. by destruct e.
Qed.

(** Nothing is read or written for a caller who is not authenticated, nor
    for an id that no race can have. *)
Theorem refused_untouched now body raceID registered env s :
  (Create secret rfc3339 now None body env s = unauthorized s /\
   Join secret now None raceID env s = unauthorized s /\
   Start word rfc3339 None raceID registered env s = unauthorized s /\
   Text None raceID env s = unauthorized s /\
   ListOpen rfc3339 None env s = unauthorized s /\
   Status rfc3339 None raceID env s = unauthorized s) /\
  (isValidRaceID raceID = false -> forall u,
     Join secret now (Some u) raceID env s = invalid_race_id s /\
     Start word rfc3339 (Some u) raceID registered env s = invalid_race_id s /\
     Text (Some u) raceID env s = invalid_race_id s /\
     Status rfc3339 (Some u) raceID env s = invalid_race_id s).
Proof.
  split; [done|]. intros Hid u. unfold Join, Start, Text, Status. by rewrite Hid.
Qed.
End properties.

Lemma refused_untouched_witness :
  Join (H := demo_jwt) "k" 1000 (Some "u1") "not-an-id" (env_seq 1000) (tables "pending" []) =
    invalid_race_id (tables "pending" []).
Proof.
  apply (refused_untouched (H := demo_jwt) "k" (fun _ => "w") (fun _ => "") 1000 None "not-an-id" true
    (env_seq 1000) (tables "pending" [])); reflexivity.
Defined.
