(* ===== verification/Locator.v ===== *)
(** * Room ownership in Redis ([internal/roomlocator/locator.go])

    Redis is an interface: the commands the locator sends, with the documented
    effect of each on the keys that are alive at a given time and on the members
    of sets.  Times are in nanoseconds; metrics are in [Metrics]; spans are left out. *)
From Stdlib Require Import ZArith.
From stdpp Require Import base list gmap sets strings.
From S2P Require Import Prelude GoNum GoStrings Json Store.
Local Open Scope string_scope.
Local Open Scope Z_scope.
Local Open Scope list_scope.

(** ** The commands

    [live r t k] is the value of the string key [k] at time [t], [members r k]
    the set at [k].  Every command is given what happens to it ([Conn]). *)
Class Redis (R : Type) := {
  live : R -> Z -> string -> option string;
  members : R -> string -> gset string;
  cmd_setnx : Conn -> Z -> string -> string -> Z -> R -> R * (bool + error);
  cmd_expire : Conn -> Z -> string -> Z -> R -> R * (bool + error);
  cmd_del : Conn -> Z -> string -> R -> R * (unit + error);
  cmd_get : Conn -> Z -> string -> R -> R * (option string + error);
  cmd_sadd : Conn -> string -> string -> R -> R * (unit + error);
  cmd_sismember : Conn -> string -> string -> R -> R * (bool + error);
  (* SET k v NX EX ttl *)
  setnx_taken now k v ttl r w : live r now k = Some w -> cmd_setnx Up now k v ttl r = (r, inl false);
  setnx_free now k v ttl r : live r now k = None -> exists r',
    cmd_setnx Up now k v ttl r = (r', inl true) /\ members r' = members r /\
    (forall t, now <= t -> live r' t k = if t <? now + ttl then Some v else None) /\
    (forall t k', k' <> k -> live r' t k' = live r t k');
  (* EXPIRE k ttl *)
  expire_live now k ttl r v : live r now k = Some v -> exists r',
    cmd_expire Up now k ttl r = (r', inl true) /\ members r' = members r /\
    (forall t, now <= t -> live r' t k = if t <? now + ttl then Some v else None) /\
    (forall t k', k' <> k -> live r' t k' = live r t k');
  expire_dead now k ttl r : live r now k = None -> cmd_expire Up now k ttl r = (r, inl false);
  (* DEL k *)
  del_spec now k r : exists r', cmd_del Up now k r = (r', inl ()) /\ members r' = members r /\
    (forall t, now <= t -> live r' t k = None) /\
    (forall t k', k' <> k -> live r' t k' = live r t k');
  get_spec now k r : cmd_get Up now k r = (r, inl (live r now k));
  (* SADD and SISMEMBER *)
  sadd_spec k u r : exists r', cmd_sadd Up k u r = (r', inl ()) /\ live r' = live r /\
    members r' k = {[u]} ∪ members r k /\ (forall k', k' <> k -> members r' k' = members r k');
  sismember_spec k u r : cmd_sismember Up k u r = (r, inl (bool_decide (u ∈ members r k)));
  (* a command that fails before it is executed changes nothing *)
  failed_setnx e now k v ttl r : cmd_setnx (Failed e) now k v ttl r = (r, inr e);
  failed_get e now k r : cmd_get (Failed e) now k r = (r, inr e);
  failed_sismember e k u r : cmd_sismember (Failed e) k u r = (r, inr e);
  (* whatever happens to a command, it is executed or it is not; an answer means it was *)
  setnx_any c now k v ttl r : fst (cmd_setnx c now k v ttl r) = r \/
    fst (cmd_setnx c now k v ttl r) = fst (cmd_setnx Up now k v ttl r);
  setnx_answer c now k v ttl r : snd (cmd_setnx c now k v ttl r) = inl true ->
    cmd_setnx c now k v ttl r = cmd_setnx Up now k v ttl r;
  expire_any c now k ttl r : fst (cmd_expire c now k ttl r) = r \/
    fst (cmd_expire c now k ttl r) = fst (cmd_expire Up now k ttl r);
  del_any c now k r : fst (cmd_del c now k r) = r \/ fst (cmd_del c now k r) = fst (cmd_del Up now k r);
  del_executed c now k r : (forall e, c <> Failed e) -> fst (cmd_del c now k r) = fst (cmd_del Up now k r);
  get_answer c now k r v : snd (cmd_get c now k r) = inl v -> v = live r now k
}.

(** ** The locator *)

(** [RoomEvent]: the payload of [room:events]. *)
Record LocatorEvent := mkLocatorEvent { le_Type : string; le_RaceID : string; le_InstanceID : string }.

#[export] Instance eta_LocatorEvent : Eta LocatorEvent := fun e =>
  mkLocatorEvent (le_Type e) (le_RaceID e) (le_InstanceID e).

#[export] Instance LocatorEvent_eq_dec : EqDecision LocatorEvent.
Proof. solve_decision. Defined.

Definition LocatorEvent_fields : list (field LocatorEvent) :=
  [("type", dec_string (fun v m => m <| le_Type := v |>));
   ("race_id", dec_string (fun v m => m <| le_RaceID := v |>));
   ("instance_id", dec_string (fun v m => m <| le_InstanceID := v |>))].

Definition marshal_LocatorEvent (e : LocatorEvent) : json :=
  JObj [("type", JStr (le_Type e)); ("race_id", JStr (le_RaceID e)); ("instance_id", JStr (le_InstanceID e))].

Definition RoomEventCreated : string := "created".
Definition RoomEventRemoved : string := "removed".
Definition claimTTL : Z := 60 * 1000000000.
Definition heartbeatInterval : Z := 20 * 1000000000.

Definition roomKey (raceID : string) : string := "room:" +:+ raceID.
Definition evictedKey (raceID : string) : string := "race:" +:+ raceID +:+ ":evicted".
Definition instance_prefix : string := "instance:".

Section locator.
Context `{Redis R}.

(** Redis together with what was published on [room:events]. *)
Record Shared := mkShared { redis : R; room_events : list json }.

(** [fmt.Errorf("roomlocator: ...: %w", err)] *)
Definition locator_error (what : string) (e : error) : error := "roomlocator: " +:+ what +:+ ": " +:+ e.

(** [publish] *)
Definition publish (c : Conn) (ev : LocatorEvent) (s : Shared) : Shared * (unit + error) :=
  let s' := mkShared (redis s) (room_events s ++ [marshal_LocatorEvent ev]) in
  match c with
  | Up => (s', inl ())
  | Failed e => (s, inr (locator_error "publish event" e))
  | Lost e => (s', inr (locator_error "publish event" e))
  end.

(** [Claim]; beside an error of [publish] the code also returns that the race is
    claimed, which its caller discards. *)
Definition Claim (me : string) (c1 c2 : Conn) (now : Z) (raceID : string) (s : Shared)
    : Shared * (bool + error) :=
  match cmd_setnx c1 now (roomKey raceID) (instance_prefix +:+ me) claimTTL (redis s) with
  | (r, inr e) => (mkShared r (room_events s), inr (locator_error ("claim " +:+ raceID) e))
  | (r, inl false) => (mkShared r (room_events s), inl false)
  | (r, inl true) =>
      match publish c2 (mkLocatorEvent RoomEventCreated raceID me) (mkShared r (room_events s)) with
      | (s', inl ()) => (s', inl true)
      | (s', inr e) => (s', inr e)
      end
  end.

Definition Refresh (c : Conn) (now : Z) (raceID : string) (s : Shared) : Shared * (unit + error) :=
  match cmd_expire c now (roomKey raceID) claimTTL (redis s) with
  | (r, inr e) => (mkShared r (room_events s), inr (locator_error ("refresh " +:+ raceID) e))
  | (r, inl false) =>
      (mkShared r (room_events s), inr (locator_error ("refresh " +:+ raceID) "claim expired before heartbeat"))
  | (r, inl true) => (mkShared r (room_events s), inl ())
  end.

Definition Release (me : string) (c1 c2 : Conn) (now : Z) (raceID : string) (s : Shared)
    : Shared * (unit + error) :=
  match cmd_del c1 now (roomKey raceID) (redis s) with
  | (r, inr e) => (mkShared r (room_events s), inr (locator_error ("release " +:+ raceID) e))
  | (r, inl ()) =>
      publish c2 (mkLocatorEvent RoomEventRemoved raceID me) (mkShared r (room_events s))
  end.

Definition MarkEvicted (c : Conn) (raceID userID : string) (s : Shared) : Shared * (unit + error) :=
  match cmd_sadd c (evictedKey raceID) userID (redis s) with
  | (r, inl ()) => (mkShared r (room_events s), inl ())
  | (r, inr e) => (mkShared r (room_events s), inr (locator_error ("mark evicted " +:+ raceID +:+ "/" +:+ userID) e))
  end.

Definition IsEvicted (c : Conn) (raceID userID : string) (s : Shared) : bool + error :=
  match snd (cmd_sismember c (evictedKey raceID) userID (redis s)) with
  | inl b => inl b
  | inr e => inr (locator_error ("is evicted " +:+ raceID +:+ "/" +:+ userID) e)
  end.

(** [Owner]: the owning instance, or none. *)
Definition Owner (c : Conn) (now : Z) (raceID : string) (s : Shared) : option string + error :=
  match snd (cmd_get c now (roomKey raceID) (redis s)) with
  | inr e => inr (locator_error ("owner " +:+ raceID) e)
  | inl None => inl None
  | inl (Some val) => inl (Some (trim_prefix val instance_prefix))
  end.

(** [SubscribeRoomEvents]: what the subscriber receives of a payload, if it can
    be decoded. *)
Definition decode_room_event (payload : option json) : option LocatorEvent :=
  j ← payload; unmarshal_struct LocatorEvent_fields (mkLocatorEvent "" "" "") j.

(** ** Ownership *)

(** Instance [me] owns [raceID] at time [t]. *)
Definition owned (s : Shared) (t : Z) (raceID me : string) : Prop :=
  live (redis s) t (roomKey raceID) = Some (instance_prefix +:+ me).

Lemma roomKey_inj a b : roomKey a = roomKey b -> a = b.
Proof. apply (str_app_inj "room:"). Qed.

Lemma Owner_owned now raceID me s :
  Owner Up now raceID s = inl (Some me) <->
    exists v, live (redis s) now (roomKey raceID) = Some v /\ trim_prefix v instance_prefix = me.
Proof.
  unfold Owner. rewrite get_spec. simpl. destruct (live _ _ _) as [v|]; naive_solver.
Qed.

(** A claim: what it does when the race is free, and when it is taken. *)
Lemma Claim_free me now raceID s :
  live (redis s) now (roomKey raceID) = None -> exists s', Claim me Up Up now raceID s = (s', inl true) /\
    (forall t, now <= t -> live (redis s') t (roomKey raceID) =
       if t <? now + claimTTL then Some (instance_prefix +:+ me) else None) /\
    (forall t raceID', raceID' <> raceID -> live (redis s') t (roomKey raceID') = live (redis s) t (roomKey raceID')) /\
    members (redis s') = members (redis s) /\
    room_events s' = room_events s ++ [marshal_LocatorEvent (mkLocatorEvent RoomEventCreated raceID me)].
Proof.
  intros Hn. unfold Claim.
  destruct (setnx_free now (roomKey raceID) (instance_prefix +:+ me) claimTTL _ Hn) as (r' & -> & Hm & Hl & Ho).
  simpl. eexists. split; [done|]. simpl. split_and!; auto.
  intros t raceID' Hne. apply Ho. by intros ?%roomKey_inj.
Qed.

Lemma Claim_taken me now raceID s v :
  live (redis s) now (roomKey raceID) = Some v -> Claim me Up Up now raceID s = (s, inl false).
Proof. intros Hv. unfold Claim. rewrite (setnx_taken _ _ _ _ _ _ Hv). by destruct s. Qed.

Lemma Refresh_owned now raceID me s :
  owned s now raceID me -> exists s', Refresh Up now raceID s = (s', inl ()) /\
    (forall t, now <= t < now + claimTTL -> owned s' t raceID me).
Proof.
  intros Hl. unfold Refresh.
  destruct (expire_live now (roomKey raceID) claimTTL _ _ Hl) as (r' & -> & _ & Hl' & _).
  eexists. split; [done|]. intros t Ht. unfold owned. simpl. rewrite Hl' by lia.
  by rewrite (proj2 (Z.ltb_lt _ _)) by lia.
Qed.

(** The heartbeats of the owner at the given times. *)
Fixpoint heartbeats (times : list Z) (raceID : string) (s : Shared) : Shared :=
  match times with
  | [] => s
  | t :: times' => heartbeats times' raceID (fst (Refresh Up t raceID s))
  end.

(** Consecutive heartbeats at most [d] apart, starting from [t0]. *)
Fixpoint spaced (d t0 : Z) (times : list Z) : Prop :=
  match times with
  | [] => True
  | t :: times' => t0 <= t <= t0 + d /\ spaced d t times'
  end.

Lemma spaced_mono d d' t0 times : d <= d' -> spaced d t0 times -> spaced d' t0 times.
Proof.
  intros Hd. revert t0. induction times as [|t times IH]; intros t0; [done|].
  intros [? ?]. split; [lia|by apply IH].
Qed.

Lemma heartbeats_owned raceID me times t0 s :
  (forall t, t0 <= t < t0 + claimTTL -> owned s t raceID me) ->
  spaced (claimTTL - 1) t0 times ->
  forall t, List.last times t0 <= t < List.last times t0 + claimTTL ->
    owned (heartbeats times raceID s) t raceID me.
Proof.
  revert t0 s. induction times as [|t1 times IH]; intros t0 s Hs Hsp t Ht; [by apply Hs|].
  destruct Hsp as [Ht1 Hsp]. cbn [heartbeats].
  destruct (Refresh_owned t1 raceID me s) as (s' & Hr & Hs'); [apply Hs; lia|].
  rewrite Hr. simpl fst. apply (IH t1); [exact Hs'|exact Hsp|].
  destruct times as [|t2 times]; [exact Ht|].
  assert (List.last (t2 :: times) t1 = List.last (t2 :: times) t0) as ->; [|exact Ht].
  clear. revert t2. induction times as [|t3 times IH]; intros t2; [done|]. simpl in *. apply IH.
Qed.
End locator.

(** ** Redis in memory

    The interface has an implementation: a table of values with their expiry
    and a table of sets. *)
Record MemRedis := mkMemRedis { kv : gmap string (string * Z); sets : gmap string (gset string) }.

Definition mem_live (r : MemRedis) (t : Z) (k : string) : option string :=
  match kv r !! k with
  | Some (v, expiry) => if t <? expiry then Some v else None
  | None => None
  end.

Definition mem_members (r : MemRedis) (k : string) : gset string := default ∅ (sets r !! k).

(** A command under [c] that would leave [r'] and answer [a]. *)
Definition mem_exec {A} (c : Conn) (r r' : MemRedis) (a : A) : MemRedis * (A + error) :=
  match c with
  | Up => (r', inl a)
  | Failed e => (r, inr e)
  | Lost e => (r', inr e)
  end.

#[export, refine] Instance mem_redis : Redis MemRedis := {|
  live := mem_live;
  members := mem_members;
  cmd_setnx c now k v ttl r :=
    match mem_live r now k with
    | Some _ => mem_exec c r r false
    | None => mem_exec c r (mkMemRedis (<[k := (v, now + ttl)]> (kv r)) (sets r)) true
    end;
  cmd_expire c now k ttl r :=
    match mem_live r now k with
    | Some v => mem_exec c r (mkMemRedis (<[k := (v, now + ttl)]> (kv r)) (sets r)) true
    | None => mem_exec c r r false
    end;
  cmd_del c now k r := mem_exec c r (mkMemRedis (delete k (kv r)) (sets r)) ();
  cmd_get c now k r := mem_exec c r r (mem_live r now k);
  cmd_sadd c k u r := mem_exec c r (mkMemRedis (kv r) (<[k := {[u]} ∪ mem_members r k]> (sets r))) ();
  cmd_sismember c k u r := mem_exec c r r (bool_decide (u ∈ mem_members r k))
|}.
Proof.
  - by intros now k v ttl r w ->.
  - intros now k v ttl r ->. eexists. split_and!; [done|done|..]; unfold mem_live; simpl.
    + intros t _. by rewrite lookup_insert_eq.
    + intros t k' Hne. by rewrite lookup_insert_ne.
  - intros now k ttl r v ->. eexists. split_and!; [done|done|..]; unfold mem_live; simpl.
    + intros t _. by rewrite lookup_insert_eq.
    + intros t k' Hne. by rewrite lookup_insert_ne.
  - by intros now k ttl r ->.
  - intros now k r. eexists. split_and!; [done|done|..]; unfold mem_live; simpl.
    + intros t _. by rewrite lookup_delete_eq.
    + intros t k' Hne. by rewrite lookup_delete_ne.
  - done.
  - intros k u r. eexists. split_and!; [done|done|..]; unfold mem_members; simpl.
    + by rewrite lookup_insert_eq.
    + intros k' Hne. by rewrite lookup_insert_ne.
  - done.
  - intros e now k v ttl r. by destruct (mem_live r now k).
  - done.
  - done.
  - intros [|e|e] now k v ttl r; destruct (mem_live r now k); cbn; auto.
  - intros [|e|e] now k v ttl r; destruct (mem_live r now k); cbn; done.
  - intros [|e|e] now k ttl r; destruct (mem_live r now k); cbn; auto.
  - intros [|e|e] now k r; cbn; auto.
  - intros [|e|e] now k r Hc; [done| |done]. by destruct (Hc e).
  - intros [|e|e] now k r v; cbn; by intros [= <-].
Defined.

(** ** What the locator promises *)

(** C18: at most one of two instances that claim the same race owns it: when
    the race is free at [now] the first claim succeeds, a second claim by any
    instance while the first is alive (at [now'], less than the TTL later) is
    refused and changes nothing, [Owner] answers the first claimant to everyone
    until the TTL runs out and nobody at that moment, and the claim announces
    exactly one "created" event, which subscribers decode to what was
    announced. *)
Theorem claim_exclusive {R} `{Redis R} me other now now' raceID s :
  live (redis s) now (roomKey raceID) = None ->
  now <= now' < now + claimTTL ->
  exists s1 j,
    Claim me Up Up now raceID s = (s1, inl true) /\
    Claim other Up Up now' raceID s1 = (s1, inl false) /\
    (forall t, now <= t < now + claimTTL -> Owner Up t raceID s1 = inl (Some me)) /\
    Owner Up (now + claimTTL) raceID s1 = inl None /\
    (forall t raceID', raceID' <> raceID -> Owner Up t raceID' s1 = Owner Up t raceID' s) /\
    room_events s1 = room_events s ++ [j] /\
    decode_room_event (Some j) = Some (mkLocatorEvent RoomEventCreated raceID me).
Proof.
  intros Hfree Hnow'. destruct (Claim_free me now raceID s Hfree) as (s1 & Hc & Hl & Ho & _ & He).
  assert (Htrim : trim_prefix (instance_prefix +:+ me) instance_prefix = me) by apply trim_prefix_app.
  assert (Hin : forall t, now <= t < now + claimTTL ->
    live (redis s1) t (roomKey raceID) = Some (instance_prefix +:+ me)).
  { intros t Ht. rewrite Hl by lia. by rewrite (proj2 (Z.ltb_lt _ _)) by lia. }
  eexists s1, _. split_and!; [exact Hc|by eapply Claim_taken, Hin| | | |exact He|done].
  - intros t Ht. apply Owner_owned. eauto.
  - unfold Owner. rewrite get_spec. cbn [snd]. rewrite Hl by (unfold claimTTL; lia). by rewrite Z.ltb_irrefl.
  - intros t raceID' Hne. unfold Owner. rewrite !get_spec. cbn [snd]. by rewrite Ho.
Qed.

Lemma claim_exclusive_witness :
  live (mkMemRedis ∅ ∅) 0 (roomKey "r1") = None /\ exists s1,
    Claim "b" Up Up 5 "r1" s1 = (s1, inl false).
Proof.
  split; [reflexivity|].
  destruct (claim_exclusive "a" "b" 0 5 "r1" (mkShared (mkMemRedis ∅ ∅) [])) as (s1 & j & _ & Hb & _);
    [reflexivity|unfold claimTTL; lia|]. by exists s1.
Defined.

(** C17: an owner whose heartbeats keep to [heartbeatInterval] never loses
    its race: from a successful claim on, as long as heartbeats follow one
    another at most 20 seconds apart (or even with one of them missed), the race
    is owned at every moment up to a claim's TTL after the last heartbeat, and
    every attempt of another instance to claim it in that time fails. *)
Theorem heartbeats_keep_ownership {R} `{Redis R} me now raceID s times missed :
  live (redis s) now (roomKey raceID) = None ->
  (missed < 2)%nat ->
  spaced ((Z.of_nat missed + 1) * heartbeatInterval) now times ->
  let s1 := heartbeats times raceID (fst (Claim me Up Up now raceID s)) in
  forall t, List.last times now <= t < List.last times now + claimTTL ->
    Owner Up t raceID s1 = inl (Some me) /\
    forall other, Claim other Up Up t raceID s1 = (s1, inl false).
Proof.
  intros Hfree Hm Hsp s1 t Ht. destruct (Claim_free me now raceID s Hfree) as (s' & Hc & Hl & _).
  assert (Hown : owned s1 t raceID me).
  { unfold s1. rewrite Hc. cbn [fst]. apply heartbeats_owned with (t0 := now); [| |exact Ht].
    - intros u Hu. unfold owned. rewrite Hl by lia. by rewrite (proj2 (Z.ltb_lt _ _)) by lia.
    - eapply spaced_mono; [|exact Hsp]. unfold heartbeatInterval, claimTTL. lia. }
  split.
  - apply Owner_owned. exists (instance_prefix +:+ me). split; [exact Hown|apply trim_prefix_app].
  - intros other. by eapply Claim_taken.
Qed.

Lemma heartbeats_keep_ownership_witness :
  spaced heartbeatInterval 0 [20000000000; 40000000000] /\
  Owner Up 90000000000 "r1"
    (heartbeats [20000000000; 40000000000] "r1"
       (fst (Claim "a" Up Up 0 "r1" (mkShared (mkMemRedis ∅ ∅) [])))) = inl (Some "a").
Proof.
  split; [unfold heartbeatInterval; simpl; lia|].
  apply (heartbeats_keep_ownership "a" 0 "r1" (mkShared (mkMemRedis ∅ ∅) [])
           [20000000000; 40000000000] 0%nat); [reflexivity|lia| |].
  - unfold heartbeatInterval. simpl. lia.
  - unfold claimTTL. simpl. lia.
Defined.

(** Evictions are per race and per user, and they last: after
    [MarkEvicted] every later [IsEvicted] for that user and race answers yes,
    and the answer for every other user and every other race, and who owns which
    race, is what it was; marking again changes no answer. *)
Theorem MarkEvicted_spec {R} `{Redis R} raceID userID s :
  exists s', MarkEvicted Up raceID userID s = (s', inl ()) /\
    IsEvicted Up raceID userID s' = inl true /\
    (forall userID', userID' <> userID -> IsEvicted Up raceID userID' s' = IsEvicted Up raceID userID' s) /\
    (forall raceID' userID', raceID' <> raceID ->
       IsEvicted Up raceID' userID' s' = IsEvicted Up raceID' userID' s) /\
    (forall t raceID', Owner Up t raceID' s' = Owner Up t raceID' s) /\
    room_events s' = room_events s.
Proof.
  unfold MarkEvicted, IsEvicted, Owner.
  destruct (sadd_spec (evictedKey raceID) userID (redis s)) as (r' & -> & Hl & Hm & Ho).
  eexists. split; [done|]. cbn [redis room_events]. split_and!; [| | | |done].
  - rewrite sismember_spec, Hm. cbn [snd]. f_equal. apply bool_decide_true. set_solver.
  - intros u Hu. rewrite !sismember_spec, Hm. cbn [snd]. f_equal. apply bool_decide_ext. set_solver.
  - intros rc u Hrc. rewrite !sismember_spec, Ho; [done|]. intros Heq. apply Hrc.
    unfold evictedKey in Heq. apply (str_app_inj "race:") in Heq. by apply str_app_inj_tail in Heq.
  - intros t rc. rewrite !get_spec. cbn [snd]. by rewrite Hl.
Qed.

(** Releasing is not guarded by ownership: whoever calls [Release] for a
    race ends the claim of the instance that owns it at that moment, and
    announces a removal in its own name; and [Refresh] prolongs a claim that
    another instance holds. *)
Theorem Release_ignores_owner {R} `{Redis R} me owner now raceID s :
  owned s now raceID owner -> me <> owner ->
  (exists s', Release me Up Up now raceID s = (s', inl ()) /\
     Owner Up now raceID s' = inl None /\
     room_events s' = room_events s ++ [marshal_LocatorEvent (mkLocatorEvent RoomEventRemoved raceID me)]) /\
  (exists s', Refresh Up now raceID s = (s', inl ()) /\
     Owner Up (now + claimTTL - 1) raceID s' = inl (Some owner)).
Proof.
  intros Hown _. split.
  - unfold Release. destruct (del_spec now (roomKey raceID) (redis s)) as (r' & -> & _ & Hd & _).
    eexists. split; [done|]. split; [|done]. unfold Owner. rewrite get_spec. cbn [snd redis].
    by rewrite Hd by lia.
  - destruct (Refresh_owned now raceID owner s Hown) as (s' & -> & Hs'). eexists. split; [done|].
    apply Owner_owned. exists (instance_prefix +:+ owner). split; [|apply trim_prefix_app].
    apply Hs'. unfold claimTTL. lia.
Qed.

Lemma Release_ignores_owner_witness :
  "b" <> "a" /\ exists s', Release "b" Up Up 5 "r1" (fst (Claim "a" Up Up 0 "r1" (mkShared (mkMemRedis ∅ ∅) [])))
    = (s', inl ()) /\ Owner Up 5 "r1" s' = inl None.
Proof.
  split; [discriminate|].
  destruct (Release_ignores_owner "b" "a" 5 "r1" (fst (Claim "a" Up Up 0 "r1" (mkShared (mkMemRedis ∅ ∅) []))))
    as [(s' & H1 & H2 & _) _]; [reflexivity|discriminate|]. by exists s'.
Defined.
