(* ===== verification/Registry.v ===== *)
(** * The room registry ([internal/room/registry.go])

    The map of running rooms and the goroutines [Spawn] starts around each of
    them, as a transition system: whoever calls [Spawn] or [Remove], the actor
    (reduced to what the registry sees of it: it broadcasts frames, and its
    context is cancelled at some point), [cleanupWhenDone], [feedInbox],
    [drainBroadcast] and [heartbeat].  The locator is an interface; the bus is
    the list of publish attempts with the outcome of each. *)
From Stdlib Require Import ZArith.
From stdpp Require Import base list gmap sets strings.
From S2P Require Import Prelude GoNum GoStrings Json Events Room Store Locator.
Local Open Scope string_scope.
Local Open Scope Z_scope.
Local Open Scope list_scope.

(** ** The locator, as the registry sees it

    [loc_env] is what a call finds: the time and the state of the connection. *)
Class RoomLocator (L : Type) := {
  loc_env : Type;
  loc_Claim : loc_env -> string -> L -> L * (bool + error);
  loc_Refresh : loc_env -> string -> L -> L * (unit + error);
  loc_Release : loc_env -> string -> L -> L * (unit + error)
}.

(** [NoopLocator] *)
#[export] Instance NoopLocator : RoomLocator unit := {|
  loc_env := unit;
  loc_Claim _ _ l := (l, inl true);
  loc_Refresh _ _ l := (l, inl ());
  loc_Release _ _ l := (l, inl ())
|}.

(** The Redis locator of one instance. *)
Record RedisEnv := mkRedisEnv { re_now : Z; re_conn : Conn; re_publish : Conn }.

#[export] Instance RedisLocator {R} `{Redis R} (me : string) : RoomLocator (Shared (R := R)) := {|
  loc_env := RedisEnv;
  loc_Claim e := Claim me (re_conn e) (re_publish e) (re_now e);
  loc_Refresh e := Refresh (re_conn e) (re_now e);
  loc_Release e := Release me (re_conn e) (re_publish e) (re_now e)
|}.

(** ** State *)

(** What goes out on the bus for a room. *)
Inductive Outgoing :=
  | Out (raceID : string) (payload : json)
  | RoomClosed (raceID : string).

(** The goroutine in [drainBroadcast]: in its first [select], in the drain loop
    after [ctx.Done()], or returned. *)
Inductive Draining := Selecting | Flushing | Returned.

(** How far [Spawn] has come with an actor. *)
Inductive Spawning := Registered | Claimed | Started.

(** An actor and the goroutines around it.  [ac_accepted] and [ac_drained] are
    history: the frames the broadcast channel accepted and the ones received
    from it. *)
Record Handle := mkHandle {
  ac_race : string;
  ac_spawn : Spawning;
  ac_done : bool;
  ac_broadcast : list json;
  ac_accepted : list json;
  ac_drained : list json;
  ac_drain : Draining;
  ac_feed : option (list RoomEvent);  (** events of the subscription not yet sent *)
  ac_fed : list RoomEvent;            (** events handed to [Send] *)
  ac_removed : bool;                  (** [cleanupWhenDone] is past the map *)
  ac_released : bool;                 (** [cleanupWhenDone] has returned *)
  ac_beating : bool;
  ac_parent_done : bool;              (** the context given to [Spawn] is done *)
  ac_unsubscribed : bool              (** [feedInbox] has returned, and unsubscribed *)
}.

#[export] Instance eta_Handle : Eta Handle := fun h =>
  mkHandle (ac_race h) (ac_spawn h) (ac_done h) (ac_broadcast h) (ac_accepted h) (ac_drained h)
    (ac_drain h) (ac_feed h) (ac_fed h) (ac_removed h) (ac_released h) (ac_beating h)
    (ac_parent_done h) (ac_unsubscribed h).

(** [reg.rooms] holds pointers: actors are numbered in the order of their
    creation. *)
Record Registry (L : Type) := mkRegistry {
  rooms : gmap string nat;
  handles : gmap nat Handle;
  spawned : nat;
  locator : L;
  bus : list (nat * Outgoing * Conn)
}.
Arguments mkRegistry {L}.
Arguments rooms {L}.
Arguments handles {L}.
Arguments spawned {L}.
Arguments locator {L}.
Arguments bus {L}.

#[export] Instance eta_Registry L : Eta (Registry L) := fun g =>
  mkRegistry (rooms g) (handles g) (spawned g) (locator g) (bus g).

Section registry.
Context {L : Type} `{!RoomLocator L}.
Implicit Types g : Registry L.

Definition NewRegistry (l : L) : Registry L := mkRegistry ∅ ∅ 0 l [].

Definition new_handle (raceID : string) : Handle :=
  mkHandle raceID Registered false [] [] [] Selecting None [] false false true false false.

Definition put_handle (id : nat) (h : Handle) g : Registry L :=
  g <| handles := <[id := h]> (handles g) |>.

(** ** Operations *)

(** [Spawn], up to the end of its critical section. *)
Definition Spawn (raceID : string) g : Registry L :=
  g <| rooms := <[raceID := spawned g]> (rooms g) |>
    <| handles := <[spawned g := new_handle raceID]> (handles g) |>
    <| spawned := S (spawned g) |>.

(** [Spawn] claims the race - whatever the answer, it goes on. *)
Definition spawn_claim (e : loc_env) (id : nat) (h : Handle) g : Registry L :=
  put_handle id (h <| ac_spawn := Claimed |>)
    (g <| locator := fst (loc_Claim e (ac_race h) (locator g)) |>).

(** [Spawn] subscribes and starts the goroutines; without a subscription there
    is no [feedInbox]. *)
Definition spawn_start (subscribed : bool) (id : nat) (h : Handle) g : Registry L :=
  put_handle id (h <| ac_spawn := Started |>
                   <| ac_feed := if subscribed then Some [] else None |>) g.

(** One iteration of [feedInbox]: the oldest event goes to [actor.Send]. *)
Definition feedInbox (id : nat) (h : Handle) g : option (Registry L) :=
  match ac_feed h, ac_unsubscribed h with
  | Some (ev :: evs), false =>
      Some (put_handle id (h <| ac_feed := Some evs |> <| ac_fed := ac_fed h ++ [ev] |>) g)
  | _, _ => None
  end.

(** The end of [feedInbox]: its subscription was made with the context given to
    [Spawn], not the actor's, and only ends with that one; then the loop does,
    whatever was still to come, and the deferred [unsubscribe] runs. *)
Definition feedInbox_end (id : nat) (h : Handle) g : option (Registry L) :=
  match ac_feed h, ac_unsubscribed h with
  | Some _, false => if ac_parent_done h then Some (put_handle id (h <| ac_unsubscribed := true |>) g) else None
  | _, _ => None
  end.

(** A receive from [actor.Broadcast()] in [drainBroadcast], and the publish that
    follows it. *)
Definition drain_one (c : Conn) (id : nat) (h : Handle) g : option (Registry L) :=
  match ac_drain h, ac_broadcast h with
  | Returned, _ | _, [] => None
  | _, msg :: rest =>
      Some (put_handle id (h <| ac_broadcast := rest |> <| ac_drained := ac_drained h ++ [msg] |>)
              (g <| bus := bus g ++ [(id, Out (ac_race h) msg, c)] |>))
  end.

(** [drainBroadcast] sees [ctx.Done()]. *)
Definition drain_done (id : nat) (h : Handle) g : option (Registry L) :=
  match ac_drain h, ac_done h with
  | Selecting, true => Some (put_handle id (h <| ac_drain := Flushing |>) g)
  | _, _ => None
  end.

(** The [default] case of the drain loop: nothing is buffered. *)
Definition drain_close (c : Conn) (id : nat) (h : Handle) g : option (Registry L) :=
  match ac_drain h, ac_broadcast h with
  | Flushing, [] =>
      Some (put_handle id (h <| ac_drain := Returned |>)
              (g <| bus := bus g ++ [(id, RoomClosed (ac_race h), c)] |>))
  | _, _ => None
  end.

(** [cleanupWhenDone]: the map entry goes only if it is this actor's. *)
Definition cleanup_map (id : nat) (h : Handle) g : option (Registry L) :=
  if ac_done h && negb (ac_removed h) then
    Some (put_handle id (h <| ac_removed := true |>)
            (if bool_decide (rooms g !! ac_race h = Some id)
             then g <| rooms := delete (ac_race h) (rooms g) |> else g))
  else None.

(** [cleanupWhenDone]: then the claim is released. *)
Definition cleanup_release (e : loc_env) (id : nat) (h : Handle) g : option (Registry L) :=
  if ac_removed h && negb (ac_released h) then
    Some (put_handle id (h <| ac_released := true |>)
            (g <| locator := fst (loc_Release e (ac_race h) (locator g)) |>))
  else None.

(** A tick of [heartbeat], and its end. *)
Definition heartbeat (e : loc_env) (h : Handle) g : option (Registry L) :=
  if ac_beating h then Some (g <| locator := fst (loc_Refresh e (ac_race h) (locator g)) |>) else None.

Definition heartbeat_stop (id : nat) (h : Handle) g : option (Registry L) :=
  if ac_beating h && ac_done h then Some (put_handle id (h <| ac_beating := false |>) g) else None.

Definition Get (raceID : string) g : option nat := rooms g !! raceID.

Definition Count g : nat := size (rooms g).

(** [InboxBufferUsage]: the inbox of an actor is with the room ([RoomRun]), so
    its length is a parameter. *)
Definition InboxBufferUsage (InboxLen : nat -> nat) g : nat :=
  sum_list_with InboxLen (values (rooms g)).

(** [BroadcastBufferUsage]: summed over the rooms of the map. *)
Definition BroadcastBufferUsage g : nat :=
  sum_list_with (fun id => match handles g !! id with Some h => length (ac_broadcast h) | None => 0 end)%nat
    (values (rooms g)).

Definition cancel_handle (id : nat) g : Registry L :=
  match handles g !! id with
  | Some h => put_handle id (h <| ac_done := true |>) g
  | None => g
  end.

(** [Remove] *)
Definition Remove (raceID : string) g : Registry L :=
  match rooms g !! raceID with
  | Some id => cancel_handle id (g <| rooms := delete raceID (rooms g) |>)
  | None => g
  end.

(** ** Steps *)
Inductive Step :=
  | DoSpawn (raceID : string)
  | DoRemove (raceID : string)
  | SpawnClaim (id : nat) (e : loc_env)
  | SpawnStart (id : nat) (subscribed : bool)
  | Broadcasts (id : nat) (msg : json)        (** the actor's non-blocking send *)
  | Arrives (id : nat) (ev : RoomEvent)       (** the subscription has an event *)
  | Cancels (id : nat)                        (** the actor cancels itself *)
  | ParentDone (id : nat)                     (** the context given to [Spawn] is done *)
  | Feeds (id : nat)
  | FeedEnd (id : nat)
  | DrainOne (id : nat) (c : Conn)
  | DrainDone (id : nat)
  | DrainClose (id : nat) (c : Conn)
  | CleanupMap (id : nat)
  | CleanupRelease (id : nat) (e : loc_env)
  | Beat (id : nat) (e : loc_env)
  | BeatStop (id : nat).

(** A step of one of the goroutines of a started room. *)
Definition if_started (h : Handle) {A} (o : option A) : option A :=
  match ac_spawn h with Started => o | _ => None end.

Definition handle_step (l : Step) (id : nat) (h : Handle) g : option (Registry L) :=
  match l with
  | SpawnClaim _ e =>
      match ac_spawn h with Registered => Some (spawn_claim e id h g) | _ => None end
  | SpawnStart _ b =>
      match ac_spawn h with Claimed => Some (spawn_start b id h g) | _ => None end
  | Broadcasts _ msg =>
      if_started h (Some (if bool_decide (length (ac_broadcast h) < broadcastBufferSize)%nat
        then put_handle id (h <| ac_broadcast := ac_broadcast h ++ [msg] |>
                              <| ac_accepted := ac_accepted h ++ [msg] |>) g
        else g))
  | Arrives _ ev =>
      match ac_feed h, ac_unsubscribed h with
      | Some evs, false => Some (put_handle id (h <| ac_feed := Some (evs ++ [ev]) |>) g)
      | _, _ => None
      end
  | Cancels _ => Some (put_handle id (h <| ac_done := true |>) g)
  | ParentDone _ => Some (put_handle id (h <| ac_done := true |> <| ac_parent_done := true |>) g)
  | Feeds _ => if_started h (feedInbox id h g)
  | FeedEnd _ => if_started h (feedInbox_end id h g)
  | DrainOne _ c => if_started h (drain_one c id h g)
  | DrainDone _ => if_started h (drain_done id h g)
  | DrainClose _ c => if_started h (drain_close c id h g)
  | CleanupMap _ => if_started h (cleanup_map id h g)
  | CleanupRelease _ e => if_started h (cleanup_release e id h g)
  | Beat _ e => if_started h (heartbeat e h g)
  | BeatStop _ => if_started h (heartbeat_stop id h g)
  | DoSpawn _ | DoRemove _ => None
  end.

Definition step_id (l : Step) : nat :=
  match l with
  | DoSpawn _ | DoRemove _ => 0
  | SpawnClaim id _ | SpawnStart id _ | Broadcasts id _ | Arrives id _ | Cancels id | ParentDone id | Feeds id | FeedEnd id
  | DrainOne id _ | DrainDone id | DrainClose id _ | CleanupMap id | CleanupRelease id _
  | Beat id _ | BeatStop id => id
  end%nat.

Definition reg_exec (l : Step) g : option (Registry L) :=
  match l with
  | DoSpawn raceID => Some (Spawn raceID g)
  | DoRemove raceID => Some (Remove raceID g)
  | _ => h ← handles g !! step_id l; handle_step l (step_id l) h g
  end.

Fixpoint reg_run (ls : list Step) g : option (Registry L) :=
  match ls with
  | [] => Some g
  | l :: ls' => g' ← reg_exec l g; reg_run ls' g'
  end.

Inductive reg_reachable (l0 : L) : Registry L -> Prop :=
  | reg_init : reg_reachable l0 (NewRegistry l0)
  | reg_step l g g' : reg_reachable l0 g -> reg_exec l g = Some g' -> reg_reachable l0 g'.
End registry.
Arguments Step _ {_}.
