(* ===== verification/RegistryProps.v ===== *)
(** * What the registry guarantees

    Invariants of every reachable registry: the map only holds rooms whose
    cleanup is still to come, a room is never evicted from the map by the cleanup
    of another one, and a room's frames leave in order with [room_closed] last,
    once, and after everything accepted before it. *)
From Stdlib Require Import ZArith.
From stdpp Require Import base list gmap sets strings.
From S2P Require Import Prelude GoNum GoStrings Json Events Room Store Locator Registry.
Local Open Scope string_scope.
Local Open Scope Z_scope.
Local Open Scope list_scope.

Section props.
Context {L : Type} `{!RoomLocator L}.
Implicit Types g : Registry L.

(** What was handed to the bus for actor [id], in order. *)
Definition sent_by (id : nat) g : list Outgoing :=
  omap (fun x => if bool_decide (x.1.1 = id) then Some x.1.2 else None) (bus g).

Record handle_ok (sent : list Outgoing) (h : Handle) : Prop := {
  hk_accepted : ac_accepted h = ac_drained h ++ ac_broadcast h;
  hk_buffer : (length (ac_broadcast h) <= broadcastBufferSize)%nat;
  hk_sent : sent = (Out (ac_race h) <$> ac_drained h) ++
    match ac_drain h with Returned => [RoomClosed (ac_race h)] | _ => [] end;
  hk_drain : ac_drain h <> Selecting -> ac_done h = true;
  hk_removed : ac_removed h = true -> ac_done h = true;
  hk_released : ac_released h = true -> ac_removed h = true;
  hk_started : ac_released h = true -> ac_spawn h = Started;
  hk_beating : ac_beating h = false -> ac_done h = true;
  hk_parent : ac_parent_done h = true -> ac_done h = true;
  hk_unsubscribed : ac_unsubscribed h = true -> ac_parent_done h = true;
  hk_subscribed : ac_unsubscribed h = true -> ac_spawn h = Started
}.

Definition only_of_race (id : nat) (h : Handle) g : Prop :=
  forall id' h', handles g !! id' = Some h' -> ac_race h' = ac_race h -> id' = id.

Record reg_inv g : Prop := {
  ri_fresh id : is_Some (handles g !! id) -> (id < spawned g)%nat;
  ri_bus id : (spawned g <= id)%nat -> sent_by id g = [];
  ri_ok id h : handles g !! id = Some h -> handle_ok (sent_by id g) h;
  ri_rooms r id : rooms g !! r = Some id ->
    exists h, handles g !! id = Some h /\ ac_race h = r /\ ac_removed h = false;
  ri_live id h : handles g !! id = Some h -> ac_done h = false -> only_of_race id h g ->
    rooms g !! ac_race h = Some id
}.

Lemma sent_by_app id g new :
  sent_by id (g <| bus := bus g ++ new |>) =
    sent_by id g ++ omap (fun x => if bool_decide (x.1.1 = id) then Some x.1.2 else None) new.
Proof. unfold sent_by. cbn. apply omap_app. Qed.

Lemma reg_inv_init (l0 : L) : reg_inv (NewRegistry l0).
Proof. split; simpl; try done; intros; by destruct_or?; simplify_map_eq || (destruct H; simplify_map_eq). Qed.

(** A step of the goroutines of one actor. *)
Lemma update_inv g id h h' rs' l' (new : list (Outgoing * Conn)) :
  reg_inv g -> handles g !! id = Some h ->
  ac_race h' = ac_race h ->
  (ac_done h = true -> ac_done h' = true) ->
  (rs' = rooms g /\ ac_removed h' = ac_removed h \/
   ac_done h' = true /\ ac_removed h' = true /\ forall r i, rs' !! r = Some i <-> rooms g !! r = Some i /\ i <> id) ->
  handle_ok (sent_by id g ++ (fst <$> new)) h' ->
  reg_inv (mkRegistry rs' (<[id := h']> (handles g)) (spawned g) l'
             (bus g ++ ((fun o => (id, o.1, o.2)) <$> new))).
Proof.
  intros [Hf Hb Ho Hr Hl] Hh Hrace Hdone Hrooms Hok.
  assert (Hsent : forall i, sent_by i (mkRegistry rs' (<[id := h']> (handles g)) (spawned g) l'
    (bus g ++ ((fun o => (id, o.1, o.2)) <$> new))) =
    if decide (i = id) then sent_by id g ++ (fst <$> new) else sent_by i g).
  { intros i. unfold sent_by. cbn [bus]. rewrite omap_app. clear Hok. case_decide as Hi; [subst i; f_equal|].
    - induction new as [|o new IH]; [done|]. cbn. rewrite bool_decide_true by done. by f_equal.
    - rewrite <- (app_nil_r (omap _ (bus g))) at 2. f_equal.
      induction new as [|o new IH]; [done|]. cbn. by rewrite bool_decide_false by congruence. }
  split; cbn [handles spawned rooms].
  - intros i [x Hi]. apply lookup_insert_Some in Hi as [[<- _]|[_ Hi]]; apply Hf; [by exists h|by exists x].
  - intros i Hi. rewrite Hsent. case_decide; [|by apply Hb]. subst i.
    assert (id < spawned g)%nat by (apply Hf; by exists h). lia.
  - intros i x Hi. rewrite Hsent. apply lookup_insert_Some in Hi as [[<- <-]|[Hne Hi]].
    + by rewrite decide_True.
    + rewrite decide_False by done. by apply Ho.
  - intros r i Hri. destruct Hrooms as [[-> Hrem]|(_ & _ & Hrooms)].
    + destruct (Hr _ _ Hri) as (x & Hx & ? & ?). destruct (decide (i = id)) as [->|Hne].
      * simplify_eq. exists h'. rewrite lookup_insert_eq. split_and!; congruence.
      * exists x. by rewrite lookup_insert_ne.
    + apply Hrooms in Hri as [Hri Hne]. destruct (Hr _ _ Hri) as (x & Hx & ? & ?).
      exists x. by rewrite lookup_insert_ne.
  - intros i x Hi Hd Hone.
    assert (Hone' : forall x0, handles g !! i = Some x0 -> ac_race x0 = ac_race x -> only_of_race i x0 g).
    { intros x0 Hx0 Hrx j y Hj Hy. destruct (decide (j = id)) as [->|Hne].
      - apply (Hone id h'); [cbn; by rewrite lookup_insert_eq|]. simplify_eq. congruence.
      - apply (Hone j y); [cbn; by rewrite lookup_insert_ne|congruence]. }
    assert (rooms g !! ac_race x = Some i /\ (i = id -> ac_done h' = false)) as [Hin Hid].
    { apply lookup_insert_Some in Hi as [[<- <-]|[Hne Hi]].
      - split; [|done]. rewrite Hrace. apply Hl; [done| |by apply Hone'].
        destruct (ac_done h) eqn:E; [|done]. by rewrite Hdone in Hd.
      - split; [by apply Hl; [| |apply Hone']|congruence]. }
    destruct Hrooms as [[-> _]|(Hdone' & _ & Hrooms)]; [done|].
    apply Hrooms. split; [done|]. intros ->. by rewrite Hid in Hdone'.
Qed.

(** The same when nothing is published and the map stays. *)
Lemma update_quiet g id h h' l' :
  reg_inv g -> handles g !! id = Some h ->
  ac_race h' = ac_race h -> (ac_done h = true -> ac_done h' = true) ->
  ac_removed h' = ac_removed h -> handle_ok (sent_by id g) h' ->
  reg_inv (mkRegistry (rooms g) (<[id := h']> (handles g)) (spawned g) l' (bus g)).
Proof.
  intros Hg Hh Hrace Hd Hrem Hok. rewrite <- (app_nil_r (bus g)).
  eapply (update_inv g id h h' (rooms g) l' []); eauto. simpl. by rewrite app_nil_r.
Qed.

Lemma locator_inv g l' : reg_inv g -> reg_inv (g <| locator := l' |>).
Proof. by intros []. Qed.

Lemma Spawn_inv raceID g : reg_inv g -> reg_inv (Spawn raceID g).
Proof.
  intros [Hf Hb Ho Hr Hl]. unfold Spawn. split; cbn [handles spawned rooms].
  - intros i [x Hi]. cbn in Hi |- *. apply lookup_insert_Some in Hi as [[<- _]|[_ Hi]]; [lia|].
    assert (i < spawned g)%nat by (apply Hf; by exists x). lia.
  - intros i Hi. cbn in Hi. apply Hb. lia.
  - intros i x Hi. cbn in Hi. apply lookup_insert_Some in Hi as [[<- <-]|[_ Hi]]; [|by apply Ho].
    split; try done; [simpl; unfold broadcastBufferSize; lia|]. by apply Hb.
  - intros r i Hri. cbn in Hri |- *. apply lookup_insert_Some in Hri as [[<- <-]|[Hne Hri]].
    + eexists. rewrite lookup_insert_eq. split_and!; [done|done|done].
    + destruct (Hr _ _ Hri) as (x & Hx & ? & ?). exists x. split; [|done].
      rewrite lookup_insert_ne; [done|]. intros <-.
      assert (spawned g < spawned g)%nat by (apply Hf; by exists x). lia.
  - intros i x Hi Hd Hone. cbn in Hi |- *. apply lookup_insert_Some in Hi as [[<- <-]|[Hne Hi]].
    + simpl. by rewrite lookup_insert_eq.
    + rewrite lookup_insert_ne.
      * apply Hl; [done|done|]. intros j y Hj Hy. apply (Hone j y); [|done]. cbn.
        rewrite lookup_insert_ne; [done|]. intros <-.
        assert (spawned g < spawned g)%nat by (apply Hf; by exists y). lia.
      * intros Heq. apply Hne. apply (Hone (spawned g) (new_handle raceID)); [|done].
        cbn. by rewrite lookup_insert_eq.
Qed.

Lemma Remove_inv raceID g : reg_inv g -> reg_inv (Remove raceID g).
Proof.
  intros Hg. unfold Remove. destruct (rooms g !! raceID) as [id|] eqn:Hid; [|done].
  destruct (ri_rooms g Hg _ _ Hid) as (h & Hh & Hrace & Hrem). unfold cancel_handle. cbn.
  rewrite Hh. destruct (ri_ok g Hg _ _ Hh) as [Ha Hbuf Hs Hdr Hrm Hrl].
  assert (Hq : reg_inv (mkRegistry (rooms g) (<[id := h <| ac_done := true |>]> (handles g)) (spawned g)
    (locator g) (bus g))) by (eapply (update_quiet g id h); eauto; by split).
  destruct Hq as [Hf' Hb' Ho' Hr' Hl']. split; [exact Hf'|exact Hb'|exact Ho'| |].
  - intros r i Hri. cbn in Hri. apply lookup_delete_Some in Hri as [_ Hri]. by apply Hr'.
  - intros i x Hi Hd Hone. cbn. rewrite lookup_delete_ne; [by apply Hl'|].
    intros Heq. pose proof (Hl' i x Hi Hd Hone) as Hin. cbn in Hin. rewrite <- Heq in Hin.
    simplify_eq. cbn in Hi. rewrite lookup_insert_eq in Hi. simplify_eq.
Qed.

Lemma cleanup_map_inv id h g g' :
  reg_inv g -> handles g !! id = Some h -> cleanup_map id h g = Some g' -> reg_inv g'.
Proof.
  unfold cleanup_map. intros Hg Hh Hx. destruct (ac_done h) eqn:Hd; [|done].
  destruct (ac_removed h) eqn:Hrem; [done|]. simpl in Hx. simplify_eq.
  destruct (ri_ok g Hg _ _ Hh) as [Ha Hbuf Hs Hdr Hrm Hrl].
  assert (handle_ok (sent_by id g) (h <| ac_removed := true |>)) as Hok.
  { by split. }
  assert (Hothers : forall r i, rooms g !! r = Some i -> i = id -> r = ac_race h).
  { intros r i Hri ->. destruct (ri_rooms g Hg _ _ Hri) as (x & Hx & Hxr & _). by simplify_eq. }
  pose (h' := h <| ac_removed := true |>).
  pose proof (update_inv g id h h'
    (if bool_decide (rooms g !! ac_race h = Some id) then delete (ac_race h) (rooms g) else rooms g)
    (locator g) [] Hg Hh eq_refl (fun x => x)) as Hu.
  rewrite !app_nil_r in Hu. case_bool_decide as Hin; (refine (Hu _ Hok); right; split_and!; [done|done|]).
  - intros r i. rewrite lookup_delete_Some. split.
    + intros [Hne Hri]. split; [done|]. intros ->. apply Hne. symmetry. by eapply Hothers.
    + intros [Hri Hne]. split; [|done]. intros <-. congruence.
  - intros r i. split; [|by intros []]. intros Hri. split; [done|]. intros ->.
    apply Hin. by rewrite <- (Hothers _ _ Hri eq_refl).
Qed.

Ltac quiet Hok :=
  match type of Hok with handle_ok (sent_by ?id ?g) ?h => eapply (update_quiet g id h) end;
  eauto; destruct Hok; split; cbn; auto; try by intros; exfalso; intuition congruence.

Lemma handle_step_inv l id h g g' :
  reg_inv g -> handles g !! id = Some h -> handle_step l id h g = Some g' -> reg_inv g'.
Proof.
  intros Hg Hh Hx. pose proof (ri_ok g Hg _ _ Hh) as Hok.
  destruct l; cbn [handle_step] in Hx; try done;
    unfold if_started in Hx; try match type of Hx with context [ac_spawn h] => destruct (ac_spawn h) eqn:Hsp; try done end; simplify_eq.
  - quiet Hok.
  - quiet Hok.
  - case_bool_decide; [|done]. eapply (update_quiet g id h); eauto.
    destruct Hok as [Ha Hbuf Hs Hdr Hrm Hrl]. split; cbn; auto.
    + rewrite Ha. by rewrite app_assoc.
    + rewrite length_app. simpl. lia.
  - destruct (ac_feed h), (ac_unsubscribed h); try done. simplify_eq. quiet Hok.
  - quiet Hok.
  - quiet Hok.
  - unfold feedInbox in Hx. destruct (ac_feed h) as [[|ev evs]|], (ac_unsubscribed h); try done. simplify_eq. quiet Hok.
  - unfold feedInbox_end in Hx. destruct (ac_feed h), (ac_unsubscribed h); try done.
    destruct (ac_parent_done h) eqn:Hpd; [|done]. simplify_eq. quiet Hok.
  - unfold drain_one in Hx. destruct (ac_broadcast h) as [|msg rest] eqn:Hbc; [by destruct (ac_drain h)|].
    destruct (ac_drain h) eqn:Hdr; try done; simplify_eq;
      (eapply (update_inv g id h _ (rooms g) (locator g) [(Out (ac_race h) msg, c)]); eauto;
       destruct Hok as [Ha Hbuf Hs Hdr' Hrm Hrl]; rewrite Hbc in Ha, Hbuf; rewrite Hdr in Hs; split; cbn; auto;
       [by rewrite Ha, <- app_assoc|simpl in Hbuf; lia|rewrite Hs, Hdr; simpl; by rewrite ?app_nil_r, fmap_app]).
  - unfold drain_done in Hx. destruct (ac_drain h) eqn:Hdr; try done. destruct (ac_done h) eqn:Hd; [|done].
    simplify_eq. eapply (update_quiet g id h); eauto.
    destruct Hok as [Ha Hbuf Hs Hdr' Hrm Hrl]. rewrite Hdr in Hs. split; cbn; auto.
  - unfold drain_close in Hx. destruct (ac_drain h) eqn:Hdr; try done. destruct (ac_broadcast h) eqn:Hbc; [|done].
    simplify_eq. eapply (update_inv g id h _ (rooms g) (locator g) [(RoomClosed (ac_race h), c)]); eauto.
    destruct Hok as [Ha Hbuf Hs Hdr' Hrm Hrl]. rewrite Hdr in Hs. split; cbn; auto.
    + by rewrite Hs, app_nil_r.
    + intros _. apply Hdr'. by rewrite Hdr.
  - by eapply cleanup_map_inv.
  - unfold cleanup_release in Hx. destruct (ac_removed h) eqn:Hrm; [|done].
    destruct (ac_released h) eqn:Hrl; [done|]. simpl in Hx. simplify_eq. quiet Hok.
  - unfold heartbeat in Hx. destruct (ac_beating h); [|done]. simplify_eq. by apply locator_inv.
  - unfold heartbeat_stop in Hx. destruct (ac_beating h), (ac_done h) eqn:Hd; try done. simpl in Hx. simplify_eq. quiet Hok.
Qed.

Lemma reg_exec_inv l g g' : reg_inv g -> reg_exec l g = Some g' -> reg_inv g'.
Proof.
  intros Hg Hx. destruct l; cbn [reg_exec step_id] in Hx;
    [simplify_eq; by apply Spawn_inv|simplify_eq; by apply Remove_inv|..];
    apply bind_Some in Hx as (h & Hh & Hx); by eapply handle_step_inv.
Qed.

Lemma reg_reachable_inv l0 g : reg_reachable l0 g -> reg_inv g.
Proof. induction 1; [apply reg_inv_init|by eapply reg_exec_inv]. Qed.

(** C14: the map and the cleanups of a reachable registry: an entry always belongs
    to a room of that race whose cleanup is still to come; a room that runs and
    is the only one of its race is found by [Get]; the cleanup of a room removes
    that room and never the entry of another one, even one spawned for the same
    race in the meantime. *)
Theorem registry_consistent l0 g :
  reg_reachable l0 g ->
  (forall r id, Get r g = Some id ->
     exists h, handles g !! id = Some h /\ ac_race h = r /\ ac_removed h = false) /\
  (forall id h, handles g !! id = Some h -> ac_done h = false -> only_of_race id h g ->
     Get (ac_race h) g = Some id) /\
  (forall id g', reg_exec (CleanupMap id) g = Some g' ->
     forall r id', Get r g' = Some id' <-> Get r g = Some id' /\ id' <> id).
Proof.
  intros Hg%reg_reachable_inv. split_and!; [apply Hg|apply Hg|].
  intros id g' Hx r id'. cbn [reg_exec step_id] in Hx. apply bind_Some in Hx as (h & Hh & Hx).
  cbn [handle_step] in Hx. unfold if_started in Hx. destruct (ac_spawn h); try done. unfold cleanup_map in Hx.
  destruct (ac_done h && negb (ac_removed h)); [|done]. simplify_eq. unfold Get.
  assert (Hothers : rooms g !! r = Some id -> r = ac_race h).
  { intros Hri. destruct (ri_rooms g Hg _ _ Hri) as (x & Hx & Hxr & _). by simplify_eq. }
  case_bool_decide as Hin; cbn.
  - rewrite lookup_delete_Some. split; intros [H1 H2]; split; [done| | |done].
    + intros ->. apply H1. symmetry. by apply Hothers.
    + intros <-. congruence.
  - split; [|by intros []]. intros Hri. split; [done|]. intros ->. apply Hin.
    by rewrite <- (Hothers Hri).
Qed.

Lemma sent_one id o c l :
  omap (fun x : nat * Outgoing * Conn => if bool_decide (x.1.1 = id) then Some x.1.2 else None)
    (l ++ [(id, o, c)]) =
  omap (fun x : nat * Outgoing * Conn => if bool_decide (x.1.1 = id) then Some x.1.2 else None) l ++ [o].
Proof. rewrite omap_app. cbn. by rewrite bool_decide_true. Qed.

(** The drain loop, once the context is done. *)
Lemma flush_run id buf g h :
  handles g !! id = Some h -> ac_spawn h = Started -> ac_drain h = Flushing -> ac_broadcast h = buf ->
  exists g', reg_run (replicate (length buf) (DrainOne id Up) ++ [DrainClose id Up]) g = Some g' /\
    sent_by id g' = sent_by id g ++ (Out (ac_race h) <$> buf) ++ [RoomClosed (ac_race h)] /\
    locator g' = locator g /\ rooms g' = rooms g.
Proof.
  revert g h. induction buf as [|msg buf IH]; intros g h Hh Hsp Hdr Hb.
  - simpl. rewrite Hh. simpl. unfold if_started, drain_close. rewrite Hsp. rewrite Hdr, Hb. simpl.
    eexists. split; [done|]. split; [apply sent_one|done].
  - simpl. rewrite Hh. simpl. unfold if_started, drain_one. rewrite Hsp. rewrite Hdr, Hb. simpl.
    match goal with |- context [reg_run _ ?g1] =>
      destruct (IH g1 (h <| ac_broadcast := buf |> <| ac_drained := ac_drained h ++ [msg] |>))
        as (g' & Hrun & Hs & Hl & Hr) end; try done.
    { unfold put_handle. cbn. by rewrite lookup_insert_eq. }
    exists g'. split; [exact Hrun|]. split; [|by split]. rewrite Hs.
    match goal with |- sent_by id ?g1 ++ _ = _ =>
      assert (sent_by id g1 = sent_by id g ++ [Out (ac_race h) msg]) as -> by apply sent_one end.
    by rewrite <- app_assoc.
Qed.

(** What leaves a room on the bus: its frames in the order the broadcast
    channel accepted them, at most sixteen of them still to go, and [room_closed]
    at most once, after them; it is sent only when every frame accepted up to
    then is on its way; and once a started room's context is done, draining
    always gets there - in at most eighteen steps of its own. *)
Theorem room_closed_last l0 g id h :
  reg_reachable l0 g -> handles g !! id = Some h ->
  sent_by id g = (Out (ac_race h) <$> ac_drained h) ++
    match ac_drain h with Returned => [RoomClosed (ac_race h)] | _ => [] end /\
  ac_accepted h = ac_drained h ++ ac_broadcast h /\ (length (ac_broadcast h) <= 16)%nat /\
  (forall c g', reg_exec (DrainClose id c) g = Some g' ->
     ac_done h = true /\ sent_by id g' = (Out (ac_race h) <$> ac_accepted h) ++ [RoomClosed (ac_race h)]) /\
  (ac_spawn h = Started -> ac_done h = true -> ac_drain h <> Returned ->
     exists ls g', (length ls <= 18)%nat /\ reg_run ls g = Some g' /\
       sent_by id g' = (Out (ac_race h) <$> ac_accepted h) ++ [RoomClosed (ac_race h)] /\
       rooms g' = rooms g).
Proof.
  intros Hg%reg_reachable_inv Hh. destruct (ri_ok g Hg _ _ Hh) as [Ha Hbuf Hs Hdr _ _].
  unfold broadcastBufferSize in Hbuf. split_and!; [done|done|done| |].
  - intros c g' Hx. cbn [reg_exec step_id] in Hx. rewrite Hh in Hx.
    cbn [mbind option_bind handle_step] in Hx. unfold if_started in Hx.
    destruct (ac_spawn h); try done. unfold drain_close in Hx.
    destruct (ac_drain h) eqn:Hd; try done. destruct (ac_broadcast h) eqn:Hb; [|done]. simplify_eq.
    split; [by apply Hdr|]. rewrite Ha, app_nil_r. etrans; [apply sent_one|].
    fold (sent_by id g). by rewrite Hs, app_nil_r.
  - intros Hsp Hdone Hnr. destruct (ac_drain h) eqn:Hd; [| |done].
    + pose (h1 := h <| ac_drain := Flushing |>).
      destruct (flush_run id (ac_broadcast h) (put_handle id h1 g) h1) as (g' & Hrun & Hs' & _ & Hr');
        [by unfold put_handle; cbn; rewrite lookup_insert_eq|done|done|done|].
      exists (DrainDone id :: replicate (length (ac_broadcast h)) (DrainOne id Up) ++ [DrainClose id Up]), g'.
      split_and!; [simpl; rewrite length_app, length_replicate; simpl; lia| | |done].
      * cbn [reg_run reg_exec step_id]. rewrite Hh. cbn [mbind option_bind handle_step]. unfold if_started, drain_done.
        rewrite Hsp, Hd, Hdone. exact Hrun.
      * rewrite Hs'. change (sent_by id (put_handle id h1 g)) with (sent_by id g).
        by rewrite Hs, Ha, app_nil_r, fmap_app, app_assoc.
    + destruct (flush_run id (ac_broadcast h) g h) as (g' & Hrun & Hs' & _ & Hr'); [done..|].
      eexists _, g'. split_and!; [|exact Hrun| |done].
      * rewrite length_app, length_replicate. simpl. lia.
      * by rewrite Hs', Hs, Ha, app_nil_r, fmap_app, app_assoc.
Qed.

(** ** Actors are numbered upwards, and stay *)

Lemma reg_exec_spawned l (g g' : Registry L) : reg_exec l g = Some g' -> (spawned g <= spawned g')%nat.
Proof.
  intros Hx. destruct l; cbn [reg_exec step_id] in Hx;
    try (apply bind_Some in Hx as (h & _ & Hx); cbn [handle_step] in Hx; unfold if_started in Hx);
    unfold spawn_claim, spawn_start, feedInbox, feedInbox_end, drain_one, drain_done, drain_close, cleanup_map, cleanup_release, heartbeat, heartbeat_stop, Remove, cancel_handle in Hx;
    repeat case_match; simplify_eq; cbn; lia.
Qed.

Lemma reg_handles l0 (g : Registry L) :
  reg_reachable l0 g -> forall id, (id < spawned g)%nat -> is_Some (handles g !! id).
Proof.
  assert (Hput : forall (g g' : Registry L) id h' id0, handles g' = <[id := h']> (handles g) ->
    is_Some (handles g !! id0) -> is_Some (handles g' !! id0)).
  { intros g1 g2 id h' id0 Heq [x Hx]. rewrite Heq. destruct (decide (id = id0)) as [->|];
      [rewrite lookup_insert_eq; by eexists|rewrite lookup_insert_ne by done; by exists x]. }
  induction 1 as [|l g g' _ IH Hx]; [intros id Hid; cbn in Hid; lia|].
  assert (Hstep : forall id h', spawned g' = spawned g -> handles g' = <[id := h']> (handles g) \/ handles g' = handles g ->
    forall id0, (id0 < spawned g')%nat -> is_Some (handles g' !! id0)).
  { intros id h' Hs Hh id0 Hlt. rewrite Hs in Hlt. destruct Hh as [Hh|Hh]; [eapply Hput; [exact Hh|]|rewrite Hh]; by apply IH. }
  destruct l; cbn [reg_exec step_id] in Hx; try (apply bind_Some in Hx as (h & Hh & Hx); cbn [handle_step] in Hx;
    unfold if_started in Hx; try match type of Hx with context [ac_spawn h] => destruct (ac_spawn h); try done end).
  - simplify_eq. intros id Hid. cbn in Hid |- *. destruct (decide (id = spawned g)) as [->|Hne].
    + rewrite lookup_insert_eq. by eexists.
    + rewrite lookup_insert_ne by done. apply IH. lia.
  - simplify_eq. unfold Remove, cancel_handle. destruct (rooms g !! raceID) as [i|]; [|exact IH]. cbn.
    destruct (handles g !! i) as [h|]; [|exact IH]. cbn. intros id0 Hlt.
    destruct (decide (i = id0)) as [->|Hne]; [rewrite lookup_insert_eq; by eexists|].
    rewrite lookup_insert_ne by done. by apply IH.
  - simplify_eq. eapply Hstep; [reflexivity|by left].
  - simplify_eq. eapply Hstep; [reflexivity|by left].
  - simplify_eq. case_bool_decide; [eapply Hstep; [reflexivity|by left]|exact IH].
  - destruct (ac_feed h), (ac_unsubscribed h); try done. simplify_eq. eapply Hstep; [reflexivity|by left].
  - simplify_eq. eapply Hstep; [reflexivity|by left].
  - simplify_eq. eapply Hstep; [reflexivity|by left].
  - unfold feedInbox in Hx. destruct (ac_feed h) as [[|]|], (ac_unsubscribed h); try done. simplify_eq. eapply Hstep; [reflexivity|by left].
  - unfold feedInbox_end in Hx. destruct (ac_feed h), (ac_unsubscribed h), (ac_parent_done h); try done. simplify_eq. eapply Hstep; [reflexivity|by left].
  - unfold drain_one in Hx. destruct (ac_drain h), (ac_broadcast h); try done; simplify_eq; (eapply Hstep; [reflexivity|by left]).
  - unfold drain_done in Hx. destruct (ac_drain h), (ac_done h); try done. simplify_eq. eapply Hstep; [reflexivity|by left].
  - unfold drain_close in Hx. destruct (ac_drain h), (ac_broadcast h); try done. simplify_eq. eapply Hstep; [reflexivity|by left].
  - unfold cleanup_map in Hx. destruct (ac_done h && negb (ac_removed h)); [|done]. simplify_eq.
    case_bool_decide; (eapply Hstep; [reflexivity|by left]).
  - unfold cleanup_release in Hx. destruct (ac_removed h && negb (ac_released h)); [|done]. simplify_eq.
    eapply Hstep; [reflexivity|by left].
  - unfold heartbeat in Hx. destruct (ac_beating h); [|done]. simplify_eq. exact IH.
  - unfold heartbeat_stop in Hx. destruct (ac_beating h && ac_done h); [|done]. simplify_eq. eapply Hstep; [reflexivity|by left].
Qed.
(** Only the end of [feedInbox] unsubscribes. *)
Lemma reg_unsubscribed l (g g' : Registry L) id h h' :
  reg_inv g -> reg_exec l g = Some g' -> handles g !! id = Some h -> handles g' !! id = Some h' ->
  ac_unsubscribed h' = ac_unsubscribed h \/ l = FeedEnd id.
Proof.
  intros Hg Hx Hh Hh'.
  assert (Hput : forall i x y, handles g !! i = Some x -> <[i := y]> (handles g) !! id = Some h' ->
    (ac_unsubscribed y = ac_unsubscribed x \/ l = FeedEnd i) -> ac_unsubscribed h' = ac_unsubscribed h \/ l = FeedEnd id).
  { intros i x y Hx1 Hy Hxy. apply lookup_insert_Some in Hy as [[<- <-]|[_ Hy]]; [by simplify_eq|]. left. congruence. }
  assert (Hsame : handles g !! id = Some h' -> ac_unsubscribed h' = ac_unsubscribed h) by (intros; congruence).
  assert (Hothers : forall i, (x ← handles g !! i; handle_step l i x g) = Some g' -> step_id l = i ->
    ac_unsubscribed h' = ac_unsubscribed h \/ l = FeedEnd id).
  { intros i Hi <-. apply bind_Some in Hi as (x & Hi & Hs). destruct l; cbn [handle_step step_id] in *; try done; unfold if_started in Hs;
      try match type of Hs with context [ac_spawn x] => destruct (ac_spawn x); try done end;
      unfold spawn_claim, spawn_start, feedInbox, feedInbox_end, drain_one, drain_done, drain_close, cleanup_map,
        cleanup_release, heartbeat, heartbeat_stop in Hs; repeat case_match; simplify_eq;
      first [by left; apply Hsame|eapply Hput; [exact Hi|exact Hh'|first [by left|right; congruence]]]. }
  destruct l as [raceID|raceID| | | | | | | | | | | | | | |]; try by eapply Hothers.
  - cbn [reg_exec] in Hx. simplify_eq. unfold Spawn in Hh'. cbn in Hh'. rewrite lookup_insert_ne in Hh'; [left; congruence|].
    intros <-. apply (Nat.lt_irrefl (spawned g)), (ri_fresh g Hg). by eexists.
  - cbn [reg_exec] in Hx. simplify_eq. unfold Remove, cancel_handle in Hh'.
    destruct (rooms g !! raceID) as [i|]; [|by left; apply Hsame]. cbn in Hh'.
    destruct (handles g !! i) as [x|] eqn:Hi; [|by left; apply Hsame]. by eapply Hput; [exact Hi|exact Hh'|left].
Qed.
End props.

(** ** A concrete run *)

Definition demo_steps : list (Step unit) :=
  [DoSpawn "R"; SpawnClaim 0 (); SpawnStart 0 true; Broadcasts 0 (JStr "a"); DrainOne 0 Up;
   Broadcasts 0 (JStr "b"); Cancels 0; CleanupMap 0].

(** Every state of a run is reachable. *)
Lemma reg_reachable_run {L} `{!RoomLocator L} (l0 : L) ls g g' :
  reg_reachable l0 g -> reg_run ls g = Some g' -> reg_reachable l0 g'.
Proof.
  revert g. induction ls as [|l ls IH]; intros g Hg Hrun; simpl in Hrun; [by simplify_eq|].
  apply bind_Some in Hrun as (g1 & H1 & Hrun). eapply IH; [|done]. by eapply reg_step.
Qed.

(** A room that is done, and a second one of the same race. *)
Definition demo_registry : Registry unit :=
  default (NewRegistry ()) (reg_run (demo_steps ++ [DoSpawn "R"]) (NewRegistry ())).

Lemma demo_reachable : reg_reachable () demo_registry.
Proof.
  unfold demo_registry. destruct (reg_run _ _) as [g|] eqn:Hrun; [|constructor].
  eapply reg_reachable_run; [constructor|exact Hrun].
Qed.

Lemma registry_consistent_witness :
  exists h, handles demo_registry !! 1%nat = Some h /\ ac_race h = "R" /\ ac_removed h = false.
Proof. apply (registry_consistent () demo_registry demo_reachable). vm_compute. reflexivity. Defined.

Lemma room_closed_last_witness :
  exists ls g', (length ls <= 18)%nat /\ reg_run ls demo_registry = Some g' /\
    sent_by 0 g' = [Out "R" (JStr "a"); Out "R" (JStr "b"); RoomClosed "R"].
Proof.
  destruct (handles demo_registry !! 0%nat) as [h|] eqn:Hh; [|vm_compute in Hh; discriminate Hh].
  destruct (room_closed_last () demo_registry 0 h demo_reachable Hh) as (_ & _ & _ & _ & H).
  vm_compute in Hh. injection Hh as <-.
  destruct H as (ls & g' & Hls & Hrun & Hs & _); [reflexivity|reflexivity|discriminate|].
  exists ls, g'. split_and!; [exact Hls|exact Hrun|exact Hs].
Defined.
