(* ===== verification/Relay.v ===== *)
(** * The message bus ([internal/roomrelay], [internal/roombus/adapter.go])

    Envelopes and subjects, publishing on and receiving from NATS, and the
    adapter that turns inbound envelopes into room events.  Trace
    headers are in [Tracing], metrics in [Metrics]; logging is left out.  A payload is the JSON
    document it carries; [None] is a payload that is not one. *)
From Stdlib Require Import ZArith Ascii.
From stdpp Require Import base list gmap sets strings.
From S2P Require Import Prelude GoNum GoStrings Json Events Protocol Store Registry.
Local Open Scope string_scope.
Local Open Scope list_scope.

(** ** Envelopes ([types.go]) *)

Definition InboundKindMessage : string := "message".
Definition InboundKindDisconnected : string := "disconnected".
Definition OutboundKindBroadcast : string := "broadcast".
Definition OutboundKindRoomClosed : string := "room_closed".

(** [json.RawMessage] fields hold a document, or nothing. *)
Record InboundEnvelope := mkInbound {
  in_Kind : string;
  in_RaceID : string;
  in_UserID : string;
  in_DisplayName : string;
  in_Message : option json
}.

#[export] Instance eta_InboundEnvelope : Eta InboundEnvelope := fun e =>
  mkInbound (in_Kind e) (in_RaceID e) (in_UserID e) (in_DisplayName e) (in_Message e).

Record OutboundEnvelope := mkOutbound {
  out_Kind : string;
  out_RaceID : string;
  out_Payload : option json
}.

#[export] Instance eta_OutboundEnvelope : Eta OutboundEnvelope := fun e =>
  mkOutbound (out_Kind e) (out_RaceID e) (out_Payload e).

(** A member with [omitempty]. *)
Definition omit_empty {A} (name : string) (enc : A -> json) (v : option A) : list (string * json) :=
  match v with Some a => [(name, enc a)] | None => [] end.

Definition nonempty (s : string) : option string := if String.eqb s "" then None else Some s.

Definition marshal_Inbound (e : InboundEnvelope) : json :=
  JObj ([("kind", JStr (in_Kind e)); ("race_id", JStr (in_RaceID e)); ("user_id", JStr (in_UserID e))] ++
        omit_empty "display_name" JStr (nonempty (in_DisplayName e)) ++
        omit_empty "message" id (in_Message e)).

Definition marshal_Outbound (e : OutboundEnvelope) : json :=
  JObj ([("kind", JStr (out_Kind e)); ("race_id", JStr (out_RaceID e))] ++
        omit_empty "payload" id (out_Payload e)).

(** A [json.RawMessage] field keeps the document, null included. *)
Definition dec_raw {S} (put : option json -> S -> S) (j : json) (s : S) : option S :=
  Some (put (Some j) s).

Definition Inbound_fields : list (field InboundEnvelope) :=
  [("kind", dec_string (fun v e => e <| in_Kind := v |>));
   ("race_id", dec_string (fun v e => e <| in_RaceID := v |>));
   ("user_id", dec_string (fun v e => e <| in_UserID := v |>));
   ("display_name", dec_string (fun v e => e <| in_DisplayName := v |>));
   ("message", dec_raw (fun v e => e <| in_Message := v |>))].

Definition Outbound_fields : list (field OutboundEnvelope) :=
  [("kind", dec_string (fun v e => e <| out_Kind := v |>));
   ("race_id", dec_string (fun v e => e <| out_RaceID := v |>));
   ("payload", dec_raw (fun v e => e <| out_Payload := v |>))].

Definition unmarshal_Inbound (j : json) : option InboundEnvelope :=
  unmarshal_struct Inbound_fields (mkInbound "" "" "" "" None) j.

Definition unmarshal_Outbound (j : json) : option OutboundEnvelope :=
  unmarshal_struct Outbound_fields (mkOutbound "" "" None) j.

Definition inSubject (raceID : string) : string := "room." +:+ raceID +:+ ".in".
Definition outSubject (raceID : string) : string := "room." +:+ raceID +:+ ".out".

(** ** Publishing and receiving ([bus.go]) *)

(** What NATS was given to publish, in order. *)
Definition Nats : Type := list (string * json).

(** [publish]: nothing leaves once the context is done. *)
Definition publish_nats (ctx_err : option error) (c : Conn) (subject : string) (payload : json) (n : Nats)
    : Nats * (unit + error) :=
  match ctx_err with
  | Some e => (n, inr e)
  | None =>
      match c with
      | Up => (n ++ [(subject, payload)], inl ())
      | Failed e => (n, inr ("roomrelay: publish " +:+ subject +:+ ": " +:+ e))
      | Lost e => (n ++ [(subject, payload)], inr ("roomrelay: publish " +:+ subject +:+ ": " +:+ e))
      end
  end.

Definition PublishIn (ctx_err : option error) (c : Conn) (raceID : string) (env : InboundEnvelope) :=
  publish_nats ctx_err c (inSubject raceID) (marshal_Inbound env).

Definition PublishOut (ctx_err : option error) (c : Conn) (raceID : string) (env : OutboundEnvelope) :=
  publish_nats ctx_err c (outSubject raceID) (marshal_Outbound env).

(** [subscribe]: what reaches the subscriber of what arrives on its subject:
    malformed payloads are skipped, the rest is forwarded in order. *)
Definition subscribe {T} (decode : json -> option T) (arriving : list (option json)) : list T :=
  omap (fun payload => j ← payload; decode j) arriving.

(** What NATS delivers on a subject. *)
Definition delivered (subject : string) (n : Nats) : list (option json) :=
  omap (fun m => if String.eqb m.1 subject then Some (Some m.2) else None) n.

(** A subscription of [ChanSubscribe]: where in the log of NATS it began, how far
    it has been served, and whether a message was missed: dropped on a full channel, or published
    after the subscription ended with the process. *)
Record Subscription := mkSubscription { su_from : nat; su_pos : nat; su_lost : bool }.

Definition SubscribeIn (raceID : string) (n : Nats) : list InboundEnvelope :=
  subscribe unmarshal_Inbound (delivered (inSubject raceID) n).

Definition SubscribeOut (raceID : string) (n : Nats) : list OutboundEnvelope :=
  subscribe unmarshal_Outbound (delivered (outSubject raceID) n).

(** ** The adapter of the room side ([roombus/adapter.go]) *)
Section adapter.
Context (oob : float64 -> Z).

Definition toRoomEvent (env : InboundEnvelope) : option RoomEvent :=
  if String.eqb (in_Kind env) InboundKindMessage then
    match DecodeClientMessage (in_Message env) with
    | inl msg => match ToRoomEvent oob msg (in_UserID env) (in_DisplayName env) with
                 | inl ev => Some ev
                 | inr _ => None
                 end
    | inr _ => None
    end
  else if String.eqb (in_Kind env) InboundKindDisconnected then
    Some (ParticipantDisconnected (in_UserID env))
  else None.

(** [natsRoomBus.SubscribeIn] *)
Definition room_SubscribeIn (raceID : string) (n : Nats) : list RoomEvent :=
  omap toRoomEvent (SubscribeIn raceID n).
End adapter.

(** [natsRoomBus.PublishOut] and [PublishRoomClosed], for the registry's
    outgoing messages. *)
Definition out_envelope (o : Outgoing) : string * OutboundEnvelope :=
  match o with
  | Out raceID payload => (raceID, mkOutbound OutboundKindBroadcast raceID (Some payload))
  | RoomClosed raceID => (raceID, mkOutbound OutboundKindRoomClosed raceID None)
  end.

Definition room_PublishOut (ctx_err : option error) (c : Conn) (o : Outgoing) (n : Nats) : Nats * (unit + error) :=
  PublishOut ctx_err c (out_envelope o).1 (out_envelope o).2 n.

(** ** Round trips *)

Lemma unmarshal_marshal_Inbound e : unmarshal_Inbound (marshal_Inbound e) = Some e.
Proof.
  destruct e as [k r u d m]. unfold marshal_Inbound, nonempty. simpl.
  destruct (String.eqb_spec d "") as [->|Hd]; by destruct m.
Qed.

Lemma unmarshal_marshal_Outbound e : unmarshal_Outbound (marshal_Outbound e) = Some e.
Proof. destruct e as [k r [p|]]; done. Qed.

Lemma delivered_snoc subject n s j :
  delivered subject (n ++ [(s, j)]) = delivered subject n ++ (if String.eqb s subject then [Some j] else []).
Proof. unfold delivered. rewrite omap_app. cbn. by destruct (String.eqb s subject). Qed.

Lemma subscribe_app {T} (decode : json -> option T) l l' :
  subscribe decode (l ++ l') = subscribe decode l ++ subscribe decode l'.
Proof. apply omap_app. Qed.

Lemma inSubject_inj a b : inSubject a = inSubject b -> a = b.
Proof. intros Heq. apply (str_app_inj "room.") in Heq. by apply str_app_inj_tail in Heq. Qed.

Lemma outSubject_inj a b : outSubject a = outSubject b -> a = b.
Proof. intros Heq. apply (str_app_inj "room.") in Heq. by apply str_app_inj_tail in Heq. Qed.

Lemma string_last_app a b c d :
  a +:+ String c "" = b +:+ String d "" -> c = d.
Proof.
  revert b. induction a as [|x a IH]; intros [|y b] Heq; injection Heq; [done| | |].
  - intros Hx _. by destruct b.
  - intros Hx _. by destruct a.
  - intros Hx _. by eapply IH.
Qed.

Lemma str_app_assoc a b c : (a +:+ b) +:+ c = a +:+ b +:+ c.
Proof. induction a as [|x a IH]; [done|]. change (String x ((a +:+ b) +:+ c) = String x (a +:+ b +:+ c)). by rewrite IH. Qed.

Lemma in_out_subject a b : inSubject a <> outSubject b.
Proof.
  unfold inSubject, outSubject. intros Heq. apply (str_app_inj "room.") in Heq.
  change ".in" with (".i" +:+ String "n"%char "") in Heq.
  change ".out" with (".ou" +:+ String "t"%char "") in Heq.
  rewrite <- !str_app_assoc in Heq. by apply string_last_app in Heq.
Qed.

(** A published envelope is received by the subscribers of its race, and by
    nobody else. *)
Lemma SubscribeIn_publish raceID raceID' c env n n' :
  PublishIn None c raceID env n = (n', inl ()) ->
  SubscribeIn raceID' n' = SubscribeIn raceID' n ++ (if String.eqb raceID raceID' then [env] else []) /\
  SubscribeOut raceID' n' = SubscribeOut raceID' n.
Proof.
  unfold PublishIn, publish_nats. destruct c; intros; simplify_eq.
  unfold SubscribeIn, SubscribeOut. rewrite !delivered_snoc, !subscribe_app.
  rewrite (proj2 (String.eqb_neq _ _) (in_out_subject raceID raceID')), app_nil_r. split; [|done].
  destruct (String.eqb_spec raceID raceID') as [->|Hne].
  - rewrite String.eqb_refl. cbn [subscribe omap list_omap mbind option_bind]. by rewrite unmarshal_marshal_Inbound.
  - by rewrite (proj2 (String.eqb_neq _ _)) by (by intros ?%inSubject_inj).
Qed.

Lemma SubscribeOut_publish raceID raceID' c env n n' :
  PublishOut None c raceID env n = (n', inl ()) ->
  SubscribeOut raceID' n' = SubscribeOut raceID' n ++ (if String.eqb raceID raceID' then [env] else []).
Proof.
  unfold PublishOut, publish_nats. destruct c; intros; simplify_eq.
  unfold SubscribeOut. rewrite !delivered_snoc, !subscribe_app.
  destruct (String.eqb_spec raceID raceID') as [->|Hne].
  - rewrite String.eqb_refl. cbn [subscribe omap list_omap mbind option_bind]. by rewrite unmarshal_marshal_Outbound.
  - by rewrite (proj2 (String.eqb_neq _ _)) by (by intros ?%outSubject_inj).
Qed.
