(* ===== verification/RaceHub.v ===== *)
(** * Fan-out to the connections of a gateway ([internal/wsgateway/racehub.go],
    [serveConn] and [writeLoop] of [endpoint.go])

    The hubs of a gateway process, their registry, and the connections they
    serve, as a transition system.  Every connection owns a bounded channel; a
    hub's goroutine and a connection's writer share it.  The reader of a
    connection is only seen when it ends here; [Endpoint] has its loop. *)
From Stdlib Require Import ZArith.
From stdpp Require Import base list gmap sets strings.
From S2P Require Import Prelude GoNum GoStrings Json Relay.
Local Open Scope string_scope.
Local Open Scope Z_scope.
Local Open Scope list_scope.

Definition connBufferSize : nat := 8.

(** What a connection is sent: the payload of an envelope. *)
Abbreviation frame := (option json) (only parsing).

(** [raceHub].  [h_out] holds the envelopes of the subscription that [run] has
    not received; [h_fanned] is history: the payloads [run] fanned out. *)
Record Hub := mkHub {
  h_race : string;
  h_out : list OutboundEnvelope;
  h_conns : gset nat;
  h_stop : bool;
  h_closed : bool;
  h_forgotten : bool;   (** the deferred [onClose] has run *)
  h_fanned : list frame
}.

#[export] Instance eta_Hub : Eta Hub := fun h =>
  mkHub (h_race h) (h_out h) (h_conns h) (h_stop h) (h_closed h) (h_forgotten h) (h_fanned h).

(** How far [serveConn] has come. *)
Inductive Phase := Attached | Serving | Unregistered | Gone.

(** The writer goroutine: in [select], in the drain loop, or returned. *)
Inductive Writer := Waiting | Draining | WriterEnded.

(** A connection.  History: [k_accepted] and [k_written] are the frames its
    channel accepted and the ones written out, [k_lost] the one whose write
    failed, [k_from] how much its hub had fanned out before it registered. *)
Record Connection := mkConnection {
  k_race : string;
  k_hub : nat;
  k_phase : Phase;
  k_reading : bool;
  k_writer : Writer;
  k_cancelled : bool;
  k_buf : list frame;
  k_accepted : list frame;
  k_written : list frame;
  k_lost : list frame;
  k_from : nat
}.

#[export] Instance eta_Connection : Eta Connection := fun k =>
  mkConnection (k_race k) (k_hub k) (k_phase k) (k_reading k) (k_writer k) (k_cancelled k) (k_buf k)
    (k_accepted k) (k_written k) (k_lost k) (k_from k).

(** [raceHubEntry] *)
Record Entry := mkEntry { e_hub : nat; e_refCount : Z }.

(** A gateway process. *)
Record Gateway := mkGateway {
  hubs : gmap string Entry;           (** [RaceHubRegistry.hubs] *)
  hub_heap : gmap nat Hub;
  connections : gmap nat Connection;
  next_id : nat
}.

#[export] Instance eta_Gateway : Eta Gateway := fun g =>
  mkGateway (hubs g) (hub_heap g) (connections g) (next_id g).

Definition NewRaceHubRegistry : Gateway := mkGateway ∅ ∅ ∅ 0.

Definition put_hub (i : nat) (h : Hub) (g : Gateway) : Gateway := g <| hub_heap := <[i := h]> (hub_heap g) |>.
Definition put_conn (i : nat) (k : Connection) (g : Gateway) : Gateway :=
  g <| connections := <[i := k]> (connections g) |>.

(** ** The registry *)

Definition newRaceHub (raceID : string) : Hub := mkHub raceID [] ∅ false false false [].

(** [attach]: the hub to use, created with its subscription on the first
    attach. *)
Definition attach (raceID : string) (subscribe_err : option error) (g : Gateway) : Gateway * (nat + error) :=
  match hubs g !! raceID with
  | Some entry =>
      (g <| hubs := <[raceID := mkEntry (e_hub entry) (e_refCount entry + 1)]> (hubs g) |>, inl (e_hub entry))
  | None =>
      match subscribe_err with
      | Some e => (g, inr e)
      | None =>
          (g <| hub_heap := <[next_id g := newRaceHub raceID]> (hub_heap g) |>
             <| hubs := <[raceID := mkEntry (next_id g) 1]> (hubs g) |>
             <| next_id := S (next_id g) |>, inl (next_id g))
      end
  end.

Definition signalStop (i : nat) (g : Gateway) : Gateway :=
  match hub_heap g !! i with Some h => put_hub i (h <| h_stop := true |>) g | None => g end.

(** [detach] *)
Definition detach (raceID : string) (g : Gateway) : Gateway :=
  match hubs g !! raceID with
  | None => g
  | Some entry =>
      let refCount := e_refCount entry - 1 in
      if refCount <=? 0
      then signalStop (e_hub entry) (g <| hubs := delete raceID (hubs g) |>)
      else g <| hubs := <[raceID := mkEntry (e_hub entry) refCount]> (hubs g) |>
  end.

(** [raceHub.Count], and [Count]: connections of the hubs in the map. *)
Definition hub_Count (h : Hub) : nat := size (h_conns h).

Definition Count (g : Gateway) : nat :=
  sum_list_with (fun entry => match hub_heap g !! e_hub entry with Some h => hub_Count h | None => 0%nat end)
    (values (hubs g)).

(** ** A hub's goroutine *)

(** A non-blocking send to a connection's channel. *)
Definition offer (msg : frame) (k : Connection) : Connection :=
  if bool_decide (length (k_buf k) < connBufferSize)%nat
  then k <| k_buf := k_buf k ++ [msg] |> <| k_accepted := k_accepted k ++ [msg] |>
  else k.

(** The loop over [conns]: the channels are distinct, so the order of the
    iteration does not matter. *)
Definition fan_out (conns : gset nat) (msg : frame) (g : Gateway) : Gateway :=
  g <| connections := map_imap (fun i k => Some (if bool_decide (i ∈ conns) then offer msg k else k))
                        (connections g) |>.

(** [run] receives an envelope. *)
Definition hub_receive (i : nat) (h : Hub) (g : Gateway) : option Gateway :=
  match h_out h with
  | [] => None
  | env :: rest =>
      let h := h <| h_out := rest |> in
      Some (if String.eqb (out_Kind env) OutboundKindBroadcast then
              put_hub i (h <| h_fanned := h_fanned h ++ [out_Payload env] |>)
                (fan_out (h_conns h) (out_Payload env) g)
            else if String.eqb (out_Kind env) OutboundKindRoomClosed then
              put_hub i (h <| h_closed := true |>) g
            else put_hub i h g)
  end.

(** The deferred [onClose]: the entry of the race goes. *)
Definition onClose (i : nat) (h : Hub) (g : Gateway) : Gateway :=
  put_hub i (h <| h_forgotten := true |>) (g <| hubs := delete (h_race h) (hubs g) |>).

(** The [shutdown] case: every registered connection's context is cancelled. *)
Definition cancel_all (conns : gset nat) (g : Gateway) : Gateway :=
  g <| connections := map_imap (fun i k => Some (if bool_decide (i ∈ conns) then k <| k_cancelled := true |> else k))
                        (connections g) |>.

(** [registerConn], [unregisterConn]: a rendezvous with the hub's goroutine, or
    nothing when the hub has closed. *)
Definition registerConn (i hub : nat) (h : Hub) (g : Gateway) : Gateway :=
  if h_closed h then g else put_hub hub (h <| h_conns := {[i]} ∪ h_conns h |>) g.

Definition unregisterConn (i hub : nat) (h : Hub) (g : Gateway) : Gateway :=
  if h_closed h then g else put_hub hub (h <| h_conns := h_conns h ∖ {[i]} |>) g.

(** [disconnectAll]: heard only by a hub that has not closed. *)
Definition disconnectAll (h : Hub) (g : Gateway) : option Gateway :=
  if h_closed h then None else Some (cancel_all (h_conns h) g).

(** ** Steps *)
Inductive GStep :=
  | GAttach (raceID : string) (subscribe_err : option error)  (** [serveConn] starts *)
  | GRegister (k : nat)                  (** [hub.registerConn]; the loops start *)
  | GArrive (h : nat) (env : OutboundEnvelope)
  | GReceive (h : nat)
  | GOutEnds (h : nat)                   (** the subscription's channel is closed *)
  | GSeeStop (h : nat)
  | GShutdown (h : nat)                  (** [disconnectAll] *)
  | GOnClose (h : nat)
  | GWrite (k : nat) (ok : bool)         (** the writer takes a frame and writes it *)
  | GWriterClosed (k : nat)              (** the writer sees [hubClosed] *)
  | GWriterDrained (k : nat)             (** its drain loop finds nothing more *)
  | GWriterDone (k : nat)                (** the writer sees [ctx.Done()] *)
  | GReaderEnds (k : nat)
  | GUnregister (k : nat)                (** both loops are over *)
  | GDetach (k : nat).

Definition hub_step (l : GStep) (i : nat) (h : Hub) (g : Gateway) : option Gateway :=
  match l with
  | GArrive _ env => Some (put_hub i (h <| h_out := h_out h ++ [env] |>) g)
  | GReceive _ => if h_closed h then None else hub_receive i h g
  | GOutEnds _ => if h_closed h then None else Some (put_hub i (h <| h_closed := true |>) g)
  | GSeeStop _ => if h_stop h && negb (h_closed h) then Some (put_hub i (h <| h_closed := true |>) g) else None
  | GShutdown _ => disconnectAll h g
  | GOnClose _ => if h_closed h && negb (h_forgotten h) then Some (onClose i h g) else None
  | _ => None
  end.

(** A frame leaves the channel and is written, or the write fails and the
    writer returns. *)
Definition write_one (ok : bool) (k : Connection) : option Connection :=
  match k_writer k, k_buf k with
  | WriterEnded, _ | _, [] => None
  | _, msg :: rest =>
      let k := k <| k_buf := rest |> in
      Some (if ok then k <| k_written := k_written k ++ [msg] |>
            else k <| k_lost := k_lost k ++ [msg] |> <| k_writer := WriterEnded |> <| k_cancelled := true |>)
  end.

Definition conn_step (l : GStep) (i : nat) (k : Connection) (h : Hub) (g : Gateway) : option Gateway :=
  match l, k_phase k with
  | GRegister _, Attached =>
      let k := k <| k_phase := Serving |> <| k_from := length (h_fanned h) |> in
      Some (put_conn i k (registerConn i (k_hub k) h g))
  | GWrite _ ok, Serving => k' ← write_one ok k; Some (put_conn i k' g)
  | GWriterClosed _, Serving =>
      match k_writer k with
      | Waiting => if h_closed h then Some (put_conn i (k <| k_writer := Draining |>) g) else None
      | _ => None
      end
  | GWriterDrained _, Serving =>
      match k_writer k, k_buf k with
      | Draining, [] => Some (put_conn i (k <| k_writer := WriterEnded |> <| k_cancelled := true |>) g)
      | _, _ => None
      end
  | GWriterDone _, Serving =>
      match k_writer k with
      | Waiting => if k_cancelled k then Some (put_conn i (k <| k_writer := WriterEnded |>) g) else None
      | _ => None
      end
  | GReaderEnds _, Serving =>
      if k_reading k then Some (put_conn i (k <| k_reading := false |> <| k_cancelled := true |>) g) else None
  | GUnregister _, Serving =>
      match k_writer k, k_reading k with
      | WriterEnded, false =>
          Some (put_conn i (k <| k_phase := Unregistered |>) (unregisterConn i (k_hub k) h g))
      | _, _ => None
      end
  | GDetach _, Unregistered => Some (detach (k_race k) (put_conn i (k <| k_phase := Gone |>) g))
  | _, _ => None
  end.

Definition g_exec (l : GStep) (g : Gateway) : option Gateway :=
  match l with
  | GAttach raceID err =>
      match attach raceID err g with
      | (g', inl h) =>
          Some (g' <| connections := <[next_id g' := mkConnection raceID h Attached true Waiting false [] [] [] [] 0]>
                        (connections g') |>
                   <| next_id := S (next_id g') |>)
      | (g', inr _) => Some g'
      end
  | GArrive i _ | GReceive i | GOutEnds i | GSeeStop i | GShutdown i | GOnClose i =>
      h ← hub_heap g !! i; hub_step l i h g
  | GRegister i | GWrite i _ | GWriterClosed i | GWriterDrained i | GWriterDone i | GReaderEnds i
  | GUnregister i | GDetach i =>
      k ← connections g !! i; h ← hub_heap g !! k_hub k; conn_step l i k h g
  end.

Fixpoint g_run (ls : list GStep) (g : Gateway) : option Gateway :=
  match ls with
  | [] => Some g
  | l :: ls' => g' ← g_exec l g; g_run ls' g'
  end.

Inductive g_reachable : Gateway -> Prop :=
  | g_init : g_reachable NewRaceHubRegistry
  | g_step l g g' : g_reachable g -> g_exec l g = Some g' -> g_reachable g'.

Lemma g_reachable_run ls g g' : g_reachable g -> g_run ls g = Some g' -> g_reachable g'.
Proof.
  revert g. induction ls as [|l ls IH]; intros g Hg Hrun; simpl in Hrun; [by simplify_eq|].
  apply bind_Some in Hrun as (g1 & H1 & Hrun). eapply IH; [|done]. by eapply g_step.
Qed.
