(* ===== verification/RaceHubProps.v ===== *)
(** * What the gateway's fan-out guarantees

    Every connection writes a subsequence of what its hub fanned out since it
    registered, in order and without repetition; what a closed hub left in a
    channel is written before the connection ends; attach and detach count
    references; and a hub that outlives its entry can take another hub down. *)
From Stdlib Require Import ZArith.
From stdpp Require Import base list gmap sets strings.
From S2P Require Import Prelude GoNum GoStrings Json Relay RaceHub.
Local Open Scope string_scope.
Local Open Scope Z_scope.
Local Open Scope list_scope.

Record conn_ok (h : Hub) (k : Connection) : Prop := {
  ck_accepted : k_accepted k = k_written k ++ k_lost k ++ k_buf k;
  ck_lost : k_lost k <> [] -> k_writer k = WriterEnded;
  ck_buf : (length (k_buf k) <= connBufferSize)%nat;
  ck_from : (k_from k <= length (h_fanned h))%nat;
  ck_sub : sublist (k_accepted k) (drop (k_from k) (h_fanned h));
  ck_attached : k_phase k = Attached -> k_accepted k = [] /\ k_writer k = Waiting
}.

Record gw_inv (g : Gateway) : Prop := {
  gi_fresh i : (next_id g <= i)%nat -> connections g !! i = None /\ hub_heap g !! i = None;
  gi_entry r e : hubs g !! r = Some e -> exists h, hub_heap g !! e_hub e = Some h /\ h_race h = r;
  gi_conn i k : connections g !! i = Some k ->
    exists h, hub_heap g !! k_hub k = Some h /\ h_race h = k_race k /\ conn_ok h k;
  gi_reg j h i : hub_heap g !! j = Some h -> h_closed h = false -> i ∈ h_conns h ->
    exists k, connections g !! i = Some k /\ k_hub k = j /\ k_phase k = Serving
}.

Lemma gw_inv_init : gw_inv NewRaceHubRegistry.
Proof. split; simpl; intros; by simplify_map_eq. Qed.

(** A connection changes on its own. *)
Lemma put_conn_inv i k k' g :
  gw_inv g -> connections g !! i = Some k ->
  k_race k' = k_race k -> k_hub k' = k_hub k ->
  (forall h, hub_heap g !! k_hub k = Some h -> conn_ok h k -> conn_ok h k') ->
  (k_phase k' = k_phase k \/
   forall h, hub_heap g !! k_hub k = Some h -> h_closed h = false -> i ∉ h_conns h) ->
  gw_inv (put_conn i k' g).
Proof.
  intros [Hf He Hc Hr] Hk Hrace Hhub Hok Hphase. split; cbn.
  - intros j Hj. split; [|by apply Hf]. rewrite lookup_insert_ne; [by apply Hf|].
    intros <-. destruct (Hf i Hj). congruence.
  - exact He.
  - intros j x Hx. apply lookup_insert_Some in Hx as [[<- <-]|[_ Hx]]; [|by eapply Hc].
    destruct (Hc _ _ Hk) as (h & Hh & ? & ?). exists h. rewrite Hhub, Hrace. auto.
  - intros j h l Hh Hcl Hl. destruct (Hr _ _ _ Hh Hcl Hl) as (x & Hx & Hxh & Hxp).
    destruct (decide (l = i)) as [->|Hne]; [|exists x; by rewrite lookup_insert_ne].
    exists k'. rewrite lookup_insert_eq. simplify_eq. split_and!; [done|congruence|].
    destruct Hphase as [->|Hphase]; [done|]. by destruct (Hphase _ Hh Hcl Hl).
Qed.

(** A hub changes on its own; registrations may only go. *)
Lemma put_hub_inv i h h' g :
  gw_inv g -> hub_heap g !! i = Some h ->
  h_race h' = h_race h -> h_fanned h' = h_fanned h -> h_conns h' ⊆ h_conns h ->
  (h_closed h' = false -> h_closed h = false) ->
  gw_inv (put_hub i h' g).
Proof.
  intros [Hf He Hc Hr] Hh Hrace Hfan Hsub Hcl. split; cbn.
  - intros j Hj. split; [by apply Hf|]. rewrite lookup_insert_ne; [by apply Hf|].
    intros <-. destruct (Hf i Hj). congruence.
  - intros r e Hre. destruct (He _ _ Hre) as (x & Hx & Hxr). destruct (decide (i = e_hub e)) as [->|].
    + exists h'. rewrite lookup_insert_eq. simplify_eq. auto.
    + exists x. by rewrite lookup_insert_ne.
  - intros j k Hk. destruct (Hc _ _ Hk) as (x & Hx & Hxr & Hxk).
    destruct (decide (i = k_hub k)) as [->|]; [|exists x; by rewrite lookup_insert_ne].
    exists h'. rewrite lookup_insert_eq. simplify_eq. split_and!; [done|congruence|].
    destruct Hxk. split; rewrite ?Hfan; auto.
  - intros j x l Hx Hxc Hl. apply lookup_insert_Some in Hx as [[<- <-]|[_ Hx]]; [|by eapply Hr].
    eapply Hr; [exact Hh|by apply Hcl|]. by apply Hsub.
Qed.

Lemma hubs_inv hs g :
  gw_inv g -> (forall r e, hs !! r = Some e -> exists h, hub_heap g !! e_hub e = Some h /\ h_race h = r) ->
  gw_inv (g <| hubs := hs |>).
Proof. intros [Hf He Hc Hr] Hhs. by split. Qed.

Lemma sublist_snoc {A} (l l' : list A) x : sublist l l' -> sublist l (l' ++ [x]).
Proof. intros Hl. rewrite <- (app_nil_r l). apply sublist_app; [done|apply sublist_nil_l]. Qed.

Lemma offer_ok h k msg :
  conn_ok h k -> k_phase k = Serving ->
  conn_ok (h <| h_fanned := h_fanned h ++ [msg] |>) (offer msg k).
Proof.
  intros [Ha Hl Hb Hf Hs Hat] Hp.
  assert (Hd : drop (k_from k) (h_fanned h ++ [msg]) = drop (k_from k) (h_fanned h) ++ [msg])
    by (by rewrite drop_app_le).
  unfold offer. case_bool_decide as Hroom; split; cbn; rewrite ?Hd, ?length_app; cbn [length];
    try done; try lia; try congruence.
  - by rewrite Ha, !app_assoc.
  - by apply sublist_app.
  - by apply sublist_snoc.
Qed.

Lemma unoffered_ok h k msg : conn_ok h k -> conn_ok (h <| h_fanned := h_fanned h ++ [msg] |>) k.
Proof.
  intros [Ha Hl Hb Hf Hs Hat]. split; cbn; rewrite ?length_app; try done; [simpl; lia|].
  rewrite drop_app_le by done. by apply sublist_snoc.
Qed.

Lemma offer_hub msg k : k_hub (offer msg k) = k_hub k.
Proof. unfold offer. by case_bool_decide. Qed.
Lemma offer_race msg k : k_race (offer msg k) = k_race k.
Proof. unfold offer. by case_bool_decide. Qed.
Lemma offer_phase msg k : k_phase (offer msg k) = k_phase k.
Proof. unfold offer. by case_bool_decide. Qed.

Lemma fan_out_inv i h h' msg g :
  gw_inv g -> hub_heap g !! i = Some h ->
  h_race h' = h_race h -> h_conns h' = h_conns h -> h_fanned h' = h_fanned h ++ [msg] ->
  h_closed h = false ->
  gw_inv (put_hub i h' (fan_out (h_conns h) msg g)).
Proof.
  intros [Hf He Hc Hr] Hh Hrace Hconns Hfan Hcl. split; cbn.
  - intros j Hj. rewrite map_lookup_imap. split; [by rewrite (proj1 (Hf j Hj))|].
    rewrite lookup_insert_ne; [by apply Hf|]. intros <-. destruct (Hf i Hj). congruence.
  - intros r e Hre. destruct (He _ _ Hre) as (x & Hx & Hxr). destruct (decide (i = e_hub e)) as [->|].
    + exists h'. rewrite lookup_insert_eq. simplify_eq. auto.
    + exists x. by rewrite lookup_insert_ne.
  - intros j k Hk. rewrite map_lookup_imap in Hk. apply bind_Some in Hk as (k0 & Hk0 & Hk).
    destruct (Hc _ _ Hk0) as (x & Hx & Hxr & Hxk).
    assert (Hkh : k_hub k = k_hub k0 /\ k_race k = k_race k0).
    { destruct (bool_decide (j ∈ h_conns h)); simplify_eq; by rewrite ?offer_hub, ?offer_race. }
    destruct Hkh as [-> ->]. destruct (decide (i = k_hub k0)) as [Hi|Hi].
    + exists h'. rewrite <- Hi, lookup_insert_eq. rewrite <- Hi in Hx.
      assert (x = h) as -> by congruence.
      split_and!; [done|congruence|].
      assert (conn_ok (h <| h_fanned := h_fanned h ++ [msg] |>) k) as Hok.
      { case_bool_decide as Hin; simplify_eq; [|by apply unoffered_ok].
        apply offer_ok; [done|]. destruct (Hr _ _ _ Hh Hcl Hin) as (k1 & ? & ? & ?). congruence. }
      destruct Hok. cbn in *. split; rewrite ?Hfan; auto.
    + exists x. rewrite lookup_insert_ne by done. split_and!; [done|done|].
      case_bool_decide as Hin; [|by simplify_eq]. destruct (Hr _ _ _ Hh Hcl Hin) as (k1 & ? & ? & ?). congruence.
  - intros j x l Hx Hxc Hl. rewrite map_lookup_imap.
    assert (exists k, connections g !! l = Some k /\ k_hub k = j /\ k_phase k = Serving) as (k & -> & Hkj & Hkp).
    { apply lookup_insert_Some in Hx as [[<- <-]|[_ Hx]]; [|by eapply Hr].
      eapply Hr; [exact Hh|done|]. by rewrite <- Hconns. }
    cbn. eexists. split; [done|]. case_bool_decide; by rewrite ?offer_hub, ?offer_phase.
Qed.

Lemma cancel_all_inv conns g : gw_inv g -> gw_inv (cancel_all conns g).
Proof.
  intros [Hf He Hc Hr]. split; cbn.
  - intros j Hj. rewrite map_lookup_imap. by rewrite (proj1 (Hf j Hj)), (proj2 (Hf j Hj)).
  - exact He.
  - intros j k Hk. rewrite map_lookup_imap in Hk. apply bind_Some in Hk as (k0 & Hk0 & Hk).
    destruct (Hc _ _ Hk0) as (x & Hx & Hxr & [H1 H2 H3 H4 H5 H6]).
    case_bool_decide; simplify_eq; exists x; (split_and!; [done|done|by split]).
  - intros j x l Hx Hxc Hl. destruct (Hr _ _ _ Hx Hxc Hl) as (k & Hk & Hkj & Hkp).
    rewrite map_lookup_imap, Hk. cbn. eexists. split; [done|]. by case_bool_decide.
Qed.

Lemma signalStop_inv i g : gw_inv g -> gw_inv (signalStop i g).
Proof.
  intros Hg. unfold signalStop. destruct (hub_heap g !! i) as [h|] eqn:Hh; [|done].
  by apply (put_hub_inv i h).
Qed.

Lemma detach_inv r g : gw_inv g -> gw_inv (detach r g).
Proof.
  intros Hg. unfold detach. destruct (hubs g !! r) as [e|] eqn:He; [|done]. case_match.
  - apply signalStop_inv, hubs_inv; [done|]. intros r' e' [_ He']%lookup_delete_Some. by eapply gi_entry.
  - apply hubs_inv; [done|]. intros r' e' [[<- <-]|[_ He']]%lookup_insert_Some; [|by eapply gi_entry].
    by apply (gi_entry g Hg r e).
Qed.

Lemma insert_conn_inv g k h :
  gw_inv g -> hub_heap g !! k_hub k = Some h -> h_race h = k_race k -> conn_ok h k ->
  gw_inv (g <| connections := <[next_id g := k]> (connections g) |> <| next_id := S (next_id g) |>).
Proof.
  intros [Hf He Hc Hr] Hh Hrace Hok. split; cbn.
  - intros j Hj. rewrite lookup_insert_ne by (cbn in Hj; lia). apply Hf. cbn in Hj. lia.
  - exact He.
  - intros j x Hx. apply lookup_insert_Some in Hx as [[<- <-]|[_ Hx]]; [|by eapply Hc]. eauto.
  - intros j x l Hx Hxc Hl. destruct (Hr _ _ _ Hx Hxc Hl) as (y & Hy & ?). exists y. split; [|done].
    rewrite lookup_insert_ne; [done|]. intros <-. rewrite (proj1 (Hf (next_id g) ltac:(lia))) in Hy. done.
Qed.

Lemma attach_inv r err g g' res :
  gw_inv g -> attach r err g = (g', res) ->
  gw_inv g' /\ forall i, res = inl i -> exists h, hub_heap g' !! i = Some h /\ h_race h = r.
Proof.
  intros Hg. unfold attach. destruct (hubs g !! r) as [e|] eqn:He.
  - intros; simplify_eq. destruct (gi_entry g Hg _ _ He) as (h & Hh & Hhr). split.
    + apply hubs_inv; [done|]. intros r' e' [[<- <-]|[_ He']]%lookup_insert_Some; [by exists h|by eapply gi_entry].
    + intros i ?. simplify_eq. by exists h.
  - destruct err as [e|]; intros; simplify_eq; [done|]. destruct Hg as [Hf He' Hc Hr]. split.
    + split; cbn.
      * intros i Hi. cbn in Hi. rewrite lookup_insert_ne by lia. apply Hf. lia.
      * intros r' e' [[<- <-]|[_ He1]]%lookup_insert_Some.
        -- exists (newRaceHub r). cbn. by rewrite lookup_insert_eq.
        -- destruct (He' _ _ He1) as (h & Hh & ?). exists h. rewrite lookup_insert_ne; [done|].
           intros Heq. rewrite <- Heq, (proj2 (Hf (next_id g) ltac:(lia))) in Hh. done.
      * intros i k Hk. destruct (Hc _ _ Hk) as (h & Hh & ?). exists h. rewrite lookup_insert_ne; [done|].
        intros Heq. rewrite <- Heq, (proj2 (Hf (next_id g) ltac:(lia))) in Hh. done.
      * intros j h l Hh Hcl Hl. apply lookup_insert_Some in Hh as [[<- <-]|[_ Hh]]; [|by eapply Hr].
        cbn in Hl. set_solver.
    + intros i ?. simplify_eq. exists (newRaceHub r). cbn. by rewrite lookup_insert_eq.
Qed.

Lemma hub_step_inv l i h g g' :
  gw_inv g -> hub_heap g !! i = Some h -> hub_step l i h g = Some g' -> gw_inv g'.
Proof.
  intros Hg Hh Hx. destruct l; cbn [hub_step] in Hx; try done.
  - simplify_eq. by apply (put_hub_inv i h).
  - destruct (h_closed h) eqn:Hcl; [done|]. unfold hub_receive in Hx.
    destruct (h_out h) as [|env rest]; [done|]. simplify_eq. repeat case_match.
    + by eapply (fan_out_inv i h).
    + by apply (put_hub_inv i h).
    + by apply (put_hub_inv i h).
  - destruct (h_closed h); [done|]. simplify_eq. by apply (put_hub_inv i h).
  - destruct (_ && _); [|done]. simplify_eq. by apply (put_hub_inv i h).
  - unfold disconnectAll in Hx. destruct (h_closed h); [done|]. simplify_eq. by apply cancel_all_inv.
  - destruct (_ && _); [|done]. simplify_eq. unfold onClose. apply (put_hub_inv i h); try done.
    apply hubs_inv; [done|]. intros r' e' [_ He']%lookup_delete_Some. by eapply gi_entry.
Qed.

Lemma write_one_ok ok h k k' :
  conn_ok h k -> k_phase k = Serving -> write_one ok k = Some k' ->
  conn_ok h k' /\ k_race k' = k_race k /\ k_hub k' = k_hub k /\ k_phase k' = k_phase k.
Proof.
  intros [Ha Hl Hb Hf Hs Hat] Hp Hw. unfold write_one in Hw.
  assert (k_writer k <> WriterEnded -> k_lost k = []) as Hnl.
  { intros Hne. destruct (k_lost k) eqn:E; [done|]. by destruct Hne, Hl. }
  destruct (k_buf k) as [|msg rest] eqn:Eb; [by destruct (k_writer k)|].
  assert (k_writer k <> WriterEnded) as Hne by (intros E; by rewrite E in Hw).
  rewrite (Hnl Hne) in Ha. assert (k_lost k = []) as Hlost by auto.
  assert (Some (if ok then k <| k_buf := rest |> <| k_written := k_written k ++ [msg] |>
    else k <| k_buf := rest |> <| k_lost := k_lost k ++ [msg] |> <| k_writer := WriterEnded |>
           <| k_cancelled := true |>) = Some k') as Hk' by (by destruct (k_writer k)).
  clear Hw. simpl in Hb. destruct ok; simplify_eq; (split; [split|]); cbn; rewrite ?Hlost; auto; try lia;
    try congruence.
  rewrite Ha. simpl. by rewrite <- app_assoc.
Qed.

Lemma register_inv i k h g :
  gw_inv g -> connections g !! i = Some k -> hub_heap g !! k_hub k = Some h -> k_phase k = Attached ->
  gw_inv (put_conn i (k <| k_phase := Serving |> <| k_from := length (h_fanned h) |>)
            (if h_closed h then g else put_hub (k_hub k) (h <| h_conns := {[i]} ∪ h_conns h |>) g)).
Proof.
  intros Hg Hk Hh Hp. set (k' := set k_from _ _).
  assert (Hok : forall x, hub_heap g !! k_hub k = Some x -> conn_ok x k -> conn_ok x k').
  { intros x Hx [Ha Hl Hb Hf Hs Hat]. simplify_eq. destruct (Hat Hp) as [Hacc Hw].
    split; cbn; auto; try done. rewrite Hacc. apply sublist_nil_l. }
  assert (Hnot : forall x, hub_heap g !! k_hub k = Some x -> h_closed x = false -> i ∉ h_conns x).
  { intros x Hx Hxc Hin. destruct (gi_reg g Hg _ _ _ Hx Hxc Hin) as (y & Hy & _ & Hyp). congruence. }
  pose proof (put_conn_inv i k k' g Hg Hk eq_refl eq_refl Hok (or_intror Hnot)) as Hg1.
  destruct (h_closed h) eqn:Hcl; [exact Hg1|]. destruct Hg1 as [Hf He Hc Hr]. split; cbn.
  - intros j Hj. destruct (Hf j Hj) as [H1 H2]. cbn in H1, H2. split; [exact H1|].
    rewrite lookup_insert_ne; [exact H2|]. intros Heq. rewrite Heq in Hh. congruence.
  - intros r e Hre. destruct (He _ _ Hre) as (x & Hx & Hxr). cbn in Hx.
    destruct (decide (k_hub k = e_hub e)) as [Heq|].
    + rewrite <- Heq, lookup_insert_eq in *. eexists. split; [done|]. simpl. congruence.
    + exists x. by rewrite lookup_insert_ne.
  - intros j y Hy. destruct (Hc _ _ Hy) as (x & Hx & Hxr & Hxk). cbn in Hx.
    destruct (decide (k_hub k = k_hub y)) as [Heq|].
    + rewrite <- Heq, lookup_insert_eq in *. eexists. split; [done|]. assert (x = h) as -> by congruence.
      split; [done|]. destruct Hxk. by split.
    + exists x. by rewrite lookup_insert_ne.
  - intros j x l Hx Hxc Hl. apply lookup_insert_Some in Hx as [[<- <-]|[_ Hx]]; [|by eapply Hr].
    cbn in Hl. apply elem_of_union in Hl as [->%elem_of_singleton|Hl].
    + exists k'. by rewrite lookup_insert_eq.
    + by eapply (Hr (k_hub k) h).
Qed.

Lemma unregister_inv i k h g :
  gw_inv g -> connections g !! i = Some k -> hub_heap g !! k_hub k = Some h -> k_phase k = Serving ->
  h_closed h = false ->
  gw_inv (put_conn i (k <| k_phase := Unregistered |>)
            (put_hub (k_hub k) (h <| h_conns := h_conns h ∖ {[i]} |>) g)).
Proof.
  intros Hg Hk Hh Hp Hcl.
  assert (gw_inv (put_hub (k_hub k) (h <| h_conns := h_conns h ∖ {[i]} |>) g)) as Hg1
    by (apply (put_hub_inv _ h); try done; cbn; set_solver).
  apply (put_conn_inv i k); try done.
  - intros x Hx [Ha Hl Hb Hf Hs Hat]. by split.
  - right. intros x Hx _. cbn in Hx. rewrite lookup_insert_eq in Hx. simplify_eq. cbn. set_solver.
Qed.

Lemma conn_step_inv l i k h g g' :
  gw_inv g -> connections g !! i = Some k -> hub_heap g !! k_hub k = Some h ->
  conn_step l i k h g = Some g' -> gw_inv g'.
Proof.
  intros Hg Hk Hh Hx. destruct l; cbn [conn_step] in Hx; try done; destruct (k_phase k) eqn:Hp; try done.
  - simplify_eq. by apply (register_inv i k h g).
  - apply bind_Some in Hx as (k' & Hw & Hx). simplify_eq.
    destruct (gi_conn g Hg _ _ Hk) as (h' & Hh' & _ & Hok). simplify_eq.
    destruct (write_one_ok _ _ _ _ Hok Hp Hw) as (Hok' & ? & ? & ?).
    apply (put_conn_inv i k); auto. intros x Hx _. by simplify_eq.
  - destruct (k_writer k) eqn:Hw; try done. destruct (h_closed h); [|done]. simplify_eq.
    apply (put_conn_inv i k); auto. intros x _ [Ha Hl Hb Hf Hs Hat]. split; cbn; auto; [|congruence].
    intros Hne. by rewrite (Hl Hne) in Hw.
  - destruct (k_writer k) eqn:Hw; try done. destruct (k_buf k) eqn:Hbuf; [|done]. simplify_eq.
    apply (put_conn_inv i k); auto. intros x _ [Ha Hl Hb Hf Hs Hat]. split; cbn; auto. congruence.
  - destruct (k_writer k) eqn:Hw; try done. destruct (k_cancelled k); [|done]. simplify_eq.
    apply (put_conn_inv i k); auto. intros x _ [Ha Hl Hb Hf Hs Hat]. split; cbn; auto. congruence.
  - destruct (k_reading k); [|done]. simplify_eq.
    apply (put_conn_inv i k); auto. intros x _ [Ha Hl Hb Hf Hs Hat]. by split.
  - destruct (k_writer k) eqn:Hw; try done. destruct (k_reading k); [done|]. simplify_eq.
    unfold unregisterConn. destruct (h_closed h) eqn:Hcl; [|by apply (unregister_inv i k h g)].
    apply (put_conn_inv i k); auto.
    + intros x _ [Ha Hl Hb Hf Hs Hat]. split; cbn; auto. congruence.
    + right. intros x Hx Hxc. congruence.
  - simplify_eq. apply detach_inv, (put_conn_inv i k); auto.
    + intros x _ [Ha Hl Hb Hf Hs Hat]. by split.
    + right. intros x Hx Hxc Hin. destruct (gi_reg g Hg _ _ _ Hx Hxc Hin) as (y & Hy & _ & Hyp). congruence.
Qed.

Lemma g_exec_inv l g g' : gw_inv g -> g_exec l g = Some g' -> gw_inv g'.
Proof.
  intros Hg Hx. destruct l; cbn [g_exec] in Hx;
    try (apply bind_Some in Hx as (? & ? & Hx); by eapply hub_step_inv);
    try (apply bind_Some in Hx as (? & ? & Hx); apply bind_Some in Hx as (? & ? & Hx); by eapply conn_step_inv).
  destruct (attach raceID subscribe_err g) as [g1 [h|e]] eqn:Ha;
    destruct (attach_inv _ _ _ _ _ Hg Ha) as [Hg1 Hhub]; simplify_eq; [|done].
  destruct (Hhub h eq_refl) as (x & Hx & Hxr). eapply insert_conn_inv; [done|exact Hx|done|].
  split; cbn; try done; [lia|lia|apply sublist_nil_l].
Qed.

Lemma g_reachable_inv g : g_reachable g -> gw_inv g.
Proof. induction 1; [apply gw_inv_init|by eapply g_exec_inv]. Qed.

(** What a connection is sent: the frames its channel accepted are those it
    has written, then the one whose write failed, if any, then at most eight
    that wait; they are a subsequence of what its hub fanned out since the
    connection registered - in order, nothing twice, nothing of another race; and
    whenever the hub receives a broadcast, every registered connection with room
    in its own channel gets it, however slow the others are. *)
Theorem delivery_in_order g i k :
  g_reachable g -> connections g !! i = Some k ->
  exists h, hub_heap g !! k_hub k = Some h /\ h_race h = k_race k /\
    k_accepted k = k_written k ++ k_lost k ++ k_buf k /\ (length (k_buf k) <= 8)%nat /\
    sublist (k_accepted k) (drop (k_from k) (h_fanned h)) /\
    (forall env rest g', h_out h = env :: rest -> out_Kind env = OutboundKindBroadcast ->
       g_exec (GReceive (k_hub k)) g = Some g' -> i ∈ h_conns h -> (length (k_buf k) < 8)%nat ->
       exists k', connections g' !! i = Some k' /\ k_accepted k' = k_accepted k ++ [out_Payload env]).
Proof.
  intros Hg%g_reachable_inv Hk. destruct (gi_conn g Hg _ _ Hk) as (h & Hh & Hr & [Ha Hl Hb Hf Hs Hat]).
  exists h. split_and!; [done|done|done|exact Hb|done|].
  intros env rest g' Hout Hkind Hx Hin Hroom. cbn in Hx. rewrite Hh in Hx. cbn in Hx.
  destruct (h_closed h); [done|]. unfold hub_receive in Hx. rewrite Hout, Hkind in Hx. cbn in Hx. simplify_eq.
  exists (offer (out_Payload env) k). split.
  - cbn. rewrite map_lookup_imap, Hk. cbn. by rewrite bool_decide_true.
  - unfold offer. rewrite bool_decide_true by (unfold connBufferSize; lia). done.
Qed.

(** The writer empties its channel, write by write. *)
Lemma drain_run i buf g k h :
  connections g !! i = Some k -> hub_heap g !! k_hub k = Some h ->
  k_phase k = Serving -> k_writer k = Draining -> k_buf k = buf ->
  exists g' k', g_run (replicate (length buf) (GWrite i true) ++ [GWriterDrained i]) g = Some g' /\
    connections g' !! i = Some k' /\ k_written k' = k_written k ++ buf /\ k_buf k' = [] /\
    k_writer k' = WriterEnded.
Proof.
  revert g k. induction buf as [|msg buf IH]; intros g k Hk Hh Hp Hw Hb; cbn [length replicate app g_run g_exec].
  - rewrite Hk. cbn [mbind option_bind]. rewrite Hh. cbn [mbind option_bind conn_step].
    rewrite Hp, Hw, Hb. cbn. eexists _, _. split; [done|]. cbn. rewrite lookup_insert_eq.
    split; [done|]. cbn. by rewrite app_nil_r.
  - rewrite Hk. cbn [mbind option_bind]. rewrite Hh. cbn [mbind option_bind conn_step].
    rewrite Hp. unfold write_one. rewrite Hw, Hb. cbn [mbind option_bind].
    pose (k1 := k <| k_buf := buf |> <| k_written := k_written k ++ [msg] |>).
    destruct (IH (put_conn i k1 g) k1) as (g' & k' & Hrun & Hk' & Hwr & Hb' & Hw');
      [by cbn; rewrite lookup_insert_eq|exact Hh|exact Hp|exact Hw|done|].
    exists g', k'. split_and!; try done. rewrite Hwr. cbn. by rewrite <- app_assoc.
Qed.

(** C37: nothing is lost at the end of a race: when a hub has closed - every
    broadcast before the closing is fanned out by then - a connection still
    writing has a run of its writer, ten steps at most, after which all that its
    channel ever accepted is written and the writer has ended. *)
Theorem closing_drains g i k h :
  g_reachable g -> connections g !! i = Some k -> hub_heap g !! k_hub k = Some h ->
  h_closed h = true -> k_phase k = Serving -> k_writer k = Waiting ->
  exists ls g' k', (length ls <= 10)%nat /\ g_run ls g = Some g' /\ connections g' !! i = Some k' /\
    k_written k' = k_accepted k /\ k_buf k' = [] /\ k_writer k' = WriterEnded.
Proof.
  intros Hg%g_reachable_inv Hk Hh Hcl Hp Hw.
  destruct (gi_conn g Hg _ _ Hk) as (h' & Hh' & _ & [Ha Hl Hb Hf Hs Hat]).
  assert (k_lost k = []) as Hlost by (destruct (k_lost k); [done|]; by rewrite Hl in Hw).
  pose (k1 := k <| k_writer := Draining |>).
  destruct (drain_run i (k_buf k) (put_conn i k1 g) k1 h) as (g' & k' & Hrun & Hk' & Hwr & Hb' & Hw');
    [by cbn; rewrite lookup_insert_eq|exact Hh|exact Hp|done|done|].
  exists (GWriterClosed i :: replicate (length (k_buf k)) (GWrite i true) ++ [GWriterDrained i]), g', k'.
  split_and!; try done.
  - unfold connBufferSize in Hb. simpl. rewrite length_app, length_replicate. simpl. lia.
  - cbn [g_run g_exec]. rewrite Hk. cbn [mbind option_bind]. rewrite Hh. cbn [mbind option_bind conn_step].
    rewrite Hp, Hw, Hcl. exact Hrun.
  - rewrite Hwr, Ha, Hlost. done.
Qed.

(** ** Reference counting *)

(** An attach ([true]) or a detach of a race. *)
Definition ref_op (r : string) (g : Gateway) (b : bool) : Gateway :=
  if b then fst (attach r None g) else detach r g.

Fixpoint net (ops : list bool) : Z :=
  match ops with
  | [] => 0
  | b :: ops' => (if b then 1 else -1) + net ops'
  end.

(** The count after an attach or a detach. *)
Definition bump (n : Z) (b : bool) : Z := n + (if b then 1 else -1).

(** [n] references never run out before the end of [ops]. *)
Fixpoint held (n : Z) (ops : list bool) : Prop :=
  match ops with
  | [] => True
  | b :: ops' => 0 < bump n b /\ held (bump n b) ops'
  end.

Lemma ref_op_held r g h n b :
  hubs g !! r = Some (mkEntry h n) -> 0 < bump n b ->
  ref_op r g b = g <| hubs := <[r := mkEntry h (bump n b)]> (hubs g) |>.
Proof.
  intros He Hn. unfold ref_op, attach, detach. rewrite He. unfold bump in *. destruct b; [done|]. cbn.
  replace (n - 1) with (n + -1) by lia. by rewrite (proj2 (Z.leb_gt _ _)) by lia.
Qed.

(** A hub lives exactly as long as somebody is attached: starting from an
    entry with [n] references, any sequence of attaches and detaches that does
    not drop to zero on the way leaves the same hub in place, with [n] plus the
    attaches minus the detaches as its count; no hub is stopped and no other
    race's entry changes; and the detach that brings the count to zero removes
    the entry and stops that hub. *)
Theorem references_counted r g h hub n ops :
  hubs g !! r = Some (mkEntry h n) -> hub_heap g !! h = Some hub -> held n ops ->
  let g' := foldl (ref_op r) g ops in
  hubs g' !! r = Some (mkEntry h (n + net ops)) /\ hub_heap g' = hub_heap g /\
  (forall r', r' <> r -> hubs g' !! r' = hubs g !! r') /\
  (n + net ops = 1 ->
     hubs (detach r g') !! r = None /\ hub_heap (detach r g') !! h = Some (hub <| h_stop := true |>) /\
     forall r', r' <> r -> hubs (detach r g') !! r' = hubs g !! r').
Proof.
  intros He Hh Hheld. cbv zeta.
  assert (hubs (foldl (ref_op r) g ops) !! r = Some (mkEntry h (n + net ops)) /\
    hub_heap (foldl (ref_op r) g ops) = hub_heap g /\
    (forall r', r' <> r -> hubs (foldl (ref_op r) g ops) !! r' = hubs g !! r')) as (H1 & H2 & H3).
  { revert g n He Hh Hheld. induction ops as [|b ops IH]; intros g n He Hh Hheld; cbn [foldl net].
    - split_and!; [by rewrite Z.add_0_r|done|done].
    - destruct Hheld as [Hn Hheld]. rewrite (ref_op_held r g h n b He Hn).
      destruct (IH (g <| hubs := <[r := mkEntry h (bump n b)]> (hubs g) |>)
        (bump n b)) as (H1 & H2 & H3);
        [cbn; by rewrite lookup_insert_eq|exact Hh|done|].
      rewrite H1, H2. split_and!; [unfold bump; by rewrite Z.add_assoc|done|].
      intros r' Hr'. rewrite H3 by done. cbn. by rewrite lookup_insert_ne. }
  split_and!; [exact H1|exact H2|exact H3|]. intros Hone. unfold detach. rewrite H1, Hone. cbn [e_refCount e_hub]. change (1 - 1 <=? 0) with true. cbv iota zeta.
  unfold signalStop. cbn. rewrite H2, Hh. cbn. split_and!.
  - by rewrite lookup_delete_eq.
  - by rewrite lookup_insert_eq.
  - intros r' Hr'. rewrite lookup_delete_ne by done. by apply H3.
Qed.

(** ** A hub that outlives its entry *)

(** [serveConn] of one connection, from its end to its [detach]. *)
Definition leaves (k : nat) : list GStep := [GReaderEnds k; GWriterDone k; GUnregister k; GDetach k].

(** A page reload: the only connection (1) of a race goes, the next one (3)
    attaches before the first hub (0) has run its deferred [onClose]; then a
    second client connects (5), and the reloaded page goes away. *)
Definition reload_then_second_client : list GStep :=
  [GAttach "R" None; GRegister 1] ++ leaves 1 ++
  [GAttach "R" None; GRegister 3; GSeeStop 0; GOnClose 0; GAttach "R" None; GRegister 5] ++
  leaves 3 ++ [GSeeStop 4; GWriterClosed 5; GWriterDrained 5].

(** [onClose] deletes the entry of its race whoever it belongs to, and
    [detach] goes by the race: after a page reload the old hub's [onClose] can
    take away the new hub's entry; the reloaded connection is then on a hub
    (2) that no [detach] ever stops, and when it leaves, it takes down the hub
    (4) of a client that is still connected - whose writer ends, and whose
    reader then publishes no disconnect, since it finds its hub closed. *)
Theorem orphaned_hub_stops_another :
  match g_run reload_then_second_client NewRaceHubRegistry with
  | Some g =>
      (h_stop <$> hub_heap g !! 2%nat) = Some false /\
      (h_closed <$> hub_heap g !! 4%nat) = Some true /\
      (k_phase <$> connections g !! 5%nat) = Some Serving /\
      (k_reading <$> connections g !! 5%nat) = Some true /\
      (k_writer <$> connections g !! 5%nat) = Some WriterEnded /\
      (k_cancelled <$> connections g !! 5%nat) = Some true /\
      hubs g !! "R" = None
  | None => False
  end.
Proof. vm_compute. split_and!; reflexivity. Qed.

(** ** Witnesses *)

Definition frame_of (s : string) : OutboundEnvelope := mkOutbound OutboundKindBroadcast "R" (Some (JStr s)).

Definition served : list GStep :=
  [GAttach "R" None; GRegister 1; GArrive 0 (frame_of "a"); GArrive 0 (frame_of "b");
   GReceive 0; GArrive 0 (mkOutbound OutboundKindRoomClosed "R" None); GReceive 0].

Definition demo_gateway : Gateway := default NewRaceHubRegistry (g_run served NewRaceHubRegistry).

Lemma demo_gateway_reachable : g_reachable demo_gateway.
Proof.
  unfold demo_gateway. destruct (g_run _ _) as [g|] eqn:Hrun; [|constructor].
  eapply g_reachable_run; [constructor|exact Hrun].
Qed.

Lemma delivery_in_order_witness :
  exists k h, connections demo_gateway !! 1%nat = Some k /\
    k_accepted k = [Some (JStr "a"); Some (JStr "b")] /\ sublist (k_accepted k) (drop (k_from k) (h_fanned h)).
Proof.
  destruct (connections demo_gateway !! 1%nat) as [k|] eqn:Hk; [|vm_compute in Hk; discriminate Hk].
  destruct (delivery_in_order demo_gateway 1 k demo_gateway_reachable Hk) as (h & _ & _ & _ & _ & Hs & _).
  exists k, h. split_and!; [done| |exact Hs]. vm_compute in Hk. injection Hk as <-. reflexivity.
Defined.

Definition closed_gateway : Gateway := default demo_gateway (g_exec (GReceive 0) demo_gateway).

Lemma closed_gateway_reachable : g_reachable closed_gateway.
Proof.
  unfold closed_gateway. destruct (g_exec _ _) as [g|] eqn:Hrun; [|apply demo_gateway_reachable].
  eapply g_step; [apply demo_gateway_reachable|exact Hrun].
Qed.

Lemma closing_drains_witness :
  exists ls g' k', (length ls <= 10)%nat /\ g_run ls closed_gateway = Some g' /\
    connections g' !! 1%nat = Some k' /\ k_written k' = [Some (JStr "a"); Some (JStr "b")].
Proof.
  destruct (connections closed_gateway !! 1%nat) as [k|] eqn:Hk; [|vm_compute in Hk; discriminate Hk].
  destruct (hub_heap closed_gateway !! 0%nat) as [h|] eqn:Hh; [|vm_compute in Hh; discriminate Hh].
  pose proof (closing_drains closed_gateway 1 k h closed_gateway_reachable Hk) as Hd.
  vm_compute in Hk, Hh. injection Hk as <-. injection Hh as <-.
  destruct Hd as (ls & g' & k' & Hls & Hrun & Hk' & Hw & _); [vm_compute; reflexivity|reflexivity..|].
  exists ls, g', k'. split_and!; [exact Hls|exact Hrun|exact Hk'|exact Hw].
Defined.

Lemma references_counted_witness :
  hubs (detach "R" (foldl (ref_op "R") closed_gateway [true; false])) !! "R" = None.
Proof.
  destruct (hub_heap closed_gateway !! 0%nat) as [h|] eqn:Hh; [|vm_compute in Hh; discriminate Hh].
  destruct (references_counted "R" closed_gateway 0 h 1 [true; false]) as (_ & _ & _ & H);
    [vm_compute; reflexivity|exact Hh|cbn; unfold bump; lia|]. apply H. reflexivity.
Defined.
