(* ===== verification/Endpoint.v ===== *)
(** * The WebSocket endpoint of the gateway ([internal/wsgateway/endpoint.go])

    The handshake and the reader of a connection; [RaceHub] has [serveConn], the
    writer and the fan-out.  [readLoop] is a function of what [conn.Read]
    returns, one entry per call. *)
From Stdlib Require Import ZArith.
From stdpp Require Import base list gmap sets strings.
From S2P Require Import Prelude GoNum GoStrings Json Events Protocol Http Store Locator Relay.
Local Open Scope string_scope.
Local Open Scope Z_scope.
Local Open Scope list_scope.

(** ** The handshake *)

(** What [ServeHTTP] does with a request: an [http.Error], an upgrade that
    [websocket.Accept] refuses, or a connection to serve. *)
Inductive Handshake :=
  | Rejected (status : Z) (msg : string)
  | NotUpgraded
  | Upgraded (raceID userID displayName : string).

Section handshake.
Context `{Jwt} `{Redis R}.

(** [sec] and [now] are the clock in seconds (for the token) and nanoseconds
    (for Redis); [c1], [c2] what happens to the two lookups, [accept] whether
    [websocket.Accept] succeeds. *)
Definition WSHandler_ServeHTTP (secret : string) (sec now : Z) (c1 c2 : Conn) (accept : bool)
    (raceID sessionToken : string) (s : Shared (R := R)) : Handshake :=
  match verifySessionToken secret sec sessionToken with
  | None => Rejected 401 "unauthorized"
  | Some (userID, tokenRaceID) =>
      if negb (String.eqb tokenRaceID raceID) then Rejected 401 "unauthorized" else
      match Owner c1 now raceID s with
      | inr _ => Rejected 503 "routing lookup failed"
      | inl None => Rejected 404 "race not found"
      | inl (Some _) =>
          match IsEvicted c2 raceID userID s with
          | inr _ => Rejected 503 "routing lookup failed"
          | inl true => Rejected 401 "unauthorized"
          | inl false => if accept then Upgraded raceID userID userID else NotUpgraded
          end
      end
  end.
End handshake.

(** ** The reader *)

(** A call of [conn.Read]: a frame ([None] for bytes that are no document) with
    the state of the connection's context and of the bus when it is published,
    or an error, with whether the hub is closed by then. *)
Inductive ReadResult :=
  | ReadFrame (data : option json) (ctx_err : option error) (bus : Conn)
  | ReadErr (hubClosed : bool) (bus : Conn).

Inductive ReadEnd := StillReading | HubWasClosed | Disconnected | LeftRace.

Section reader.
Context (raceID userID displayName : string).

Definition message_envelope (data : option json) : InboundEnvelope :=
  mkInbound InboundKindMessage raceID userID displayName data.

Definition disconnected_envelope : InboundEnvelope :=
  mkInbound InboundKindDisconnected raceID userID displayName None.

Fixpoint readLoop (reads : list ReadResult) (n : Nats) : Nats * ReadEnd :=
  match reads with
  | [] => (n, StillReading)
  | ReadErr hubClosed c :: _ =>
      if hubClosed then (n, HubWasClosed)
      else (fst (PublishIn None c raceID disconnected_envelope n), Disconnected)
  | ReadFrame data ctx_err c :: reads' =>
      match DecodeClientMessage data with
      | inr _ => readLoop reads' n
      | inl msg =>
          match PublishIn ctx_err c raceID (message_envelope data) n with
          | (n', inr _) => readLoop reads' n'
          | (n', inl ()) =>
              if String.eqb (Type_ msg) "leave_race" then (n', LeftRace) else readLoop reads' n'
          end
      end
  end.
End reader.

(** ** Facts *)

Section handshake_facts.
Context `{Jwt} `{Redis R}.

Lemma upgraded_iff secret sec now accept raceID token (s : Shared (R := R)) u d r :
  WSHandler_ServeHTTP secret sec now Up Up accept raceID token s = Upgraded r u d <->
  r = raceID /\ d = u /\ verifySessionToken secret sec token = Some (u, raceID) /\
  is_Some (live (redis s) now (roomKey raceID)) /\ (u ∉ members (redis s) (evictedKey raceID)) /\
  accept = true.
Proof.
  unfold WSHandler_ServeHTTP. destruct (verifySessionToken secret sec token) as [[u' r']|]; [|naive_solver].
  destruct (String.eqb_spec r' raceID) as [->|Hne]; simpl; [|naive_solver].
  unfold Owner, IsEvicted. rewrite get_spec, sismember_spec. simpl.
  destruct (live _ _ _) as [v|]; simpl; [|split; [done|by intros (_ & _ & _ & [? ?] & _)]].
  case_bool_decide as Hev; [naive_solver|]. destruct accept; naive_solver.
Qed.

(** C24: who gets a connection: exactly those with a valid session token of this
    race, while an instance owns the race and the user is not marked evicted;
    the connection is that of the token's user.  When Redis cannot be asked, the
    handshake fails closed.  And an eviction is final: once [MarkEvicted] has
    reached Redis, the evicted user's handshakes for that race are refused. *)
Theorem handshake_gate secret sec now accept raceID token (s : Shared (R := R)) u d r :
  (WSHandler_ServeHTTP secret sec now Up Up accept raceID token s = Upgraded r u d <->
   r = raceID /\ d = u /\ verifySessionToken secret sec token = Some (u, raceID) /\
   is_Some (live (redis s) now (roomKey raceID)) /\ (u ∉ members (redis s) (evictedKey raceID)) /\
   accept = true) /\
  (forall c1 c2 e, c1 = Failed e \/ (c1 = Up /\ c2 = Failed e) ->
     WSHandler_ServeHTTP secret sec now c1 c2 accept raceID token s <> Upgraded r u d) /\
  WSHandler_ServeHTTP secret sec now Up Up accept raceID token (fst (MarkEvicted Up raceID u s)) <> Upgraded r u d.
Proof.
  split_and!; [apply upgraded_iff| |].
  - intros c1 c2 e Hc. unfold WSHandler_ServeHTTP, Owner, IsEvicted.
    destruct (verifySessionToken secret sec token) as [[u' r']|]; [|done].
    destruct (String.eqb r' raceID); [|done]. simpl. destruct Hc as [->|[-> ->]].
    + by rewrite failed_get.
    + rewrite get_spec, failed_sismember. by destruct (live _ _ _).
  - rewrite upgraded_iff. intros (_ & _ & _ & _ & Hin & _). apply Hin.
    unfold MarkEvicted. destruct (sadd_spec (evictedKey raceID) u (redis s)) as (r' & -> & _ & Hm & _).
    cbn. rewrite Hm. set_solver.
Qed.
End handshake_facts.

(** ** From the socket to the room *)

Section reader_facts.
Context (oob : float64 -> Z) (raceID userID displayName : string).

(** The specification of [readLoop] composed with the bus and the adapter of
    the room side: the room events of a connection. *)
Definition reached (ctx_err : option error) (c : Conn) : bool :=
  match ctx_err, c with None, (Up | Lost _) => true | _, _ => false end.

Definition acknowledged (ctx_err : option error) (c : Conn) : bool :=
  match ctx_err, c with None, Up => true | _, _ => false end.

Definition frame_event (m : ClientMessage) : list RoomEvent :=
  match ToRoomEvent oob m userID displayName with inl ev => [ev] | inr _ => [] end.

Fixpoint events_of (reads : list ReadResult) : list RoomEvent :=
  match reads with
  | [] => []
  | ReadErr hubClosed c :: _ =>
      if negb hubClosed && reached None c then [ParticipantDisconnected userID] else []
  | ReadFrame data ctx_err c :: reads' =>
      match DecodeClientMessage data with
      | inr _ => events_of reads'
      | inl m =>
          (if reached ctx_err c then frame_event m else []) ++
          (if acknowledged ctx_err c && String.eqb (Type_ m) "leave_race" then [] else events_of reads')
      end
  end.

Lemma PublishIn_cases ctx_err c env n :
  PublishIn ctx_err c raceID env n =
    (if reached ctx_err c then n ++ [(inSubject raceID, marshal_Inbound env)] else n,
     if acknowledged ctx_err c then inl () else
       inr (match ctx_err, c with Some e, _ => e | None, Failed e | None, Lost e => "roomrelay: publish " +:+ inSubject raceID +:+ ": " +:+ e | None, Up => "" end)).
Proof. unfold PublishIn, publish_nats. by destruct ctx_err, c. Qed.

Lemma room_SubscribeIn_snoc raceID' env n :
  room_SubscribeIn oob raceID' (n ++ [(inSubject raceID, marshal_Inbound env)]) =
  room_SubscribeIn oob raceID' n ++
    (if String.eqb raceID raceID' then match toRoomEvent oob env with Some ev => [ev] | None => [] end else []).
Proof.
  unfold room_SubscribeIn.
  destruct (SubscribeIn_publish raceID raceID' Up env n (n ++ [(inSubject raceID, marshal_Inbound env)]) eq_refl)
    as [-> _].
  rewrite omap_app. destruct (String.eqb raceID raceID'); [|done]. cbn. by destruct (toRoomEvent oob env).
Qed.

Lemma toRoomEvent_message data m :
  DecodeClientMessage data = inl m ->
  match toRoomEvent oob (message_envelope raceID userID displayName data) with Some ev => [ev] | None => [] end =
  frame_event m.
Proof.
  intros Hd. unfold toRoomEvent, message_envelope, frame_event. cbn. rewrite Hd.
  by destruct (ToRoomEvent oob m userID displayName).
Qed.

(** The loop only appends to what NATS was given. *)
Lemma readLoop_app reads n :
  readLoop raceID userID displayName reads n =
  (n ++ fst (readLoop raceID userID displayName reads []), snd (readLoop raceID userID displayName reads [])).
Proof.
  revert n. induction reads as [|[data ctx_err c|hubClosed c] reads IH]; intros n; cbn [readLoop].
  - by rewrite app_nil_r.
  - destruct (DecodeClientMessage data); [|apply IH]. rewrite !PublishIn_cases.
    set (m := (inSubject raceID, _)). set (n1 := if reached ctx_err c then n ++ [m] else n).
    set (n2 := if reached ctx_err c then [] ++ [m] else []).
    assert (Hn : n1 = n ++ n2) by (unfold n1, n2; destruct (reached ctx_err c); [done|by rewrite app_nil_r]).
    clearbody n1 n2. subst n1.
    assert (Hgo : readLoop raceID userID displayName reads (n ++ n2) =
      (n ++ fst (readLoop raceID userID displayName reads n2), snd (readLoop raceID userID displayName reads n2))).
    { by rewrite (IH (n ++ n2)), (IH n2), <-app_assoc. }
    destruct (acknowledged ctx_err c); [destruct (String.eqb _ _)|]; done.
  - destruct hubClosed; cbn [fst snd]; [by rewrite app_nil_r|]. rewrite !PublishIn_cases. cbn [fst].
    destruct (reached None c); [done|by rewrite app_nil_r].
Qed.

(** One call of [conn.Read] more. *)
Lemma readLoop_snoc reads r n :
  readLoop raceID userID displayName (reads ++ [r]) n =
  match readLoop raceID userID displayName reads n with
  | (n', StillReading) => readLoop raceID userID displayName [r] n'
  | (n', en) => (n', en)
  end.
Proof.
  revert n. induction reads as [|[data ctx_err c|hubClosed c] reads IH]; intros n; [done| |].
  - rewrite <-app_comm_cons. cbn [readLoop]. destruct (DecodeClientMessage data); [|apply IH]. rewrite !PublishIn_cases.
    destruct (acknowledged ctx_err c); [destruct (String.eqb _ _); [done|]|]; apply IH.
  - rewrite <-app_comm_cons. cbn [readLoop]. by destruct hubClosed.
Qed.

(** What has been said stays said. *)
Lemma events_of_app reads more : exists evs, events_of (reads ++ more) = events_of reads ++ evs.
Proof.
  induction reads as [|[data ctx_err c|hubClosed c] reads (evs & IH)]; [by exists (events_of more)| |].
  - rewrite <-app_comm_cons. cbn [events_of]. destruct (DecodeClientMessage data); [|by exists evs].
    destruct (_ && _); [exists []; by rewrite !app_nil_r|]. exists evs. by rewrite IH, app_assoc.
  - rewrite <-app_comm_cons. cbn [events_of]. exists []. by rewrite app_nil_r.
Qed.

(** What a connection makes of a room, end to end: whatever the client sends
    and however publishing fares, the room's instance receives from it exactly
    the events of the frames that decode and reach the bus, in order, all for
    the connection's own user; after an acknowledged [leave_race] nothing more;
    and when reading fails before the room was closed, one final disconnect -
    and the other races' rooms receive nothing of it. *)
Theorem connection_to_room reads n :
  let n' := fst (readLoop raceID userID displayName reads n) in
  room_SubscribeIn oob raceID n' = room_SubscribeIn oob raceID n ++ events_of reads /\
  (forall raceID', raceID' <> raceID -> room_SubscribeIn oob raceID' n' = room_SubscribeIn oob raceID' n) /\
  Forall (fun ev => event_user ev = Some userID) (events_of reads).
Proof.
  revert n. induction reads as [|[data ctx_err c|hubClosed c] reads IH]; intros n; cbn [readLoop events_of].
  - split_and!; [by rewrite app_nil_r|done|constructor].
  - destruct (DecodeClientMessage data) as [m|e] eqn:Hd; [|apply IH].
    rewrite PublishIn_cases.
    assert (Hmine : forall raceID', room_SubscribeIn oob raceID'
      (if reached ctx_err c then n ++ [(inSubject raceID, marshal_Inbound (message_envelope raceID userID displayName data))] else n) =
      room_SubscribeIn oob raceID' n ++
        (if String.eqb raceID raceID' then (if reached ctx_err c then frame_event m else []) else [])).
    { intros raceID'. destruct (reached ctx_err c).
      - rewrite room_SubscribeIn_snoc, (toRoomEvent_message _ _ Hd). done.
      - destruct (String.eqb raceID raceID'); by rewrite app_nil_r. }
    assert (Huser : Forall (fun ev => event_user ev = Some userID) (if reached ctx_err c then frame_event m else [])).
    { destruct (reached ctx_err c); [|constructor]. unfold frame_event, ToRoomEvent.
      repeat case_match; simplify_eq; by repeat constructor. }
    set (nn := if reached ctx_err c then _ else n) in *.
    destruct (IH nn) as (H1 & H2 & H3).
    assert (Hgo : room_SubscribeIn oob raceID (fst (readLoop raceID userID displayName reads nn)) =
        room_SubscribeIn oob raceID n ++ (if reached ctx_err c then frame_event m else []) ++ events_of reads).
    { by rewrite H1, Hmine, String.eqb_refl, app_assoc. }
    assert (Hoth : forall raceID', raceID' <> raceID -> room_SubscribeIn oob raceID' nn = room_SubscribeIn oob raceID' n).
    { intros raceID' Hne. rewrite Hmine. rewrite (proj2 (String.eqb_neq raceID raceID')) by done. by rewrite app_nil_r. }
    destruct (acknowledged ctx_err c); cbn [andb]; [destruct (String.eqb (Type_ m) "leave_race")|]; cbn [fst].
    + rewrite app_nil_r. split_and!; [by rewrite Hmine, String.eqb_refl|done|done].
    + split_and!; [exact Hgo| |by apply Forall_app].
      intros raceID' Hne. by rewrite H2, Hoth.
    + split_and!; [exact Hgo| |by apply Forall_app].
      intros raceID' Hne. by rewrite H2, Hoth.
  - destruct hubClosed; cbn [negb andb]; [split_and!; [by rewrite app_nil_r|done|constructor]|].
    rewrite PublishIn_cases. cbn [fst]. destruct (reached None c).
    + split_and!.
      * by rewrite room_SubscribeIn_snoc, String.eqb_refl.
      * intros raceID' Hne. rewrite room_SubscribeIn_snoc.
        rewrite (proj2 (String.eqb_neq raceID raceID')) by done. by rewrite app_nil_r.
      * by repeat constructor.
    + split_and!; [by rewrite app_nil_r|done|constructor].
Qed.
End reader_facts.

(** ** Witnesses *)

(** Redis with race1 owned by instance "a". *)
Definition demo_shared : Shared :=
  fst (Claim "a" Up Up 0 "race1" (mkShared (mkMemRedis ∅ ∅) [])).

Lemma handshake_gate_witness :
  WSHandler_ServeHTTP "k" 2000 5 Up Up true "race1" "sk" demo_shared = Upgraded "race1" "u1" "u1" /\
  WSHandler_ServeHTTP "k" 2000 5 (Failed "down") Up true "race1" "sk" demo_shared <> Upgraded "race1" "u1" "u1".
Proof.
  destruct (handshake_gate (H := demo_jwt) "k" 2000 5 true "race1" "sk" demo_shared "u1" "u1" "race1")
    as (H1 & H2 & _). split; [|apply (H2 (Failed "down") Up "down"); by left].
  apply H1. split_and!; [reflexivity|reflexivity|reflexivity|vm_compute; by eexists|vm_compute; discriminate|reflexivity].
Defined.

(** A connection that joins, sends rubbish, and drops. *)
Definition demo_reads : list ReadResult :=
  [ReadFrame (Some (JObj [("type", JStr "join_race")])) None Up; ReadFrame None None Up; ReadErr false Up].

Lemma connection_to_room_witness :
  room_SubscribeIn (fun _ => 0) "R" (fst (readLoop "R" "u1" "u1" demo_reads [])) =
    [ParticipantJoined "u1" "u1"; ParticipantDisconnected "u1"] /\
  room_SubscribeIn (fun _ => 0) "Q" (fst (readLoop "R" "u1" "u1" demo_reads [])) = [].
Proof.
  destruct (connection_to_room (fun _ => 0) "R" "u1" "u1" demo_reads []) as (H1 & H2 & _).
  split; [exact H1|]. apply (H2 "Q"). discriminate.
Defined.
