(* ===== verification/GatewayProxy.v ===== *)
(** * The REST proxy of the gateway ([internal/wsgateway/gateway.go],
    [k8s_discovery.go], [discovery.go], [healthz.go], [config.go])

    Which backend a request goes to: the race in its path, the routing cache in
    front of the locator, the round robin over the discovered pool; and the
    health checks.  Times are in nanoseconds. *)
From Stdlib Require Import ZArith Ascii.
From stdpp Require Import base list gmap sets strings pretty.
From S2P Require Import Prelude GoNum GoStrings Json Http Store Locator.
Local Open Scope string_scope.
Local Open Scope Z_scope.
Local Open Scope list_scope.

(** ** The race of a path *)

Definition races_prefix : string := "/races/".

(** [strings.Cut(s, "/")], its first result. *)
Fixpoint cut_slash (s : string) {struct s} : string :=
  match s with
  | EmptyString => EmptyString
  | String c s' => if Ascii.eqb c "/" then EmptyString else String c (cut_slash s')
  end.

(** [extractRaceID]: [None] is a request without a room. *)
Definition extractRaceID (path : string) : option string :=
  if negb (has_prefix path races_prefix) then None else
  let rest := trim_prefix path races_prefix in
  if String.eqb rest "" then None else
  let raceID := cut_slash rest in
  if String.eqb raceID "" then None else Some raceID.

(** ** Targets *)

Record cacheEntry := mkCacheEntry { ce_instance : string; ce_expiresAt : Z }.

(** [Gateway]: the routing cache and the round-robin counter, a [uint64]. *)
Record Routing := mkRouting { cache : gmap string cacheEntry; next : Z }.

#[export] Instance eta_Routing : Eta Routing := fun g => mkRouting (cache g) (next g).

Definition NewGateway : Routing := mkRouting ∅ 0.

Definition put_cache (raceID instance : string) (expiresAt : Z) (g : Routing) : Routing :=
  g <| cache := <[raceID := mkCacheEntry instance expiresAt]> (cache g) |>.

Section routing.
Context (cacheTTL : Z).

(** [resolveTarget]: [owner] is what [Owner] answers if it is asked, [now] the
    clock before and [now'] the clock after that. *)
Definition resolveTarget (now now' : Z) (owner : option string + error) (raceID : string) (g : Routing)
    : Routing * (option string + error) :=
  let lookup :=
    match owner with
    | inr e => (g, inr e)
    | inl None => (g, inl None)
    | inl (Some instanceID) => (put_cache raceID instanceID (now' + cacheTTL) g, inl (Some instanceID))
    end in
  match cache g !! raceID with
  | Some entry => if now <? ce_expiresAt entry then (g, inl (Some (ce_instance entry))) else lookup
  | None => lookup
  end.

(** [nextBackend] *)
Definition nextBackend (backends : list string) (g : Routing) : Routing * (string + error) :=
  if bool_decide (length backends = 0%nat) then (g, inr "wsgateway: no backends available") else
  let n := wrapu64 (next g + 1) in
  (g <| next := n |>,
   match backends !! Z.to_nat ((wrapu64 (n - 1)) mod Z.of_nat (length backends)) with
   | Some b => inl b
   | None => inr "index out of range"
   end).

(** What [ServeHTTP] answers itself, or the host [Director] sends it to. *)
Inductive Routed := Answered (status : Z) (msg : string) | Proxied (host : string).

Definition Gateway_ServeHTTP (now now' : Z) (owner : string -> option string + error) (backends : list string)
    (path : string) (g : Routing) : Routing * Routed :=
  match extractRaceID path with
  | None =>
      match nextBackend backends g with
      | (g', inl addr) => (g', Proxied addr)
      | (g', inr _) => (g', Answered 503 "routing lookup failed")
      end
  | Some raceID =>
      match resolveTarget now now' (owner raceID) raceID g with
      | (g', inr _) => (g', Answered 503 "routing lookup failed")
      | (g', inl None) => (g', Answered 404 "race not found")
      | (g', inl (Some addr)) => (g', Proxied addr)
      end
  end.

(** One iteration of [WatchRoomEvents]. *)
Definition watch_event (now : Z) (ev : LocatorEvent) (g : Routing) : Routing :=
  if String.eqb (le_Type ev) RoomEventCreated
  then put_cache (le_RaceID ev) (le_InstanceID ev) (now + cacheTTL) g
  else if String.eqb (le_Type ev) RoomEventRemoved then g <| cache := delete (le_RaceID ev) (cache g) |>
  else g.
End routing.

(** ** Discovery *)

(** What [recompute] reads of an [EndpointSlice]. *)
Record Endpoint := mkEndpoint { ep_Ready : option bool; ep_Addresses : list string }.
Record EndpointSlice := mkSlice { sl_Ports : list (option Z); sl_Endpoints : list Endpoint }.

(** [fmt.Sprintf("%s:%d", address, port)] *)
Definition host_port (address : string) (port : Z) : string := address +:+ ":" +:+ pretty port.

Definition ready (ep : Endpoint) : bool :=
  match ep_Ready ep with Some false => false | _ => true end.

(** [recompute]: the pool, in the order of the store; [None] is an object that
    is no [EndpointSlice]. *)
Definition recompute (store : list (option EndpointSlice)) : list string :=
  mjoin ((fun obj =>
    match obj with
    | Some (mkSlice (Some port :: _) eps) =>
        omap (fun ep => if ready ep then
                          match ep_Addresses ep with a :: _ => Some (host_port a port) | [] => None end
                        else None) eps
    | _ => []
    end) <$> store).

(** ** Health *)

(** [NewHealthzHandler]: [synced] is [None] for a discovery without an initial
    synchronisation. *)
Definition Healthz (shuttingDown : bool) (synced : option bool) (redis_ok nats_connected : bool) : Z * string :=
  if shuttingDown then (503, "shutting_down")
  else if bool_decide (synced = Some false) then (503, "backend_discovery_not_synced")
  else if negb redis_ok then (503, "redis_unreachable")
  else if negb nats_connected then (503, "nats_unreachable")
  else (200, "ok").

Definition Livez : Z * string := (200, "ok").

(** ** Configuration ([config.go]) *)

Definition getEnv (env : string -> string) (key fallback : string) : string :=
  if String.eqb (env key) "" then fallback else env key.

(** [strconv.ParseBool] *)
Definition ParseBool (s : string) : option bool :=
  if bool_decide (s ∈ ["1"; "t"; "T"; "TRUE"; "true"; "True"]) then Some true
  else if bool_decide (s ∈ ["0"; "f"; "F"; "FALSE"; "false"; "False"]) then Some false
  else None.

Definition getEnvBool (env : string -> string) (key : string) (fallback : bool) : bool :=
  default fallback (ParseBool (env key)).

(** [splitAndTrim] *)
Definition splitAndTrim (s : string) : list string :=
  if String.eqb s "" then [] else
  List.filter (fun p => negb (String.eqb p "")) (trim_space <$> split_on "," s).

(** [LoadConfig]'s check of [RACE_SERVICE_INSTANCES]. *)
Definition config_backends (env : string -> string) : list string + error :=
  let backends := splitAndTrim (env "RACE_SERVICE_INSTANCES") in
  if bool_decide (length backends = 0%nat) then inr "wsgateway: RACE_SERVICE_INSTANCES is required"
  else inl backends.

(** ** Facts *)

Definition no_slash (s : string) : Prop :=
  Forall (fun c => Ascii.eqb c "/" = false) (String.list_ascii_of_string s).

Lemma cut_slash_app id tail :
  no_slash id -> cut_slash (id +:+ String "/" tail) = id /\ cut_slash id = id.
Proof.
  induction id as [|c id IH]; intros Hid; [done|]. inversion Hid as [|? ? Hc Hid']; subst.
  destruct (IH Hid') as [IH1 IH2].
  change (String c id +:+ String "/" tail) with (String c (id +:+ String "/" tail)).
  simpl. by rewrite Hc, IH1, IH2.
Qed.

Lemma cut_slash_spec s : no_slash (cut_slash s) /\
  (s = cut_slash s \/ exists tail, s = cut_slash s +:+ String "/" tail).
Proof.
  induction s as [|c s [IH1 IH2]]; simpl; [split; [constructor|by left]|].
  destruct (Ascii.eqb_spec c "/") as [->|Hc]; [split; [constructor|right; by exists s]|].
  split; [by constructor; [apply Ascii.eqb_neq|]|]. destruct IH2 as [IH2|[tail IH2]].
  - left. by f_equal.
  - right. exists tail. change (String c s = String c (cut_slash s +:+ String "/" tail)). by f_equal.
Qed.

Lemma extractRaceID_iff path id :
  extractRaceID path = Some id <->
  id <> "" /\ no_slash id /\
  (path = races_prefix +:+ id \/ exists tail, path = races_prefix +:+ id +:+ String "/" tail).
Proof.
  unfold extractRaceID. split.
  - destruct (has_prefix path races_prefix) eqn:Hp; [|done]. simpl.
    apply has_prefix_spec in Hp as [rest ->]. rewrite trim_prefix_app.
    destruct (String.eqb_spec rest "") as [->|Hr]; [done|].
    destruct (String.eqb_spec (cut_slash rest) "") as [Hc|Hc]; [done|].
    intros Heq. injection Heq as <-. destruct (cut_slash_spec rest) as [Hn Hs].
    split_and!; [done|done|]. destruct Hs as [<-|[tail Hs]]; [by left|right]. exists tail. by rewrite <- Hs.
  - intros (Hne & Hn & Hpath).
    assert (exists rest, path = races_prefix +:+ rest /\ cut_slash rest = id /\ rest <> "") as (rest & -> & Hcut & Hr).
    { destruct Hpath as [->|[tail ->]]; eexists; (split; [done|]); split; try done.
      - by apply (cut_slash_app id "").
      - by apply cut_slash_app.
      - by destruct id. }
    rewrite has_prefix_app, trim_prefix_app. cbn [negb]. cbv zeta.
    rewrite (proj2 (String.eqb_neq rest "")) by done. rewrite Hcut.
    by rewrite (proj2 (String.eqb_neq id "")) by done.
Qed.

(** The race of a request: exactly the paths [/races/ID] and [/races/ID/...],
    with a non-empty [ID] that holds no slash, are routed by the owner of [ID];
    every other path - [/races], [/races/], anything else - goes to any backend. *)
Theorem extractRaceID_spec path id :
  extractRaceID path = Some id <->
  id <> "" /\ no_slash id /\
  (path = races_prefix +:+ id \/ exists tail, path = races_prefix +:+ id +:+ String "/" tail).
Proof. apply extractRaceID_iff. Qed.

Section routing_facts.
Context (cacheTTL : Z).

(** C25: the routing cache: after the locator has answered with an owner, that
    answer is used - without asking again, whatever the locator would say, even
    that it failed - for exactly [cacheTTL]; from then on, or as soon as a
    "removed" event has been seen, the locator decides again; a "created" event
    has the effect of an answer; and no other race's answer is touched. *)
Theorem cache_window now now' inst raceID g :
  let g1 := put_cache raceID inst (now + cacheTTL) g in
  (forall t, (forall e, cache g !! raceID = Some e -> ce_expiresAt e <= t) ->
     resolveTarget cacheTTL t now (inl (Some inst)) raceID g = (g1, inl (Some inst))) /\
  watch_event cacheTTL now (mkLocatorEvent RoomEventCreated raceID inst) g = g1 /\
  (forall t owner, t < now + cacheTTL ->
     resolveTarget cacheTTL t now' owner raceID g1 = (g1, inl (Some inst))) /\
  (forall t owner, now + cacheTTL <= t -> snd (resolveTarget cacheTTL t now' owner raceID g1) = owner) /\
  (forall t t0 owner by_, snd (resolveTarget cacheTTL t now' owner raceID
     (watch_event cacheTTL t0 (mkLocatorEvent RoomEventRemoved raceID by_) g1)) = owner) /\
  (forall t owner raceID', raceID' <> raceID ->
     snd (resolveTarget cacheTTL t now' owner raceID' g1) = snd (resolveTarget cacheTTL t now' owner raceID' g)).
Proof.
  intros g1. unfold resolveTarget, g1, put_cache. split_and!.
  - intros t Hexp. destruct (cache g !! raceID) as [e|] eqn:He; [|done].
    by rewrite (proj2 (Z.ltb_ge _ _)) by (by apply Hexp).
  - done.
  - intros t owner Ht. cbn. rewrite lookup_insert_eq. cbn. by rewrite (proj2 (Z.ltb_lt _ _)) by lia.
  - intros t owner Ht. cbn. rewrite lookup_insert_eq. cbn. rewrite (proj2 (Z.ltb_ge _ _)) by lia.
    by destruct owner as [[o|]|e].
  - intros t t0 owner by_. cbn. rewrite lookup_delete_eq. by destruct owner as [[o|]|e].
  - intros t owner raceID' Hne. cbn. rewrite lookup_insert_ne by done.
    destruct (cache g !! raceID') as [e|]; [destruct (t <? _); [done|]|]; by destruct owner as [[o|]|err].
Qed.
End routing_facts.

(** Successive room-less requests. *)
Fixpoint round_robin (n : nat) (backends : list string) (g : Routing) : Routing * list (string + error) :=
  match n with
  | O => (g, [])
  | S n' =>
      let '(g1, b) := nextBackend backends g in
      let '(g2, bs) := round_robin n' backends g1 in (g2, b :: bs)
  end.

Lemma nextBackend_at backends g b :
  0 <= next g -> next g + 1 < 18446744073709551616 -> backends !! Z.to_nat (next g mod Z.of_nat (length backends)) = Some b ->
  nextBackend backends g = (g <| next := next g + 1 |>, inl b).
Proof.
  intros H0 Hw Hb. unfold nextBackend.
  assert (length backends <> 0%nat) as Hl.
  { intros Hl. apply nil_length_inv in Hl. by subst. }
  rewrite bool_decide_false by done. unfold wrapu64.
  rewrite (Z.mod_small (next g + 1)) by lia.
  replace (next g + 1 - 1) with (next g) by lia.
  rewrite (Z.mod_small (next g) 18446744073709551616) by lia. by rewrite Hb.
Qed.

(** The backend of the [i]-th request from counter [c] on. *)
Lemma round_robin_nth n backends g :
  (0 < length backends)%nat -> 0 <= next g -> next g + Z.of_nat n < 18446744073709551616 ->
  next (fst (round_robin n backends g)) = next g + Z.of_nat n /\
  snd (round_robin n backends g) =
    (fun i => match backends !! Z.to_nat ((next g + Z.of_nat i) mod Z.of_nat (length backends)) with
              | Some b => inl b | None => inr "" end) <$> seq 0 n.
Proof.
  revert g. induction n as [|n IH]; intros g Hl H0 Hw; [simpl; split; [lia|done]|].
  cbn [round_robin].
  destruct (lookup_lt_is_Some_2 backends (Z.to_nat (next g mod Z.of_nat (length backends)))) as [b Hb].
  { pose proof (Z.mod_pos_bound (next g) (Z.of_nat (length backends)) ltac:(lia)). lia. }
  rewrite (nextBackend_at backends g b) by (done || lia).
  destruct (IH (g <| next := next g + 1 |>)) as [Hn Hs]; [done|cbn; lia|cbn; lia|].
  destruct (round_robin n backends _) as [g2 bs]. cbn in Hn, Hs |- *. split; [lia|].
  rewrite Z.add_0_r, Hb. f_equal. rewrite Hs, <- fmap_S_seq, <- list_fmap_compose.
  apply list_fmap_ext. intros i x _. simpl. do 3 f_equal. by replace (next g + 1 + Z.of_nat x) with (next g + Z.of_nat (S x)) by lia.
Qed.

Lemma mod_window_inj k c i j : 0 < k -> 0 <= i < k -> 0 <= j < k ->
  (c + i) mod k = (c + j) mod k -> i = j.
Proof.
  intros Hk Hi Hj Heq. rewrite (Z.add_mod c i), (Z.add_mod c j) in Heq by lia.
  rewrite (Z.mod_small i), (Z.mod_small j) in Heq by lia.
  pose proof (Z.mod_pos_bound c k Hk) as Hc. set (a := c mod k) in *.
  destruct (Z.lt_ge_cases (a + i) k), (Z.lt_ge_cases (a + j) k);
    rewrite ?(Z.mod_small (a + i)), ?(Z.mod_small (a + j)) in Heq by lia; try lia;
    rewrite <- ?(Z_mod_plus_full (a + i) (-1)), <- ?(Z_mod_plus_full (a + j) (-1)) in Heq;
    rewrite ?(Z.mod_small (a + i + -1 * k)), ?(Z.mod_small (a + j + -1 * k)) in Heq by lia; lia.
Qed.

(** Round robin: as many consecutive room-less requests as there are backends
    reach every backend exactly once, from whatever counter they start (short of
    the wrap-around of the 64-bit counter); an empty pool is an error, and
    leaves the counter alone. *)
Theorem round_robin_fair backends g :
  0 <= next g -> next g + Z.of_nat (length backends) < 18446744073709551616 ->
  snd (round_robin (length backends) backends g) ≡ₚ inl <$> backends /\
  nextBackend [] g = (g, inr "wsgateway: no backends available").
Proof.
  intros H0 Hw. split; [|done]. destruct (decide (length backends = 0%nat)) as [Hl|Hl].
  { apply nil_length_inv in Hl. by subst. }
  destruct (round_robin_nth (length backends) backends g) as [_ ->]; [lia|done|done|].
  set (k := length backends) in *.
  set (idx := fun i => Z.to_nat ((next g + Z.of_nat i) mod Z.of_nat k)).
  assert (Hperm : idx <$> seq 0 k ≡ₚ seq 0 k).
  { apply Permutation_sym, submseteq_length_Permutation; [|by rewrite length_fmap].
    apply NoDup_submseteq; [apply NoDup_seq|]. intros x Hx%elem_of_seq.
    assert (Hsub : idx <$> seq 0 k ⊆+ seq 0 k).
    { apply NoDup_submseteq.
      - apply NoDup_fmap_2_strong; [|apply NoDup_seq].
        intros i j Hi%elem_of_seq Hj%elem_of_seq Hij. unfold idx in Hij.
        apply (f_equal Z.of_nat) in Hij.
        pose proof (Z.mod_pos_bound (next g + Z.of_nat i) (Z.of_nat k) ltac:(lia)).
        pose proof (Z.mod_pos_bound (next g + Z.of_nat j) (Z.of_nat k) ltac:(lia)).
        rewrite !Z2Nat.id in Hij by lia. apply mod_window_inj in Hij; lia.
      - intros y (i & -> & Hi)%list_elem_of_fmap. apply elem_of_seq. unfold idx.
        pose proof (Z.mod_pos_bound (next g + Z.of_nat i) (Z.of_nat k) ltac:(lia)). lia. }
    apply submseteq_length_Permutation in Hsub; [|by rewrite length_fmap].
    rewrite Hsub. apply elem_of_seq. lia. }
  trans ((fun i => match backends !! i with Some b => inl b | None => inr "" end) <$> (idx <$> seq 0 k)).
  { by rewrite <- list_fmap_compose. }
  rewrite Hperm. clear. subst k.
  match goal with |- ?l ≡ₚ ?r => assert (l = r) as ->; [|done] end. apply list_eq. intros i.
  rewrite !list_lookup_fmap. destruct (decide (i < length backends)%nat) as [Hi|Hi].
  - rewrite lookup_seq_lt by done. simpl. destruct (lookup_lt_is_Some_2 backends i Hi) as [b Hb]. by rewrite Hb.
  - rewrite lookup_seq_ge by lia. rewrite lookup_ge_None_2 by lia. done.
Qed.

(** Discovery keeps exactly the endpoints that can serve: an address is in
    the pool if and only if a slice of the store lists it first for an endpoint
    not explicitly unready, under the slice's first port. *)
Theorem recompute_spec store b :
  b ∈ recompute store <->
  exists port ports eps ep a addrs, Some (mkSlice (Some port :: ports) eps) ∈ store /\ ep ∈ eps /\
    ep_Ready ep <> Some false /\ ep_Addresses ep = a :: addrs /\ b = host_port a port.
Proof.
  unfold recompute. rewrite list_elem_of_join. split.
  - intros (l & Hb & Hl). apply list_elem_of_fmap in Hl as (obj & -> & Hobj).
    destruct obj as [[[|[port|] ports] eps]|]; try by apply elem_of_nil in Hb.
    apply list_elem_of_omap in Hb as (ep & Hep & Hb).
    unfold ready in Hb. destruct (ep_Addresses ep) as [|a addrs] eqn:Ha;
      [by destruct (ep_Ready ep) as [[]|]|].
    exists port, ports, eps, ep, a, addrs. destruct (ep_Ready ep) as [[]|]; simplify_eq; split_and!; done.
  - intros (port & ports & eps & ep & a & addrs & Hs & Hep & Hr & Ha & ->).
    eexists. split; [|apply list_elem_of_fmap; eexists; split; [reflexivity|exact Hs]].
    apply list_elem_of_omap. exists ep. split; [done|]. unfold ready. rewrite Ha.
    by destruct (ep_Ready ep) as [[]|].
Qed.

(** ** Witnesses *)

Lemma cache_window_witness :
  snd (resolveTarget 30 129 0 (inr "down") "r" (put_cache "r" "a:1" (100 + 30) NewGateway)) = inl (Some "a:1") /\
  snd (resolveTarget 30 130 0 (inr "down") "r" (put_cache "r" "a:1" (100 + 30) NewGateway)) = inr "down" /\
  fst (resolveTarget 30 100 100 (inl (Some "a:1")) "r" NewGateway) = put_cache "r" "a:1" (100 + 30) NewGateway.
Proof.
  destruct (cache_window 30 100 0 "a:1" "r" NewGateway) as (_ & _ & Hhit & Hmiss & _ & _).
  split; [by rewrite (Hhit 129 (inr "down")) by lia|]. split; [by rewrite (Hmiss 130 (inr "down")) by lia|].
  reflexivity.
Defined.

Lemma round_robin_fair_witness :
  snd (round_robin 3 ["a"; "b"; "c"] (mkRouting ∅ 7)) ≡ₚ [inl "a"; inl "b"; inl "c"].
Proof.
  destruct (round_robin_fair ["a"; "b"; "c"] (mkRouting ∅ 7)) as [H _]; [simpl; lia|simpl; lia|]. exact H.
Defined.
