(* ===== verification/Discovery.v ===== *)
(** * The discovered pool ([internal/wsgateway/k8s_discovery.go])

    The informer keeps a store of EndpointSlices in step with the cluster and
    calls the handlers one after the other, some time after each change; the
    handler recomputes the pool from the store as it is then.  Watching,
    calling, listing and storing interleave here as they do in the process: the
    question is whether the pool the gateway reads ([GatewayProxy]) lists what can
    serve, and catches up with the store.  Which changes reach the handler is up to
    the functions that are registered. *)
From Stdlib Require Import ZArith.
From stdpp Require Import base list gmap sets strings.
From S2P Require Import Prelude GoNum GoStrings Json Http Store Locator GatewayProxy.
Local Open Scope string_scope.
Local Open Scope list_scope.

#[export] Instance Endpoint_eq_dec : EqDecision GatewayProxy.Endpoint.
Proof. solve_decision. Defined.

#[export] Instance EndpointSlice_eq_dec : EqDecision EndpointSlice.
Proof. solve_decision. Defined.

(** What a store holds: an object that is no EndpointSlice is [None]. *)
Abbreviation Objects := (gmap string (option EndpointSlice)).

(** What the informer learns from the cluster. *)
Inductive Delta :=
  | Put (name : string) (obj : option EndpointSlice)
  | Gone (name : string)
  | Resync.

Definition apply_delta (d : Delta) (m : Objects) : Objects :=
  match d with Put name obj => <[name := obj]> m | Gone name => delete name m | Resync => m end.

(** ** The shared informer

    The handlers are optional functions ([ResourceEventHandlerFuncs]); what a call
    of one does first is of type [A].  [pending] are the notifications still to be
    given, in order: an object that is new to the store is announced to [AddFunc],
    one that is known already to [UpdateFunc], one that goes to [DeleteFunc], and
    a resync announces every object to [UpdateFunc]. *)
Record ResourceEventHandlerFuncs (A : Type) := mkFuncs { AddFunc : option A; UpdateFunc : option A; DeleteFunc : option A }.
Arguments mkFuncs {A}. Arguments AddFunc {A}. Arguments UpdateFunc {A}. Arguments DeleteFunc {A}.

Inductive Notification := OnAdd | OnUpdate | OnDelete.

#[export] Instance Notification_eq_dec : EqDecision Notification.
Proof. solve_decision. Defined.

Definition on {A} (n : Notification) (h : ResourceEventHandlerFuncs A) : option A :=
  match n with OnAdd => AddFunc h | OnUpdate => UpdateFunc h | OnDelete => DeleteFunc h end.

Definition notifications (d : Delta) (m : Objects) : list Notification :=
  match d with
  | Put name _ => [if bool_decide (is_Some (m !! name)) then OnUpdate else OnAdd]
  | Gone name => if bool_decide (is_Some (m !! name)) then [OnDelete] else []
  | Resync => replicate (size m) OnUpdate
  end.

Class SharedInformer (A I : Type) := {
  inf_new : I;
  inf_store : I -> Objects;
  pending : I -> list Notification;
  registered : I -> option (ResourceEventHandlerFuncs A);
  inf_HasSynced : I -> bool;
  AddEventHandler : ResourceEventHandlerFuncs A -> I -> I + error;
  watch : Delta -> I -> I;
  listed : I -> I;                        (** the initial list is in the store *)
  deliver : I -> option (option A * I);   (** the next notification: the function it calls, if there is one *)
  new_store : inf_store inf_new = ∅ /\ pending inf_new = [];
  handler_added h i i' : AddEventHandler h i = inl i' ->
    inf_store i' = inf_store i /\ pending i' = pending i /\ registered i' = Some h;
  watch_store d i : inf_store (watch d i) = apply_delta d (inf_store i) /\
    pending (watch d i) = pending i ++ notifications d (inf_store i) /\ registered (watch d i) = registered i;
  listed_synced i : inf_store (listed i) = inf_store i /\ pending (listed i) = pending i /\
    registered (listed i) = registered i /\ inf_HasSynced (listed i) = true;
  deliver_none i : pending i = [] -> deliver i = None;
  deliver_next i n ns h : pending i = n :: ns -> registered i = Some h ->
    exists i', deliver i = Some (on n h, i') /\ inf_store i' = inf_store i /\ pending i' = ns /\
      registered i' = Some h /\ inf_HasSynced i' = inf_HasSynced i
}.

(** The goroutine that calls the handlers: in [recompute], before or after
    [List], or waiting for the next notification. *)
Inductive Calling := Waiting | Called | Listed (objs : list (option EndpointSlice)).

Section discovery.
Context {I : Type} `{!SharedInformer Calling I}.

Record K8sBackendDiscovery := mkDiscovery { informer : I; backends : list string; handler : Calling }.

#[export] Instance eta_Discovery : Eta K8sBackendDiscovery :=
  fun d => mkDiscovery (informer d) (backends d) (handler d).

(** All three functions call [recompute]. *)
Definition recompute_handlers : ResourceEventHandlerFuncs Calling :=
  mkFuncs (Some Called) (Some Called) (Some Called).

Definition NewK8sBackendDiscovery (i : I) : K8sBackendDiscovery + error :=
  match AddEventHandler recompute_handlers i with
  | inl i' => inl (mkDiscovery i' [] Waiting)
  | inr e => inr ("wsgateway: register endpointslice handler: " +:+ e)
  end.

Definition Backends (d : K8sBackendDiscovery) : list string := backends d.

Definition HasSynced (d : K8sBackendDiscovery) : bool := inf_HasSynced (informer d).

(** ** Steps *)

Inductive DiscoveryStep :=
  | Watch (delta : Delta)
  | InitialList
  | Deliver
  | ListStore (objs : list (option EndpointSlice))   (** [GetStore().List()], in some order *)
  | StorePool.

Definition discovery_step (l : DiscoveryStep) (d : K8sBackendDiscovery) : option K8sBackendDiscovery :=
  match l with
  | Watch delta => Some (d <| informer := watch delta (informer d) |>)
  | InitialList => Some (d <| informer := listed (informer d) |>)
  | Deliver =>
      match handler d with
      | Waiting => x ← deliver (informer d); Some (d <| informer := x.2 |> <| handler := default Waiting x.1 |>)
      | _ => None
      end
  | ListStore objs =>
      match handler d with
      | Called => if bool_decide (objs ≡ₚ values (inf_store (informer d))) then Some (d <| handler := Listed objs |>) else None
      | _ => None
      end
  | StorePool =>
      match handler d with
      | Listed objs => Some (d <| backends := recompute objs |> <| handler := Waiting |>)
      | _ => None
      end
  end.

Definition discovery_run (ls : list DiscoveryStep) (d : K8sBackendDiscovery) : option K8sBackendDiscovery :=
  foldl (fun x l => x ≫= discovery_step l) (Some d) ls.

(** The states of a discovery, with the stores there have been. *)
Inductive discovery_reachable : list Objects -> K8sBackendDiscovery -> Prop :=
  | discovery_new d : NewK8sBackendDiscovery inf_new = inl d -> discovery_reachable [∅] d
  | discovery_next h l d d' : discovery_reachable h d -> discovery_step l d = Some d' ->
      discovery_reachable (inf_store (informer d') :: h) d'.

(** The [i]-th endpoint of the slice of a name can serve, at an address: the
    slice has a port, the endpoint has an address and is not marked unready. *)
Definition can_serve (m : Objects) (name : string) (i : nat) (addr : string) : Prop :=
  exists slice port ports ep a rest, m !! name = Some (Some slice) /\ sl_Ports slice = Some port :: ports /\
    sl_Endpoints slice !! i = Some ep /\ ep_Ready ep <> Some false /\ ep_Addresses ep = a :: rest /\
    addr = host_port a port.

(** A pool lists every endpoint of a store that can serve, each once. *)
Definition pool_of (m : Objects) (pool : list string) : Prop :=
  exists slots : list (string * nat), NoDup slots /\ Forall2 (fun s a => can_serve m s.1 s.2 a) slots pool /\
    forall name i a, can_serve m name i a -> (name, i) ∈ slots.

(** ** Facts *)

Lemma recompute_Permutation l l' : l ≡ₚ l' -> recompute l ≡ₚ recompute l'.
Proof. intros Hl. unfold recompute. by rewrite Hl. Qed.

Lemma pool_of_Permutation m pool pool' : pool ≡ₚ pool' -> pool_of m pool -> pool_of m pool'.
Proof.
  intros Hp (slots & Hnd & Hf & Hall). apply Forall2_flip in Hf.
  destruct (Permutation_Forall2 Hp Hf) as (slots' & Hs & Hf').
  exists slots'. split_and!; [by rewrite <-Hs|by apply Forall2_flip|]. intros name i a Ha. rewrite <-Hs. by eapply Hall.
Qed.

(** The endpoints of one slice. *)
Lemma slice_slots (port : Z) eps : exists ks, NoDup ks /\
  Forall2 (fun i addr => exists ep a rest, eps !! i = Some ep /\ ep_Ready ep <> Some false /\ ep_Addresses ep = a :: rest /\
    addr = host_port a port) ks
    (omap (fun ep => if ready ep then match ep_Addresses ep with a :: _ => Some (host_port a port) | [] => None end else None) eps) /\
  forall i ep a rest, eps !! i = Some ep -> ep_Ready ep <> Some false -> ep_Addresses ep = a :: rest -> i ∈ ks.
Proof.
  induction eps as [|ep eps (ks & Hnd & Hf & Hall)]; [exists []; split_and!; [constructor|constructor|done]|].
  assert (Hf' : forall x, (exists ep0 a rest, eps !! x.1 = Some ep0 /\ ep_Ready ep0 <> Some false /\ ep_Addresses ep0 = a :: rest /\
    x.2 = host_port a port) -> exists ep0 a rest, (ep :: eps) !! S x.1 = Some ep0 /\ ep_Ready ep0 <> Some false /\
    ep_Addresses ep0 = a :: rest /\ x.2 = host_port a port) by done.
  assert (Hready : ready ep = true <-> ep_Ready ep <> Some false)
    by (unfold ready; destruct (ep_Ready ep) as [[]|]; split; congruence).
  cbn [omap list_omap]. destruct (ready ep) eqn:Hr; [destruct (ep_Addresses ep) as [|a rest] eqn:Ha|].
  2: { exists (0%nat :: (S <$> ks)). split_and!.
    - constructor; [|by apply NoDup_fmap_2; [intros ?? [=]|]]. by intros (? & [=] & _)%list_elem_of_fmap.
    - constructor; [exists ep, a, rest; split_and!; [done|by apply Hready|done|done]|].
      apply Forall2_fmap_l. eapply Forall2_impl; [exact Hf|]. intros i x Hx. by apply (Hf' (i, x)).
    - intros [|i] ep' a' rest' Hi Hr' Ha'; [left|]. right. apply list_elem_of_fmap. exists i. split; [done|]. by eapply Hall. }
  all: exists (S <$> ks); split_and!; [by apply NoDup_fmap_2; [intros ?? [=]|]| |].
  all: try (apply Forall2_fmap_l; eapply Forall2_impl; [exact Hf|]; intros i x Hx; by apply (Hf' (i, x))).
  all: intros [|i] ep' a' rest' Hi Hr' Ha'; [injection Hi as ->|apply list_elem_of_fmap; exists i; split; [done|by eapply Hall]].
  - congruence.
  - apply Hready in Hr'. congruence.
Qed.

(** [recompute] lists what can serve. *)
Lemma recompute_pool m : pool_of m (recompute (values m)).
Proof.
  unfold pool_of, values.
  assert (Hlook : forall name obj, (name, obj) ∈ map_to_list m <-> m !! name = Some obj) by (intros; apply elem_of_map_to_list).
  assert (Hnd := NoDup_fst_map_to_list m). revert Hlook Hnd. generalize (map_to_list m) as l. intros l Hlook Hnd.
  enough (exists slots : list (string * nat), NoDup slots /\ Forall2 (fun s a => can_serve m s.1 s.2 a) slots (recompute l.*2) /\
    (forall name i, (name, i) ∈ slots -> name ∈ l.*1) /\
    forall name i a, can_serve m name i a -> name ∈ l.*1 -> (name, i) ∈ slots) as (slots & H1 & H2 & _ & H3).
  { exists slots. split_and!; [done..|]. intros name i a Ha. apply (H3 name i a Ha).
    destruct Ha as (slice & port & ports & ep & a0 & rest & Hm & _). apply list_elem_of_fmap.
    exists (name, Some slice). split; [done|]. by apply Hlook. }
  assert (Hin : forall name obj, (name, obj) ∈ l -> m !! name = Some obj) by (intros; by apply Hlook). clear Hlook.
  induction l as [|[name obj] l IH]; [exists []; split_and!; [constructor|constructor|by intros ?? ?%not_elem_of_nil|by intros ??? _ ?%not_elem_of_nil]|].
  cbn in Hnd. apply NoDup_cons in Hnd as [Hnew Hnd].
  destruct IH as (slots & Hs & Hf & Hof & Hall); [done|intros; apply Hin; by right|].
  assert (Hm : m !! name = Some obj) by (apply Hin; left).
  assert (Hskip : (forall i a, ~ can_serve m name i a) -> recompute (obj :: l.*2) = recompute l.*2 ->
    exists slots : list (string * nat), NoDup slots /\
      Forall2 (fun s a => can_serve m s.1 s.2 a) slots (recompute ((name, obj) :: l).*2) /\
      (forall n i, (n, i) ∈ slots -> n ∈ ((name, obj) :: l).*1) /\
      forall n i a, can_serve m n i a -> n ∈ ((name, obj) :: l).*1 -> (n, i) ∈ slots).
  { intros Hno Heq. exists slots. cbn [fmap list_fmap fst snd]. rewrite Heq. split_and!; [done|done|intros; right; by eapply Hof|].
    intros n i a Ha [->|Hn]%elem_of_cons; [by destruct (Hno i a)|by eapply Hall]. }
  destruct obj as [[[|[port|] ports] eps]|].
  - apply Hskip; [|done]. intros i a (sl & ? & ? & ? & ? & ? & ? & Hp & _). by simplify_eq.
  - destruct (slice_slots port eps) as (ks & Hi1 & Hi2 & Hi3). exists (((name,.) <$> ks) ++ slots). split_and!.
    + apply NoDup_app. split_and!; [by apply NoDup_fmap_2; [intros ?? [=]|]| |done].
      intros [n i] (i' & [= -> ->] & _)%list_elem_of_fmap Hslot. by apply Hnew, (Hof name i').
    + apply Forall2_app; [|exact Hf]. apply Forall2_fmap_l.
      eapply Forall2_impl; [exact Hi2|]. intros i x (ep & a & rest & Hep & Hr & Ha & ->).
      by exists (mkSlice (Some port :: ports) eps), port, ports, ep, a, rest.
    + intros n i [(i' & [= -> ->] & _)%list_elem_of_fmap|Hslot]%elem_of_app; [left|right; by eapply Hof].
    + intros n i a Ha [->|Hn]%elem_of_cons; apply elem_of_app; [left|right; by eapply Hall].
      destruct Ha as (sl & port' & ports' & ep & a0 & rest & Hsl & Hp & Hep & Hr & Had & _). cbn in *. simplify_eq.
      apply list_elem_of_fmap. exists i. split; [done|]. by eapply Hi3.
  - apply Hskip; [|done]. intros i a (sl & ? & ? & ? & ? & ? & ? & Hp & _). by simplify_eq.
  - apply Hskip; [|done]. intros i a (sl & ? & ? & ? & ? & ? & ? & Hp & _). by simplify_eq.
Qed.

Record disc_ok (h : list Objects) (d : K8sBackendDiscovery) : Prop := {
  dk_handlers : registered (informer d) = Some recompute_handlers;
  dk_pool : exists m, m ∈ h /\ pool_of m (backends d);
  dk_listed objs : handler d = Listed objs -> exists m, m ∈ h /\ objs ≡ₚ values m;
  (** once nothing ks to be notified, the last call has seen everything *)
  dk_caught : pending (informer d) = [] ->
    match handler d with
    | Waiting => pool_of (inf_store (informer d)) (backends d)
    | Called => True
    | Listed objs => objs ≡ₚ values (inf_store (informer d))
    end
}.

(** A change of the store ks notified. *)
Lemma unnotified_change d m : notifications d m = [] -> apply_delta d m = m.
Proof.
  destruct d as [name obj|name|]; cbn; [done| |done]. case_bool_decide as Hn; [done|].
  intros _. apply delete_id. by apply eq_None_not_Some.
Qed.

(** The informer moves: nothing ks to be notified afterwards only if the store ks as it was. *)
Lemma disc_ok_informer h d i :
  disc_ok h d -> registered i = registered (informer d) ->
  (pending i = [] -> pending (informer d) = [] /\ inf_store i = inf_store (informer d)) ->
  disc_ok (inf_store i :: h) (d <| informer := i |>).
Proof.
  intros [Hn (m & Hm & Hp) Hl Hc] Hreg Hi. split; cbn.
  - by rewrite Hreg.
  - exists m. split; [by right|done].
  - intros objs Ho. destruct (Hl objs Ho) as (m' & Hm' & Hv). exists m'. split; [by right|done].
  - intros H0. destruct (Hi H0) as [Hp0 ->]. by apply Hc.
Qed.

Lemma discovery_step_ok h l d d' :
  disc_ok h d -> discovery_step l d = Some d' -> disc_ok (inf_store (informer d') :: h) d'.
Proof.
  intros Hok Hs. destruct l as [delta| | |objs|]; cbn in Hs.
  - injection Hs as <-. destruct (watch_store delta (informer d)) as (Hst & Hp & Hreg).
    apply disc_ok_informer; [done|done|]. rewrite Hp, Hst. intros [Hp0 Hn]%app_nil. split; [done|by apply unnotified_change].
  - injection Hs as <-. destruct (listed_synced (informer d)) as (Hst & Hp & Hreg & _).
    apply disc_ok_informer; [done|done|]. rewrite Hp, Hst. done.
  - destruct (handler d) eqn:Hh; try done. destruct (pending (informer d)) as [|n ns] eqn:Ho; [by rewrite deliver_none in Hs|].
    destruct Hok as [Hn (m & Hm & Hp) Hl Hc].
    destruct (deliver_next _ _ _ _ Ho Hn) as (i & Hd & Hst & Hpe & Hreg & _). rewrite Hd in Hs. injection Hs as <-.
    assert (on n recompute_handlers = Some Called) as -> by (by destruct n).
    split; cbn; [done| |done|done]. exists m. split; [by right|done].
  - destruct (handler d) eqn:Hh; try done. case_bool_decide as Hv; [|done]. injection Hs as <-.
    destruct Hok as [Hn (m & Hm & Hp) Hl Hc]. split; cbn; [done|..].
    + exists m. split; [by right|done].
    + intros ? [= <-]. exists (inf_store (informer d)). split; [by left|done].
    + done.
  - destruct (handler d) as [| |objs] eqn:Hh; try done. injection Hs as <-.
    destruct Hok as [Hn (m & Hm & Hp) Hl Hc]. rewrite Hh in Hc. destruct (Hl objs Hh) as (m' & Hm' & Hv). split; cbn; [done|..].
    + exists m'. split; [by right|]. eapply pool_of_Permutation; [|apply recompute_pool]. by apply recompute_Permutation.
    + done.
    + intros H0. eapply pool_of_Permutation; [|apply recompute_pool]. symmetry. by apply recompute_Permutation, Hc.
Qed.

Lemma discovery_reachable_ok h d : discovery_reachable h d -> disc_ok h d.
Proof.
  induction 1 as [d Hd|h l d d' _ IH Hs]; [|by eapply discovery_step_ok].
  unfold NewK8sBackendDiscovery in Hd. destruct (AddEventHandler _ inf_new) as [i|e] eqn:Ha; [|done]. injection Hd as <-.
  destruct (handler_added _ _ _ Ha) as (Hst & Hp & Hreg). destruct new_store as [Hs0 _]. rewrite Hs0 in Hst.
  assert (Hempty : pool_of ∅ []).
  { exists []. split_and!; [constructor|constructor|]. intros name k a (? & ? & ? & ? & ? & ? & Hm & _). by rewrite lookup_empty in Hm. }
  split; cbn; [done|exists ∅; split; [by left|done]|done|]. intros _. by rewrite Hst.
Qed.

Lemma discovery_run_app ls ls' d : discovery_run (ls ++ ls') d = discovery_run ls d ≫= discovery_run ls'.
Proof.
  unfold discovery_run. rewrite foldl_app. destruct (foldl _ (Some d) ls) as [d1|]; [done|].
  by induction ls'.
Qed.

(** A call that has begun is finished by two steps of its own. *)
Lemma finish_call d : exists ls d', length ls <= 2 /\ discovery_run ls d = Some d' /\ informer d' = informer d /\
  handler d' = Waiting.
Proof.
  destruct (handler d) as [| |objs] eqn:Hh.
  - exists [], d. split_and!; simpl; [lia|done..].
  - exists [ListStore (values (inf_store (informer d))); StorePool],
      (d <| handler := Listed (values (inf_store (informer d))) |>
         <| backends := recompute (values (inf_store (informer d))) |> <| handler := Waiting |>).
    split_and!; [simpl; lia|unfold discovery_run; cbn; rewrite Hh; cbn; rewrite bool_decide_true by done; reflexivity|done|done].
  - exists [StorePool], (d <| backends := recompute objs |> <| handler := Waiting |>).
    split_and!; simpl; [lia|by unfold discovery_run; cbn; rewrite Hh|done..].
Qed.

(** One notification, to the end of the call it makes. *)
Lemma one_call d n ns : registered (informer d) = Some recompute_handlers -> handler d = Waiting ->
  pending (informer d) = n :: ns -> exists ls d', length ls <= 3 /\
  discovery_run ls d = Some d' /\ handler d' = Waiting /\ pending (informer d') = ns /\
  inf_store (informer d') = inf_store (informer d) /\ registered (informer d') = Some recompute_handlers.
Proof.
  intros Hreg Hh Ho. destruct (deliver_next _ _ _ _ Ho Hreg) as (i & Hd & Hst & Hn & Hreg' & _).
  destruct (finish_call (d <| informer := i |> <| handler := default Waiting (on n recompute_handlers) |>))
    as (ls & d' & Hlen & Hrun & Hi & Hw).
  exists (Deliver :: ls), d'. rewrite Hi. split_and!; [simpl; lia| |done..].
  change (Deliver :: ls) with ([Deliver] ++ ls). rewrite discovery_run_app.
  unfold discovery_run at 1. cbn. by rewrite Hh, Hd.
Qed.

Lemma all_calls ns : forall d, registered (informer d) = Some recompute_handlers -> handler d = Waiting ->
  pending (informer d) = ns -> exists ls d', length ls <= 3 * length ns /\
  discovery_run ls d = Some d' /\ handler d' = Waiting /\ pending (informer d') = [] /\
  inf_store (informer d') = inf_store (informer d).
Proof.
  induction ns as [|n ns IH]; intros d Hreg Hh Ho; [exists [], d; split_and!; simpl; [lia|done..]|].
  destruct (one_call d n ns Hreg Hh Ho) as (ls & d1 & Hlen & Hrun & Hh1 & Ho1 & Hst & Hreg1).
  destruct (IH d1 Hreg1 Hh1 Ho1) as (ls' & d' & Hlen' & Hrun' & Hh' & Ho' & Hst'). exists (ls ++ ls'), d'.
  rewrite discovery_run_app, length_app, Hrun. cbn [length]. split_and!; [lia|done|done|done|congruence].
Qed.

Lemma discovery_run_reachable ls : forall h d d', discovery_reachable h d -> discovery_run ls d = Some d' ->
  exists h', discovery_reachable h' d'.
Proof.
  induction ls as [|l ls IH]; intros h d d' Hr Hrun; [injection Hrun as <-; eauto|].
  change (l :: ls) with ([l] ++ ls) in Hrun. rewrite discovery_run_app in Hrun.
  apply bind_Some in Hrun as (d1 & H1 & Hrun). unfold discovery_run in H1. cbn in H1.
  eapply IH; [|exact Hrun]. by eapply discovery_next.
Qed.

(** ** The pool follows the cluster *)

(** C26: the pool of backends follows the cluster: at any time it lists, each
    once, exactly the endpoints that could serve in a store the informer has had;
    with nothing left to notify and no call under way, those of the store as it is
    now, so a request without a room is answered 503 only if nothing can serve and
    is otherwise sent to an endpoint that can; and whatever is still to be
    notified, the handler gets there by itself in at most three steps for each
    notification and two for a call under way. *)
Theorem pool_follows_cluster h d :
  discovery_reachable h d ->
  (exists m, m ∈ h /\ pool_of m (Backends d)) /\
  (pending (informer d) = [] -> handler d = Waiting ->
     pool_of (inf_store (informer d)) (Backends d) /\
     forall cacheTTL now now' owner path g, extractRaceID path = None ->
       match snd (Gateway_ServeHTTP cacheTTL now now' owner (Backends d) path g) with
       | Proxied addr => exists name i, can_serve (inf_store (informer d)) name i addr
       | Answered status _ => status = 503%Z /\ forall name i a, ~ can_serve (inf_store (informer d)) name i a
       end) /\
  exists ls d', length ls <= 3 * length (pending (informer d)) + 2 /\ discovery_run ls d = Some d' /\
    inf_store (informer d') = inf_store (informer d) /\ pool_of (inf_store (informer d)) (Backends d').
Proof.
  intros Hr. pose proof (discovery_reachable_ok _ _ Hr) as [Hreg Hpool _ Hc]. split_and!; [done| |].
  - intros H0 Hw. specialize (Hc H0). rewrite Hw in Hc. split; [done|]. intros cacheTTL now now' owner path g Hp.
    destruct Hc as (slots & _ & Hf & Hall).
    unfold Gateway_ServeHTTP, Backends. rewrite Hp. unfold nextBackend. case_bool_decide as Hl.
    + apply nil_length_inv in Hl. rewrite Hl in Hf. apply Forall2_nil_inv_r in Hf as ->. cbn. split; [done|].
      intros name i a Ha. by apply Hall, not_elem_of_nil in Ha.
    + set (k := length (backends d)) in *.
      destruct (lookup_lt_is_Some_2 (backends d) (Z.to_nat (wrapu64 (wrapu64 (next g + 1) - 1) mod Z.of_nat k))) as [b Hb].
      { pose proof (Z.mod_pos_bound (wrapu64 (wrapu64 (next g + 1) - 1)) (Z.of_nat k) ltac:(lia)). fold k. lia. }
      rewrite Hb. cbn [snd]. destruct (Forall2_lookup_r _ _ _ _ _ Hf Hb) as ([name i] & _ & Hs). by exists name, i.
  - destruct (finish_call d) as (ls1 & d1 & Hlen1 & Hrun1 & Hi1 & Hw1).
    destruct (all_calls (pending (informer d)) d1) as (ls2 & d2 & Hlen2 & Hrun2 & Hw2 & Ho2 & Hst2); [by rewrite Hi1|done|by rewrite Hi1|].
    exists (ls1 ++ ls2), d2. assert (Hrun : discovery_run (ls1 ++ ls2) d = Some d2) by (by rewrite discovery_run_app, Hrun1).
    split_and!; [rewrite length_app; lia|done|by rewrite Hst2, Hi1|].
    destruct (discovery_run_reachable _ _ _ _ Hr Hrun) as (h' & [_ _ _ Hc2]%discovery_reachable_ok).
    specialize (Hc2 Ho2). rewrite Hw2, Hst2, Hi1 in Hc2. exact Hc2.
Qed.
End discovery.

(** ** An informer *)

Record simple_informer := mkInformer {
  si_store : Objects; si_pending : list Notification; si_registered : option (ResourceEventHandlerFuncs Calling); si_synced : bool
}.

#[export, refine] Instance simple_shared : SharedInformer Calling simple_informer := {|
  inf_new := mkInformer ∅ [] None false;
  inf_store := si_store; pending := si_pending; registered := si_registered; inf_HasSynced := si_synced;
  AddEventHandler h i := inl (mkInformer (si_store i) (si_pending i) (Some h) (si_synced i));
  watch d i := mkInformer (apply_delta d (si_store i)) (si_pending i ++ notifications d (si_store i)) (si_registered i) (si_synced i);
  listed i := mkInformer (si_store i) (si_pending i) (si_registered i) true;
  deliver i :=
    match si_pending i with
    | [] => None
    | n :: ns => Some (h ← si_registered i; on n h, mkInformer (si_store i) ns (si_registered i) (si_synced i))
    end
|}.
Proof.
  - done.
  - by intros h i i' [= <-].
  - done.
  - done.
  - by intros i ->.
  - intros i n ns h -> ->. by eexists.
Defined.

(** A cluster of one ready and one unready endpoint comes up. *)
Definition demo_slice : EndpointSlice :=
  mkSlice [Some 8080%Z] [mkEndpoint (Some true) ["10.0.0.1"]; mkEndpoint (Some false) ["10.0.0.2"]; mkEndpoint None ["10.0.0.3"]].

Definition demo_up : list DiscoveryStep := [Watch (Put "a" (Some demo_slice)); InitialList].

Definition demo_discovery : K8sBackendDiscovery (I := simple_informer) :=
  mkDiscovery (mkInformer {["a" := Some demo_slice]} [OnAdd] (Some recompute_handlers) true) [] Waiting.

Lemma demo_discovery_reachable : exists h, discovery_reachable h demo_discovery.
Proof.
  apply (discovery_run_reachable demo_up [∅] (mkDiscovery (mkInformer ∅ [] (Some recompute_handlers) false) [] Waiting)); [by constructor|].
  vm_compute. reflexivity.
Qed.

Lemma pool_follows_cluster_witness : exists ls d', length ls <= 5 /\ discovery_run ls demo_discovery = Some d' /\
  pool_of {["a" := Some demo_slice]} (Backends d') /\ "10.0.0.1:8080" ∈ Backends d' /\ "10.0.0.2:8080" ∉ Backends d'.
Proof.
  destruct demo_discovery_reachable as (h & Hr). destruct (pool_follows_cluster h demo_discovery Hr) as (_ & _ & ls & d' & Hl & Hrun & _ & Hp).
  exists ls, d'. split; [exact Hl|]. split; [exact Hrun|]. split; [exact Hp|].
  destruct Hp as (slots & _ & Hf & Hall). split.
  - assert (("a", 0%nat) ∈ slots) as [k Hk]%list_elem_of_lookup_1.
    { apply (Hall "a" 0%nat "10.0.0.1:8080"). by exists demo_slice, 8080%Z, [], (mkEndpoint (Some true) ["10.0.0.1"]), "10.0.0.1", []. }
    destruct (Forall2_lookup_l _ _ _ _ _ Hf Hk) as (b & Hb & (sl & port & ports & ep & a & rest & Hsl & Hpo & Hep & _ & Ha & ->)).
    apply list_elem_of_lookup. exists k. rewrite Hb. injection Hsl as <-. injection Hpo as <- _. injection Hep as <-.
    by injection Ha as <- _.
  - intros [k Hk]%list_elem_of_lookup_1. destruct (Forall2_lookup_r _ _ _ _ _ Hf Hk) as
      ([n i] & _ & (sl & port & ports & ep & a & rest & Hsl & Hpo & Hep & Hr' & Ha & Heq)). cbn in Hsl, Hep.
    apply lookup_singleton_Some in Hsl as [_ [= <-]]. injection Hpo as <- _.
    destruct i as [|[|[|i]]]; [..|done]; injection Hep as <-; [|done|]; injection Ha as <- _; by vm_compute in Heq.
Defined.

(** The informer counts as synced when its store is filled, not when the pool
    is: [WaitForSync] has returned, the health check answers 200, and a request
    without a room is still answered 503 although two endpoints could serve. *)
Theorem ready_before_pool : exists h (d : K8sBackendDiscovery (I := simple_informer)),
  discovery_reachable h d /\ HasSynced d = true /\
  Healthz false (Some (HasSynced d)) true true = (200%Z, "ok") /\
  length (recompute (values (inf_store (informer d)))) = 2%nat /\
  snd (Gateway_ServeHTTP 30 0 0 (fun _ => inl None) (Backends d) "/races" NewGateway) = Answered 503 "routing lookup failed".
Proof.
  destruct demo_discovery_reachable as (h & Hr). exists h, demo_discovery. split; [exact Hr|].
  split_and!; vm_compute; reflexivity.
Qed.
