(* ===== verification/Leaderboard.v ===== *)
(** * The leaderboard ([internal/leaderboard], [postgres/leaderboard_repository.go])

    Personal statistics and the ranked pages, from the query string to the SQL
    aggregates.  What Postgres and the driver compute with NUMERIC values -
    division and the conversion to [float64] - are parameters. *)
From Stdlib Require Import ZArith QArith Ascii Floats.SpecFloat.
From stdpp Require Import base list gmap sets strings.
From S2P Require Import Prelude GoNum GoStrings Json Http Events Store.
Local Open Scope string_scope.
Local Open Scope Z_scope.
Local Open Scope list_scope.

(** ** Numbers of the standard library *)

(** [math.Round]: half away from zero. *)
Definition math_Round (f : float64) : float64 :=
  match f with
  | S754_finite s m (Zneg p) =>
      binary_normalize float64_prec float64_emax
        (cond_Zopp s ((Zpos m + 2 ^ (Zpos p - 1)) / 2 ^ Zpos p)) 0 s
  | _ => f
  end.

Definition float64_div (x y : float64) : float64 := SFdiv float64_prec float64_emax x y.
Definition float64_mul (x y : float64) : float64 := SFmul float64_prec float64_emax x y.

Definition digit (c : ascii) : option Z :=
  let n := Z.of_nat (nat_of_ascii c) in
  if (48 <=? n) && (n <=? 57) then Some (n - 48) else None.

Fixpoint digits (acc : Z) (l : list ascii) : option Z :=
  match l with
  | [] => Some acc
  | c :: l' => d ← digit c; digits (10 * acc + d) l'
  end.

(** [strconv.Atoi]: the value and whether there is an error; a number out of
    range is clamped. *)
Definition Atoi (s : string) : Z * bool :=
  let '(neg, ds) := match String.list_ascii_of_string s with
                    | c :: l => if Ascii.eqb c "-" then (true, l)
                                else if Ascii.eqb c "+" then (false, l) else (false, c :: l)
                    | [] => (false, [])
                    end in
  match ds with
  | [] => (0, true)
  | _ => match digits 0 ds with
         | None => (0, true)
         | Some n =>
             let z := if neg then - n else n in
             if z <? min_int64 then (min_int64, true)
             else if max_int64 <? z then (max_int64, true) else (z, false)
         end
  end.

(** ** The service *)

Record Stats := mkStats { TotalRaces : Z; TotalWins : Z; TotalPaceWattSum : float64 }.

Record LeaderboardMeResponse := mkMe { RacesJoined : Z; RacesWon : Z; MyAvgWPM : float64 }.

Record Entry := mkEntry { le_UserID : string; le_DisplayName : string; le_Races : Z; le_Wins : Z; le_AvgWPM : float64 }.

Record LeaderboardTopResponse := mkTop {
  top_Window : string;
  top_Page : Z;
  top_TotalPages : Z;
  top_Entries : list (Z * Entry)   (** with their ranks *)
}.

(** [GetMyStats], on what the repository answers. *)
Definition GetMyStats (stats : Stats + error) : LeaderboardMeResponse + error :=
  match stats with
  | inr e => inr e
  | inl st =>
      inl (mkMe (TotalRaces st) (TotalWins st)
             (if 0 <? TotalRaces st
              then float64_div (math_Round (float64_mul
                     (float64_div (TotalPaceWattSum st) (float64_of_int (TotalRaces st))) (float64_of_int 100)))
                     (float64_of_int 100)
              else float64_0))
  end.

Definition pageSize : Z := 5.
Definition WindowAllTime : string := "alltime".
Definition WindowWeekly : string := "weekly".

(** [GetTop]: field errors, an error, or a page.  [repo] is the repository's
    [GetTop], with limit and offset. *)
Definition GetTop (repo : string -> Z -> Z -> (list Entry * Z) + error) (windowParam : string) (page : Z)
    : (LeaderboardTopResponse + list (string * string)) + error :=
  if negb (String.eqb windowParam WindowAllTime) && negb (String.eqb windowParam WindowWeekly)
  then inl (inr [("window", "must be alltime or weekly")]) else
  let page := if page <? 1 then 1 else page in
  let offset := wrap64 (wrap64 (page - 1) * pageSize) in
  match repo windowParam pageSize offset with
  | inr e => inr e
  | inl (entries, total) =>
      inl (inl (mkTop windowParam page
        (Z.max 1 (Z.quot (wrap64 (wrap64 (total + pageSize) - 1)) pageSize))
        (imap (fun i e => (wrap64 (wrap64 (offset + Z.of_nat i) + 1), e)) entries)))
  end.

(** ** The repository *)

Section repository.
(** NUMERIC division, and the driver's conversion to [float64]. *)
Context (num_div : Q -> Z -> Q) (to_float : Q -> float64).
(** How the driver turns a float into NUMERIC. *)
Context (numeric : float64 -> Q).

(** [GetUserStats] *)
Definition repo_GetUserStats (c : Conn) (userID : string) (db : DB) : Stats + error :=
  match c with
  | Failed e | Lost e => inr e
  | Up => match leaderboard_alltime db !! userID with
          | Some b => inl (mkStats (board_races b) (board_wins b) (to_float (board_pace_sum b)))
          | None => inl (mkStats 0 0 float64_0)
          end
  end.

(** A row of either query; the average is NULL when there is nothing to
    average. *)
Record TopRow := mkTopRow { tr_user : string; tr_name : string; tr_races : Z; tr_wins : Z; tr_avg : option Q }.

(** [ORDER BY wins DESC, avg_wpm DESC]: NULL comes first. *)
Definition ranks_before (a b : TopRow) : bool :=
  (tr_wins b <? tr_wins a) ||
  ((tr_wins a =? tr_wins b) &&
   match tr_avg a, tr_avg b with
   | None, Some _ => true
   | Some x, Some y => negb (Qle_bool x y)
   | _, None => false
   end).

(** [topAllTimeQuery] without its ORDER BY, and [countAllTimeQuery]. *)
Definition alltime_rows (db : DB) : list TopRow :=
  omap (fun ub => name ← users db !! ub.1;
                  if 0 <? board_races ub.2
                  then Some (mkTopRow ub.1 name (board_races ub.2) (board_wins ub.2)
                               (Some (num_div (board_pace_sum ub.2) (board_races ub.2))))
                  else None) (map_to_list (leaderboard_alltime db)).

Definition alltime_count (db : DB) : Z :=
  Z.of_nat (length (List.filter (fun ub => 0 <? board_races ub.2) (map_to_list (leaderboard_alltime db)))).

(** A race of the rolling week before [now]. *)
Definition week : Z := 7 * 24 * 3600 * 1000000000.

Definition in_week (now : Z) (db : DB) (raceID : string) : bool :=
  match races db !! raceID with
  | Some r => String.eqb (race_Status r) "finished" &&
              match race_EndedAt r with Some t => now - week <=? t | None => false end
  | None => false
  end.

(** The participant rows a user has in the week. *)
Definition week_rows (now : Z) (db : DB) (userID : string) : list ParticipantRow :=
  omap (fun kv => if String.eqb kv.1.2 userID && in_week now db kv.1.1 then Some kv.2 else None)
    (map_to_list (race_participants db)).

(** [avg(rp.avg_pace_watt)]: over the values that are not NULL. *)
Definition sql_avg (l : list (option float64)) : option Q :=
  match omap id l with
  | [] => None
  | fs => Some (num_div (fold_right (fun f acc => numeric f + acc)%Q 0%Q fs) (Z.of_nat (length fs)))
  end.

(** One group of [topWeeklyQuery]. *)
Definition weekly_row (now : Z) (db : DB) (u : string * string) : option TopRow :=
  match week_rows now db u.1 with
  | [] => None
  | rows => Some (mkTopRow u.1 u.2 (Z.of_nat (length rows))
                    (Z.of_nat (length (List.filter (fun r => bool_decide (row_finish_rank r = Some 1)) rows)))
                    (sql_avg (row_avg_pace <$> rows)))
  end.

Definition weekly_rows (now : Z) (db : DB) : list TopRow :=
  omap (weekly_row now db) (map_to_list (users db)).

(** [countWeeklyQuery]: distinct users. *)
Definition weekly_count (now : Z) (db : DB) : Z :=
  let in_rows := omap (fun kv => if in_week now db kv.1.1 then Some kv.1.2 else None)
                   (map_to_list (race_participants db)) in
  Z.of_nat (size (list_to_set (C := gset string) in_rows)).

(** [rows.Scan]: NULL does not fit a [float64]. *)
Definition scan (r : TopRow) : option Entry :=
  avg ← tr_avg r; Some (mkEntry (tr_user r) (tr_name r) (tr_races r) (tr_wins r) (to_float avg)).

(** [LIMIT l OFFSET o] of the sorted rows.  [heap] is the order in which this
    query meets the rows: where the ORDER BY does not separate two rows, it decides,
    and the next query, for another page, may have another one. *)
Definition page_rows (heap : list TopRow -> list TopRow) (limit offset : Z) (rows : list TopRow)
    : list TopRow :=
  take (Z.to_nat limit) (drop (Z.to_nat offset) (stable_sort ranks_before (heap rows))).

(** [GetTop] *)
Definition repo_GetTop (heap : list TopRow -> list TopRow) (c1 c2 : Conn) (now : Z) (db : DB)
    (window : string) (limit offset : Z) : (list Entry * Z) + error :=
  let '(rows, total) := if String.eqb window WindowWeekly
    then (weekly_rows now db, weekly_count now db)
    else (alltime_rows db, alltime_count db) in
  match c1 with
  | Failed e | Lost e => inr e
  | Up =>
      match c2 with
      | Failed e | Lost e => inr e
      | Up =>
          if offset <? 0 then inr "OFFSET must not be negative" else
          match mapM scan (page_rows heap limit offset rows) with
          | Some entries => inl (entries, total)
          | None => inr "cannot scan NULL"
          end
      end
  end.
End repository.

(** ** The handlers *)

Definition entry_json (re : Z * Entry) : option json :=
  avg ← marshal_float64 (le_AvgWPM re.2);
  Some (JObj [("rank", jint re.1); ("user_id", JStr (le_UserID re.2)); ("display_name", JStr (le_DisplayName re.2));
              ("races", jint (le_Races re.2)); ("wins", jint (le_Wins re.2)); ("avg_wpm", avg)]).

(** What [json.Encode] refuses leaves an empty body behind the status. *)
Definition encoded (j : option json) : json := default JNull j.

Definition Me (userID : option string) (stats : string -> Stats + error) : Response :=
  match userID with
  | None => WriteError 401 "unauthorized"
  | Some u =>
      match GetMyStats (stats u) with
      | inr _ => WriteError 500 "internal_error"
      | inl m => WriteJSON 200 (encoded (avg ← marshal_float64 (MyAvgWPM m);
          Some (JObj [("races_joined", jint (RacesJoined m)); ("races_won", jint (RacesWon m)); ("avg_wpm", avg)])))
      end
  end.

Definition Top (userID : option string) (repo : string -> Z -> Z -> (list Entry * Z) + error)
    (windowParam pageParam : string) : Response :=
  match userID with
  | None => WriteError 401 "unauthorized"
  | Some _ =>
      match GetTop repo windowParam (fst (Atoi pageParam)) with
      | inl (inr errs) => WriteJSON 400 (JObj [("errors", marshal_string_map errs)])
      | inr _ => WriteError 500 "internal_error"
      | inl (inl t) => WriteJSON 200 (encoded (es ← mapM entry_json (top_Entries t);
          Some (JObj [("window", JStr (top_Window t)); ("page", jint (top_Page t));
                      ("total_pages", jint (top_TotalPages t)); ("entries", JArr es)])))
      end
  end.
