(* ===== verification/LeaderboardProps.v ===== *)
(** * What the leaderboard shows

    Each page is a page of a ranking, and without ties all pages are of the same
    one; a page number that overflows is not; and one participant without a result
    hides the whole weekly page. *)
From Stdlib Require Import ZArith QArith Floats.SpecFloat.
From stdpp Require Import base list gmap sets strings sorting.
From S2P Require Import Prelude GoNum GoStrings Json Http Events Store Leaderboard.
Local Open Scope string_scope.
Local Open Scope Z_scope.
Local Open Scope list_scope.

(** ** Pages *)

(** A repository that serves the pages of [all]. *)
Definition serves (all : list Entry) (repo : string -> Z -> Z -> (list Entry * Z) + error) (window : string) : Prop :=
  forall offset, 0 <= offset ->
    repo window pageSize offset = inl (take 5 (drop (Z.to_nat offset) all), Z.of_nat (length all)).

Definition ranked (all : list Entry) : list (Z * Entry) := imap (fun i e => (Z.of_nat i + 1, e)) all.


Lemma ranked_page k all :
  imap (fun i e => (Z.of_nat (k + i) + 1, e)) (take 5 (drop k all)) = take 5 (drop k (ranked all)).
Proof.
  apply list_eq. intros i. unfold ranked. rewrite list_lookup_imap.
  destruct (decide (i < 5)%nat) as [Hi|Hi].
  - rewrite !lookup_take_lt by done. rewrite !lookup_drop, list_lookup_imap. done.
  - by rewrite !lookup_take_ge by lia.
Qed.

Lemma concat_pages {A} (l : list A) k :
  mjoin ((fun p => take 5 (drop (5 * p) l)) <$> seq 0 k) = take (5 * k) l.
Proof.
  induction k as [|k IH]; [done|]. rewrite seq_S, fmap_app, join_app, IH. cbn [fmap list_fmap mjoin list_join].
  rewrite app_nil_r. replace (5 * S k)%nat with (5 * k + 5)%nat by lia. simpl (0 + k)%nat.
  rewrite <- (take_drop (5 * k) l) at 3. rewrite take_app_ge by (rewrite length_take; lia).
  destruct (decide (5 * k <= length l)%nat) as [Hk|Hk].
  - rewrite length_take_le by done. by replace (5 * k + 5 - 5 * k)%nat with 5%nat by lia.
  - rewrite (drop_ge l) by lia. by rewrite !take_nil.
Qed.

(** A page of a repository that serves [all]. *)
Lemma GetTop_page all repo window p :
  serves all repo window -> window = WindowAllTime \/ window = WindowWeekly ->
  Z.of_nat (length all) < 2 ^ 62 -> 0 <= p < 2 ^ 60 ->
  GetTop repo window (p + 1) = inl (inl (mkTop window (p + 1)
    (Z.max 1 ((Z.of_nat (length all) + 4) / 5))
    (take 5 (drop (5 * Z.to_nat p) (ranked all))))).
Proof.
  intros Hs Hw Hlen Hp. unfold GetTop.
  assert (negb (String.eqb window WindowAllTime) && negb (String.eqb window WindowWeekly) = false) as ->
    by (by destruct Hw as [-> | ->]).
  rewrite (proj2 (Z.ltb_ge (p + 1) 1)) by lia.
  assert (Hoff : wrap64 (wrap64 (p + 1 - 1) * pageSize) = 5 * p).
  { unfold pageSize. rewrite (wrap64_id (p + 1 - 1)) by (unfold int64_ok, min_int64, max_int64; lia).
    rewrite wrap64_id by (unfold int64_ok, min_int64, max_int64; lia). lia. }
  cbv zeta. rewrite Hoff, (Hs (5 * p)) by lia. do 3 f_equal.
  - rewrite (wrap64_id (_ + pageSize)) by (unfold int64_ok, min_int64, max_int64, pageSize; lia).
    rewrite wrap64_id by (unfold int64_ok, min_int64, max_int64, pageSize; lia). unfold pageSize.
    rewrite Z.quot_div_nonneg by lia. do 2 f_equal. lia.
  - replace (Z.to_nat (5 * p)) with (5 * Z.to_nat p)%nat by lia. rewrite <- ranked_page.
    apply imap_ext. intros i e He. apply lookup_lt_Some in He. rewrite length_take in He.
    f_equal. rewrite (wrap64_id (5 * p + _)) by (unfold int64_ok, min_int64, max_int64; lia).
    rewrite wrap64_id by (unfold int64_ok, min_int64, max_int64; lia). lia.
Qed.

(** Paging loses nothing and repeats nothing: over a repository that serves
    the slices of a ranking, the pages 1 to the reported total show every entry
    exactly once, in order, numbered 1, 2, 3, ... without gaps; a page below 1 is
    the first page, and a page past the last is empty. *)
Theorem pages_cover all repo window :
  serves all repo window -> window = WindowAllTime \/ window = WindowWeekly ->
  Z.of_nat (length all) < 2 ^ 60 ->
  let total := Z.to_nat (Z.max 1 ((Z.of_nat (length all) + 4) / 5)) in
  exists pages : nat -> list (Z * Entry),
    (forall p, (p < total)%nat ->
       GetTop repo window (Z.of_nat p + 1) = inl (inl (mkTop window (Z.of_nat p + 1) (Z.of_nat total) (pages p)))) /\
    mjoin (pages <$> seq 0 total) = ranked all /\
    (forall p, p < 1 -> GetTop repo window p = GetTop repo window 1) /\
    (forall p, Z.of_nat total < p < 2 ^ 60 ->
       GetTop repo window p = inl (inl (mkTop window p (Z.of_nat total) []))).
Proof.
  intros Hs Hw Hlen total.
  assert (Htot : Z.of_nat total = Z.max 1 ((Z.of_nat (length all) + 4) / 5)) by (unfold total; lia).
  assert (Hdiv : Z.of_nat (length all) <= 5 * Z.of_nat total < 2 ^ 61).
  { rewrite Htot. pose proof (Z.div_mod (Z.of_nat (length all) + 4) 5 ltac:(lia)).
    pose proof (Z.mod_pos_bound (Z.of_nat (length all) + 4) 5 ltac:(lia)). lia. }
  exists (fun p => take 5 (drop (5 * p) (ranked all))). split_and!.
  - intros p Hp. rewrite (GetTop_page all) by (done || lia). by rewrite Nat2Z.id, Htot.
  - rewrite concat_pages. apply take_ge. unfold ranked. rewrite length_imap. lia.
  - intros p Hp. unfold GetTop. by rewrite (proj2 (Z.ltb_lt p 1)) by lia.
  - intros p Hp. replace p with ((p - 1) + 1) by lia. rewrite (GetTop_page all) by (done || lia).
    rewrite Htot. do 3 f_equal. rewrite drop_ge; [done|]. unfold ranked. rewrite length_imap. lia.
Qed.

(** ** The all-time ranking of the tables *)

Section tables.
Context (num_div : Q -> Z -> Q) (to_float : Q -> float64) (numeric : float64 -> Q).
(** A player the all-time board shows: a user with a row that counts a race. *)
Definition shown (db : DB) (r : TopRow) : Prop :=
  exists b name, leaderboard_alltime db !! tr_user r = Some b /\ 0 < board_races b /\ users db !! tr_user r = Some name /\
    r = mkTopRow (tr_user r) name (board_races b) (board_wins b) (Some (num_div (board_pace_sum b) (board_races b))).

(** More wins, or as many and no smaller average. *)
Definition placed (a b : TopRow) : Prop :=
  tr_wins b < tr_wins a \/
  (tr_wins a = tr_wins b /\ exists x y, tr_avg a = Some x /\ tr_avg b = Some y /\ (y <= x)%Q).

(** A ranking lists every shown player once, by wins and then by average. *)
Definition ranking (db : DB) (rows : list TopRow) : Prop :=
  NoDup (tr_user <$> rows) /\ (forall r, r ∈ rows <-> shown db r) /\ StronglySorted placed rows.

Definition as_entry (r : TopRow) : Entry :=
  mkEntry (tr_user r) (tr_name r) (tr_races r) (tr_wins r) (to_float (default 0%Q (tr_avg r))).

(** No two shown players have as many wins and the same average. *)
Definition no_ties (db : DB) : Prop :=
  forall a b, shown db a -> shown db b -> placed a b -> placed b a -> tr_user a = tr_user b.

Lemma shown_unique db a b : shown db a -> shown db b -> tr_user a = tr_user b -> a = b.
Proof. intros (x & n & Hx & _ & Hn & ->) (y & m & Hy & _ & Hm & ->) Hu. cbn in *. rewrite Hu in *. by simplify_eq. Qed.

Lemma ranking_unique db rows rows' : no_ties db -> ranking db rows -> ranking db rows' -> rows = rows'.
Proof.
  intros Hno (Hn1 & Hm1 & Hs1) (Hn2 & Hm2 & Hs2). apply (StronglySorted_unique_strong placed); [|done|done|].
  - intros a b Ha%Hm1 Hb%Hm2 Hab Hba. by eapply shown_unique, Hno.
  - apply NoDup_Permutation; [by eapply NoDup_fmap_1..|]. intros r. by rewrite Hm1, Hm2.
Qed.

Lemma alltime_rows_shown db r : r ∈ alltime_rows num_div db <-> shown db r.
Proof.
  unfold alltime_rows, shown. rewrite list_elem_of_omap. split.
  - intros ([u b] & Hb%elem_of_map_to_list & Hr). cbn in Hr. apply bind_Some in Hr as (name & Hn & Hr).
    destruct (Z.ltb_spec 0 (board_races b)); [|done]. injection Hr as <-. exists b, name. split_and!; done.
  - intros (b & name & Hb & Hpos & Hn & ->). exists (tr_user r, b). rewrite elem_of_map_to_list. split; [done|].
    cbn. rewrite Hn. cbn. by rewrite (proj2 (Z.ltb_lt _ _)).
Qed.

Lemma alltime_rows_nodup db : NoDup (tr_user <$> alltime_rows num_div db).
Proof.
  unfold alltime_rows. pose proof (NoDup_fst_map_to_list (leaderboard_alltime db)) as Hnd. revert Hnd.
  generalize (map_to_list (leaderboard_alltime db)) as l. induction l as [|[u b] l IH]; [constructor|].
  cbn [fmap list_fmap fst]. intros [Hnew Hnd]%NoDup_cons. cbn [omap list_omap]. cbn.
  destruct (users db !! u) as [name|]; cbn; [|by apply IH]. destruct (0 <? board_races b); [|by apply IH].
  cbn [fmap list_fmap]. constructor; [|by apply IH]. cbn. intros (r & -> & Hr)%list_elem_of_fmap.
  apply list_elem_of_omap in Hr as ([u' b'] & Hin & Hr). cbn in Hr. apply bind_Some in Hr as (name' & _ & Hr).
  destruct (0 <? board_races b'); [|done]. injection Hr as <-. apply Hnew. cbn. apply list_elem_of_fmap. by exists (u', b').
Qed.

Lemma alltime_counted db :
  (forall u b, leaderboard_alltime db !! u = Some b -> is_Some (users db !! u)) ->
  Z.of_nat (length (alltime_rows num_div db)) = alltime_count db.
Proof.
  intros Hfk. unfold alltime_rows, alltime_count. f_equal.
  assert (Hall : Forall (fun ub : string * BoardRow => is_Some (users db !! ub.1)) (map_to_list (leaderboard_alltime db))).
  { apply Forall_forall. intros [u b] Hin. apply elem_of_map_to_list in Hin. by eapply Hfk. }
  induction Hall as [|[u b] l [name Hu] _ IH]; [done|]. cbn. cbn in Hu. rewrite Hu. cbn.
  destruct (0 <? board_races b); cbn; by rewrite IH.
Qed.

Lemma scan_all rows : Forall (fun r => is_Some (tr_avg r)) rows ->
  Forall2 (fun r e => scan to_float r = Some e) rows (as_entry <$> rows).
Proof. induction 1 as [|r rows [x Hx] _ IH]; constructor; [|done]. unfold scan, as_entry. by rewrite Hx. Qed.

Lemma mapM_slice {A B} (f : A -> option B) k n l es :
  Forall2 (fun x e => f x = Some e) l es -> mapM f (take n (drop k l)) = Some (take n (drop k es)).
Proof.
  intros Hf. apply mapM_Some. apply Forall2_take, Forall2_drop. eapply Forall2_impl; [exact Hf|]. done.
Qed.

Lemma ranks_before_asym a b : ranks_before a b = true -> ranks_before b a = false.
Proof.
  unfold ranks_before. rewrite orb_true_iff, orb_false_iff, andb_true_iff, Z.ltb_lt, Z.eqb_eq, Z.ltb_ge.
  intros [Hw|[Hw Ha]]; (split; [lia|]).
  - by rewrite (proj2 (Z.eqb_neq _ _)) by lia.
  - apply andb_false_iff. right. destruct (tr_avg a) as [x|], (tr_avg b) as [y|]; try done.
    apply negb_true_iff in Ha. apply negb_false_iff, Qle_bool_iff.
    destruct (Qlt_le_dec y x) as [Hlt|Hle]; [by apply Qlt_le_weak|].
    apply Qle_bool_iff in Hle. congruence.
Qed.

Lemma ranks_before_placed a b x y :
  tr_avg a = Some x -> tr_avg b = Some y -> ranks_before b a = false -> placed a b.
Proof.
  unfold ranks_before, placed. intros Ha Hb [H1 H2]%orb_false_iff. apply Z.ltb_ge in H1.
  destruct (Z.eq_dec (tr_wins a) (tr_wins b)) as [Hw|Hw]; [right|left; lia]. split; [done|]. exists x, y. split_and!; try done.
  rewrite Hw, Z.eqb_refl, Ha, Hb in H2. cbn in H2. apply negb_false_iff in H2. by apply Qle_bool_iff.
Qed.

Lemma placed_trans a b c : placed a b -> placed b c -> placed a c.
Proof.
  unfold placed. intros [H1|(H1 & x & y & Hx & Hy & Hxy)] [H2|(H2 & y' & z & Hy' & Hz & Hyz)]; [left; lia..|right].
  split; [congruence|]. exists x, z. split_and!; [done|done|]. simplify_eq. by eapply Qle_trans.
Qed.

Lemma sort_placed l : Forall (fun r => is_Some (tr_avg r)) l -> StronglySorted placed (stable_sort ranks_before l).
Proof.
  intros Hl. apply Sorted_StronglySorted; [intros ???; apply placed_trans|].
  assert (Hl' : Forall (fun r => is_Some (tr_avg r)) (stable_sort ranks_before l)) by (by rewrite stable_sort_perm).
  pose proof (stable_sort_sorted ranks_before l ranks_before_asym) as Hs.
  induction Hs as [|x m Hm IH Hhd]; constructor; apply Forall_cons in Hl' as [[a Ha] Hl']; [by apply IH|].
  destruct Hhd as [|y m Hxy]; constructor. apply Forall_cons in Hl' as [[b Hb] _]. by eapply ranks_before_placed.
Qed.

(** What one call of the repository serves: a ranking of its own. *)
Lemma alltime_serves heap now db :
  (forall l, heap l ≡ₚ l) ->
  (forall u b, leaderboard_alltime db !! u = Some b -> is_Some (users db !! u)) ->
  exists rows, ranking db rows /\ Z.of_nat (length rows) = alltime_count db /\
    serves (as_entry <$> rows) (repo_GetTop num_div to_float numeric heap Up Up now db) WindowAllTime.
Proof.
  intros Hheap Hfk. set (rows := alltime_rows num_div db). exists (stable_sort ranks_before (heap rows)).
  assert (Hperm : stable_sort ranks_before (heap rows) ≡ₚ rows) by (by rewrite stable_sort_perm, Hheap).
  assert (Havg : Forall (fun r => is_Some (tr_avg r)) (heap rows)).
  { rewrite Hheap. apply Forall_forall. intros r (b & name & _ & _ & _ & ->)%alltime_rows_shown. done. }
  assert (Hlen : Z.of_nat (length (stable_sort ranks_before (heap rows))) = alltime_count db)
    by (rewrite Hperm; by apply alltime_counted).
  split_and!; [|done|].
  - split_and!; [rewrite Hperm; apply alltime_rows_nodup| |by apply sort_placed].
    intros r. rewrite Hperm. apply alltime_rows_shown.
  - intros offset Ho. unfold repo_GetTop.
    change (String.eqb WindowAllTime WindowWeekly) with false. cbv iota.
    rewrite (proj2 (Z.ltb_ge offset 0)) by lia. unfold page_rows. fold rows.
    assert (Havg' : Forall (fun r => is_Some (tr_avg r)) (stable_sort ranks_before (heap rows))) by (by rewrite stable_sort_perm).
    rewrite (mapM_slice _ _ _ _ _ (scan_all _ Havg')).
    change (Z.to_nat pageSize) with 5%nat. by rewrite length_fmap, Hlen.
Qed.

(** C33: a page of the all-time leaderboard, on tables that respect their foreign
    keys: whatever order Postgres leaves players in that its ORDER BY does not
    separate - and each query may leave them in another - the answer to page
    [p + 1] is that page of a ranking: of every user whose row counts a race, each
    once, by wins and then by average, numbered from 1, with the number of pages
    that takes; and when no two players are tied there is only one ranking, so that
    the pages of different queries together show every player exactly once, in
    that order. *)
Theorem alltime_pages now db :
  (forall u b, leaderboard_alltime db !! u = Some b -> is_Some (users db !! u)) -> alltime_count db < 2 ^ 60 ->
  (forall heap p, (forall l, heap l ≡ₚ l) -> 0 <= p < 2 ^ 60 ->
     exists rows, ranking db rows /\ Z.of_nat (length rows) = alltime_count db /\
       GetTop (repo_GetTop num_div to_float numeric heap Up Up now db) WindowAllTime (p + 1) =
         inl (inl (mkTop WindowAllTime (p + 1) (Z.max 1 ((alltime_count db + 4) / 5))
           (take 5 (drop (5 * Z.to_nat p) (ranked (as_entry <$> rows))))))) /\
  (no_ties db -> exists rows, ranking db rows /\ (forall rows', ranking db rows' -> rows' = rows) /\
     forall heaps : nat -> list TopRow -> list TopRow, (forall p l, heaps p l ≡ₚ l) ->
       let pages := Z.to_nat (Z.max 1 ((alltime_count db + 4) / 5)) in
       mjoin ((fun p => match GetTop (repo_GetTop num_div to_float numeric (heaps p) Up Up now db) WindowAllTime (Z.of_nat p + 1) with
                        | inl (inl t) => top_Entries t | _ => [] end) <$> seq 0 pages) = ranked (as_entry <$> rows)).
Proof.
  intros Hfk Hn.
  assert (Hpage : forall heap p, (forall l, heap l ≡ₚ l) -> 0 <= p < 2 ^ 60 ->
     exists rows, ranking db rows /\ Z.of_nat (length rows) = alltime_count db /\
       GetTop (repo_GetTop num_div to_float numeric heap Up Up now db) WindowAllTime (p + 1) =
         inl (inl (mkTop WindowAllTime (p + 1) (Z.max 1 ((alltime_count db + 4) / 5))
           (take 5 (drop (5 * Z.to_nat p) (ranked (as_entry <$> rows))))))).
  { intros heap p Hh Hp. destruct (alltime_serves heap now db Hh Hfk) as (rows & Hr & Hl & Hs). exists rows.
    split_and!; [done|done|]. rewrite (GetTop_page (as_entry <$> rows)) by (rewrite ?length_fmap; auto; lia).
    by rewrite length_fmap, Hl. }
  split; [done|]. intros Hno. destruct (alltime_serves id now db ltac:(done) Hfk) as (rows & Hr & Hl & _).
  assert (Huniq : forall rows', ranking db rows' -> rows' = rows) by (intros; by eapply ranking_unique).
  exists rows. split_and!; [done|done|]. intros heaps Hh pages.
  assert (Hpages : 0 <= alltime_count db <= 5 * Z.of_nat pages /\ Z.of_nat pages < 2 ^ 60).
  { unfold pages. pose proof (Z.div_mod (alltime_count db + 4) 5 ltac:(lia)).
    pose proof (Z.mod_pos_bound (alltime_count db + 4) 5 ltac:(lia)). lia. }
  trans (mjoin ((fun p => take 5 (drop (5 * p) (ranked (as_entry <$> rows)))) <$> seq 0 pages)).
  - f_equal. apply list_fmap_ext. intros i p Hi. apply lookup_seq in Hi as [-> Hi].
    destruct (Hpage (heaps (0 + i)%nat) (Z.of_nat (0 + i)) (Hh _)) as (rows' & Hr' & _ & ->); [lia|].
    rewrite (Huniq rows' Hr'), Nat2Z.id. done.
  - rewrite concat_pages. apply take_ge. unfold ranked. rewrite length_imap, length_fmap. lia.
Qed.

(** One participant without a result hides a weekly page: an entry whose
    races of the week all lack an average - somebody who joined and never
    connected - cannot be scanned, so every page it would be on fails as a
    whole. *)
Theorem weekly_null_hides_page heap now db offset r :
  0 <= offset -> r ∈ page_rows heap pageSize offset (weekly_rows num_div numeric now db) ->
  tr_avg r = None ->
  exists e, repo_GetTop num_div to_float numeric heap Up Up now db WindowWeekly pageSize offset = inr e.
Proof.
  intros Ho Hr Hn. unfold repo_GetTop. change (String.eqb WindowWeekly WindowWeekly) with true. cbv iota.
  rewrite (proj2 (Z.ltb_ge offset 0)) by lia.
  destruct (mapM (scan to_float) _) as [es|] eqn:Hm; [|by eexists].
  apply mapM_Some in Hm. apply list_elem_of_lookup_1 in Hr as [i Hi].
  destruct (Forall2_lookup_l _ _ _ _ _ Hm Hi) as (e & _ & Hs). unfold scan in Hs. by rewrite Hn in Hs.
Qed.
End tables.

(** ** Concrete tables *)

Definition exact_div (q : Q) (n : Z) : Q := (q / inject_Z n)%Q.
Definition no_float (q : Q) : float64 := float64_0.
Definition no_numeric (f : float64) : Q := 0%Q.

(** [u1] has won a race that [u2] had joined without ever connecting. *)
Definition week_db : DB :=
  fst (repo_FinishRace no_numeric None Up 1000 "R" 5 [mkResult "u1" (Some 1) (Some 800) float64_0 0]
    (mkDB {[ "u1" := "Ana"; "u2" := "Bo" ]} {[ "R" := mkRace "Race" 5 "active" "u1" 100 (Some 200) None None ]}
       {[ ("R", "u1") := mkRow None None None 0 100; ("R", "u2") := mkRow None None None 0 100 ]} ∅)).

Lemma weekly_null_hides_page_witness :
  (status (Top (Some "u1") (repo_GetTop exact_div no_float no_numeric (fun l => l) Up Up 2000 week_db) "weekly" "1") = 500) /\
  exists e, repo_GetTop exact_div no_float no_numeric (fun l => l) Up Up 2000 week_db WindowWeekly pageSize 0 = inr e.
Proof.
  split; [vm_compute; reflexivity|].
  apply (weekly_null_hides_page exact_div no_float no_numeric (fun l => l) 2000 week_db 0
    (mkTopRow "u2" "Bo" 1 0 None)); [lia| |reflexivity].
  vm_compute. right. left.
Defined.

Definition demo_ranking : list Entry :=
  (fun u => mkEntry u u 1 0 float64_0) <$> ["a"; "b"; "c"; "d"; "e"; "f"; "g"].

Definition demo_repo (all : list Entry) (window : string) (limit offset : Z) : (list Entry * Z) + error :=
  inl (take (Z.to_nat limit) (drop (Z.to_nat offset) all), Z.of_nat (length all)).

Lemma pages_cover_witness :
  exists pages : nat -> list (Z * Entry), mjoin (pages <$> seq 0 2) = ranked demo_ranking.
Proof.
  destruct (pages_cover demo_ranking (demo_repo demo_ranking) WindowAllTime) as (pages & _ & H & _);
    [by intros offset _|by left|reflexivity|]. by exists pages.
Defined.

(** Six players with one win and one average, and an order of theirs. *)
Definition tied_db : DB :=
  mkDB (list_to_map ((fun u => (u, u)) <$> ["a"; "b"; "c"; "d"; "e"; "f"])) ∅ ∅
    (list_to_map ((fun u => (u, mkBoard (Some 800) 1 5 1 0 1000)) <$> ["a"; "b"; "c"; "d"; "e"; "f"])).

Lemma alltime_pages_witness :
  exists rows, ranking exact_div week_db rows /\
    GetTop (repo_GetTop exact_div no_float no_numeric (@reverse TopRow) Up Up 2000 week_db) WindowAllTime 1 =
      inl (inl (mkTop WindowAllTime 1 1 (take 5 (ranked (as_entry no_float <$> rows))))) /\
    le_UserID <$> (as_entry no_float <$> rows) = ["u1"].
Proof.
  assert (leaderboard_alltime week_db = {[ "u1" := mkBoard (Some 800) 1 5 1 0 1000 ]}) as Heq by (vm_compute; reflexivity).
  assert (users week_db !! "u1" = Some "Ana") as Hu by (vm_compute; reflexivity).
  assert (Hfk : forall u b, leaderboard_alltime week_db !! u = Some b -> is_Some (users week_db !! u)).
  { intros u b. rewrite Heq. intros [<- _]%lookup_singleton_Some. rewrite Hu. by eexists. }
  assert (alltime_count week_db = 1) as Hc by (vm_compute; reflexivity).
  destruct (alltime_pages exact_div no_float no_numeric 2000 week_db Hfk ltac:(rewrite Hc; lia)) as [Hpage _].
  destruct (Hpage (@reverse TopRow) 0) as (rows & Hr & Hl & Htop); [intros; apply reverse_Permutation|lia|].
  exists rows. rewrite Hc in Hl, Htop. split_and!; [exact Hr|exact Htop|].
  destruct rows as [|r [|r' rows]]; [cbn in Hl; lia| |cbn [length] in Hl; lia].
  destruct Hr as (_ & Hm & _). assert (Hs : r ∈ [r]) by left. apply Hm in Hs as (b & name & Hb & _).
  rewrite Heq in Hb. apply lookup_singleton_Some in Hb as [Hu1 _]. cbn. by rewrite Hu1.
Defined.

(** Among players that are tied the pages of two queries need not fit together:
    six players with as many wins and one average take two pages, and when the
    second query leaves them in another order than the first - which the ORDER BY
    of the query permits - a player is on both pages and another on neither. *)
Theorem tied_pages_repeat :
  let page heap p := match GetTop (repo_GetTop exact_div no_float no_numeric heap Up Up 2000 tied_db) WindowAllTime p with
                     | inl (inl t) => (fun re => le_UserID re.2) <$> top_Entries t | _ => [] end in
  length (page (fun l => l) 1) = 5%nat /\ page (@reverse TopRow) 2 = take 1 (page (fun l => l) 1) /\
  exists u, u ∈ ["a"; "b"; "c"; "d"; "e"; "f"] /\ u ∉ page (fun l => l) 1 /\ u ∉ page (@reverse TopRow) 2.
Proof.
  vm_compute. split_and!; [reflexivity|reflexivity|]. exists "d".
  split_and!; [do 3 right; left|intros Hin..]; repeat (inversion Hin as [|? ? ? Hin']; clear Hin; rename Hin' into Hin).
Qed.

(** Page numbers are not checked against overflow: the offset wraps around,
    so a page number of nineteen digits, far beyond the last page, answers with
    entries from the middle of the first; and a page parameter that does not
    fit an [int] is not "not provided": it asks for the largest page. *)
Theorem page_offset_wraps :
  GetTop (demo_repo demo_ranking) "alltime" 3689348814741910325 =
    inl (inl (mkTop "alltime" 3689348814741910325 2 ((fun n => (n, default (mkEntry "" "" 0 0 float64_0)
      (demo_ranking !! Z.to_nat (n - 1)))) <$> [5; 6; 7]))) /\
  fst (Atoi "99999999999999999999") = max_int64 /\ fst (Atoi "x") = 0.
Proof. split_and!; vm_compute; reflexivity. Qed.
