(* ===== verification/Auth.v ===== *)
(** * Accounts ([internal/auth], [postgres/auth_repository.go])

    Registration and login, from the request body to the table.  Address
    parsing, lower-casing and password hashing are library code: parameters,
    with what the program relies on in [Passwords]. *)
From Stdlib Require Import ZArith.
From stdpp Require Import base list gmap sets strings.
From S2P Require Import Prelude GoNum GoStrings Json Http Store.
Local Open Scope string_scope.
Local Open Scope Z_scope.
Local Open Scope list_scope.

(** [golang.org/x/crypto/bcrypt]: a hash is computed with a random salt and
    accepts the password it was made from; passwords above 72 bytes are
    refused. *)
Class Passwords := {
  generate : string -> string -> string + error;   (** salt, password *)
  compare : string -> string -> bool;              (** hash, password *)
  compare_generate salt pw h : generate salt pw = inl h -> compare h pw = true;
  generate_limit salt pw : 72 < len pw -> exists e, generate salt pw = inr e
}.

(** ** The table *)

(** A row of [users] ([User]). *)
Record User := mkUser {
  user_ID : string;
  user_Email : string;
  user_DisplayName : string;
  user_PasswordHash : string;
  user_CreatedAt : Z
}.

#[export] Instance eta_User : Eta User := fun u =>
  mkUser (user_ID u) (user_Email u) (user_DisplayName u) (user_PasswordHash u) (user_CreatedAt u).

(** The rows by email, which is unique. *)
Abbreviation Users := (gmap string User) (only parsing).

Inductive auth_error := ErrEmailTaken | ErrUserNotFound | ErrInvalidCredentials | AuthOther (msg : error).

(** [CreateUser]: the id and the time come from the server's defaults; the hash
    is not read back. *)
Definition CreateUser (c : Conn) (id : string) (now : Z) (email displayName passwordHash : string) (db : Users)
    : Users * (User + auth_error) :=
  match db !! email with
  | Some _ => match c with Up => (db, inr ErrEmailTaken) | Failed e | Lost e => (db, inr (AuthOther e)) end
  | None =>
      let u := mkUser id email displayName passwordHash now in
      let db' := <[email := u]> db in
      match c with
      | Up => (db', inl (u <| user_PasswordHash := "" |>))
      | Failed e => (db, inr (AuthOther e))
      | Lost e => (db', inr (AuthOther e))
      end
  end.

Definition GetUserByEmail (c : Conn) (email : string) (db : Users) : User + auth_error :=
  match c with
  | Failed e | Lost e => inr (AuthOther e)
  | Up => match db !! email with Some u => inl u | None => inr ErrUserNotFound end
  end.

(** ** The service *)

Section service.
Context `{Jwt} `{Passwords} (secret : string).
(** [mail.ParseAddress] succeeds; [strings.ToLower]. *)
Context (ParseAddress : string -> bool) (ToLower : string -> string).

Definition validateRegister (email password displayName : string) : list (string * string) :=
  (if negb (ParseAddress email) then [("email", "invalid format")] else []) ++
  (if len password <? 8 then [("password", "must be at least 8 characters")] else []) ++
  (if (len (trim_space displayName) =? 0) || (50 <? len displayName)
   then [("display_name", "must be 1-50 characters")] else []).

(** [Register]: field errors, an error, or the user. *)
Definition Register (c : Conn) (salt id : string) (now : Z) (email password displayName : string) (db : Users)
    : Users * ((User + list (string * string)) + auth_error) :=
  match validateRegister email password displayName with
  | _ :: _ => (db, inl (inr (validateRegister email password displayName)))
  | [] =>
      match generate salt password with
      | inr e => (db, inr (AuthOther e))
      | inl hash =>
          match CreateUser c id now (ToLower email) displayName hash db with
          | (db', inl u) => (db', inl (inl u))
          | (db', inr e) => (db', inr e)
          end
      end
  end.

(** [Login] at [now] seconds: the token and its expiry. *)
Definition Login (c : Conn) (now : Z) (email password : string) (db : Users) : (string * Z) + auth_error :=
  if String.eqb email "" || String.eqb password "" then inr ErrInvalidCredentials else
  match GetUserByEmail c (ToLower email) db with
  | inr ErrUserNotFound => inr ErrInvalidCredentials
  | inr e => inr e
  | inl user =>
      if negb (compare (user_PasswordHash user) password) then inr ErrInvalidCredentials else
      match signLoginToken secret now (user_ID user) (user_Email user) with
      | inl token => inl (token, now + login_ttl)
      | inr e => inr (AuthOther e)
      end
  end.

(** ** The handlers *)

Record registerRequest := mkRegister { reg_Email : string; reg_Password : string; reg_DisplayName : string }.

#[export] Instance eta_registerRequest : Eta registerRequest := fun r =>
  mkRegister (reg_Email r) (reg_Password r) (reg_DisplayName r).

Definition registerRequest_fields : list (field registerRequest) :=
  [("email", dec_string (fun v m => m <| reg_Email := v |>));
   ("password", dec_string (fun v m => m <| reg_Password := v |>));
   ("display_name", dec_string (fun v m => m <| reg_DisplayName := v |>))].

Record loginRequest := mkLogin { log_Email : string; log_Password : string }.

#[export] Instance eta_loginRequest : Eta loginRequest := fun r => mkLogin (log_Email r) (log_Password r).

Definition loginRequest_fields : list (field loginRequest) :=
  [("email", dec_string (fun v m => m <| log_Email := v |>));
   ("password", dec_string (fun v m => m <| log_Password := v |>))].

Definition HandleRegister (c : Conn) (salt id : string) (now : Z) (body : option json) (db : Users)
    : Users * Response :=
  match (j ← body; unmarshal_struct registerRequest_fields (mkRegister "" "" "") j) with
  | None => (db, WriteError 400 "invalid_body")
  | Some req =>
      match Register c salt id now (reg_Email req) (reg_Password req) (reg_DisplayName req) db with
      | (db', inl (inr errs)) => (db', WriteJSON 400 (JObj [("errors", marshal_string_map errs)]))
      | (db', inr ErrEmailTaken) => (db', WriteError 409 "email_taken")
      | (db', inr _) => (db', WriteError 500 "internal_error")
      | (db', inl (inl u)) =>
          (db', WriteJSON 201 (JObj [("id", JStr (user_ID u)); ("email", JStr (user_Email u));
                                     ("display_name", JStr (user_DisplayName u))]))
      end
  end.

(** [expires_at] is printed by [Time.Format], a parameter. *)
Definition HandleLogin (format : Z -> string) (c : Conn) (now : Z) (body : option json) (db : Users) : Response :=
  match (j ← body; unmarshal_struct loginRequest_fields (mkLogin "" "") j) with
  | None => WriteError 400 "invalid_body"
  | Some req =>
      match Login c now (log_Email req) (log_Password req) db with
      | inr ErrInvalidCredentials => WriteError 401 "invalid_credentials"
      | inr _ => WriteError 500 "internal_error"
      | inl (token, expiresAt) =>
          WriteJSON 200 (JObj [("token", JStr token); ("expires_at", JStr (format expiresAt))])
      end
  end.

(** ** Facts *)

Lemma Register_cases c salt id now email pw name db db' res :
  Register c salt id now email pw name db = (db', res) ->
  (db' = db /\ (forall u, res <> inl (inl u))) \/
  (exists h, validateRegister email pw name = [] /\ generate salt pw = inl h /\ db !! ToLower email = None /\
     db' = <[ToLower email := mkUser id (ToLower email) name h now]> db /\
     (res = inl (inl (mkUser id (ToLower email) name "" now)) \/ exists e, res = inr (AuthOther e))).
Proof.
  unfold Register. destruct (validateRegister email pw name) as [|err errs]; [|intros; simplify_eq; by left].
  destruct (generate salt pw) as [h|e]; [|intros; simplify_eq; by left].
  unfold CreateUser. destruct (db !! ToLower email) as [u|] eqn:Hu.
  - destruct c; intros; simplify_eq; by left.
  - destruct c; intros; simplify_eq; [right|by left|right]; exists h; split_and!; eauto.
Qed.

(** C34: a registered user can log in: after a successful registration, logging in
    with any spelling of the email that lower-cases the same, and the password,
    gives a token - and that token authenticates exactly this user's requests
    until it expires, a day later. *)
Theorem register_then_login c salt id now email pw name db db' u now1 email1 :
  Register c salt id now email pw name db = (db', inl (inl u)) ->
  (forall token, signLoginToken secret now1 id (ToLower email) = inl token -> token <> "") ->
  (exists token, signLoginToken secret now1 id (ToLower email) = inl token) ->
  ToLower email1 = ToLower email -> email1 <> "" -> id <> "" ->
  user_ID u = id /\
  exists token, Login Up now1 email1 pw db' = inl (token, now1 + login_ttl) /\
    forall now2, now2 < now1 + login_ttl -> authenticated secret now2 (bearer +:+ token) = Some id.
Proof.
  intros Hr Htok [token Hsign] Hl He Hid.
  destruct (Register_cases _ _ _ _ _ _ _ _ _ _ Hr) as [[_ Hno]|(h & Hv & Hg & _ & -> & Hres)];
    [by destruct (Hno u)|].
  destruct Hres as [Hres|[e Hres]]; simplify_eq. split; [done|]. exists token.
  assert (Hpw : pw <> "").
  { intros ->. unfold validateRegister in Hv. apply app_eq_nil in Hv as [_ Hv]. done. }
  split.
  - unfold Login. rewrite (proj2 (String.eqb_neq email1 "")) by done.
    rewrite (proj2 (String.eqb_neq pw "")) by done. cbn. rewrite Hl, lookup_insert_eq. cbn.
    rewrite (compare_generate _ _ _ Hg). cbn. by rewrite Hsign.
  - intros now2 Hnow. rewrite (authenticated_signed secret now1 now2 id (ToLower email) token) by auto.
    by rewrite (proj2 (Z.ltb_lt _ _)).
Qed.

(** Registration never overwrites an account and creates at most one: when
    the lower-cased email is taken nothing changes and the answer is
    [ErrEmailTaken]; otherwise nothing changes or exactly this account is added,
    under that email, with a hash of the password. *)
Theorem Register_spec c salt id now email pw name db db' res :
  Register c salt id now email pw name db = (db', res) ->
  (forall u, db !! ToLower email = Some u -> db' = db /\ forall v, res <> inl (inl v)) /\
  (db !! ToLower email <> None -> validateRegister email pw name = [] -> c = Up ->
   (exists h, generate salt pw = inl h) -> res = inr ErrEmailTaken) /\
  (db' = db \/ exists h, generate salt pw = inl h /\
     db' = <[ToLower email := mkUser id (ToLower email) name h now]> db /\ 8 <= len pw) /\
  (forall email' u, db !! email' = Some u -> db' !! email' = Some u).
Proof.
  intros Hr. pose proof (Register_cases _ _ _ _ _ _ _ _ _ _ Hr) as Hc. split_and!.
  - intros u Hu. destruct Hc as [Hc|(h & _ & _ & Hn & _)]; [done|congruence].
  - intros Hn Hv -> [h Hg]. unfold Register, CreateUser in Hr. rewrite Hv, Hg in Hr.
    destruct (db !! ToLower email); [|done]. by simplify_eq.
  - destruct Hc as [[Hc _]|(h & Hv & Hg & _ & Hdb & _)]; [by left|right]. exists h. split_and!; try done.
    unfold validateRegister in Hv. apply app_eq_nil in Hv as [_ Hv]. apply app_eq_nil in Hv as [Hv _].
    destruct (Z.ltb_spec (len pw) 8); [done|lia].
  - intros email' u Hu. destruct Hc as [[-> _]|(h & _ & _ & Hn & -> & _)]; [done|].
    rewrite lookup_insert_ne; [done|congruence].
Qed.

(** A failed login does not tell an unknown address from a wrong password:
    both are answered with the same response, whatever the passwords. *)
Theorem login_failures_alike format now db u email pw email' pw' :
  db !! ToLower email = None ->
  db !! ToLower email' = Some u -> compare (user_PasswordHash u) pw' = false ->
  HandleLogin format Up now (Some (JObj [("email", JStr email); ("password", JStr pw)])) db =
  HandleLogin format Up now (Some (JObj [("email", JStr email'); ("password", JStr pw')])) db /\
  status (HandleLogin format Up now (Some (JObj [("email", JStr email); ("password", JStr pw)])) db) = 401.
Proof.
  intros Hn Hu Hc.
  assert (Login Up now email pw db = inr ErrInvalidCredentials) as H1.
  { unfold Login, GetUserByEmail. rewrite Hn. by destruct (String.eqb email "" || String.eqb pw ""). }
  assert (Login Up now email' pw' db = inr ErrInvalidCredentials) as H2.
  { unfold Login, GetUserByEmail. rewrite Hu, Hc. by destruct (String.eqb email' "" || String.eqb pw' ""). }
  assert (forall e p, HandleLogin format Up now (Some (JObj [("email", JStr e); ("password", JStr p)])) db =
    match Login Up now e p db with
    | inr ErrInvalidCredentials => WriteError 401 "invalid_credentials"
    | inr _ => WriteError 500 "internal_error"
    | inl (token, expiresAt) => WriteJSON 200 (JObj [("token", JStr token); ("expires_at", JStr (format expiresAt))])
    end) as Hh by done.
  by rewrite !Hh, H1, H2.
Qed.

(** A password of more than 72 bytes passes validation and then fails in the
    hash: the answer is not a field error but "internal_error", and no account is
    made. *)
Theorem long_password_internal_error c salt id now email pw name db :
  ParseAddress email = true -> 72 < len pw -> trim_space name <> "" -> len name <= 50 ->
  HandleRegister c salt id now
    (Some (JObj [("email", JStr email); ("password", JStr pw); ("display_name", JStr name)])) db =
  (db, WriteError 500 "internal_error").
Proof.
  intros Hp Hpw Hn Hlen.
  assert (validateRegister email pw name = []) as Hv.
  { unfold validateRegister. rewrite Hp, (proj2 (Z.ltb_ge (len pw) 8)) by lia.
    rewrite (proj2 (Z.ltb_ge 50 (len name))) by lia. rewrite orb_false_r.
    assert ((len (trim_space name) =? 0) = false) as ->; [|done].
    apply Z.eqb_neq. unfold len. destruct (trim_space name); [done|]. simpl. lia. }
  destruct (generate_limit salt pw Hpw) as [e He].
  assert (Register c salt id now email pw name db = (db, inr (AuthOther e))) as Hr
    by (unfold Register; by rewrite Hv, He).
  transitivity (match Register c salt id now email pw name db with
    | (db', inl (inr errs)) => (db', WriteJSON 400 (JObj [("errors", marshal_string_map errs)]))
    | (db', inr ErrEmailTaken) => (db', WriteError 409 "email_taken")
    | (db', inr _) => (db', WriteError 500 "internal_error")
    | (db', inl (inl u)) =>
        (db', WriteJSON 201 (JObj [("id", JStr (user_ID u)); ("email", JStr (user_Email u));
                                   ("display_name", JStr (user_DisplayName u))]))
    end); [done|by rewrite Hr].
Qed.
End service.

(** ** A library that hashes to the password itself *)

#[export, refine] Instance demo_passwords : Passwords := {|
  generate _ pw := if 72 <? len pw then inr "password too long" else inl pw;
  compare h pw := String.eqb h pw
|}.
Proof.
  - intros salt pw h Hg. destruct (72 <? len pw); simplify_eq. apply String.eqb_refl.
  - intros salt pw Hl. rewrite (proj2 (Z.ltb_lt _ _)) by done. by eexists.
Defined.

Definition demo_users : Users := {[ "a@b.c" := mkUser "u1" "a@b.c" "Ana" "password" 5 ]}.

Lemma register_then_login_witness :
  exists token, Login (H := demo_jwt) "k" (fun s => s) Up 1000 "a@b.c" "password" demo_users = inl (token, 1000 + login_ttl) /\
    authenticated (H := demo_jwt) "k" 2000 (bearer +:+ token) = Some "u1".
Proof.
  destruct (register_then_login (H := demo_jwt) (H0 := demo_passwords) "k" (fun _ => true) (fun s => s)
    Up "s" "u1" 5 "a@b.c" "password" "Ana" ∅ demo_users (mkUser "u1" "a@b.c" "Ana" "" 5) 1000 "a@b.c")
    as (_ & token & Hl & Ha).
  - reflexivity.
  - intros token Ht. rewrite demo_sign_login in Ht. injection Ht as <-. discriminate.
  - exists "lk". exact demo_sign_login.
  - reflexivity.
  - discriminate.
  - discriminate.
  - exists token. split; [exact Hl|]. apply Ha. reflexivity.
Defined.

Lemma Register_spec_witness :
  fst (Register (fun _ => true) (fun s => s) Up "s" "u2" 6 "a@b.c" "password2" "Bo" demo_users) = demo_users.
Proof.
  destruct (Register_spec (fun _ => true) (fun s => s) Up "s" "u2" 6 "a@b.c" "password2" "Bo" demo_users _ _
    (surjective_pairing _)) as (H & _).
  destruct (H (mkUser "u1" "a@b.c" "Ana" "password" 5)) as [Hdb _]; [reflexivity|exact Hdb].
Defined.

Lemma login_failures_alike_witness :
  status (HandleLogin (H := demo_jwt) "k" (fun s => s) (fun _ => "") Up 1000
    (Some (JObj [("email", JStr "x@y.z"); ("password", JStr "p")])) demo_users) = 401.
Proof.
  apply (login_failures_alike (H := demo_jwt) "k" (fun s => s) (fun _ => "") 1000 demo_users
    (mkUser "u1" "a@b.c" "Ana" "password" 5) "x@y.z" "p" "a@b.c" "wrong"); reflexivity.
Defined.

Lemma long_password_internal_error_witness :
  HandleRegister (fun _ => true) (fun s => s) Up "s" "u2" 6
    (Some (JObj [("email", JStr "x@y.z"); ("password", JStr (String.concat "" (replicate 73 "p"))); ("display_name", JStr "Bo")]))
    demo_users = (demo_users, WriteError 500 "internal_error").
Proof.
  apply long_password_internal_error; [reflexivity|vm_compute; reflexivity|discriminate|vm_compute; discriminate].
Defined.
