(* ===== verification/Kafka.v ===== *)
(** * Events on Kafka ([internal/kafka/producer.go], [internal/consumer/decode.go])

    What the room's publisher writes to the two topics and how the consumer
    reads it back.  The timestamp format of [encoding/json] is an interface:
    what is printed parses back. *)
From Stdlib Require Import ZArith Ascii Floats.SpecFloat.
From stdpp Require Import base list gmap sets strings.
From S2P Require Import Prelude GoNum GoStrings Json Events.
Local Open Scope string_scope.
Local Open Scope Z_scope.
Local Open Scope list_scope.

Definition TopicWorkoutSample : string := "workout.sample".
Definition TopicRaceFinished : string := "race.finished".

(** [time.Time] as a JSON string; times are in nanoseconds. *)
Class TimeFormat := {
  format_time : Z -> string;
  parse_time : string -> option Z;
  parse_format t : parse_time (format_time t) = Some t
}.

(** A [kafkago.Message], without its headers. *)
Record KMessage := mkKMessage { km_Topic : string; km_Key : string; km_Value : option json }.

(** ** Trace headers ([HeaderCarrier]) *)

(** [Get] *)
Definition carrier_Get (hs : list (string * string)) (key : string) : string :=
  match List.find (fun h => String.eqb h.1 key) hs with Some h => h.2 | None => "" end.

(** [Set]: the first header of that name, or a new one. *)
Fixpoint carrier_Set (hs : list (string * string)) (key value : string) : list (string * string) :=
  match hs with
  | [] => [(key, value)]
  | h :: hs' => if String.eqb h.1 key then (h.1, value) :: hs' else h :: carrier_Set hs' key value
  end.

Definition carrier_Keys (hs : list (string * string)) : list string := fst <$> hs.

(** ** The producer *)

Section kafka.
Context `{TimeFormat}.

(** [PublishWorkoutSample]: [None] is a value that cannot be marshalled. *)
Definition marshal_sample (raceID userID : string) (ts wordsCorrect : Z) (paceWatt : float64) : option json :=
  distance ← marshal_float64 (float64_of_int wordsCorrect);
  pace ← marshal_float64 paceWatt;
  Some (JObj [("race_id", JStr raceID); ("user_id", JStr userID); ("ts", JStr (format_time ts));
              ("distance_m", distance); ("pace_watt", pace)]).

Definition PublishWorkoutSample (raceID userID : string) (ts wordsCorrect : Z) (paceWatt : float64)
    : option KMessage :=
  value ← marshal_sample raceID userID ts wordsCorrect paceWatt;
  Some (mkKMessage TopicWorkoutSample raceID (Some value)).

(** [PublishRaceFinished] *)
Definition marshal_finished (raceID : string) (results : list ParticipantResult) : option json :=
  rs ← mapM marshal_RaceResultJSON (to_RaceResultJSON <$> results);
  Some (JObj [("race_id", JStr raceID); ("results", JArr rs)]).

Definition PublishRaceFinished (raceID : string) (results : list ParticipantResult) : option KMessage :=
  value ← marshal_finished raceID results;
  Some (mkKMessage TopicRaceFinished raceID (Some value)).

(** [PublishRaw] *)
Definition PublishRaw (topic key : string) (value : option json) : KMessage := mkKMessage topic key value.

(** ** The decoders of the consumer *)

(** [WorkoutSample] *)
Record WorkoutSample := mkSample {
  ws_RaceID : string;
  ws_UserID : string;
  ws_Ts : Z;
  ws_DistanceM : float64;
  ws_PaceWatt : float64
}.

#[export] Instance eta_WorkoutSample : Eta WorkoutSample := fun s =>
  mkSample (ws_RaceID s) (ws_UserID s) (ws_Ts s) (ws_DistanceM s) (ws_PaceWatt s).

(** The zero [time.Time] is not a time of the model: 0 stands for it. *)
Definition dec_time {S} (put : Z -> S -> S) (j : json) (s : S) : option S :=
  match j with
  | JStr v => t ← parse_time v; Some (put t s)
  | JNull => Some s
  | _ => None
  end.

Definition WorkoutSample_fields : list (field WorkoutSample) :=
  [("race_id", dec_string (fun v m => m <| ws_RaceID := v |>));
   ("user_id", dec_string (fun v m => m <| ws_UserID := v |>));
   ("ts", dec_time (fun v m => m <| ws_Ts := v |>));
   ("distance_m", dec_float64 (fun v m => m <| ws_DistanceM := v |>));
   ("pace_watt", dec_float64 (fun v m => m <| ws_PaceWatt := v |>))].

Definition decodeWorkoutSample (value : option json) : option WorkoutSample :=
  j ← value; unmarshal_struct WorkoutSample_fields (mkSample "" "" 0 float64_0 float64_0) j.

(** Pointers to integers: null is nil. *)
Definition dec_int64_ptr {S} (put : option Z -> S -> S) (j : json) (s : S) : option S :=
  match j with
  | JNull => Some (put None s)
  | JNum n => v ← number_int64 n; Some (put (Some v) s)
  | _ => None
  end.

#[global] Arguments dec_int64_ptr {S} put j s : simpl never.

#[export] Instance eta_RaceResultJSON : Eta RaceResultJSON := fun r =>
  mkResultJSON (rr_UserID r) (rr_FinishRank r) (rr_FinishTimeMs r) (rr_AvgPaceWatt r).

Definition RaceResultJSON_fields : list (field RaceResultJSON) :=
  [("user_id", dec_string (fun v m => m <| rr_UserID := v |>));
   ("finish_rank", dec_int64_ptr (fun v m => m <| rr_FinishRank := v |>));
   ("finish_time_ms", dec_int64_ptr (fun v m => m <| rr_FinishTimeMs := v |>));
   ("avg_pace_watt", dec_float64 (fun v m => m <| rr_AvgPaceWatt := v |>))].

Definition unmarshal_RaceResultJSON (j : json) : option RaceResultJSON :=
  unmarshal_struct RaceResultJSON_fields (mkResultJSON "" None None float64_0) j.

(** [raceFinishedMessage] *)
Record raceFinishedMessage := mkFinished { rf_RaceID : string; rf_Results : list RaceResultJSON }.

#[export] Instance eta_raceFinishedMessage : Eta raceFinishedMessage := fun m =>
  mkFinished (rf_RaceID m) (rf_Results m).

Definition dec_results (j : json) (m : raceFinishedMessage) : option raceFinishedMessage :=
  match j with
  | JArr l => rs ← mapM unmarshal_RaceResultJSON l; Some (m <| rf_Results := rs |>)
  | JNull => Some (m <| rf_Results := [] |>)
  | _ => None
  end.

Definition raceFinished_fields : list (field raceFinishedMessage) :=
  [("race_id", dec_string (fun v m => m <| rf_RaceID := v |>)); ("results", dec_results)].

Definition decodeRaceFinished (value : option json) : option raceFinishedMessage :=
  j ← value; unmarshal_struct raceFinished_fields (mkFinished "" []) j.

(** ** Round trips *)

Lemma sample_roundtrip raceID userID ts words pace :
  - 2 ^ 53 < words < 2 ^ 53 -> float64_finite pace = true ->
  exists m, PublishWorkoutSample raceID userID ts words pace = Some m /\
    decodeWorkoutSample (km_Value m) = Some (mkSample raceID userID ts (float64_of_int words) pace).
Proof.
  intros Hw Hp. unfold PublishWorkoutSample, marshal_sample.
  assert (float64_finite (float64_of_int words) = true) as Hf.
  { apply float64_of_int64_finite. unfold int64_ok, min_int64, max_int64. lia. }
  rewrite !marshal_float64_Some by done. cbn [mbind option_bind]. eexists. split; [done|].
  unfold decodeWorkoutSample. cbn [km_Value mbind option_bind]. simpl.
  rewrite parse_format. simpl. rewrite dec_float64_float by done. simpl. by rewrite dec_float64_float by done.
Qed.

(** The range of the pointers a room can produce. *)
Definition result_ok (r : ParticipantResult) : Prop :=
  (forall k, res_FinishRank r = Some k -> int64_ok k) /\
  (forall t, res_FinishTimeMs r = Some t -> int64_ok t) /\
  float64_finite (res_AvgPaceWatt r) = true.

Lemma dec_int64_ptr_marshal {S} (put : option Z -> S -> S) o s :
  (forall k, o = Some k -> int64_ok k) -> dec_int64_ptr put (marshal_option jint o) s = Some (put o s).
Proof.
  intros Ho. unfold dec_int64_ptr. destruct o as [k|]; [|done]. cbn [marshal_option]. unfold jint.
  by rewrite number_int64_jint by auto.
Qed.

Lemma result_roundtrip r : result_ok r -> exists j,
  marshal_RaceResultJSON (to_RaceResultJSON r) = Some j /\
  unmarshal_RaceResultJSON j = Some (to_RaceResultJSON r).
Proof.
  intros (Hk & Ht & Hp). unfold marshal_RaceResultJSON, to_RaceResultJSON. cbn.
  rewrite marshal_float64_Some by done. cbn. eexists. split; [done|].
  unfold unmarshal_RaceResultJSON. simpl.
  rewrite dec_int64_ptr_marshal by done. simpl. rewrite dec_int64_ptr_marshal by done. simpl.
  by rewrite dec_float64_float by done.
Qed.

Lemma results_roundtrip rs : Forall result_ok rs -> exists js,
  mapM marshal_RaceResultJSON (to_RaceResultJSON <$> rs) = Some js /\
  mapM unmarshal_RaceResultJSON js = Some (to_RaceResultJSON <$> rs).
Proof.
  intros Hrs.
  assert (exists js, Forall2 (fun r j => marshal_RaceResultJSON r = Some j) (to_RaceResultJSON <$> rs) js /\
    Forall2 (fun j r => unmarshal_RaceResultJSON j = Some r) js (to_RaceResultJSON <$> rs)) as (js & H1 & H2).
  { induction Hrs as [|r rs Hr _ (js & IH1 & IH2)]; [by exists []|].
    destruct (result_roundtrip r Hr) as (j & Hm & Hu). exists (j :: js). split; by constructor. }
  exists js. split; by apply mapM_Some.
Qed.

(** A message of results that could be marshalled at all, of ranks and times in
    range, decodes to them. *)
Lemma finished_decodes raceID rs m :
  PublishRaceFinished raceID rs = Some m ->
  Forall (fun r => (forall k, res_FinishRank r = Some k -> int64_ok k) /\
                   (forall t, res_FinishTimeMs r = Some t -> int64_ok t)) rs ->
  km_Topic m = TopicRaceFinished /\
  decodeRaceFinished (km_Value m) = Some (mkFinished raceID (to_RaceResultJSON <$> rs)).
Proof.
  unfold PublishRaceFinished, marshal_finished. intros Hm Hr. apply bind_Some in Hm as (v & Hv & Hm).
  apply bind_Some in Hv as (js & Hjs & Hv). simplify_eq. split; [done|].
  assert (Forall result_ok rs) as Hok.
  { apply mapM_Some_1, Forall2_fmap_l in Hjs. clear -Hjs Hr. induction Hjs as [|r j rs js Hj _ IH]; [constructor|].
    inversion Hr as [|? ? [H1 H2] Hr']; subst. constructor; [|by apply IH]. split_and!; [done|done|].
    unfold marshal_RaceResultJSON, to_RaceResultJSON, marshal_float64 in Hj. cbn in Hj.
    by destruct (float64_finite (res_AvgPaceWatt r)). }
  destruct (results_roundtrip rs Hok) as (js' & Hm & Hu). rewrite Hm in Hjs. simplify_eq.
  unfold decodeRaceFinished. cbn [km_Value mbind option_bind]. simpl. by rewrite Hu.
Qed.

(** C32: what the room publishes is what the consumer reads: every workout sample
    and every list of results of a room, of finite pace and in-range ranks and
    times, is accepted by the producer, under the race's id as its key, and
    decodes on the other side to exactly the same values - ranks that are nil
    stay nil, and a word count below 2^53 survives its trip as a float. *)
Theorem kafka_roundtrip raceID userID ts words pace results :
  - 2 ^ 53 < words < 2 ^ 53 -> float64_finite pace = true -> Forall result_ok results ->
  (exists m, PublishWorkoutSample raceID userID ts words pace = Some m /\
     km_Topic m = TopicWorkoutSample /\ km_Key m = raceID /\
     decodeWorkoutSample (km_Value m) = Some (mkSample raceID userID ts (float64_of_int words) pace)) /\
  (exists m, PublishRaceFinished raceID results = Some m /\
     km_Topic m = TopicRaceFinished /\ km_Key m = raceID /\
     decodeRaceFinished (km_Value m) = Some (mkFinished raceID (to_RaceResultJSON <$> results))).
Proof.
  intros Hw Hp Hrs. split.
  - destruct (sample_roundtrip raceID userID ts words pace Hw Hp) as (m & Hm & Hd). exists m.
    split; [done|]. unfold PublishWorkoutSample in Hm. apply bind_Some in Hm as (v & _ & Hm).
    injection Hm as <-. done.
  - destruct (results_roundtrip results Hrs) as (js & Hm & Hu).
    unfold PublishRaceFinished, marshal_finished. rewrite Hm. cbn [mbind option_bind].
    eexists. split_and!; [done|done|done|]. unfold decodeRaceFinished. cbn [km_Value mbind option_bind].
    simpl. by rewrite Hu.
Qed.

(** The carrier is a map: what was set last is got, other names are kept. *)
Lemma carrier_get_set hs key value key' :
  carrier_Get (carrier_Set hs key value) key' = if String.eqb key key' then value else carrier_Get hs key'.
Proof.
  unfold carrier_Get. induction hs as [|[k v] hs IH]; simpl.
  - by destruct (String.eqb key key').
  - destruct (String.eqb_spec k key) as [->|Hk]; simpl.
    + by destruct (String.eqb key key').
    + destruct (String.eqb_spec k key') as [->|Hk']; [|exact IH].
      by rewrite (proj2 (String.eqb_neq key key')) by congruence.
Qed.
End kafka.

(** ** A format *)

Fixpoint unary (n : nat) : string := match n with O => "" | S n' => String "1" (unary n') end.

Lemma length_unary n : String.length (unary n) = n.
Proof. induction n as [|n IH]; simpl; [done|]. by rewrite IH. Qed.

#[export, refine] Instance demo_time : TimeFormat := {|
  format_time t := if t <? 0 then String "-" (unary (Z.to_nat (- t))) else String "+" (unary (Z.to_nat t));
  parse_time s := match s with
                  | String c s' => let n := Z.of_nat (String.length s') in
                                   if Ascii.eqb c "-" then Some (- n) else if Ascii.eqb c "+" then Some n else None
                  | EmptyString => None
                  end
|}.
Proof.
  intros t. destruct (Z.ltb_spec t 0); cbn; rewrite length_unary; f_equal; lia.
Defined.

Lemma kafka_roundtrip_witness :
  exists m, PublishWorkoutSample "R" "u1" 7 12 float64_0 = Some m /\
    decodeWorkoutSample (km_Value m) = Some (mkSample "R" "u1" 7 (float64_of_int 12) float64_0).
Proof.
  destruct (kafka_roundtrip "R" "u1" 7 12 float64_0 []) as ((m & Hm & _ & _ & Hd) & _);
    [lia|reflexivity|constructor|]. by exists m.
Defined.
