(* ===== verification/Consumer.v ===== *)
(** * The Kafka consumer ([internal/consumer], [postgres/workout_sample_repository.go])

    The two loops, message by message, on one partition each: a log of messages
    numbered by offset, the offset the group has committed (where a restart
    resumes), the tables, and the dead-letter topics.  Times are in
    nanoseconds. *)
From Stdlib Require Import ZArith Floats.SpecFloat.
From stdpp Require Import base list gmap sets strings.
From S2P Require Import Prelude GoNum GoStrings Json Events Store Kafka.
Local Open Scope string_scope.
Local Open Scope Z_scope.
Local Open Scope list_scope.

Definition flushBatchSize : nat := 200.
Definition flushInterval : Z := 3 * 1000000000.
Definition workoutSampleDLQTopic : string := TopicWorkoutSample +:+ ".dlq".
Definition raceFinishedDLQTopic : string := TopicRaceFinished +:+ ".dlq".

(** A message of the log, with its offset. *)
Record Fetched := mkFetched { f_offset : nat; f_message : KMessage }.

(** What the loops work on.  [committed] is the offset a restart resumes from;
    [dead_letters] are the publishes to a dead-letter topic that succeeded. *)
Record Sink := mkSink {
  tables : DB;
  workout_samples : list WorkoutSample;
  committed : nat;
  dead_letters : list KMessage
}.

#[export] Instance eta_Sink : Eta Sink := fun s =>
  mkSink (tables s) (workout_samples s) (committed s) (dead_letters s).

(** ** The batch ([batch.go]) *)
Record sampleBatch := mkBatch {
  b_samples : list WorkoutSample;
  b_messages : list Fetched;
  b_openedAt : Z
}.

#[export] Instance eta_sampleBatch : Eta sampleBatch := fun b =>
  mkBatch (b_samples b) (b_messages b) (b_openedAt b).

Definition batch_empty : sampleBatch := mkBatch [] [] 0.

Definition batch_add (s : WorkoutSample) (msg : Fetched) (now : Z) (b : sampleBatch) : sampleBatch :=
  let b := match b_samples b with [] => b <| b_openedAt := now |> | _ => b end in
  b <| b_samples := b_samples b ++ [s] |> <| b_messages := b_messages b ++ [msg] |>.

Definition shouldFlush (now : Z) (b : sampleBatch) : bool :=
  match b_samples b with
  | [] => false
  | _ => bool_decide (flushBatchSize <= length (b_samples b))%nat || (flushInterval <=? now - b_openedAt b)
  end.

Definition batch_reset (b : sampleBatch) : sampleBatch := b <| b_samples := [] |> <| b_messages := [] |>.

(** ** Writing *)

(** Whether the driver can encode a row for the columns of [workout_samples]: the
    user id must be a UUID, which the empty string is not. *)
Class SampleColumns := {
  encodable : WorkoutSample -> bool;
  encodable_user s : ws_UserID s = "" -> encodable s = false
}.

#[export, refine] Instance any_user_id : SampleColumns := {|
  encodable s := negb (String.eqb (ws_UserID s) "")
|}.
Proof. intros s ->. done. Defined.

(** A foreign key of [workout_samples]. *)
Definition known_sample (db : DB) (s : WorkoutSample) : bool :=
  bool_decide (is_Some (races db !! ws_RaceID s)) && bool_decide (is_Some (users db !! ws_UserID s)).

Inductive WriteResult := Written | Permanent | Transient.

(** [InsertBatch], one COPY: all rows or none.  Only a foreign-key violation, SQL
    state 23503, is permanent; a row that cannot be encoded for its columns, and
    whatever happens to the connection, are plain errors. *)
Definition InsertBatch `{SampleColumns} (c : Conn) (samples : list WorkoutSample) (s : Sink)
    : Sink * WriteResult :=
  if negb (forallb encodable samples) then (s, Transient) else
  match c with
  | Failed _ => (s, Transient)
  | Up => if forallb (known_sample (tables s)) samples
          then (s <| workout_samples := workout_samples s ++ samples |>, Written) else (s, Permanent)
  | Lost _ => if forallb (known_sample (tables s)) samples
              then (s <| workout_samples := workout_samples s ++ samples |>, Transient) else (s, Transient)
  end.

(** [CommitMessages]: the group resumes after the highest of the offsets. *)
Definition CommitMessages (ok : bool) (msgs : list Fetched) (s : Sink) : Sink :=
  match msgs with
  | [] => s
  | _ => if ok then s <| committed := S (max_list (f_offset <$> msgs)) |> else s
  end.

(** [deadLetter]: best effort. *)
Definition deadLetter (ok : bool) (topic : string) (msg : Fetched) (s : Sink) : Sink :=
  if ok then s <| dead_letters := dead_letters s ++
                    [PublishRaw topic (km_Key (f_message msg)) (km_Value (f_message msg))] |>
  else s.

(** The messages of a batch, one after the other: [ok j] is the outcome of the
    [j]-th publish. *)
Fixpoint deadLetters (ok : nat -> bool) (topic : string) (msgs : list Fetched) (s : Sink) : Sink :=
  match msgs with
  | [] => s
  | msg :: msgs' => deadLetters (fun j => ok (S j)) topic msgs' (deadLetter (ok 0%nat) topic msg s)
  end.

(** What one iteration meets: the state of the database connection, whether
    commits succeed, and which of its dead-letter publishes do. *)
Record Weather := mkWeather { w_db : Conn; w_commit : bool; w_dlq : nat -> bool }.

Definition dlq_up : nat -> bool := fun _ => true.

(** [flushWorkoutSampleBatch] *)
Definition flushWorkoutSampleBatch `{SampleColumns} (w : Weather) (b : sampleBatch) (s : Sink) : sampleBatch * Sink :=
  match b_samples b with
  | [] => (b, s)
  | _ =>
      match InsertBatch (w_db w) (b_samples b) s with
      | (s', Written) => (batch_reset b, CommitMessages (w_commit w) (b_messages b) s')
      | (s', Permanent) =>
          (batch_reset b, CommitMessages (w_commit w) (b_messages b)
             (deadLetters (w_dlq w) workoutSampleDLQTopic (b_messages b) s'))
      | (s', Transient) => (b, s')
      end
  end.

Section loops.
Context `{TimeFormat, SampleColumns}.

(** The outcome of [FetchMessage] under the poll timeout. *)
Inductive Poll := Got (msg : Fetched) | PollTimeout | FetchFailed.

(** One iteration of [runWorkoutSampleLoop] while the context lives; [now] is the
    clock when the message is added, [now'] at the flush check. *)
Definition workout_iteration (w : Weather) (now now' : Z) (p : Poll) (b : sampleBatch) (s : Sink)
    : sampleBatch * Sink :=
  let flush_check b s :=
    if shouldFlush now' b then flushWorkoutSampleBatch w b s else (b, s) in
  match p with
  | Got msg =>
      match decodeWorkoutSample (km_Value (f_message msg)) with
      | None => (b, CommitMessages (w_commit w) [msg] (deadLetter (w_dlq w 0%nat) workoutSampleDLQTopic msg s))
      | Some sample => flush_check (batch_add sample msg now b) s
      end
  | PollTimeout => flush_check b s
  | FetchFailed => (b, s)
  end.

(** The end of the loop: one last flush. *)
Definition workout_shutdown (w : Weather) (b : sampleBatch) (s : Sink) : Sink :=
  snd (flushWorkoutSampleBatch w b s).

(** The reconciler of the race repository: it never reports a permanent
    failure. *)
Definition pg_reconcile (c : Conn) (raceID : string) (results : list RaceResultJSON) (db : DB) : DB * WriteResult :=
  match repo_ReconcileParticipantResults None c raceID results db with
  | (db', inl ()) => (db', Written)
  | (db', inr _) => (db', Transient)
  end.

(** [processRaceFinishedMessage], for any reconciler. *)
Definition processRaceFinishedMessage
    (reconcile : Conn -> string -> list RaceResultJSON -> DB -> DB * WriteResult)
    (w : Weather) (msg : Fetched) (s : Sink) : Sink :=
  match decodeRaceFinished (km_Value (f_message msg)) with
  | None => CommitMessages (w_commit w) [msg] (deadLetter (w_dlq w 0%nat) raceFinishedDLQTopic msg s)
  | Some decoded =>
      match reconcile (w_db w) (rf_RaceID decoded) (rf_Results decoded) (tables s) with
      | (db', Written) => CommitMessages (w_commit w) [msg] (s <| tables := db' |>)
      | (db', Permanent) =>
          CommitMessages (w_commit w) [msg]
            (deadLetter (w_dlq w 0%nat) raceFinishedDLQTopic msg (s <| tables := db' |>))
      | (db', Transient) => s <| tables := db' |>
      end
  end.

(** [runRaceFinishedLoop] over a log: each iteration fails to fetch, or processes
    the next message. *)
Fixpoint race_finished_run (reconcile : Conn -> string -> list RaceResultJSON -> DB -> DB * WriteResult)
    (log : list KMessage) (pos : nat) (its : list (option Weather)) (s : Sink) : nat * Sink :=
  match its with
  | [] => (pos, s)
  | None :: its' => race_finished_run reconcile log pos its' s
  | Some w :: its' =>
      match log !! pos with
      | None => (pos, s)   (** [FetchMessage] blocks *)
      | Some m =>
          race_finished_run reconcile log (S pos) its'
            (processRaceFinishedMessage reconcile w (mkFetched pos m) s)
      end
  end.

(** ** A run of the workout loop over a log

    Each iteration either fetches the next message, times out, or fails. *)
Record Iteration := mkIteration { it_poll : option bool; it_now : Z; it_now' : Z; it_weather : Weather }.

Definition poll_of (log : list KMessage) (pos : nat) (it : Iteration) : Poll * nat :=
  match it_poll it with
  | Some true => match log !! pos with Some m => (Got (mkFetched pos m), S pos) | None => (PollTimeout, pos) end
  | Some false => (PollTimeout, pos)
  | None => (FetchFailed, pos)
  end.

Fixpoint workout_run (log : list KMessage) (pos : nat) (its : list Iteration) (b : sampleBatch) (s : Sink)
    : nat * sampleBatch * Sink :=
  match its with
  | [] => (pos, b, s)
  | it :: its' =>
      let '(p, pos') := poll_of log pos it in
      let '(b', s') := workout_iteration (it_weather it) (it_now it) (it_now' it) p b s in
      workout_run log pos' its' b' s'
  end.
End loops.
