(* ===== verification/ConsumerProps.v ===== *)
(** * What the consumer guarantees

    The outcomes of a flush, and what the workout loop keeps track of.  A
    malformed message, and a failed reconciliation, let the committed offset run
    past work that is not done; a row that cannot be encoded blocks its
    partition. *)
From Stdlib Require Import ZArith QArith Floats.SpecFloat.
From stdpp Require Import base list gmap sets strings.
From S2P Require Import Prelude GoNum GoStrings Json Events Store Kafka Consumer.
Local Open Scope string_scope.
Local Open Scope Z_scope.
Local Open Scope list_scope.

Section consumer.
Context `{TimeFormat, SampleColumns}.

(** The copy of a message on a dead-letter topic. *)
Definition dead_copy (topic : string) (m : KMessage) : KMessage := PublishRaw topic (km_Key m) (km_Value m).

(** The work a message stands for is done: its sample is in the table, or the
    message is in the dead-letter topic. *)
Definition handled (s : Sink) (m : KMessage) : Prop :=
  (exists sample, decodeWorkoutSample (km_Value m) = Some sample /\ sample ∈ workout_samples s) \/
  dead_copy workoutSampleDLQTopic m ∈ dead_letters s.

Lemma handled_mono s s' m :
  workout_samples s ⊆ workout_samples s' -> dead_letters s ⊆ dead_letters s' -> handled s m -> handled s' m.
Proof. intros H1 H2 [(x & Hx & Hin)|Hin]; [left; eauto|right; eauto]. Qed.

(** ** Commits and dead letters *)

(** What a commit of these messages makes of the committed offset. *)
Definition commit_of (ok : bool) (msgs : list Fetched) (old : nat) : nat :=
  if ok && bool_decide (msgs <> []) then S (max_list (f_offset <$> msgs)) else old.

Lemma CommitMessages_frame ok msgs s :
  tables (CommitMessages ok msgs s) = tables s /\
  workout_samples (CommitMessages ok msgs s) = workout_samples s /\
  dead_letters (CommitMessages ok msgs s) = dead_letters s /\
  committed (CommitMessages ok msgs s) = commit_of ok msgs (committed s).
Proof. unfold CommitMessages, commit_of. by destruct msgs, ok. Qed.

Lemma commit_of_bound ok msgs old n :
  (forall m, m ∈ msgs -> f_offset m < n)%nat -> (old <= n)%nat -> (commit_of ok msgs old <= n)%nat.
Proof.
  intros Hm Ho. unfold commit_of. destruct (ok && _) eqn:Hb; [|done].
  apply andb_true_iff in Hb as [_ Hb]. apply bool_decide_eq_true in Hb.
  induction msgs as [|m msgs IH]; [done|]. cbn.
  assert (f_offset m < n)%nat by (apply Hm; left).
  destruct msgs as [|m' msgs]; [cbn; lia|].
  specialize (IH ltac:(intros; apply Hm; by right) ltac:(done)). cbn in *. lia.
Qed.

(** The copies that get through: of the [j]-th message when [ok j]. *)
Fixpoint copies (ok : nat -> bool) (topic : string) (msgs : list Fetched) : list KMessage :=
  match msgs with
  | [] => []
  | m :: msgs' => (if ok 0%nat then [dead_copy topic (f_message m)] else []) ++ copies (fun j => ok (S j)) topic msgs'
  end.

Lemma deadLetters_copies ok topic msgs s :
  deadLetters ok topic msgs s = s <| dead_letters := dead_letters s ++ copies ok topic msgs |>.
Proof.
  revert ok s. induction msgs as [|m msgs IH]; intros ok s; cbn [deadLetters copies].
  - rewrite app_nil_r. by destruct s.
  - rewrite IH. unfold deadLetter. destruct (ok 0%nat); cbn; [by rewrite <- app_assoc|done].
Qed.

Lemma copies_spec ok topic msgs x :
  x ∈ copies ok topic msgs <-> exists j m, msgs !! j = Some m /\ ok j = true /\ x = dead_copy topic (f_message m).
Proof.
  revert ok. induction msgs as [|m msgs IH]; intros ok; cbn [copies].
  - split; [intros H1; by apply elem_of_nil in H1|intros (j & m & H1 & _); by rewrite lookup_nil in H1].
  - rewrite elem_of_app, IH. split.
    + intros [Hx|(j & m' & Hj & Hok & Hx)]; [|by exists (S j), m'].
      destruct (ok 0%nat) eqn:Hok0; [|by apply elem_of_nil in Hx]. apply list_elem_of_singleton in Hx. by exists 0%nat, m.
    + intros ([|j] & m' & Hj & Hok & Hx); [left; rewrite Hok; simplify_eq/=; left|right; by exists j, m'].
Qed.

(** What a write that succeeds or is refused for good, and any other, leave
    behind. *)
Definition flush_settled (w : Weather) (b : sampleBatch) (s : Sink) (b' : sampleBatch) (s' : Sink) : Prop :=
  b' = batch_reset b /\ committed s' = commit_of (w_commit w) (b_messages b) (committed s) /\
  if forallb (known_sample (tables s)) (b_samples b)
  then workout_samples s' = workout_samples s ++ b_samples b /\ dead_letters s' = dead_letters s
  else workout_samples s' = workout_samples s /\
       dead_letters s' = dead_letters s ++ copies (w_dlq w) workoutSampleDLQTopic (b_messages b).

Definition flush_kept `{SampleColumns} (w : Weather) (b : sampleBatch) (s : Sink) (b' : sampleBatch) (s' : Sink) : Prop :=
  b' = b /\ committed s' = committed s /\ dead_letters s' = dead_letters s /\
  workout_samples s' = workout_samples s ++
    match w_db w with
    | Lost _ => if forallb encodable (b_samples b) && forallb (known_sample (tables s)) (b_samples b)
                then b_samples b else []
    | _ => [] end.

Lemma flush_cases w b s b' s' :
  b_samples b <> [] -> flushWorkoutSampleBatch w b s = (b', s') ->
  tables s' = tables s /\
  ((w_db w = Up /\ forallb encodable (b_samples b) = true /\ flush_settled w b s b' s') \/
   ((w_db w <> Up \/ forallb encodable (b_samples b) = false) /\ flush_kept w b s b' s')).
Proof.
  intros Hne. unfold flushWorkoutSampleBatch, InsertBatch, flush_settled, flush_kept.
  destruct (b_samples b) as [|x xs] eqn:Hb; [done|].
  destruct (forallb encodable (x :: xs)) eqn:Henc; cbn [negb andb].
  - destruct (w_db w) eqn:Hw.
    + destruct (forallb (known_sample _) _) eqn:Hk; intros [= <- <-];
        (match goal with |- context [CommitMessages ?ok ?ms ?st] =>
           destruct (CommitMessages_frame ok ms st) as (Ht & Hs & Hd & Hc) end);
        rewrite Ht, Hs, Hd, Hc, ?deadLetters_copies; (split; [done|]); by left.
    + intros [= <- <-]. rewrite app_nil_r. split; [done|]. right. split; [by left|done].
    + destruct (forallb (known_sample _) _) eqn:Hk; intros [= <- <-]; rewrite ?app_nil_r;
        (split; [done|]); right; (split; [by left|done]).
  - intros [= <- <-]. split; [done|]. right. split; [by right|]. destruct (w_db w); by rewrite app_nil_r.
Qed.

(** C38: what a flush of a non-empty batch does, on every branch.  When the rows
    can be encoded, their race and user exist and the database answers, the
    whole batch is in the table, in order.  When a row of it refers to nothing,
    none of the batch is, and each of its messages is in the dead-letter topic
    if its own publish succeeded - a message whose publish failed is then
    nowhere.  In both cases the batch is empty afterwards and, if the commit
    succeeds, the group resumes behind it.  In every other case - the database
    away, its answer lost, a row that cannot be encoded - the batch is kept and
    nothing is committed or dead-lettered, though after a lost answer its
    samples are in the table.  The race tables are never touched. *)
Theorem flush_atomic w b s b' s' :
  b_samples b <> [] -> flushWorkoutSampleBatch w b s = (b', s') ->
  tables s' = tables s /\
  (w_db w = Up -> forallb encodable (b_samples b) = true -> flush_settled w b s b' s') /\
  (w_db w <> Up \/ forallb encodable (b_samples b) = false -> flush_kept w b s b' s').
Proof.
  intros Hne Hf. destruct (flush_cases w b s b' s' Hne Hf) as [Ht [(Hw & He & H1)|[Hno H1]]]; (split; [done|split]).
  - done.
  - intros [?|?]; congruence.
  - intros Hw He. destruct Hno; congruence.
  - done.
Qed.

(** ** What the loop keeps track of *)

(** Between two iterations, on any log: the batch holds messages that were read,
    with their samples; every message that was read is handled, still in the
    batch, or among the [gone]. *)
Record loop_inv (log : list KMessage) (gone : list Fetched) (pos : nat) (b : sampleBatch) (s : Sink) : Prop := {
  li_pos : (committed s <= pos <= length log)%nat;
  li_batch m : m ∈ b_messages b -> (f_offset m < pos)%nat /\ log !! f_offset m = Some (f_message m);
  li_samples : Forall2 (fun sample m => decodeWorkoutSample (km_Value (f_message m)) = Some sample)
                 (b_samples b) (b_messages b);
  li_read i m : (i < pos)%nat -> log !! i = Some m ->
    handled s m \/ mkFetched i m ∈ b_messages b \/ mkFetched i m ∈ gone
}.

Lemma loop_inv_sink log gone pos b s s' :
  workout_samples s ⊆ workout_samples s' -> dead_letters s ⊆ dead_letters s' -> committed s' = committed s ->
  loop_inv log gone pos b s -> loop_inv log gone pos b s'.
Proof.
  intros H1 H2 H3 [Hp Hb Hs Hr]. split; [by rewrite H3|done..|].
  intros i m Hi Hl. destruct (Hr i m Hi Hl) as [Hh|Hh]; [left|by right]. by eapply handled_mono.
Qed.

(** A flush keeps the invariant. *)
Lemma flush_inv w log gone pos b s b' s' :
  (forall j, w_dlq w j = true) -> loop_inv log gone pos b s -> flushWorkoutSampleBatch w b s = (b', s') ->
  loop_inv log gone pos b' s'.
Proof.
  intros Hdlq Hi Hf. destruct (decide (b_samples b = [])) as [He|He].
  { unfold flushWorkoutSampleBatch in Hf. rewrite He in Hf. by simplify_eq. }
  destruct (flush_cases w b s b' s' He Hf) as [_ Hcases]. pose proof Hi as [Hp Hb Hs Hr].
  assert (Hdone : b' = batch_reset b -> committed s' = commit_of (w_commit w) (b_messages b) (committed s) ->
    workout_samples s ⊆ workout_samples s' -> dead_letters s ⊆ dead_letters s' ->
    (forall m, m ∈ b_messages b -> handled s' (f_message m)) -> loop_inv log gone pos b' s').
  { intros -> Hc H1 H2 H3. split; cbn; [|by intros m Hm%elem_of_nil|constructor|].
    - rewrite Hc. split; [|lia]. apply commit_of_bound; [|lia]. intros m Hm. by apply Hb.
    - intros i m Hlt Hl. destruct (Hr i m Hlt Hl) as [Hh|[Hh|Hh]]; [|left; by apply (H3 (mkFetched i m))|by auto].
      left. by eapply handled_mono. }
  destruct Hcases as [(_ & _ & Hb' & Hc & Hcase)|(_ & -> & Hc & Hd & Hw)].
  - destruct (forallb (known_sample _) _); destruct Hcase as [H1 H2].
    + apply Hdone; [done|done|rewrite H1; set_solver|by rewrite H2|]. intros m Hm.
      apply list_elem_of_lookup_1 in Hm as [j Hj]. destruct (Forall2_lookup_r _ _ _ _ _ Hs Hj) as (sample & Hj' & Hd).
      left. exists sample. split; [done|]. rewrite H1, elem_of_app. right. by eapply list_elem_of_lookup_2.
    + apply Hdone; [done|done|by rewrite H1|rewrite H2; set_solver|]. intros m Hm. right.
      rewrite H2, elem_of_app, copies_spec. right. apply list_elem_of_lookup_1 in Hm as [j Hj]. by exists j, m.
  - eapply loop_inv_sink; [| | |exact Hi]; [rewrite Hw; set_solver|by rewrite Hd|done].
Qed.

Lemma flush_check_inv (flush : bool) w log gone pos b s b' s' :
  (forall j, w_dlq w j = true) -> loop_inv log gone pos b s ->
  (if flush then flushWorkoutSampleBatch w b s else (b, s)) = (b', s') -> loop_inv log gone pos b' s'.
Proof. destruct flush; [apply flush_inv|by intros; simplify_eq]. Qed.

Lemma batch_add_frame x m now b :
  b_samples (batch_add x m now b) = b_samples b ++ [x] /\ b_messages (batch_add x m now b) = b_messages b ++ [m] /\
  b_openedAt (batch_add x m now b) = (if bool_decide (b_samples b = []) then now else b_openedAt b).
Proof. unfold batch_add. destruct (b_samples b) eqn:Hb; cbn; by rewrite ?Hb. Qed.

Lemma iteration_inv log gone pos b s it p pos' b' s' :
  (forall j, w_dlq (it_weather it) j = true) -> loop_inv log gone pos b s -> poll_of log pos it = (p, pos') ->
  workout_iteration (it_weather it) (it_now it) (it_now' it) p b s = (b', s') -> loop_inv log gone pos' b' s'.
Proof.
  intros Hdlq Hi Hp Hit. unfold poll_of in Hp. unfold workout_iteration in Hit.
  destruct (it_poll it) as [[]|]; [destruct (log !! pos) as [m|] eqn:Hm| |]; simplify_eq;
    [|by eapply flush_check_inv..|done]. cbn [f_message] in Hit.
  pose proof (lookup_lt_Some _ _ _ Hm) as Hlt. destruct Hi as [Hpos Hb Hs Hr].
  assert (Hone : forall (P : nat -> KMessage -> Prop), (forall i m', (i < pos)%nat -> log !! i = Some m' -> P i m') ->
    P pos m -> forall i m', (i < S pos)%nat -> log !! i = Some m' -> P i m').
  { intros P H1 H2 i m' Hi Hl. destruct (decide (i = pos)) as [->|]; [by simplify_eq|]. apply H1; [lia|done]. }
  destruct (decodeWorkoutSample (km_Value m)) as [sample|] eqn:Hd.
  - destruct (batch_add_frame sample (mkFetched pos m) (it_now it) b) as (H1 & H2 & _).
    eapply flush_check_inv; [exact Hdlq| |exact Hit]. split; rewrite ?H1, ?H2; [lia| |by apply Forall2_app; repeat constructor|].
    + intros m'. rewrite elem_of_app, list_elem_of_singleton. intros [Hin| ->]; [|cbn; split; [lia|done]].
      destruct (Hb _ Hin). split; [lia|done].
    + apply Hone; [|right; left; set_solver]. intros i m' Hi Hl. rewrite elem_of_app.
      destruct (Hr i m' Hi Hl) as [?|[?|?]]; auto.
  - simplify_eq. set (s1 := deadLetter _ _ _ s).
    assert (workout_samples s1 = workout_samples s /\ committed s1 = committed s /\
      dead_letters s1 = dead_letters s ++ [dead_copy workoutSampleDLQTopic m]) as (G1 & G2 & G3)
      by (unfold s1, deadLetter; by rewrite Hdlq).
    destruct (CommitMessages_frame (w_commit (it_weather it)) [mkFetched pos m] s1) as (_ & H1 & H2 & Hc).
    rewrite G1 in H1. rewrite G3 in H2. rewrite G2 in Hc. split; [| |by rewrite ?H1|].
    + rewrite Hc. split; [|lia]. apply commit_of_bound; [|cbn; lia].
      intros m' ->%list_elem_of_singleton. cbn. lia.
    + intros m' Hin. destruct (Hb _ Hin). split; [lia|done].
    + apply Hone.
      * intros i m' Hi Hl. destruct (Hr i m' Hi Hl) as [Hh|Hh]; [left|by right].
        apply (handled_mono s); [by rewrite H1|rewrite H2; intros ? ?; rewrite elem_of_app; by left|done].
      * left. right. rewrite H2. set_solver.
Qed.
End consumer.

(** ** Concrete runs *)

Definition sample_message (words : Z) : KMessage :=
  default (mkKMessage "" "" None) (PublishWorkoutSample "R" "u1" 7 words float64_0).

Definition malformed : KMessage := mkKMessage TopicWorkoutSample "R" None.

Definition finished_message (user : string) (rank : Z) : KMessage :=
  default (mkKMessage "" "" None) (PublishRaceFinished "R" [mkResult user (Some rank) (Some 800) float64_0 0]).

Definition demo_tables : DB :=
  mkDB {[ "u1" := "Ana"; "u2" := "Bo" ]} {[ "R" := mkRace "Race" 5 "finished" "u1" 100 None None None ]}
    {[ ("R", "u1") := mkRow None None None 0 100; ("R", "u2") := mkRow None None None 0 100 ]} ∅.

Definition fair : Weather := mkWeather Up true dlq_up.
Definition fetches (now : Z) : Iteration := mkIteration (Some true) now now fair.

(** Committing a malformed message commits what came before it: with a
    well-formed sample still in the batch, the dead-lettered message behind it is
    committed at once, and with it the sample's offset - a restart at this point
    resumes behind the sample, which is in no table and in no dead-letter
    topic. *)
Theorem malformed_commit_skips_batch :
  let '(pos, b, s) := workout_run [sample_message 3; malformed] 0 [fetches 10; fetches 20] batch_empty
                        (mkSink demo_tables [] 0 []) in
  committed s = 2%nat /\ workout_samples s = [] /\ length (b_messages b) = 1%nat /\
  dead_letters s = [mkKMessage workoutSampleDLQTopic "R" None].
Proof. vm_compute. split_and!; reflexivity. Qed.

(** A failed reconciliation is not retried: the message is left
    uncommitted "for redelivery", but the reader goes on, and committing the next
    message commits this one too - its participants keep no rank. *)
Theorem failed_reconcile_skipped :
  let s0 := mkSink demo_tables [] 0 [] in
  let s1 := processRaceFinishedMessage pg_reconcile (mkWeather (Failed "reset") true dlq_up) (mkFetched 0 (finished_message "u1" 1)) s0 in
  let s2 := processRaceFinishedMessage pg_reconcile fair (mkFetched 1 (finished_message "u2" 2)) s1 in
  committed s1 = 0%nat /\ committed s2 = 2%nat /\
  (row_finish_rank <$> race_participants (tables s2) !! ("R", "u1")) = Some None /\
  (row_finish_rank <$> race_participants (tables s2) !! ("R", "u2")) = Some (Some 2) /\
  dead_letters s2 = [].
Proof. vm_compute. split_and!; reflexivity. Qed.

Definition demo_log : list KMessage := [sample_message 3; sample_message 4].
Definition demo_iterations : list Iteration := [fetches 0; fetches 4000000000].

(** Two messages of a batch that cannot be written, and a dead-letter topic that
    takes the first of them only. *)
Definition orphans : sampleBatch :=
  mkBatch [mkSample "R" "u1" 7 float64_0 float64_0; mkSample "Q" "u1" 8 float64_0 float64_0]
    [mkFetched 0 (sample_message 3); mkFetched 1 (sample_message 4)] 5.

Lemma flush_atomic_witness :
  let r := flushWorkoutSampleBatch (mkWeather Up true (Nat.eqb 0)) orphans (mkSink demo_tables [] 0 []) in
  b_samples (fst r) = [] /\ committed (snd r) = 2%nat /\ workout_samples (snd r) = [] /\
  dead_letters (snd r) = [dead_copy workoutSampleDLQTopic (sample_message 3)].
Proof.
  cbv zeta.
  destruct (flush_atomic (mkWeather Up true (Nat.eqb 0)) orphans (mkSink demo_tables [] 0 []) _ _
    ltac:(discriminate) (surjective_pairing _)) as (_ & H1 & _).
  destruct (H1 eq_refl eq_refl) as (Hb & Hc & Hs & Hd). split_and!; [by rewrite Hb|exact Hc|exact Hs|exact Hd].
Defined.

(** A message without a user id is not malformed for the decoder, yet its row
    can never be written. *)
Definition anonymous : KMessage := mkKMessage TopicWorkoutSample "R" (Some (JObj [("race_id", JStr "R")])).

(** A row that cannot be encoded blocks the partition: whatever the database
    and the brokers do, a batch that holds one is neither written nor dead-
    lettered by any flush, nothing is committed, and it only grows - a message
    whose user id is missing is such a row. *)
Theorem unencodable_batch_stuck `{SampleColumns} w b s b' s' :
  forallb encodable (b_samples b) = false -> flushWorkoutSampleBatch w b s = (b', s') ->
  b' = b /\ s' = s /\ exists sample, decodeWorkoutSample (km_Value anonymous) = Some sample /\ encodable sample = false.
Proof.
  intros He Hf. unfold flushWorkoutSampleBatch, InsertBatch in Hf. destruct (b_samples b) eqn:Hb; [done|].
  rewrite He in Hf. cbn in Hf. simplify_eq. split_and!; [done..|]. eexists. split; [reflexivity|]. by apply encodable_user.
Qed.

Lemma unencodable_batch_stuck_witness :
  let b := mkBatch [mkSample "R" "" 0 float64_0 float64_0] [mkFetched 0 anonymous] 5 in
  fst (flushWorkoutSampleBatch fair b (mkSink demo_tables [] 0 [])) = b.
Proof.
  cbv zeta. destruct (unencodable_batch_stuck (H := any_user_id) fair (mkBatch [mkSample "R" "" 0 float64_0 float64_0] [mkFetched 0 anonymous] 5)
    (mkSink demo_tables [] 0 []) _ _ eq_refl (surjective_pairing _)) as (H & _). exact H.
Defined.
