(* ===== verification/Delivery.v ===== *)
(** * From a room's broadcasts to a player's socket

    The registry of a race-service instance, NATS, and a gateway composed into
    one system: what [drainBroadcast] publishes is appended to the log of NATS;
    the subscription a hub makes when it is created is a position in that log,
    from which messages are delivered to the hub in order or, when the
    subscriber is too slow, dropped. *)
From Stdlib Require Import ZArith.
From stdpp Require Import base list gmap sets strings.
From S2P Require Import Prelude GoNum GoStrings Json Events Room Store Locator Registry RegistryProps Relay RaceHub RaceHubProps.
Local Open Scope string_scope.
Local Open Scope Z_scope.
Local Open Scope list_scope.

(** ** The system *)

(** What NATS holds of the publish attempts of a registry. *)
Definition nats_log (b : list (nat * Outgoing * Conn)) : Nats :=
  foldl (fun n x => fst (room_PublishOut None x.2 x.1.2 n)) [] b.

Section delivery.
Context {L : Type} `{!RoomLocator L}.

Record System := mkSystem {
  service : Registry L;
  gateway : Gateway;
  subscriptions : gmap nat Subscription
}.

Definition log_of (s : System) : Nats := nats_log (bus (service s)).

Inductive SysStep :=
  | ServiceStep (l : Step L)
  | GatewayStep (l : GStep)
  | NatsDelivers (hub : nat)
  | NatsDrops (hub : nat).

(** The hub that a step of the gateway creates, and with it a subscription. *)
Definition creates (l : GStep) (g : Gateway) : option nat :=
  match l with
  | GAttach raceID None => match hubs g !! raceID with None => Some (next_id g) | Some _ => None end
  | _ => None
  end.

Definition is_arrival (l : GStep) : bool := match l with GArrive _ _ => true | _ => false end.

(** The envelopes of a race in a stretch of the log: what its subscriber
    decodes of it. *)
Definition envelopes (race : string) (n : Nats) : list OutboundEnvelope := SubscribeOut race n.

Definition sys_exec (l : SysStep) (s : System) : option System :=
  match l with
  | ServiceStep l =>
      r ← reg_exec l (service s); Some (mkSystem r (gateway s) (subscriptions s))
  | GatewayStep l =>
      if is_arrival l then None else
      g ← g_exec l (gateway s);
      Some (mkSystem (service s) g
        match creates l (gateway s) with
        | Some i => let here := length (log_of s) in
                    <[i := mkSubscription here here false]> (subscriptions s)
        | None => subscriptions s
        end)
  | NatsDelivers i =>
      su ← subscriptions s !! i;
      h ← hub_heap (gateway s) !! i;
      m ← log_of s !! su_pos su;
      let g := match envelopes (h_race h) [m] with
               | env :: _ => g_exec (GArrive i env) (gateway s)
               | [] => Some (gateway s)
               end in
      g' ← g;
      Some (mkSystem (service s) g'
              (<[i := mkSubscription (su_from su) (S (su_pos su)) (su_lost su)]> (subscriptions s)))
  | NatsDrops i =>
      su ← subscriptions s !! i;
      _ ← log_of s !! su_pos su;
      Some (mkSystem (service s) (gateway s)
              (<[i := mkSubscription (su_from su) (S (su_pos su)) true]> (subscriptions s)))
  end.

Fixpoint sys_run (ls : list SysStep) (s : System) : option System :=
  match ls with
  | [] => Some s
  | l :: ls' => s' ← sys_exec l s; sys_run ls' s'
  end.

Definition start (l0 : L) : System := mkSystem (NewRegistry l0) NewRaceHubRegistry ∅.

Inductive sys_reachable (l0 : L) : System -> Prop :=
  | sys_init : sys_reachable l0 (start l0)
  | sys_step l s s' : sys_reachable l0 s -> sys_exec l s = Some s' -> sys_reachable l0 s'.

Lemma sys_reachable_run l0 ls s s' :
  sys_reachable l0 s -> sys_run ls s = Some s' -> sys_reachable l0 s'.
Proof.
  revert s. induction ls as [|l ls IH]; intros s Hs Hrun; simpl in Hrun; [by simplify_eq|].
  apply bind_Some in Hrun as (s1 & H1 & Hrun). eapply IH; [|done]. by eapply sys_step.
Qed.

(** ** The log *)

(** The message of a publish attempt, unless it failed outright. *)
Definition wire (x : nat * Outgoing * Conn) : option (string * json) :=
  match x.2 with
  | Failed _ => None
  | _ => Some (outSubject (out_envelope x.1.2).1, marshal_Outbound (out_envelope x.1.2).2)
  end.

Lemma nats_log_wire b : nats_log b = omap wire b.
Proof.
  induction b as [|x b IH] using rev_ind; [done|]. unfold nats_log in *.
  rewrite foldl_app, IH, omap_app. destruct x as [[id o] [|e|e]]; cbn; by rewrite ?app_nil_r.
Qed.

Lemma envelopes_app race n n' : envelopes race (n ++ n') = envelopes race n ++ envelopes race n'.
Proof. unfold envelopes, SubscribeOut, delivered. by rewrite omap_app, subscribe_app. Qed.

(** What an attempt means to the subscribers of a race. *)
Definition reaches (race : string) (x : nat * Outgoing * Conn) : option OutboundEnvelope :=
  match x.2 with
  | Failed _ => None
  | _ => if String.eqb (out_envelope x.1.2).1 race then Some (out_envelope x.1.2).2 else None
  end.

Lemma envelopes_log race b : envelopes race (nats_log b) = omap (reaches race) b.
Proof.
  rewrite nats_log_wire. induction b as [|[[id o] c] b IH]; [done|].
  assert (Hsub : String.eqb (outSubject (out_envelope o).1) (outSubject race) = String.eqb (out_envelope o).1 race).
  { destruct (String.eqb_spec (out_envelope o).1 race) as [->|Hne]; [apply String.eqb_refl|].
    apply String.eqb_neq. by intros ?%outSubject_inj. }
  unfold envelopes, SubscribeOut, delivered, subscribe in *.
  destruct c; cbn [omap list_omap wire reaches snd fst];
    [|exact IH|]; rewrite Hsub; (destruct (String.eqb _ race); [|exact IH]);
    cbn [omap list_omap mbind option_bind]; rewrite unmarshal_marshal_Outbound; by f_equal.
Qed.

(** ** What a hub does with its subscription *)

Definition broadcast_of (env : OutboundEnvelope) : option (option json) :=
  if String.eqb (out_Kind env) OutboundKindBroadcast then Some (out_Payload env) else None.

(** Of the envelopes [es], the hub has processed [done_] and fanned out their
    payloads; the rest waits. *)
Definition processed (h : Hub) (es : list OutboundEnvelope) : Prop :=
  exists done_, es = done_ ++ h_out h /\ h_fanned h = omap broadcast_of done_.

(** Every step of the gateway but an arrival leaves the envelopes of a hub
    where they are: waiting or processed. *)
Definition same_stream (g g' : Gateway) : Prop :=
  forall i h', hub_heap g' !! i = Some h' ->
    exists h, hub_heap g !! i = Some h /\ h_race h' = h_race h /\
      forall es, processed h es -> processed h' es.

Lemma same_stream_refl g : same_stream g g.
Proof. intros i h Hh. by exists h. Qed.

Lemma same_stream_put i h h' g :
  hub_heap g !! i = Some h -> h_race h' = h_race h ->
  (forall es, processed h es -> processed h' es) ->
  same_stream g (put_hub i h' g).
Proof.
  intros Hh Hr Hp j x Hx. cbn in Hx. apply lookup_insert_Some in Hx as [[<- <-]|[_ Hx]]; [by exists h|by exists x].
Qed.

Lemma same_stream_heap g g' : hub_heap g' = hub_heap g -> same_stream g g'.
Proof. intros Heq i h Hh. rewrite Heq in Hh. by exists h. Qed.

Lemma same_stream_heap_l g0 g g' : hub_heap g0 = hub_heap g -> same_stream g0 g' -> same_stream g g'.
Proof. intros Heq Hs i h Hh. destruct (Hs i h Hh) as (x & Hx & ?). rewrite Heq in Hx. by exists x. Qed.

Lemma hub_receive_stream i h g g' :
  hub_heap g !! i = Some h -> hub_receive i h g = Some g' -> same_stream g g'.
Proof.
  unfold hub_receive. intros Hh Hx. destruct (h_out h) as [|env rest] eqn:Hout; [done|].
  assert (Hskip : forall h', h_race h' = h_race h -> h_out h' = rest ->
    h_fanned h' = h_fanned h ++ omap broadcast_of [env] -> forall es, processed h es -> processed h' es).
  { intros h' _ Ho Hf es (d & -> & Hd). exists (d ++ [env]).
    rewrite Ho, Hf, omap_app, Hd, Hout, <- app_assoc. done. }
  destruct (String.eqb (out_Kind env) OutboundKindBroadcast) eqn:Hb.
  - simplify_eq. apply (same_stream_heap_l (fan_out (h_conns h) (out_Payload env) g)); [done|].
    apply (same_stream_put i h); [exact Hh|done|]. apply Hskip; [done|done|]. cbn. unfold broadcast_of. by rewrite Hb.
  - destruct (String.eqb (out_Kind env) OutboundKindRoomClosed) eqn:Hc; simplify_eq;
      (apply (same_stream_put i h); [exact Hh|done|]; apply Hskip; [done|done|]; cbn; unfold broadcast_of;
       by rewrite Hb, app_nil_r).
Qed.

Lemma signalStop_stream i g : same_stream g (signalStop i g).
Proof.
  unfold signalStop. destruct (hub_heap g !! i) as [h|] eqn:Hh; [|apply same_stream_refl].
  by apply (same_stream_put i h).
Qed.

Lemma detach_stream r g : same_stream g (detach r g).
Proof.
  unfold detach. destruct (hubs g !! r) as [e|]; [|apply same_stream_refl].
  destruct (e_refCount e - 1 <=? 0); [|by apply same_stream_heap].
  eapply same_stream_heap_l; [|apply signalStop_stream]. done.
Qed.

Lemma hub_step_stream l i h g g' :
  is_arrival l = false -> hub_heap g !! i = Some h -> hub_step l i h g = Some g' -> same_stream g g'.
Proof.
  intros Hl Hh Hx. destruct l; cbn [hub_step] in Hx; try done; try unfold disconnectAll in Hx; destruct (h_closed h); try done.
  - by eapply hub_receive_stream.
  - simplify_eq. by apply (same_stream_put i h).
  - by destruct (h_stop h).
  - destruct (h_stop h); [|done]. simpl in Hx. simplify_eq. by apply (same_stream_put i h).
  - simplify_eq. by apply same_stream_heap.
  - destruct (h_forgotten h); [done|]. simpl in Hx. simplify_eq. unfold onClose.
    eapply same_stream_heap_l; [|apply (same_stream_put i h)]; done.
Qed.

Lemma conn_step_stream l i k h g g' :
  hub_heap g !! k_hub k = Some h -> conn_step l i k h g = Some g' -> same_stream g g'.
Proof.
  intros Hh Hx.
  assert (Hput : forall k', same_stream g (put_conn i k' g)) by (intros; by apply same_stream_heap).
  assert (Hboth : forall k' h', h_race h' = h_race h -> h_out h' = h_out h -> h_fanned h' = h_fanned h ->
    same_stream g (put_conn i k' (put_hub (k_hub k) h' g))).
  { intros k' h' Hr Ho Hf. assert (same_stream g (put_hub (k_hub k) h' g)) as Hs.
    { apply (same_stream_put _ h); [exact Hh|done|]. intros es (d & Hes & Hd). exists d. by rewrite Ho, Hf. }
    exact Hs. }
  destruct l; cbn [conn_step] in Hx; destruct (k_phase k); try done.
  - unfold registerConn in Hx. simplify_eq. destruct (h_closed h); [apply Hput|by apply Hboth].
  - apply bind_Some in Hx as (k' & _ & Hx). by simplify_eq.
  - destruct (k_writer k); try done. destruct (h_closed h); by simplify_eq.
  - destruct (k_writer k), (k_buf k); by simplify_eq.
  - destruct (k_writer k); try done. destruct (k_cancelled k); by simplify_eq.
  - destruct (k_reading k); by simplify_eq.
  - destruct (k_writer k), (k_reading k); try done. unfold unregisterConn in Hx. simplify_eq.
    destruct (h_closed h); [apply Hput|by apply Hboth].
  - simplify_eq. eapply same_stream_heap_l; [|apply detach_stream]. done.
Qed.

Lemma g_exec_stream l g g' i h' :
  gw_inv g -> is_arrival l = false -> g_exec l g = Some g' -> hub_heap g' !! i = Some h' ->
  (creates l g = Some i /\ processed h' []) \/
  (creates l g <> Some i /\ exists h, hub_heap g !! i = Some h /\ h_race h' = h_race h /\
     forall es, processed h es -> processed h' es).
Proof.
  intros Hg Hl Hx Hh'.
  assert (Hold : same_stream g g' -> creates l g = None -> exists h, hub_heap g !! i = Some h /\
    h_race h' = h_race h /\ forall es, processed h es -> processed h' es) by (intros Hs _; by apply Hs).
  destruct l as [raceID err| | | | | | | | | | | | | | ]; cbn [g_exec] in Hx; try done;
    try (right; split; [done|]; apply Hold; [|done];
         apply bind_Some in Hx as (x & Hi & Hx); first
         [exact (hub_step_stream _ _ _ _ _ Hl Hi Hx)
         |apply bind_Some in Hx as (h & Hh & Hx); exact (conn_step_stream _ _ _ _ _ _ Hh Hx)]).
  unfold attach in Hx. cbn [creates]. destruct (hubs g !! raceID) as [e|] eqn:He.
  - simplify_eq. right. split; [by destruct err|]. cbn in Hh'. by exists h'.
  - destruct err as [err|]; simplify_eq; [right; split; [done|]; by exists h'|].
    cbn in Hh'. apply lookup_insert_Some in Hh' as [[<- <-]|[Hne Hh']].
    + left. split; [done|]. by exists [].
    + right. split; [congruence|]. by exists h'.
Qed.

(** ** The invariant *)

Lemma reg_exec_bus l (g g' : Registry L) : reg_exec l g = Some g' -> exists new, bus g' = bus g ++ new.
Proof.
  assert (Hnil : forall x : list (nat * Outgoing * Conn), x = bus g -> exists new, x = bus g ++ new).
  { intros x ->. exists []. by rewrite app_nil_r. }
  intros Hx. destruct l; cbn [reg_exec step_id] in Hx;
    [simplify_eq; by apply Hnil
    |simplify_eq; apply Hnil; unfold Remove, cancel_handle; destruct (rooms g !! raceID) as [id|]; [|done];
       cbn; by destruct (handles g !! id)
    |..]; apply bind_Some in Hx as (h & Hh & Hx); cbn [handle_step] in Hx; unfold if_started in Hx;
    try match type of Hx with context [ac_spawn h] => destruct (ac_spawn h); try done end; simplify_eq;
    try by apply Hnil.
  - case_bool_decide; by apply Hnil.
  - destruct (ac_feed h), (ac_unsubscribed h); try done. simplify_eq. by apply Hnil.
  - unfold feedInbox in Hx. destruct (ac_feed h) as [[|]|], (ac_unsubscribed h); try done. simplify_eq. by apply Hnil.
  - unfold feedInbox_end in Hx. destruct (ac_feed h), (ac_unsubscribed h), (ac_parent_done h); try done. simplify_eq. by apply Hnil.
  - unfold drain_one in Hx. destruct (ac_drain h), (ac_broadcast h); try done; simplify_eq; by eexists.
  - unfold drain_done in Hx. destruct (ac_drain h), (ac_done h); try done. simplify_eq. by apply Hnil.
  - unfold drain_close in Hx. destruct (ac_drain h), (ac_broadcast h); try done. simplify_eq. by eexists.
  - unfold cleanup_map in Hx. destruct (ac_done h && negb (ac_removed h)); [|done]. simplify_eq. apply Hnil.
    by case_bool_decide.
  - unfold cleanup_release in Hx. destruct (ac_removed h && negb (ac_released h)); [|done]. simplify_eq. by apply Hnil.
  - unfold heartbeat in Hx. destruct (ac_beating h); [|done]. simplify_eq. by apply Hnil.
  - unfold heartbeat_stop in Hx. destruct (ac_beating h && ac_done h); [|done]. simplify_eq. by apply Hnil.
Qed.

(** The stretch of the log a subscription has been served. *)
Definition window (su : Subscription) (n : Nats) : Nats :=
  take (su_pos su - su_from su) (drop (su_from su) n).

Lemma window_grows su n new : (su_pos su <= length n)%nat -> window su (n ++ new) = window su n.
Proof.
  intros Hle. unfold window. destruct (decide (su_from su <= length n)%nat) as [Hf|Hf].
  - rewrite drop_app_le by lia. apply take_app_le. rewrite length_drop. lia.
  - replace (su_pos su - su_from su)%nat with 0%nat by lia. by rewrite !take_0.
Qed.

Lemma window_snoc su n m lost :
  (su_from su <= su_pos su)%nat -> n !! su_pos su = Some m ->
  window (mkSubscription (su_from su) (S (su_pos su)) lost) n = window su n ++ [m].
Proof.
  intros Hle Hm. unfold window. cbn.
  replace (S (su_pos su) - su_from su)%nat with (S (su_pos su - su_from su)) by lia.
  apply take_S_r. rewrite lookup_drop. by replace (su_from su + (su_pos su - su_from su))%nat with (su_pos su) by lia.
Qed.

Definition served_ok (n : Nats) (h : Hub) (su : Subscription) : Prop :=
  (su_from su <= su_pos su)%nat /\ (su_pos su <= length n)%nat /\
  exists es, processed h es /\ sublist es (envelopes (h_race h) (window su n)) /\
    (su_lost su = false -> es = envelopes (h_race h) (window su n)).

Record sys_inv (l0 : L) (s : System) : Prop := {
  si_service : reg_reachable l0 (service s);
  si_gateway : g_reachable (gateway s);
  si_served i h : hub_heap (gateway s) !! i = Some h ->
    exists su, subscriptions s !! i = Some su /\ served_ok (log_of s) h su
}.

Lemma served_grows n new h su : served_ok n h su -> served_ok (n ++ new) h su.
Proof.
  intros (H1 & H2 & H3). unfold served_ok. rewrite window_grows, length_app by done. split_and!; [done|lia|done].
Qed.

Lemma sys_inv_drops l0 i s s' : sys_inv l0 s -> sys_exec (NatsDrops i) s = Some s' -> sys_inv l0 s'.
Proof.
  intros [Hr Hg Hs] Hx. cbn [sys_exec] in Hx.
  apply bind_Some in Hx as (su & Hsu & Hx). apply bind_Some in Hx as (m & Hm & Hx). simplify_eq.
  split; cbn; [done|done|]. change (log_of (mkSystem _ _ _)) with (log_of s).
  intros j h Hj. destruct (Hs j h Hj) as (su' & Hsu' & Hok). destruct (decide (i = j)) as [<-|Hne].
  + simplify_eq. eexists. rewrite lookup_insert_eq. split; [done|]. destruct Hok as (H1 & H2 & es & Hes & Hsub & Hall).
    assert (Hlen : (S (su_pos su) <= length (log_of s))%nat) by (by apply lookup_lt_Some in Hm).
    unfold served_ok. rewrite (window_snoc su _ m) by done. cbn. rewrite envelopes_app. split_and!; [lia|done|].
    exists es. split_and!; [done| |done]. rewrite <- (app_nil_r es). apply sublist_app; [done|apply sublist_nil_l].
  + exists su'. by rewrite lookup_insert_ne.
Qed.

Lemma sys_exec_inv l0 l s s' : sys_inv l0 s -> sys_exec l s = Some s' -> sys_inv l0 s'.
Proof.
  intros HI Hx. destruct l as [l|l|i|i]; [..|exact (sys_inv_drops _ _ _ _ HI Hx)];
    destruct HI as [Hr Hg Hs]; pose proof (g_reachable_inv _ Hg) as Hgi; cbn [sys_exec] in Hx.
  - apply bind_Some in Hx as (r & Hrx & Hx). simplify_eq. split; cbn; [by eapply Registry.reg_step|done|].
    intros i h Hh. destruct (Hs i h Hh) as (su & Hsu & Hok). exists su. split; [done|].
    destruct (reg_exec_bus _ _ _ Hrx) as (new & Hnew). unfold log_of in *. cbn.
    rewrite nats_log_wire, Hnew, omap_app, <- nats_log_wire. by apply served_grows.
  - destruct (is_arrival l) eqn:Hl; [done|]. apply bind_Some in Hx as (g & Hgx & Hx). simplify_eq.
    split; cbn; [done|by eapply g_step|]. change (log_of (mkSystem _ _ _)) with (log_of s).
    intros i h' Hh'. destruct (g_exec_stream _ _ _ _ _ Hgi Hl Hgx Hh') as [[-> Hp]|(Hne & h & Hh & Hrace & Hp)].
    + eexists. rewrite lookup_insert_eq. split; [done|]. unfold served_ok, window. cbn.
      rewrite Nat.sub_diag, take_0. split_and!; [done|done|]. exists []. split_and!; [done|apply sublist_nil_l|done].
    + destruct (Hs i h Hh) as (su & Hsu & (H1 & H2 & es & Hes & Hsub & Hall)). exists su. split.
      * destruct (creates l (gateway s)) as [j|]; [|done]. by rewrite lookup_insert_ne by congruence.
      * unfold served_ok. rewrite Hrace. split_and!; [done|done|]. exists es. split_and!; auto.
  - apply bind_Some in Hx as (su & Hsu & Hx). apply bind_Some in Hx as (h & Hh & Hx).
    apply bind_Some in Hx as (m & Hm & Hx). apply bind_Some in Hx as (g & Hgx & Hx). simplify_eq.
    destruct (Hs i h Hh) as (su' & Hsu' & (H1 & H2 & es & Hes & Hsub & Hall)). simplify_eq.
    assert (Hlen : (S (su_pos su) <= length (log_of s))%nat) by (by apply lookup_lt_Some in Hm).
    assert (Henv : envelopes (h_race h) [m] = match envelopes (h_race h) [m] with env :: _ => [env] | [] => [] end).
    { unfold envelopes, SubscribeOut, delivered, subscribe. cbn. destruct (String.eqb m.1 _); [|done]. cbn.
      by destruct (unmarshal_Outbound m.2). }
    assert (Hnew : exists h', hub_heap g = <[i := h']> (hub_heap (gateway s)) /\ h_race h' = h_race h /\
      processed h' (es ++ envelopes (h_race h) [m])).
    { rewrite Henv. destruct (envelopes (h_race h) [m]) as [|env rest].
      - simplify_eq. exists h. rewrite insert_id by done. by rewrite app_nil_r.
      - cbn in Hgx. rewrite Hh in Hgx. cbn in Hgx. simplify_eq. exists (h <| h_out := h_out h ++ [env] |>).
        split_and!; [done|done|]. destruct Hes as (d & -> & Hd). exists d. cbn. by rewrite app_assoc. }
    assert (Hgr : g_reachable g).
    { destruct (envelopes (h_race h) [m]) as [|env rest]; [by simplify_eq|by eapply g_step]. }
    destruct Hnew as (h' & Hheap & Hrace & Hp).
    split; cbn; [done|done|]. change (log_of (mkSystem _ _ _)) with (log_of s). rewrite Hheap.
    intros j x Hj. apply lookup_insert_Some in Hj as [[<- <-]|[Hne Hj]].
    + eexists. rewrite lookup_insert_eq. split; [done|]. unfold served_ok. rewrite (window_snoc su _ m) by done. cbn.
      rewrite Hrace, envelopes_app. split_and!; [lia|done|]. eexists. split_and!; [exact Hp|by apply sublist_app|].
      intros Hl. by rewrite <- (Hall Hl).
    + rewrite lookup_insert_ne by done. by apply Hs.
Qed.

Lemma sys_reachable_inv l0 s : sys_reachable l0 s -> sys_inv l0 s.
Proof.
  induction 1 as [|l s s' _ IH Hx]; [|by eapply sys_exec_inv].
  split; [constructor|constructor|]. intros i h Hh. by simplify_map_eq.
Qed.

(** ** The log and the rooms *)

(** Whoever's attempt is on the bus, it is for its room's race. *)
Lemma bus_race l0 (g : Registry L) x :
  reg_reachable l0 g -> x ∈ bus g ->
  exists h, handles g !! x.1.1 = Some h /\ (out_envelope x.1.2).1 = ac_race h.
Proof.
  intros Hg Hx. pose proof (reg_reachable_inv _ _ Hg) as Hi.
  assert (Hsent : x.1.2 ∈ sent_by x.1.1 g).
  { unfold sent_by. apply list_elem_of_omap. exists x. split; [done|]. by rewrite bool_decide_true. }
  destruct (decide (spawned g <= x.1.1)%nat) as [Hle|Hlt].
  - rewrite (ri_bus g Hi _ Hle) in Hsent. by apply elem_of_nil in Hsent.
  - destruct (reg_handles _ _ Hg x.1.1 ltac:(lia)) as [h Hh]. exists h. split; [done|].
    destruct (ri_ok g Hi _ _ Hh) as [_ _ Hs _ _ _]. rewrite Hs in Hsent. apply elem_of_app in Hsent as [Hs'|Hs'].
    + apply list_elem_of_fmap in Hs' as (m & -> & _). done.
    + destruct (ac_drain h); try by apply elem_of_nil in Hs'. apply list_elem_of_singleton in Hs' as ->. done.
Qed.

(** When a race has had one room, the attempts for the race are the room's. *)
Lemma race_attempts l0 (g : Registry L) id h :
  reg_reachable l0 g -> handles g !! id = Some h -> only_of_race id h g ->
  sent_by id g = omap (fun x => if String.eqb (out_envelope x.1.2).1 (ac_race h) then Some x.1.2 else None) (bus g).
Proof.
  intros Hg Hh Hone. unfold sent_by. apply omap_ext_in. intros x Hx.
  destruct (bus_race _ _ _ Hg Hx) as (h' & Hh' & Hr). rewrite Hr.
  destruct (String.eqb_spec (ac_race h') (ac_race h)) as [Heq|Hne].
  - by rewrite bool_decide_true by (by eapply Hone).
  - rewrite bool_decide_false; [done|]. intros Hid. rewrite Hid in Hh'. congruence.
Qed.

Definition published (x : nat * Outgoing * Conn) : Prop := forall e, x.2 <> Failed e.

Lemma race_envelopes l0 (g : Registry L) id h :
  reg_reachable l0 g -> handles g !! id = Some h -> only_of_race id h g ->
  let all := (fun o => (out_envelope o).2) <$> sent_by id g in
  sublist (envelopes (ac_race h) (nats_log (bus g))) all /\
  (Forall published (bus g) -> envelopes (ac_race h) (nats_log (bus g)) = all).
Proof.
  intros Hg Hh Hone all. subst all. rewrite envelopes_log, (race_attempts _ _ _ _ Hg Hh Hone), fmap_omap. split.
  - apply sublist_omap_le. intros [[i o] c] env. unfold reaches. cbn.
    destruct c; [|done|]; destruct (String.eqb _ _); done.
  - intros Hall. apply omap_ext_in. intros [[i o] c] Hx. rewrite Forall_forall in Hall. specialize (Hall _ Hx).
    unfold reaches. cbn. destruct c as [|e|e]; [by destruct (String.eqb _ _)|by destruct (Hall e)|by destruct (String.eqb _ _)].
Qed.

(** The frames among a room's envelopes. *)
Lemma room_frames (g : Registry L) id h :
  reg_inv g -> handles g !! id = Some h ->
  omap broadcast_of ((fun o => (out_envelope o).2) <$> sent_by id g) = Some <$> ac_drained h.
Proof.
  intros Hg Hh. destruct (ri_ok g Hg _ _ Hh) as [_ _ Hs _ _ _].
  rewrite Hs, fmap_app, omap_app. trans ((Some <$> ac_drained h) ++ []); [f_equal|apply app_nil_r].
  - clear. rewrite !omap_fmap_comp. induction (ac_drained h) as [|m l IH]; [done|]. cbn. by f_equal.
  - by destruct (ac_drain h).
Qed.

Lemma fanned_sublist l0 s j hub :
  sys_reachable l0 s -> hub_heap (gateway s) !! j = Some hub ->
  sublist (h_fanned hub) (omap broadcast_of (envelopes (h_race hub) (log_of s))).
Proof.
  intros Hs Hj. destruct (si_served _ _ (sys_reachable_inv _ _ Hs) _ _ Hj) as (su & _ & (_ & _ & es & (d & -> & ->) & Hsub & _)).
  apply sublist_omap. transitivity (d ++ h_out hub); [by apply sublist_inserts_r|].
  etransitivity; [exact Hsub|]. unfold window.
  rewrite <- (take_drop (su_from su) (log_of s)) at 2. rewrite envelopes_app. apply sublist_inserts_l.
  rewrite <- (take_drop (su_pos su - su_from su) (drop (su_from su) (log_of s))) at 2. rewrite envelopes_app.
  by apply sublist_inserts_r.
Qed.

(** End to end, from the room to the socket: whatever goes wrong on the way
    - publishes that fail, messages NATS drops, frames a slow connection
    misses, hubs that come and go - what a player is sent is a subsequence of
    the frames of the race's room: in the order in which the room broadcast
    them, none twice, and none of another race. *)
Theorem player_sees_subsequence l0 s i k id h :
  sys_reachable l0 s -> connections (gateway s) !! i = Some k ->
  handles (service s) !! id = Some h -> ac_race h = k_race k -> only_of_race id h (service s) ->
  sublist (k_written k) (Some <$> ac_accepted h).
Proof.
  intros Hs Hk Hh Hr Hone. pose proof (sys_reachable_inv _ _ Hs) as [Hsv Hgw _].
  destruct (gi_conn _ (g_reachable_inv _ Hgw) _ _ Hk) as (hub & Hj & Hrh & [Ha _ _ _ Hsub _]).
  pose proof (reg_reachable_inv _ _ Hsv) as Hi.
  transitivity (k_accepted k); [rewrite Ha; by apply sublist_inserts_r|].
  etransitivity; [exact Hsub|]. etransitivity; [apply sublist_drop|].
  etransitivity; [by eapply fanned_sublist|]. rewrite Hrh, <- Hr.
  etransitivity; [apply sublist_omap, (race_envelopes _ _ _ _ Hsv Hh Hone)|].
  rewrite (room_frames _ _ _ Hi Hh), (hk_accepted _ _ (ri_ok _ Hi _ _ Hh)), fmap_app. by apply sublist_inserts_r.
Qed.

(** An envelope that closes the room comes last. *)
Lemma closed_is_last (race : string) (frames : list json) closing (l1 l2 : list OutboundEnvelope) env :
  closing = [] \/ closing = [RoomClosed race] ->
  out_Kind env = OutboundKindRoomClosed ->
  (fun o => (out_envelope o).2) <$> ((Out race <$> frames) ++ closing) = l1 ++ env :: l2 ->
  closing = [RoomClosed race] /\ l2 = [] /\ l1 = (fun m => (out_envelope (Out race m)).2) <$> frames.
Proof.
  intros Hc Hk Heq. rewrite fmap_app, <- list_fmap_compose in Heq.
  assert (Hno : forall l, env :: l `suffix_of` (fun m => (out_envelope (Out race m)).2) <$> frames -> False).
  { intros l [pre Hsuf]. assert (env ∈ (fun m => (out_envelope (Out race m)).2) <$> frames) as Hin.
    { rewrite Hsuf. apply elem_of_app. right. left. }
    apply list_elem_of_fmap in Hin as (m & -> & _). done. }
  destruct Hc as [->| ->].
  - rewrite app_nil_r in Heq. exfalso. apply (Hno l2). by exists l1.
  - destruct l2 as [|y l2 _] using rev_ind.
    + apply app_inj_tail in Heq as [<- _]. done.
    + exfalso. change (env :: l2 ++ [y]) with ((env :: l2) ++ [y]) in Heq.
      rewrite (app_assoc l1 (env :: l2) [y]) in Heq. apply app_inj_tail in Heq as [Heq _].
      apply (Hno l2). by exists l1.
Qed.

(** C13: nothing is missing at the end of a race: when a hub whose subscription
    has lost nothing comes to [room_closed], and every publish got through, the
    room has drained all its frames, and the hub has fanned out every one of
    them that was published after it subscribed - the results of the race among
    them. *)
Theorem hub_closes_complete l0 s j hub su id h env rest :
  sys_reachable l0 s -> hub_heap (gateway s) !! j = Some hub -> subscriptions s !! j = Some su ->
  handles (service s) !! id = Some h -> ac_race h = h_race hub -> only_of_race id h (service s) ->
  Forall published (bus (service s)) -> su_lost su = false ->
  h_out hub = env :: rest -> out_Kind env = OutboundKindRoomClosed ->
  ac_drain h = Returned /\
  Some <$> ac_drained h =
    omap broadcast_of (envelopes (h_race hub) (take (su_from su) (log_of s))) ++ h_fanned hub.
Proof.
  intros Hs Hj Hsu Hh Hr Hone Hpub Hlost Hout Hkind. pose proof (sys_reachable_inv _ _ Hs) as [Hsv _ Hserved].
  pose proof (reg_reachable_inv _ _ Hsv) as Hi.
  destruct (Hserved _ _ Hj) as (su' & Hsu' & (Hle & Hlen & es & (d & Hes & Hfan) & _ & Hall)). simplify_eq.
  specialize (Hall Hlost). destruct (race_envelopes _ _ _ _ Hsv Hh Hone) as [_ Hlog]. specialize (Hlog Hpub).
  assert (Hsplit : envelopes (h_race hub) (log_of s) =
    envelopes (h_race hub) (take (su_from su) (log_of s)) ++ d ++ env :: rest ++
    envelopes (h_race hub) (drop (su_pos su - su_from su) (drop (su_from su) (log_of s)))).
  { rewrite <- (take_drop (su_from su) (log_of s)) at 1.
    rewrite <- (take_drop (su_pos su - su_from su) (drop (su_from su) (log_of s))) at 1.
    rewrite !envelopes_app. fold (window su (log_of s)). rewrite <- Hall, Hout, <- app_assoc. done. }
  unfold log_of in Hlog, Hsplit. rewrite <- Hr in Hsplit at 1. rewrite Hlog in Hsplit.
  destruct (ri_ok _ Hi _ _ Hh) as [_ _ Hsent _ _ _]. pose proof (room_frames _ _ _ Hi Hh) as Hframes.
  rewrite Hsent in Hsplit, Hframes. rewrite app_assoc in Hsplit.
  destruct (closed_is_last (ac_race h) (ac_drained h)
    match ac_drain h with Returned => [RoomClosed (ac_race h)] | _ => [] end _ _ env
    ltac:(destruct (ac_drain h); auto) Hkind Hsplit) as (Hc & Hnil & Hpre).
  split; [by destruct (ac_drain h)|].
  rewrite Hfan. rewrite <- omap_app. unfold log_of. rewrite Hpre, omap_fmap_comp.
  clear. induction (ac_drained h) as [|m l IH]; [done|]. cbn. by f_equal.
Qed.
End delivery.

(** ** A concrete run: one room, one client, two frames and the end *)

Definition delivered_steps : list (SysStep (L := unit)) :=
  [ServiceStep (DoSpawn "R"); ServiceStep (SpawnClaim 0 ()); ServiceStep (SpawnStart 0 true);
   ServiceStep (Broadcasts 0 (JStr "early")); ServiceStep (DrainOne 0 Up);
   GatewayStep (GAttach "R" None); GatewayStep (GRegister 1);
   ServiceStep (Broadcasts 0 (JStr "a")); ServiceStep (DrainOne 0 Up); NatsDelivers 0;
   GatewayStep (GReceive 0); GatewayStep (GWrite 1 true);
   ServiceStep (Broadcasts 0 (JStr "b")); ServiceStep (DrainOne 0 Up);
   ServiceStep (Cancels 0); ServiceStep (DrainDone 0); ServiceStep (DrainClose 0 Up);
   NatsDelivers 0; GatewayStep (GReceive 0); NatsDelivers 0].

Definition delivered_system : System (L := unit) :=
  default (start ()) (sys_run delivered_steps (start ())).

Lemma delivered_reachable : sys_reachable () delivered_system.
Proof.
  unfold delivered_system. destruct (sys_run _ _) as [s|] eqn:Hrun; [|constructor].
  eapply sys_reachable_run; [constructor|exact Hrun].
Qed.

Lemma delivered_only h : only_of_race 0 h (service delivered_system).
Proof.
  intros id' h' Hh' _. destruct id' as [|id']; [done|]. exfalso.
  assert (Hall : map_Forall (fun id _ => id = 0%nat) (handles (service delivered_system))).
  { apply (bool_decide_unpack _). vm_compute. exact I. }
  by specialize (Hall _ _ Hh').
Qed.

Lemma player_sees_subsequence_witness :
  exists k h, connections (gateway delivered_system) !! 1%nat = Some k /\ k_written k = [Some (JStr "a")] /\
    ac_accepted h = [JStr "early"; JStr "a"; JStr "b"] /\ sublist (k_written k) (Some <$> ac_accepted h).
Proof.
  destruct (connections (gateway delivered_system) !! 1%nat) as [k|] eqn:Hk; [|vm_compute in Hk; discriminate Hk].
  destruct (handles (service delivered_system) !! 0%nat) as [h|] eqn:Hh; [|vm_compute in Hh; discriminate Hh].
  pose proof (player_sees_subsequence () delivered_system 1 k 0 h delivered_reachable Hk Hh) as H.
  vm_compute in Hk, Hh. injection Hk as <-. injection Hh as <-.
  eexists _, _. split; [reflexivity|]. split; [reflexivity|]. split; [|apply H; [reflexivity|apply delivered_only]].
  reflexivity.
Defined.

Lemma hub_closes_complete_witness :
  exists hub h, hub_heap (gateway delivered_system) !! 0%nat = Some hub /\
    handles (service delivered_system) !! 0%nat = Some h /\ ac_drain h = Returned /\
    h_fanned hub = [Some (JStr "a"); Some (JStr "b")] /\
    Some <$> ac_drained h = [Some (JStr "early")] ++ h_fanned hub.
Proof.
  destruct (hub_heap (gateway delivered_system) !! 0%nat) as [hub|] eqn:Hj; [|vm_compute in Hj; discriminate Hj].
  destruct (handles (service delivered_system) !! 0%nat) as [h|] eqn:Hh; [|vm_compute in Hh; discriminate Hh].
  destruct (subscriptions delivered_system !! 0%nat) as [su|] eqn:Hsu; [|vm_compute in Hsu; discriminate Hsu].
  pose proof (hub_closes_complete () delivered_system 0 hub su 0 h (mkOutbound OutboundKindRoomClosed "R" None) []
    delivered_reachable Hj Hsu Hh) as H.
  assert (Hpub : Forall published (bus (service delivered_system))).
  { vm_compute. repeat constructor; intros e He; discriminate He. }
  exists hub, h. split; [reflexivity|]. split; [reflexivity|].
  vm_compute in Hj, Hh, Hsu. injection Hj as <-. injection Hh as <-. injection Hsu as <-.
  destruct H as [H1 H2]; [reflexivity|apply delivered_only|exact Hpub|reflexivity|reflexivity|reflexivity|].
  split; [exact H1|]. split; [reflexivity|exact H2].
Defined.
