(* ===== verification/Persist.v ===== *)
(** * From a room to the tables: what becomes of a result

    A room, the race service and its tables, Kafka and the consumer composed
    into one system.  The collaborators a room calls are no longer an oracle:
    every call it makes is answered by running the service's program on the
    shared tables ([finisher], [leaver], [canceller] in
    [internal/room/lifecycle.go]) or by the producer, and the room can only take
    a step that met these answers.  Other requests, other producers and the
    consumer's [race.finished] loop interleave with it. *)
From Stdlib Require Import ZArith QArith Floats.SpecFloat.
From stdpp Require Import base list gmap sets strings.
From S2P Require Import Prelude GoNum GoStrings Json Events Store StoreProps RaceService PgRepo Kafka Consumer ConsumerProps Room RoomRun RoomInv RoomSys RoomResults RoomProps.
Local Open Scope string_scope.
Local Open Scope Z_scope.
Local Open Scope list_scope.

(** ** The calls a step makes *)

(** Calls that neither finish nor cancel a race. *)
Definition minor (c : Room.Call) : Prop :=
  match c with
  | CallPublishWorkoutSample _ _ _ _ _ | CallLeaveRace _ _ | CallMarkEvicted _ _ | CallObserveTick => True
  | _ => False
  end.

(** What the check for the end of a race may call. *)
Inductive ending (e : Env) (r : RoomActor) : list Room.Call -> Prop :=
  | end_none : ending e r []
  | end_failed d rs err : ending e r [CallFinishRace d rs (Some err)]
  | end_finished : active r = true -> finished r = false ->
      ending e r [CallFinishRace (distanceMeters r) (race_results e r) None;
                  CallPublishRaceFinished (race_results e r) (err_PublishRaceFinished e)]
  | end_cancelled err : ending e r [CallCancelRace err].

Lemma check_calls e w : exists tail,
  calls (checkRaceFinished e w) = calls w ++ tail /\ ending e (actor w) tail /\
  (finished (actor w) = true -> tail = [] /\ finished (actor (checkRaceFinished e w)) = true) /\
  (forall d rs, CallFinishRace d rs None ∈ tail -> finished (actor (checkRaceFinished e w)) = true).
Proof.
  unfold checkRaceFinished. destruct (finished (actor w)) eqn:Hf.
  { exists []. rewrite app_nil_r, Hf. split_and!; [done|constructor|done|done]. }
  destruct (existsb _ _); [exists []; rewrite app_nil_r; split_and!; [done|constructor|done|by intros ?? ?%not_elem_of_nil]|].
  destruct (active (actor w)) eqn:Ha; cbn [negb].
  - assert (distanceMeters (actor (broadcastSnapshot e w)) = distanceMeters (actor w)) as Hd
      by apply distance_core, core_broadcastSnapshot.
    unfold finishRace. destruct (err_FinishRace e) as [err|].
    + eexists. cbn. rewrite calls_snapshot. split_and!; [reflexivity|constructor|done|].
      by intros d rs ?%list_elem_of_singleton.
    + eexists. cbn. rewrite calls_broadcast. cbn. rewrite calls_snapshot, <- app_assoc, Hd.
      split_and!; [reflexivity|by constructor|done|]. by destruct (RaceFinishedMessage _).
  - unfold expirePendingRoom. destruct (err_CancelRace e) as [err|];
      (eexists; cbn; split_and!; [reflexivity|constructor|intros; congruence|by intros d rs ?%list_elem_of_singleton]).
Qed.

(** A step of an actor on one event: at most one minor call, then perhaps an
    ending; leaving is only asked for before the start, and a finished room
    calls no ending. *)
Record event_calls (e : Env) (w w' : World) (pre tail : list Room.Call) : Prop := {
  ec_calls : calls w' = calls w ++ pre ++ tail;
  ec_minor : Forall minor pre;
  ec_leave u err : CallLeaveRace u err ∈ pre -> active (actor w) = false;
  ec_ending : exists r, ending e r tail /\ active r = active (actor w);
  ec_final : finished (actor w) = true -> tail = [] /\ finished (actor w') = true;
  ec_finishes d rs : CallFinishRace d rs None ∈ tail -> finished (actor w') = true
}.

Lemma event_calls_quiet e w w' :
  calls w' = calls w -> (finished (actor w) = true -> finished (actor w') = true) -> event_calls e w w' [] [].
Proof.
  intros Hc Hf. split; [by rewrite !app_nil_r|constructor|by intros ?? ?%not_elem_of_nil| |auto|by intros ?? ?%not_elem_of_nil].
  exists (actor w). split; [constructor|done].
Qed.

Lemma event_calls_check e w v pre :
  calls v = calls w ++ pre -> Forall minor pre -> (forall u err, CallLeaveRace u err ∈ pre -> active (actor w) = false) ->
  active (actor v) = active (actor w) -> finished (actor v) = finished (actor w) ->
  exists tail, event_calls e w (checkRaceFinished e v) pre tail.
Proof.
  intros Hc Hm Hl Ha Hf. destruct (check_calls e v) as (tail & Ht & He & Hfin & Hend). exists tail.
  split; [by rewrite Ht, Hc, app_assoc|done|done|by exists (actor v)| |exact Hend]. rewrite <- Hf. exact Hfin.
Qed.

Lemma finished_snapshot e w : finished (actor (broadcastSnapshot e w)) = finished (actor w).
Proof. unfold broadcastSnapshot. by destruct (RaceStateMessage _ _). Qed.

Lemma applyEvent_calls e ev w : exists pre tail, event_calls e w (applyEvent e ev w) pre tail.
Proof.
  assert (Hone : forall c v, minor c -> calls v = calls w ++ [c] -> (forall u err, c <> CallLeaveRace u err) ->
    active (actor v) = active (actor w) -> finished (actor v) = finished (actor w) ->
    exists pre tail, event_calls e w (checkRaceFinished e v) pre tail).
  { intros c v Hm Hc Hn Ha Hf. destruct (event_calls_check e w v [c] Hc) as [tail Ht]; [by constructor| |done|done|eauto].
    intros u err Hin%list_elem_of_singleton. by destruct (Hn u err). }
  destruct ev as [u dn|u seq words pace|u|u|u|u reply| |txt|]; cbn [applyEvent].
  - exists [], []. apply event_calls_quiet; unfold applyJoined; rewrite ?calls_snapshot, ?finished_snapshot;
      destruct (participants (actor w) !! u) as [p|]; [|done| |done]; destruct (ps_DisconnectedAt p); [|done| |done];
      by destruct (ps_graceTimer p).
  - unfold applyTelemetry. destruct (negb _); [exists [], []; by apply event_calls_quiet|].
    destruct (participants (actor w) !! u) as [p|]; [|exists [], []; by apply event_calls_quiet].
    destruct (_ <=? _); [exists [], []; by apply event_calls_quiet|]. cbv zeta. destruct (_ && _).
    + by apply (Hone (CallPublishWorkoutSample u (env_ts e) words pace (err_PublishWorkoutSample e))).
    + eexists [_], []. split; [cbn; reflexivity|by repeat constructor| |exists (actor w); by split; [constructor|]|done|by intros ?? ?%not_elem_of_nil].
      by intros u' err Hin%list_elem_of_singleton.
  - exists [], []. apply event_calls_quiet; unfold applyDisconnected;
      (destruct (participants (actor w) !! u) as [p|]; [|done]); by destruct (ps_graceTimer p).
  - unfold applyEvicted. destruct (participants (actor w) !! u) as [p|]; [|exists [], []; by apply event_calls_quiet].
    case_bool_decide; [|exists [], []; by apply event_calls_quiet].
    by apply (Hone (CallMarkEvicted u (err_MarkEvicted e))).
  - unfold applyLeft. destruct (participants (actor w) !! u) as [p|]; [|exists [], []; by apply event_calls_quiet].
    destruct (active (actor w)) eqn:Ha; [by apply (Hone (CallMarkEvicted u (err_MarkEvicted e)))|].
    match goal with |- context [checkRaceFinished e ?v] =>
      destruct (event_calls_check e w v [CallLeaveRace u (err_LeaveRace e)]) as [tail Ht] end;
      [done|by repeat constructor|done|done|done|eauto].
  - exists [], []. apply event_calls_quiet; unfold applyEvictionQuery; by destruct (replies w !! reply).
  - destruct (event_calls_check e w w [] ltac:(by rewrite app_nil_r)) as [tail Ht];
      [constructor|by intros ?? ?%not_elem_of_nil|done|done|eauto].
  - exists [], []. by apply event_calls_quiet.
  - unfold applyPendingExpired. destruct (active (actor w) || finished (actor w)) eqn:Hg; [exists [], []; by apply event_calls_quiet|].
    apply orb_false_iff in Hg as [_ Hf]. unfold expirePendingRoom. exists [].
    destruct (err_CancelRace e) as [err|]; eexists; (split; cbn; [reflexivity|constructor|by intros ?? ?%not_elem_of_nil| |congruence|by intros d rs ?%list_elem_of_singleton]);
      (exists (actor w); split; [constructor|done]).
Qed.

Lemma exec_calls l s s' : exec l s = Some s' ->
  exists e pre tail, event_calls e (world s) (world s') pre tail.
Proof.
  assert (Hq : calls (world s') = calls (world s) -> finished (actor (world s')) = finished (actor (world s)) ->
    exists e pre tail, event_calls e (world s) (world s') pre tail).
  { intros Hc Hf. exists (env_at 0), [], []. apply event_calls_quiet; [done|by rewrite Hf]. }
  intros Hx. destruct l as [ev|i|i|e|e| |t| | |d]; simpl in Hx.
  - simplify_eq. by apply Hq.
  - apply bind_Some in Hx as (ev & _ & Hx). case_bool_decide; simplify_eq. by apply Hq.
  - destruct (_ && _); simplify_eq. by apply Hq.
  - destruct (inbox (actor (world s))) as [|ev rest]; [done|]. destruct (_ && _); simplify_eq.
    destruct (applyEvent_calls e ev (with_actor (fun r => r <| inbox := rest |>) (world s))) as (pre & tail & [H1 H2 H3 H4 H5 H6]).
    exists e, pre, tail. by split.
  - destruct (running s); simplify_eq. exists e, [CallObserveTick], [].
    assert (calls (applyTick e (world s)) = calls (world s) ++ [CallObserveTick]) as Hc.
    { unfold applyTick. cbn. by rewrite calls_snapshot. }
    split; [exact Hc|by repeat constructor|by intros u err ?%list_elem_of_singleton| | |by intros ?? ?%not_elem_of_nil].
    + exists (actor (world s)). by split; [constructor|].
    + intros Hf. split; [done|]. cbn. change (finished (actor (broadcastSnapshot e (world s))) = true).
      by rewrite finished_snapshot.
  - destruct (_ && _); simplify_eq. by apply Hq.
  - apply bind_Some in Hx as (tm & _ & Hx). destruct (_ <=? _); simplify_eq. by apply Hq.
  - destruct (broadcast _); simplify_eq. by apply Hq.
  - simplify_eq. by apply Hq.
  - simplify_eq. by apply Hq.
Qed.

(** ** The composed system *)

(** How one call of the room goes: what the statements of the service's program
    meet, and whether the asynchronous writer gets a message through. *)
Record Outcome := mkOutcome { o_env : nat -> PgEnv; o_delivered : bool }.

(** [err != nil] *)
Definition agrees {A E} (err : option error) (r : A + E) : bool :=
  match err, r with None, inl _ | Some _, inr _ => true | _, _ => false end.

(** The room, the tables (with what the consumer keeps beside them), and the
    messages on Kafka. *)
Record Site := mkSite { p_room : Sys; p_sink : Sink; p_log : list KMessage }.

Definition site_db (s : Site) : DB := tables (p_sink s).

Section site.
Context `{TimeFormat} (raceID : string).

(** One call: [None] when the room did not meet the answer it gets. *)
Definition perform (o : Outcome) (c : Room.Call) (x : DB * list KMessage) : option (DB * list KMessage) :=
  let ask (p : Prog (unit + race_error)) err :=
    let '(db', r) := run_prog p (o_env o) 0 x.1 in
    if agrees err r then Some (db', x.2) else None in
  let publish (m : option KMessage) (err : option error) :=
    match m, err with
    | Some m, None => Some (x.1, if o_delivered o then x.2 ++ [m] else x.2)
    | None, None => None
    | _, Some _ => Some x
    end in
  match c with
  | CallPublishWorkoutSample u ts words pace err => publish (PublishWorkoutSample raceID u ts words pace) err
  | CallFinishRace d rs err => ask (FinishRace raceID d rs) err
  | CallPublishRaceFinished rs err => publish (PublishRaceFinished raceID rs) err
  | CallLeaveRace u err => ask (LeaveRace raceID u) err
  | CallCancelRace err => ask (CancelRace raceID) err
  | CallMarkEvicted _ _ | CallObserveTick => Some x
  end.

Fixpoint perform_all (os : list Outcome) (cs : list Room.Call) (x : DB * list KMessage)
    {struct cs} : option (DB * list KMessage) :=
  match cs, os with
  | [], _ => Some x
  | c :: cs', o :: os' => x' ← perform o c x; perform_all os' cs' x'
  | _, [] => None
  end.

(** The calls of a step: what it appends to the record. *)
Definition new_calls (w w' : World) : list Room.Call := drop (length (calls w)) (calls w').

Inductive SiteStep :=
  | PRoom (l : Label) (os : list Outcome)      (** a step of the room, its calls answered *)
  | POther {B} (e : PgEnv) (op : Op B)         (** any statement of another request *)
  | PPublish (m : KMessage)                    (** another producer *)
  | PConsume (w : Weather) (i : nat).          (** [processRaceFinishedMessage] on the [i]-th message *)

Definition site_exec (st : SiteStep) (s : Site) : option Site :=
  match st with
  | PRoom l os =>
      r ← exec l (p_room s);
      x ← perform_all os (new_calls (world (p_room s)) (world r)) (site_db s, p_log s);
      Some (mkSite r ((p_sink s) <| tables := x.1 |>) x.2)
  | POther e op => Some (mkSite (p_room s) ((p_sink s) <| tables := fst (repo_call e op (site_db s)) |>) (p_log s))
  | PPublish m => Some (mkSite (p_room s) (p_sink s) (p_log s ++ [m]))
  | PConsume w i =>
      m ← p_log s !! i;
      if String.eqb (km_Topic m) TopicRaceFinished
      then Some (mkSite (p_room s) (processRaceFinishedMessage pg_reconcile w (mkFetched i m) (p_sink s)) (p_log s))
      else None
  end.

Fixpoint site_run (sts : list SiteStep) (s : Site) : option Site :=
  match sts with
  | [] => Some s
  | st :: sts' => s' ← site_exec st s; site_run sts' s'
  end.

(** ** What every step keeps of a race that was finished

    Its row in [races], and every participant row that has a rank - unless one
    of three statements is executed for it, none of which looks at its status:
    [StartRace], another [FinishRace], [RemoveParticipant]. *)
Inductive Touch := Reopens | Refinishes | Removes (u : string).

Definition touch_of {B} (op : Op B) : list Touch :=
  match op with
  | OpStartRace id _ => if String.eqb id raceID then [Reopens] else []
  | OpFinishRace id _ _ => if String.eqb id raceID then [Refinishes] else []
  | OpRemoveParticipant id u => if String.eqb id raceID then [Removes u] else []
  | _ => []
  end.

(** The touches of other requests along a run. *)
Definition step_touches (st : SiteStep) : list Touch :=
  match st with POther _ op => touch_of op | _ => [] end.

Definition touches (sts : list SiteStep) : list Touch := concat (step_touches <$> sts).

(** A race that has been finished, and at worst been started again since. *)
Definition ended (r : RaceRow) : Prop :=
  (race_Status r = "finished" \/ race_Status r = "active") /\ is_Some (race_EndedAt r).

Lemma ended_not_pending r : ended r -> race_Status r <> "pending".
Proof. intros [[-> | ->] _]; done. Qed.

Definition keeps (db db' : DB) : Prop :=
  forall r, races db !! raceID = Some r -> ended r ->
    races db' !! raceID = Some r /\
    forall u row, race_participants db !! (raceID, u) = Some row -> is_Some (row_finish_rank row) ->
      race_participants db' !! (raceID, u) = Some row.

#[global] Instance keeps_preorder : PreOrder keeps.
Proof.
  split; [by intros db r Hr _|]. intros db1 db2 db3 H1 H2 r Hr Hs.
  destruct (H1 r Hr Hs) as [Hr2 Hp2]. destruct (H2 r Hr2 Hs) as [Hr3 Hp3]. split; [done|]. eauto.
Qed.

(** The same up to the given touches. *)
Definition keeps_but (ts : list Touch) (db db' : DB) : Prop :=
  forall r, races db !! raceID = Some r -> ended r ->
    exists r', races db' !! raceID = Some r' /\ ended r' /\
      (Reopens ∉ ts -> Refinishes ∉ ts -> r' = r) /\
      (Reopens ∉ ts -> race_Status r = "finished" -> race_Status r' = "finished") /\
      (Refinishes ∉ ts -> forall u row, Removes u ∉ ts -> race_participants db !! (raceID, u) = Some row ->
         is_Some (row_finish_rank row) -> race_participants db' !! (raceID, u) = Some row).

Lemma keeps_keeps_but ts db db' : keeps db db' -> keeps_but ts db db'.
Proof. intros Hk r Hr He. destruct (Hk r Hr He) as [Hr' Hrows]. exists r. split_and!; auto. Qed.

Lemma keeps_but_trans ts ts' db1 db2 db3 :
  keeps_but ts db1 db2 -> keeps_but ts' db2 db3 -> keeps_but (ts ++ ts') db1 db3.
Proof.
  intros H1 H2 r Hr He. destruct (H1 r Hr He) as (r2 & Hr2 & He2 & Ha2 & Hb2 & Hc2).
  destruct (H2 r2 Hr2 He2) as (r3 & Hr3 & He3 & Ha3 & Hb3 & Hc3). exists r3. split_and!; [done|done|..].
  - intros [? ?]%not_elem_of_app [? ?]%not_elem_of_app. rewrite Ha3 by done. by apply Ha2.
  - intros [? ?]%not_elem_of_app ?. auto.
  - intros [? ?]%not_elem_of_app u row [? ?]%not_elem_of_app Hrow Hrank. auto.
Qed.

Lemma keeps_answer {A} c db db1 (v : A + race_error) : keeps db db1 -> keeps db (fst (answer c db db1 v)).
Proof. by destruct c. Qed.

Lemma keeps_races db f : f (races db) !! raceID = races db !! raceID -> keeps db (db <| races := f (races db) |>).
Proof. intros Hf r Hr _. cbn. by rewrite Hf. Qed.

Lemma keeps_rows db f :
  (forall u row, race_participants db !! (raceID, u) = Some row -> is_Some (row_finish_rank row) ->
     f (race_participants db) !! (raceID, u) = Some row) ->
  keeps db (db <| race_participants := f (race_participants db) |>).
Proof. intros Hf r Hr _. split; [done|]. exact Hf. Qed.

Lemma keeps_pending db db' r :
  races db !! raceID = Some r -> race_Status r = "pending" -> keeps db db'.
Proof. intros Hr Hs r' Hr' He. simplify_eq. by apply ended_not_pending in He. Qed.

Lemma keeps_missing db db' : races db !! raceID = None -> keeps db db'.
Proof. intros Hr r' Hr'. congruence. Qed.

Lemma keeps_finish numeric body c now id d rs db :
  id <> raceID -> keeps db (fst (repo_FinishRace numeric body c now id d rs db)).
Proof.
  intros Hid. unfold repo_FinishRace. destruct body; [done|].
  destruct (finish_all _ _ _ _ _ _) as [db1|] eqn:Hf; [|done]. apply keeps_answer. intros r Hr _. split.
  - rewrite (races_finish_all _ _ _ _ _ _ _ Hf). unfold mark_finished.
    destruct (races db !! id) as [r1|]; [|done]. cbn. by rewrite lookup_insert_ne.
  - intros u row Hrow _. rewrite (finish_all_other_rows _ _ _ _ _ _ _ _ Hf) by (right; cbn; congruence).
    unfold mark_finished. by destruct (races db !! id).
Qed.

Lemma keeps_create n ids conns now name d by_ db :
  keeps db (fst (create_attempts n ids conns now name d by_ db)).
Proof.
  revert ids conns. induction n as [|n IH]; intros ids conns; simpl; [done|].
  destruct ids as [|[i|e] ids]; [done| |done]. destruct (negb (int4_ok d)); [done|].
  destruct (races db !! i) as [r|] eqn:Hi; [destruct conns as [|[] conns]; simpl; try done; apply IH|].
  case_bool_decide; [|by destruct conns as [|[] conns]].
  assert (keeps db (db <| races := <[i := mkRace name d "pending" by_ now None None None]> (races db) |>)) as Hk.
  { intros r Hr _. split; [|done]. cbn. rewrite lookup_insert_ne; [done|]. by intros ->; simplify_eq. }
  by destruct conns as [|[] conns].
Qed.

Lemma keeps_cancel c now id db : keeps db (fst (repo_CancelRace c now id db)).
Proof.
  unfold repo_CancelRace. destruct (races db !! id) as [r|] eqn:Hr; [|by apply keeps_answer].
  destruct (String.eqb_spec (race_Status r) "pending") as [Hs|Hs]; [|by apply keeps_answer].
  apply keeps_answer. destruct (decide (id = raceID)) as [->|Hid].
  - by eapply keeps_pending.
  - intros r' Hr' _. split; [|done]. cbn. by rewrite lookup_insert_ne.
Qed.

Lemma keeps_remove c id u db :
  (id = raceID -> forall r, races db !! raceID = Some r -> race_Status r = "pending") ->
  keeps db (fst (repo_RemoveParticipant c id u db)).
Proof.
  intros Hp. unfold repo_RemoveParticipant. destruct (race_participants db !! (id, u)); [|by apply keeps_answer].
  apply keeps_answer. destruct (decide (id = raceID)) as [->|Hid].
  - intros r Hr He. by apply ended_not_pending in He; rewrite (Hp eq_refl r Hr) in He.
  - apply (keeps_rows db (delete (id, u))). intros u' row Hrow _. by rewrite lookup_delete_ne by congruence.
Qed.

Lemma keeps_but_answer {A} ts c db db1 (v : A + race_error) :
  keeps_but ts db db1 -> keeps_but ts db (fst (answer c db db1 v)).
Proof. intros Hk. destruct c; [done|by apply keeps_keeps_but|done]. Qed.

Lemma start_keeps_but c now text db : keeps_but [Reopens] db (fst (repo_StartRace c now raceID text db)).
Proof.
  unfold repo_StartRace. destruct (races db !! raceID) as [r0|] eqn:Hr; [|by apply keeps_but_answer, keeps_keeps_but].
  apply keeps_but_answer. intros r Hr' [_ He]. simplify_eq. cbn. rewrite lookup_insert_eq. eexists. split; [done|].
  split; [split; [by right|done]|]. split; [intros []; by left|]. split; [intros []; by left|auto].
Qed.

Lemma finish_keeps_but numeric body c now d rs db :
  keeps_but [Refinishes] db (fst (repo_FinishRace numeric body c now raceID d rs db)).
Proof.
  unfold repo_FinishRace. destruct body; [by apply keeps_keeps_but|].
  destruct (finish_all _ _ _ _ _ _) as [db1|] eqn:Hf; [|by apply keeps_keeps_but]. apply keeps_but_answer.
  intros r Hr _. rewrite (races_finish_all _ _ _ _ _ _ _ Hf). unfold mark_finished. rewrite Hr. cbn.
  rewrite lookup_insert_eq. eexists. split; [done|]. split; [split; [by left|by eexists]|].
  split; [intros _ []; by left|]. split; [done|intros []; by left].
Qed.

Lemma remove_keeps_but c u db : keeps_but [Removes u] db (fst (repo_RemoveParticipant c raceID u db)).
Proof.
  unfold repo_RemoveParticipant. destruct (race_participants db !! _); [|by apply keeps_but_answer, keeps_keeps_but].
  apply keeps_but_answer. intros r Hr He. exists r. cbn. split_and!; [done..|].
  intros _ u' row Hu Hrow _. rewrite lookup_delete_ne; [done|]. intros [= <-]. destruct Hu. by left.
Qed.

(** Every statement of the repository keeps a finished race up to its touches. *)
Lemma repo_keeps_but {B} e (op : Op B) db : keeps_but (touch_of op) db (fst (repo_call e op db)).
Proof.
  cbn [repo_call pg_repository].
  destruct op as [name d by_|id|id u|id|id u|id u|id text|id|id|u|id d rs|id]; cbn [touch_of pg_call];
    try by apply keeps_keeps_but, keeps_answer.
  - apply keeps_keeps_but, keeps_create.
  - apply keeps_keeps_but. unfold repo_AddParticipant.
    destruct (race_participants db !! (id, u)) eqn:Hn; [by apply keeps_answer|].
    destruct (_ && _); [|by apply keeps_answer]. apply keeps_answer.
    apply (keeps_rows db (fun m => <[(id, u) := _]> m)). intros u' row Hrow _.
    rewrite lookup_insert_ne; [done|]. by intros [= -> ->]; simplify_eq.
  - destruct (String.eqb_spec id raceID) as [->|Hid]; [apply remove_keeps_but|].
    by apply keeps_keeps_but, keeps_remove.
  - destruct (String.eqb_spec id raceID) as [->|Hid]; [apply start_keeps_but|]. apply keeps_keeps_but.
    unfold repo_StartRace. destruct (races db !! id) as [r|] eqn:Hr; [|by apply keeps_answer]. apply keeps_answer.
    intros r' Hr' _. split; [|done]. cbn. by rewrite lookup_insert_ne.
  - apply keeps_keeps_but. unfold repo_GetRaceWithParticipants.
    destruct (answer (pg_conn e) _ _ _) as [db1 [r|err]]; [by apply keeps_answer|done].
  - destruct (String.eqb_spec id raceID) as [->|Hid]; [apply finish_keeps_but|].
    by apply keeps_keeps_but, keeps_finish.
  - apply keeps_keeps_but, keeps_cancel.
Qed.

Lemma keeps_leave env u db : keeps db (fst (run_prog (LeaveRace raceID u) env 0 db)).
Proof.
  unfold LeaveRace, bind_call. cbn [run_prog repo_call pg_repository pg_call].
  destruct (repo_GetRace (pg_conn (env 0%nat)) raceID db) as [db1 [r|err]] eqn:Hg; unfold repo_GetRace in Hg.
  - apply answer_same in Hg as [-> Hg]. destruct (races db !! raceID) as [r0|] eqn:Hr; simplify_eq.
    destruct (String.eqb_spec (race_Status r) "pending") as [Hs|Hs]; cbn [negb run_prog repo_call pg_repository pg_call]; [|done].
    destruct (repo_RemoveParticipant _ raceID u db) as [db' v] eqn:Hrem. cbn [run_prog fst].
    replace db' with (fst (repo_RemoveParticipant (pg_conn (env (0 + 1)%nat)) raceID u db)) by (by rewrite Hrem).
    apply keeps_remove. intros _ r1 Hr1. by simplify_eq.
  - cbn [run_prog fst]. destruct (pg_conn (env 0%nat)); cbn in Hg; by simplify_eq.
Qed.

Lemma keeps_reconcile w msg s : keeps (tables s) (tables (processRaceFinishedMessage pg_reconcile w msg s)).
Proof.
  unfold processRaceFinishedMessage, CommitMessages, deadLetter.
  destruct (decodeRaceFinished _) as [decoded|]; [|by destruct (w_commit w), (w_dlq w 0%nat)].
  unfold pg_reconcile. destruct (repo_ReconcileParticipantResults _ _ _ _ _) as [db' v] eqn:Hr.
  assert (keeps (tables s) db') as Hk.
  { unfold repo_ReconcileParticipantResults in Hr. destruct (reconcile_all _ _ _) as [db1|] eqn:Hf; [|by simplify_eq].
    apply answer_cases in Hr as [[-> _]|[-> _]]; [|done].
    destruct (reconcile_all_frame _ _ _ _ Hf) as (_ & Hraces & _ & Hrows & _).
    intros r Hr _. rewrite Hraces. split; [done|]. intros. by apply Hrows. }
  destruct v as [[]|]; [by destruct (w_commit w)|exact Hk].
Qed.

(** ** Steps of the composed system *)

Lemma perform_minor o c x x' :
  minor c -> perform o c x = Some x' -> keeps x.1 x'.1 /\ ((forall u err, c <> CallLeaveRace u err) -> x'.1 = x.1).
Proof.
  destruct c as [u ts words pace err|d rs err|rs err|u err|err|u err|]; cbn [minor perform]; intros Hm Hp; try done;
    try (simplify_eq; done).
  - destruct (PublishWorkoutSample _ _ _ _ _), err; simplify_eq; done.
  - destruct (run_prog _ _ _ _) as [db' v] eqn:Hrun. destruct (agrees err v); simplify_eq. split.
    + pose proof (keeps_leave (o_env o) u x.1) as Hk. by rewrite Hrun in Hk.
    + intros Hn. by destruct (Hn u err).
Qed.

Lemma perform_log o c x x' : perform o c x = Some x' -> exists new, x'.2 = x.2 ++ new.
Proof.
  assert (Hsame : exists new, x.2 = x.2 ++ new) by (exists []; by rewrite app_nil_r).
  assert (Hask : forall (p : Prog (unit + race_error)) err, (let '(db', r) := run_prog p (o_env o) 0 x.1 in
    if agrees err r then Some (db', x.2) else None) = Some x' -> exists new, x'.2 = x.2 ++ new).
  { intros p err Hp. destruct (run_prog _ _ _ _) as [db' v]. by destruct (agrees err v); simplify_eq. }
  assert (Hpub : forall (m : option KMessage) (err : option error),
    match m, err with
    | Some m, None => Some (x.1, if o_delivered o then x.2 ++ [m] else x.2)
    | None, None => None
    | _, Some _ => Some x
    end = Some x' -> exists new, x'.2 = x.2 ++ new).
  { intros m err Hp. destruct m as [m|], err; simplify_eq; try done. destruct (o_delivered o); [by eexists|done]. }
  destruct c; cbn [perform]; intros Hp; try (by eapply Hask); try (by eapply Hpub); by simplify_eq.
Qed.

Lemma perform_all_app os cs cs' x x' :
  perform_all os (cs ++ cs') x = Some x' ->
  exists os' y, perform_all os cs x = Some y /\ perform_all os' cs' y = Some x'.
Proof.
  revert os x. induction cs as [|c cs IH]; intros os x Hp; [by exists os, x|]. cbn [app perform_all] in Hp |- *.
  destruct os as [|o os]; [done|]. apply bind_Some in Hp as (y & Hy & Hp). rewrite Hy. cbn. by apply IH.
Qed.

Lemma perform_all_minor os cs x x' :
  Forall minor cs -> perform_all os cs x = Some x' ->
  keeps x.1 x'.1 /\ ((forall u err, CallLeaveRace u err ∉ cs) -> x'.1 = x.1).
Proof.
  intros Hm. revert os x. induction Hm as [|c cs Hc _ IH]; intros os x Hp; cbn [perform_all] in Hp; [by simplify_eq|].
  destruct os as [|o os]; [done|]. apply bind_Some in Hp as (y & Hy & Hp).
  destruct (perform_minor _ _ _ _ Hc Hy) as [Hk1 He1]. destruct (IH _ _ Hp) as [Hk2 He2]. split; [by etransitivity|].
  intros Hn. rewrite He2, He1; [done| |].
  - intros u err ->. by apply (Hn u err), list_elem_of_here.
  - intros u err Hin. by apply (Hn u err), list_elem_of_further.
Qed.

Lemma perform_all_log os cs x x' : perform_all os cs x = Some x' -> exists new, x'.2 = x.2 ++ new.
Proof.
  revert os x. induction cs as [|c cs IH]; intros os x Hp; cbn [perform_all] in Hp.
  - simplify_eq. exists []. by rewrite app_nil_r.
  - destruct os as [|o os]; [done|]. apply bind_Some in Hp as (y & Hy & Hp).
    destruct (perform_log _ _ _ _ Hy) as [n1 H1]. destruct (IH _ _ Hp) as [n2 H2].
    exists (n1 ++ n2). by rewrite H2, H1, app_assoc.
Qed.

Lemma new_calls_app w w' new : calls w' = calls w ++ new -> new_calls w w' = new.
Proof. intros Hc. unfold new_calls. by rewrite Hc, drop_app_length. Qed.

Definition room_finished (s : Site) : Prop := finished (actor (world (p_room s))) = true.

(** Once the room has finished, a step touches what it has persisted in no other
    way than these. *)
Lemma site_exec_keeps st s s' :
  room_finished s -> site_exec st s = Some s' ->
  keeps_but (step_touches st) (site_db s) (site_db s') /\ room_finished s' /\ exists new, p_log s' = p_log s ++ new.
Proof.
  unfold room_finished, site_db. intros Hf Hx.
  assert (Hnil : exists new, p_log s = p_log s ++ new) by (exists []; by rewrite app_nil_r).
  destruct st as [l os|B e op|m|w i]; cbn [site_exec] in Hx.
  - apply bind_Some in Hx as (r & Hr & Hx). apply bind_Some in Hx as (x & Hp & Hx). simplify_eq. cbn.
    destruct (exec_calls _ _ _ Hr) as (e & pre & tail & [Hc Hm _ _ Hfin _]). destruct (Hfin Hf) as [-> Hf'].
    rewrite app_nil_r in Hc. rewrite (new_calls_app _ _ _ Hc) in Hp. split_and!; [|done|exact (perform_all_log _ _ _ _ Hp)].
    apply (perform_all_minor _ _ _ _ Hm) in Hp as [Hk _]. by apply keeps_keeps_but.
  - simplify_eq. cbn -[repo_call touch_of]. split_and!; [apply repo_keeps_but|done|done].
  - simplify_eq. cbn. split_and!; [by apply keeps_keeps_but|done|by eexists].
  - apply bind_Some in Hx as (m & Hm & Hx). destruct (String.eqb _ _); simplify_eq. cbn.
    split_and!; [apply keeps_keeps_but, keeps_reconcile|done|done].
Qed.

Lemma site_run_keeps sts s s' :
  room_finished s -> site_run sts s = Some s' ->
  keeps_but (touches sts) (site_db s) (site_db s') /\ room_finished s' /\ exists new, p_log s' = p_log s ++ new.
Proof.
  revert s. induction sts as [|st sts IH]; intros s Hf Hrun; cbn [site_run] in Hrun.
  - simplify_eq. split_and!; [by apply keeps_keeps_but|done|]. exists []. by rewrite app_nil_r.
  - apply bind_Some in Hrun as (s1 & H1 & Hrun). destruct (site_exec_keeps _ _ _ Hf H1) as (Hk1 & Hf1 & n1 & Hn1).
    destruct (IH _ Hf1 Hrun) as (Hk2 & Hf2 & n2 & Hn2). split_and!; [by eapply keeps_but_trans|done|].
    exists (n1 ++ n2). by rewrite Hn2, Hn1, app_assoc.
Qed.

(** ** The step in which the race is persisted *)

(** A step of the room finishes the race: it hands over results, without an
    error. *)
Definition finishes (l : Label) (os : list Outcome) (s s' : Site) (d : Z) (rs : list ParticipantResult) : Prop :=
  site_exec (PRoom l os) s = Some s' /\
  CallFinishRace d rs None ∈ new_calls (world (p_room s)) (world (p_room s')).

Lemma build_in_range r p :
  forall t, res_FinishTimeMs (buildParticipantResult r p) = Some t -> int64_ok t.
Proof.
  intros t. cbn. destruct (ps_FinishedAt p) as [t0|]; [|done]. intros; simplify_eq.
  unfold milliseconds, time_sub, int64_ok, min_int64, max_int64.
  set (z := Z.max _ _). assert (-9223372036854775808 <= z <= 9223372036854775807) by lia.
  pose proof (Z.quot_rem' z 1000000). pose proof (Z.rem_bound_abs z 1000000). lia.
Qed.

Lemma race_results_range e r res : res ∈ race_results e r ->
  is_Some (res_FinishRank res) /\ forall t, res_FinishTimeMs res = Some t -> int64_ok t.
Proof.
  unfold race_results. rewrite elem_of_app, !list_elem_of_fmap.
  intros [(p & -> & _)|(p & -> & _)]; (split; [|apply build_in_range]); cbn; destruct (ps_FinishRank p); by eexists.
Qed.

(** What that step does to the tables and to Kafka. *)
Record persisted (s s' : Site) (d : Z) (rs : list ParticipantResult) : Prop := {
  pe_tables : exists numeric now,
    finish_all numeric now d raceID rs (mark_finished now raceID (site_db s)) = Some (site_db s');
  pe_finished : room_finished s';
  pe_ranked : Forall (fun res => is_Some (res_FinishRank res)) rs;
  pe_times : Forall (fun res => forall t, res_FinishTimeMs res = Some t -> int64_ok t) rs;
  pe_log : exists new, p_log s' = p_log s ++ new /\
    forall m, m ∈ new -> km_Topic m = TopicRaceFinished -> PublishRaceFinished raceID rs = Some m
}.

Lemma finish_persists o d rs x x' :
  perform o (CallFinishRace d rs None) x = Some x' ->
  x'.2 = x.2 /\ exists numeric now,
    finish_all numeric now d raceID rs (mark_finished now raceID x.1) = Some x'.1.
Proof.
  unfold perform, FinishRace. cbn [run_prog repo_call pg_repository pg_call]. unfold repo_FinishRace.
  destruct (pg_body (o_env o 0%nat)); [done|].
  destruct (finish_all _ _ _ _ _ _) as [db1|] eqn:Hf; [|done].
  destruct (pg_conn (o_env o 0%nat)); cbn; [|done..]. intros; simplify_eq. split; [done|]. by eexists _, _.
Qed.

Lemma minor_log o c x x' m :
  minor c -> perform o c x = Some x' -> m ∈ drop (length x.2) x'.2 -> km_Topic m = TopicWorkoutSample.
Proof.
  assert (Hsame : m ∈ drop (length x.2) x.2 -> km_Topic m = TopicWorkoutSample)
    by (rewrite drop_all; by intros ?%not_elem_of_nil).
  destruct c as [u ts words pace err|d rs err|rs err|u err|err|u err|]; cbn [minor perform]; intros Hm Hp; try done;
    try (simplify_eq; exact Hsame).
  - destruct (PublishWorkoutSample _ _ _ _ _) as [km|] eqn:Hk, err; simplify_eq; try exact Hsame.
    cbn. destruct (o_delivered o); [|exact Hsame]. rewrite drop_app_length. intros ->%list_elem_of_singleton.
    unfold PublishWorkoutSample in Hk. apply bind_Some in Hk as (v & _ & Hk). by simplify_eq.
  - destruct (run_prog _ _ _ _) as [db' v]. destruct (agrees err v); simplify_eq. exact Hsame.
Qed.

Lemma minors_log os cs x x' m :
  Forall minor cs -> perform_all os cs x = Some x' -> m ∈ drop (length x.2) x'.2 -> km_Topic m = TopicWorkoutSample.
Proof.
  intros Hm. revert os x. induction Hm as [|c cs Hc _ IH]; intros os x Hp; cbn [perform_all] in Hp.
  - simplify_eq. rewrite drop_all. by intros ?%not_elem_of_nil.
  - destruct os as [|o os]; [done|]. apply bind_Some in Hp as (y & Hy & Hp).
    pose proof (minor_log _ _ _ _ m Hc Hy) as H1. specialize (IH _ _ Hp).
    destruct (perform_log _ _ _ _ Hy) as [n1 Hn1]. destruct (perform_all_log _ _ _ _ Hp) as [n2 Hn2].
    rewrite Hn1, drop_app_length in H1. rewrite Hn2, drop_app_length in IH.
    rewrite Hn2, Hn1, <- app_assoc, drop_app_length, elem_of_app. tauto.
Qed.

Lemma finishes_persisted l os s s' d rs : finishes l os s s' d rs -> persisted s s' d rs.
Proof.
  intros [Hx Hin]. cbn [site_exec] in Hx. apply bind_Some in Hx as (r & Hr & Hx).
  apply bind_Some in Hx as (x & Hp & Hx). simplify_eq. cbn in Hin.
  destruct (exec_calls _ _ _ Hr) as (e & pre & tail & [Hc Hm Hl (ra & Hend & Ha) Hfin Hf]).
  rewrite (new_calls_app _ _ _ Hc) in Hp, Hin. apply elem_of_app in Hin as [Hin|Hin].
  { rewrite Forall_forall in Hm. by destruct (Hm _ Hin). }
  specialize (Hf _ _ Hin).
  assert (active ra = true /\ rs = race_results e ra /\ d = distanceMeters ra /\
    exists err, tail = [CallFinishRace d rs None; CallPublishRaceFinished rs err]) as (Hact & Hrs & Hd & err & ->).
  { destruct Hend as [|d0 rs0 err|Hact _|err].
    - by apply not_elem_of_nil in Hin.
    - apply list_elem_of_singleton in Hin. by simplify_eq.
    - apply elem_of_cons in Hin as [Hin|Hin%list_elem_of_singleton]; simplify_eq. split_and!; [done..|by eexists].
    - apply list_elem_of_singleton in Hin. by simplify_eq. }
  apply perform_all_app in Hp as (os' & y & Hpre & Hp).
  pose proof (fun m => minors_log _ _ _ _ m Hm Hpre) as Hlog.
  destruct (perform_all_log _ _ _ _ Hpre) as [n1 Hn1].
  destruct (perform_all_minor _ _ _ _ Hm Hpre) as [_ Hsame]. cbn [fst snd] in Hn1, Hlog, Hsame.
  rewrite Hn1, drop_app_length in Hlog. specialize (Hsame (fun u err' Hu => ltac:(by rewrite (Hl u err' Hu) in Ha; congruence))).
  destruct os' as [|o os']; [done|]. cbn [perform_all] in Hp. apply bind_Some in Hp as (z & Hz & Hp).
  destruct os' as [|o' os']; [done|]. apply bind_Some in Hp as (z' & Hz' & Hp). cbn [perform_all] in Hp. simplify_eq.
  apply finish_persists in Hz as (Hz2 & numeric & now & Hfa). rewrite Hsame in Hfa.
  assert (x.1 = z.1 /\ exists n2, x.2 = z.2 ++ n2 /\ forall m, m ∈ n2 -> PublishRaceFinished raceID (race_results e ra) = Some m) as (Hx1 & n2 & Hn2 & Hin2).
  { cbn [perform] in Hz'. destruct (PublishRaceFinished _ _) as [km|], err; simplify_eq.
    - split; [done|]. exists []. rewrite app_nil_r. split; [done|]. by intros m ?%not_elem_of_nil.
    - split; [done|]. cbn. destruct (o_delivered o'); [|exists []; rewrite app_nil_r; split; [done|by intros m ?%not_elem_of_nil]].
      eexists. split; [done|]. by intros m ->%list_elem_of_singleton.
    - split; [done|]. exists []. rewrite app_nil_r. split; [done|]. by intros m ?%not_elem_of_nil. }
  split; cbn.
  - exists numeric, now. by rewrite Hx1.
  - done.
  - apply Forall_forall. intros res Hres. exact (proj1 (race_results_range _ _ _ Hres)).
  - apply Forall_forall. intros res Hres. exact (proj2 (race_results_range _ _ _ Hres)).
  - exists (n1 ++ n2). rewrite Hn2, Hz2, Hn1, app_assoc. split; [done|].
    intros m [Hm1|Hm2]%elem_of_app Ht; [|by apply Hin2]. by rewrite (Hlog _ Hm1) in Ht.
Qed.

(** C6: what becomes of a result once it is persisted: from the step in which a
    room hands over its results without an error, whatever happens next - any
    statements of other requests, the room's own further steps, any message on
    Kafka, the consumer with any failures.  The race stays in the tables as one
    that has ended, never pending or cancelled again; its row does not change
    unless another request's [StartRace] or [FinishRace] for it is executed, and
    only a [StartRace] can make it active again - no guard on the status
    prevents that.  And every participant who had a row then has in it the rank,
    time, pace and disconnections of the last result the room gave for them,
    unless another [FinishRace] of the race, or a [RemoveParticipant] of this
    participant, is executed. *)
Theorem outcome_durable l os s1 s2 d rs sts s3 r0 :
  finishes l os s1 s2 d rs -> site_run sts s2 = Some s3 ->
  races (site_db s1) !! raceID = Some r0 ->
  (exists r3, races (site_db s3) !! raceID = Some r3 /\ ended r3 /\
     (Reopens ∉ touches sts -> race_Status r3 = "finished" /\
      (Refinishes ∉ touches sts ->
         exists now, r3 = r0 <| race_Status := "finished" |> <| race_EndedAt := Some now |>))) /\
  (forall pre res post row, rs = pre ++ res :: post -> res_UserID res ∉ (res_UserID <$> post) ->
     race_participants (site_db s1) !! (raceID, res_UserID res) = Some row ->
     Refinishes ∉ touches sts -> Removes (res_UserID res) ∉ touches sts ->
     race_participants (site_db s3) !! (raceID, res_UserID res) = Some (result_row res row)).
Proof.
  intros [(numeric & now & Hfa) Hf Hranked _ _]%finishes_persisted Hrun Hr0.
  destruct (site_run_keeps _ _ _ Hf Hrun) as (Hk & _).
  assert (Hr2 : races (site_db s2) !! raceID =
    Some (r0 <| race_Status := "finished" |> <| race_EndedAt := Some now |>)).
  { rewrite (races_finish_all _ _ _ _ _ _ _ Hfa). unfold mark_finished. rewrite Hr0. cbn. by rewrite lookup_insert_eq. }
  destruct (Hk _ Hr2) as (r3 & Hr3 & He3 & Hsame & Hstatus & Hrows); [split; [by left|by eexists]|]. split.
  - exists r3. split_and!; [done|done|]. intros Hno. split; [by apply Hstatus|]. intros Hno'. exists now. by apply Hsame.
  - intros pre res post row -> Hpost Hrow Hno Hno'. apply Hrows; [done|done| |].
    + eapply finish_all_row; [exact Hfa|exact Hpost|]. unfold mark_finished. by rewrite Hr0.
    + rewrite Forall_app, Forall_cons in Hranked. by destruct Hranked as (_ & Hres & _).
Qed.

Lemma int4_int64 o k : int4_option_ok o = true -> o = Some k -> int64_ok k.
Proof.
  intros Ho ->. unfold int4_option_ok, int4_ok in Ho. unfold int64_ok, min_int64, max_int64.
  apply andb_true_iff in Ho as [H1 H2]. apply Z.leb_le in H1, H2. lia.
Qed.

(** C8: the consumer is the safety net it is meant to be: when the message a
    finished room published is read - at any later time - and the database
    answers, then every row of the race for a user with a result has a rank,
    those that were missing one included, no row that had one has changed, and
    the message is committed. *)
Theorem safety_net l os s1 s2 d rs i m sts s3 w :
  finishes l os s1 s2 d rs ->
  p_log s2 !! i = Some m -> (length (p_log s1) <= i)%nat -> km_Topic m = TopicRaceFinished ->
  site_run sts s2 = Some s3 -> w_db w = Up ->
  exists s4, site_exec (PConsume w i) s3 = Some s4 /\
    (forall res row, res ∈ rs -> race_participants (site_db s4) !! (raceID, res_UserID res) = Some row ->
       is_Some (row_finish_rank row)) /\
    (forall k row, race_participants (site_db s3) !! k = Some row -> is_Some (row_finish_rank row) ->
       race_participants (site_db s4) !! k = Some row) /\
    (w_commit w = true -> committed (p_sink s4) = S i).
Proof.
  intros [(numeric & now & Hfa) Hf Hranked Htimes (new & Hnew & Hpub)]%finishes_persisted Hm Hi Ht Hrun Hw.
  destruct (site_run_keeps _ _ _ Hf Hrun) as (_ & _ & new3 & Hlog3).
  assert (PublishRaceFinished raceID rs = Some m) as Hm'.
  { apply Hpub; [|done]. rewrite Hnew, lookup_app_r in Hm by done. by eapply list_elem_of_lookup_2. }
  pose proof (finish_all_ranks _ _ _ _ _ _ _ Hfa) as Hint4.
  destruct (finished_decodes _ _ _ Hm') as [_ Hdec].
  { rewrite Forall_forall in Hint4, Htimes |- *. intros res Hres. split; [|by apply Htimes].
    intros k Hk. eapply int4_int64; [by apply Hint4|done]. }
  assert (p_log s3 !! i = Some m) as Hm3 by (rewrite Hlog3; by apply lookup_app_l_Some).
  destruct (reconcile_all_total raceID (to_RaceResultJSON <$> rs) (site_db s3)) as [db4 Hrec].
  { apply forallb_forall. intros x Hx. apply list_elem_of_In, list_elem_of_fmap in Hx as (res & -> & Hres).
    rewrite Forall_forall in Hint4. by apply Hint4. }
  cbn [site_exec]. rewrite Hm3. cbn [mbind option_bind]. rewrite Ht, String.eqb_refl. eexists. split; [done|].
  unfold site_db in Hrec |- *. cbn [p_sink]. unfold processRaceFinishedMessage. cbn [f_message]. rewrite Hdec.
  cbn [rf_RaceID rf_Results]. unfold pg_reconcile, repo_ReconcileParticipantResults. rewrite Hrec, Hw. cbn [answer].
  assert (tables (CommitMessages (w_commit w) [mkFetched i m] ((p_sink s3) <| tables := db4 |>)) = db4) as ->
    by (by destruct (w_commit w)).
  destruct (reconcile_all_frame _ _ _ _ Hrec) as (_ & _ & _ & Hrows & _).
  split_and!; [|exact Hrows|].
  - intros res row Hres Hrow. apply reconcile_all_sets in Hrec.
    + unfold all_set in Hrec. rewrite Forall_forall in Hrec.
      specialize (Hrec (to_RaceResultJSON res) ltac:(apply list_elem_of_fmap; by exists res)).
      cbn in Hrec. by rewrite Hrow in Hrec.
    + apply Forall_fmap. eapply Forall_impl; [exact Hranked|]. done.
  - intros ->. cbn. lia.
Qed.
End site.

(** ** Concrete runs *)

Definition calm (now : Z) : PgEnv :=
  mkPgEnv now Up Up [] [] None (fun l => l) (fun l => l) (fun _ => 0%Q).
Definition fine : Outcome := mkOutcome (fun _ => calm 900) true.

(** An event sent, accepted and handled at [t], its calls going as [os]. *)
Definition room_event (t : Z) (ev : RoomEvent) (os : list Outcome) : list SiteStep :=
  [PRoom (Send ev) []; PRoom (Enqueue 0) []; PRoom (Apply (env_at t)) os].

Definition pending_tables : DB :=
  mkDB {[ "u1" := "Ana"; "u2" := "Bo"; "u3" := "Cy" ]}
    {[ "R" := mkRace "Race" 5 "pending" "u1" 100 None None None ]}
    {[ ("R", "u1") := mkRow None None None 0 100; ("R", "u2") := mkRow None None None 0 101 ]} ∅.

Definition site_start : Site := mkSite (initial 0 "R" 5) (mkSink pending_tables [] 0 []) [].

(** Two join, the race starts, one crosses the line; then the other leaves. *)
Definition race_until_end : list SiteStep :=
  room_event 1 (ParticipantJoined "u1" "Ana") [] ++ room_event 2 (ParticipantJoined "u2" "Bo") [] ++
  [POther (calm 300) (OpStartRace "R" "the text")] ++ room_event 3 (activated "the text") [] ++
  room_event 40 (TelemetryReceived "u1" 1 5 float64_0) [fine] ++
  [PRoom (Send (ParticipantLeft "u2")) []; PRoom (Enqueue 0) []].

Definition before_end : Site := default site_start (site_run "R" race_until_end site_start).
Definition last_step : Label := Apply (env_at 50).
Definition after_end : Site :=
  default site_start (site_exec "R" (PRoom last_step [fine; fine; fine]) before_end).

Definition end_results : list ParticipantResult :=
  [mkResult "u1" (Some 1) (Some 0) float64_0 0; mkResult "u2" (Some 2) None float64_0 0].

(** The aftermath: a late row appears, and the consumer's first attempt fails. *)
Definition aftermath : list SiteStep :=
  [POther (calm 950) (OpAddParticipant "R" "u3"); PConsume (mkWeather (Failed "reset") true dlq_up) 1].
Definition in_the_end : Site := default site_start (site_run "R" aftermath after_end).

Lemma demo_finishes : finishes "R" last_step [fine; fine; fine] before_end after_end 5 end_results.
Proof.
  split; [vm_compute; reflexivity|]. refine (bool_decide_unpack _ _). vm_compute. exact Logic.I.
Qed.

Lemma outcome_durable_witness :
  finishes "R" last_step [fine; fine; fine] before_end after_end 5 end_results /\
  race_participants (site_db in_the_end) !! ("R", "u1") = Some (mkRow (Some 1) (Some 0) (Some float64_0) 0 100) /\
  exists r3, races (site_db in_the_end) !! "R" = Some r3 /\ race_Status r3 = "finished".
Proof.
  split; [exact demo_finishes|].
  destruct (outcome_durable "R" last_step [fine; fine; fine] before_end after_end 5 end_results aftermath in_the_end
    (mkRace "Race" 5 "active" "u1" 100 (Some 300) None (Some "the text")) demo_finishes)
    as [(r3 & Hr3 & _ & Hs) H2]; [vm_compute; reflexivity|vm_compute; reflexivity|].
  assert (touches "R" aftermath = []) as Ht by (vm_compute; reflexivity). rewrite Ht in Hs, H2.
  split; [|exists r3; split; [exact Hr3|apply Hs; apply not_elem_of_nil]].
  apply (H2 [] (mkResult "u1" (Some 1) (Some 0) float64_0 0) [mkResult "u2" (Some 2) None float64_0 0]
    (mkRow None None None 0 100) eq_refl ltac:(apply (bool_decide_unpack _); vm_compute; exact Logic.I)
    ltac:(vm_compute; reflexivity)); apply not_elem_of_nil.
Defined.

(** A start that was checked while the race was pending, and whose UPDATE is
    executed only after the room has finished it, opens the race again. *)
Theorem late_start_reopens :
  (race_Status <$> races (site_db after_end) !! "R") = Some "finished" /\
  exists s, site_run "R" [POther (calm 999) (OpStartRace "R" "another text")] after_end = Some s /\
    (race_Status <$> races (site_db s) !! "R") = Some "active" /\ finished (actor (world (p_room s))) = true.
Proof.
  split; [vm_compute; reflexivity|]. eexists. split; [vm_compute; reflexivity|]. split; vm_compute; reflexivity.
Qed.

Lemma safety_net_witness :
  exists m s4, p_log after_end !! 1%nat = Some m /\ km_Topic m = TopicRaceFinished /\
    site_exec "R" (PConsume fair 1) in_the_end = Some s4 /\ committed (p_sink s4) = 2%nat.
Proof.
  destruct (p_log after_end !! 1%nat) as [m|] eqn:Hm; [|vm_compute in Hm; discriminate Hm].
  assert (km_Topic m = TopicRaceFinished) as Ht by (vm_compute in Hm; injection Hm as <-; reflexivity).
  destruct (safety_net "R" last_step [fine; fine; fine] before_end after_end 5 end_results 1 m aftermath in_the_end fair
    demo_finishes Hm) as (s4 & H4 & _ & _ & Hc); [vm_compute; lia|exact Ht|vm_compute; reflexivity|reflexivity|].
  exists m, s4. split; [reflexivity|]. split; [exact Ht|]. split; [exact H4|]. by apply Hc.
Defined.

(** A start and the expiry of the lobby can cross: the service has marked the
    race active, the room - not told yet - handles its [pendingExpired]; the
    guard of [CancelRace] makes the cancellation a no-op that reports success,
    and the room tears itself down.  The race stays "active" in the tables with
    no room left to finish it. *)
Theorem expiry_orphans_started_race :
  exists s, site_run "R" ([POther (calm 300) (OpStartRace "R" "the text")] ++
      room_event 300000000000 pendingExpired [fine] ++ [PRoom Exit []]) site_start = Some s /\
    race_Status <$> races (site_db s) !! "R" = Some "active" /\
    CallCancelRace None ∈ calls (world (p_room s)) /\ finished (actor (world (p_room s))) = true /\
    done (actor (world (p_room s))) = true /\ running (p_room s) = false.
Proof.
  eexists. split; [vm_compute; reflexivity|].
  split; [vm_compute; reflexivity|]. split; [apply list_elem_of_here|]. vm_compute. split_and!; reflexivity.
Qed.
