(* ===== verification/ConsumerRun.v ===== *)
(** * The consumer process: two loops, restarts, bounds

    [Consumer.Run] ([internal/consumer/consumer.go]): both loops over their own
    topics and consumer groups, on shared tables and dead-letter topics, with
    other writers in between; the process may be shut down, which flushes, or
    die, which loses the batch in memory and makes the next process resume at
    the committed offsets. *)
From Stdlib Require Import ZArith QArith Floats.SpecFloat.
From stdpp Require Import base list gmap sets strings.
From S2P Require Import Prelude GoNum GoStrings Json Events Store Kafka Consumer ConsumerProps.
Local Open Scope string_scope.
Local Open Scope Z_scope.
Local Open Scope list_scope.

(** ** State *)

(** What both loops share is in a [Sink], whose [committed] is the offset of the
    [workout.sample] group; [race_committed] is the other group's. *)
Record Process := mkProcess {
  sink : Sink;
  pos : nat;
  batch : sampleBatch;
  workout_running : bool;
  race_committed : nat;
  race_pos : nat;
  race_running : bool
}.

#[export] Instance eta_Process : Eta Process := fun p =>
  mkProcess (sink p) (pos p) (batch p) (workout_running p) (race_committed p) (race_pos p) (race_running p).

(** [NewConsumer] and [Run] on fresh groups: both readers at the beginning. *)
Definition Run_start (db : DB) : Process :=
  mkProcess (mkSink db [] 0 []) 0 batch_empty true 0 0 true.

(** A reader resumes at the committed offset of its group, with an empty batch. *)
Definition restart (p : Process) : Process :=
  mkProcess (sink p) (committed (sink p)) batch_empty true (race_committed p) (race_committed p) true.

(** [Run] returns when both loops have ([wg.Wait]). *)
Definition Run_returned (p : Process) : bool := negb (workout_running p) && negb (race_running p).

(** [Lag]: of each reader that exists. *)
Definition Lag (workoutReader raceFinishedReader : option Z) : Z * Z :=
  (default 0 workoutReader, default 0 raceFinishedReader).

Section process.
Context `{TimeFormat, SampleColumns}.
Context (reconcile : Conn -> string -> list RaceResultJSON -> DB -> DB * WriteResult).
Context (log race_log : list KMessage).

Inductive ProcessStep :=
  | WorkoutStep (it : Iteration)      (** an iteration of [runWorkoutSampleLoop] *)
  | WorkoutStop (w : Weather)         (** its last flush, the context being done *)
  | RaceStep (w : option Weather)     (** an iteration of [runRaceFinishedLoop]; [None] fails to fetch *)
  | RaceStop
  | OtherWrites (db : DB)             (** the tables change *)
  | Restart.                          (** the process has died or exited; another one starts *)

(** The race loop works on the shared sink, but commits in its own group. *)
Definition race_message (w : Weather) (m : Fetched) (p : Process) : Process :=
  let s := processRaceFinishedMessage reconcile w m ((sink p) <| committed := race_committed p |>) in
  p <| sink := s <| committed := committed (sink p) |> |> <| race_committed := committed s |>
    <| race_pos := S (race_pos p) |>.

Definition process_exec (st : ProcessStep) (p : Process) : option Process :=
  match st with
  | WorkoutStep it =>
      if workout_running p then
        let '(o, pos') := poll_of log (pos p) it in
        let '(b', s') := workout_iteration (it_weather it) (it_now it) (it_now' it) o (batch p) (sink p) in
        Some (p <| pos := pos' |> <| batch := b' |> <| sink := s' |>)
      else None
  | WorkoutStop w =>
      if workout_running p then
        let '(b', s') := flushWorkoutSampleBatch w (batch p) (sink p) in
        Some (p <| batch := b' |> <| sink := s' |> <| workout_running := false |>)
      else None
  | RaceStep None => if race_running p then Some p else None
  | RaceStep (Some w) =>
      if race_running p then
        m ← race_log !! race_pos p; Some (race_message w (mkFetched (race_pos p) m) p)
      else None
  | RaceStop => if race_running p then Some (p <| race_running := false |>) else None
  | OtherWrites db => Some (p <| sink := (sink p) <| tables := db |> |>)
  | Restart => Some (restart p)
  end.

Fixpoint process_run (sts : list ProcessStep) (p : Process) : option Process :=
  match sts with
  | [] => Some p
  | st :: sts' => p' ← process_exec st p; process_run sts' p'
  end.

(** The publishes to dead-letter topics that a step attempts get through. *)
Definition publishes_through (st : ProcessStep) : Prop :=
  match st with
  | WorkoutStep it => forall j, w_dlq (it_weather it) j = true
  | WorkoutStop w => forall j, w_dlq w j = true
  | _ => True
  end.

(** What a step abandons: a restart forgets the batch, and the messages of it
    that lie below the committed offset are not read again. *)
Definition abandons (st : ProcessStep) (p : Process) : list Fetched :=
  match st with
  | Restart => filter (fun m => f_offset m < committed (sink p))%nat (b_messages (batch p))
  | _ => []
  end.

Fixpoint abandoned (sts : list ProcessStep) (p : Process) : list Fetched :=
  match sts with
  | [] => []
  | st :: sts' => abandons st p ++ match process_exec st p with Some p' => abandoned sts' p' | None => [] end
  end.

(** ** At least once, across restarts *)

Lemma processed_frame w m s :
  workout_samples (processRaceFinishedMessage reconcile w m s) = workout_samples s /\
  dead_letters s ⊆ dead_letters (processRaceFinishedMessage reconcile w m s).
Proof.
  unfold processRaceFinishedMessage, deadLetter.
  destruct (decodeRaceFinished _) as [d|]; [destruct (reconcile _ _ _ _) as [db' []]|];
    try (match goal with |- context [CommitMessages ?ok ?ms ?st] =>
      destruct (CommitMessages_frame ok ms st) as (_ & -> & -> & _) end);
    try destruct (w_dlq w 0%nat); cbn; (split; [done|]); set_solver.
Qed.

Definition process_inv (gone : list Fetched) (p : Process) : Prop :=
  loop_inv log gone (pos p) (batch p) (sink p).

Lemma loop_inv_gone gone gone' pos0 b s :
  gone ⊆ gone' -> loop_inv log gone pos0 b s -> loop_inv log gone' pos0 b s.
Proof.
  intros Hg [Hp Hb Hs Hr]. split; [done..|]. intros i m Hi Hl. destruct (Hr i m Hi Hl) as [?|[?|?]]; auto.
Qed.

Lemma process_exec_inv gone st p p' :
  publishes_through st -> process_inv gone p -> process_exec st p = Some p' ->
  process_inv (gone ++ abandons st p) p'.
Proof.
  intros Hup Hi Hx. destruct st as [it|w|[w|]| |db|]; cbn [process_exec publishes_through abandons] in *; rewrite ?app_nil_r.
  - destruct (workout_running p); [|done]. destruct (poll_of log (pos p) it) as [o pos'] eqn:Hp.
    destruct (workout_iteration _ _ _ o (batch p) (sink p)) as [b' s'] eqn:Hit. simplify_eq.
    by eapply iteration_inv.
  - destruct (workout_running p); [|done].
    destruct (flushWorkoutSampleBatch w (batch p) (sink p)) as [b' s'] eqn:Hf. simplify_eq. by eapply flush_inv.
  - destruct (race_running p); [|done]. apply bind_Some in Hx as (m & Hm & Hx). simplify_eq.
    destruct (processed_frame w (mkFetched (race_pos p) m) ((sink p) <| committed := race_committed p |>)) as [H1 H2].
    eapply loop_inv_sink; [| | |exact Hi]; cbn; [by rewrite H1|exact H2|done].
  - destruct (race_running p); by simplify_eq.
  - destruct (race_running p); by simplify_eq.
  - simplify_eq. by eapply loop_inv_sink; [| | |exact Hi].
  - simplify_eq. destruct Hi as [Hp Hb Hs Hr]. split; cbn; [lia|by intros m Hm%elem_of_nil|constructor|].
    intros i m Hlt Hl. destruct (Hr i m ltac:(lia) Hl) as [Hh|[Hh|Hh]]; [by left|right; right..];
      rewrite elem_of_app; [right|by left]. apply list_elem_of_filter. by split.
Qed.

Lemma process_run_inv gone sts p p' :
  Forall publishes_through sts -> process_inv gone p -> process_run sts p = Some p' ->
  process_inv (gone ++ abandoned sts p) p'.
Proof.
  intros Hup. revert gone p. induction Hup as [|st sts Hst _ IH]; intros gone p Hi Hrun; cbn [process_run abandoned] in *.
  - simplify_eq. by rewrite app_nil_r.
  - apply bind_Some in Hrun as (p1 & H1 & Hrun). rewrite H1, app_assoc. eapply IH; [|exact Hrun].
    by eapply process_exec_inv.
Qed.

Lemma flush_committed w b s b' s' :
  flushWorkoutSampleBatch w b s = (b', s') ->
  (b' = b /\ committed s' = committed s) \/
  (b_messages b' = [] /\ committed s' = commit_of (w_commit w) (b_messages b) (committed s)).
Proof.
  intros Hf. destruct (decide (b_samples b = [])) as [He|He].
  { unfold flushWorkoutSampleBatch in Hf. rewrite He in Hf. simplify_eq. by left. }
  destruct (flush_cases w b s b' s' He Hf) as [_ [(_ & _ & -> & -> & _)|(_ & -> & -> & _)]]; auto.
Qed.

Lemma flush_uncommitted w b s b' s' (n : nat) :
  flushWorkoutSampleBatch w b s = (b', s') ->
  (forall m, m ∈ b_messages b -> (committed s <= f_offset m < n)%nat) -> (committed s <= n)%nat ->
  (committed s' <= n)%nat /\ forall m, m ∈ b_messages b' -> (committed s' <= f_offset m < n)%nat.
Proof.
  intros [[-> ->]|[-> ->]]%flush_committed Hb Hn; [done|]. split; [|by intros m Hm%elem_of_nil].
  apply commit_of_bound; [|done]. intros m Hm. apply Hb in Hm. lia.
Qed.

Definition wellformed : Prop := Forall (fun m => is_Some (decodeWorkoutSample (km_Value m))) log.

Definition batch_ahead (p : Process) : Prop :=
  (committed (sink p) <= pos p)%nat /\
  forall m, m ∈ b_messages (batch p) -> (committed (sink p) <= f_offset m < pos p)%nat.

(** With well-formed messages only, the commit never runs past the batch. *)
Lemma process_exec_ahead st p p' :
  wellformed -> batch_ahead p -> process_exec st p = Some p' -> batch_ahead p'.
Proof.
  intros Hlog [Hc Hb] Hx. unfold batch_ahead. destruct st as [it|w|[w|]| |db|]; cbn [process_exec] in *.
  - destruct (workout_running p); [|done]. unfold poll_of, workout_iteration in Hx.
    assert (Hcheck : forall b n b' s', (forall m, m ∈ b_messages b -> (committed (sink p) <= f_offset m < n)%nat) ->
      (committed (sink p) <= n)%nat ->
      (if shouldFlush (it_now' it) b then flushWorkoutSampleBatch (it_weather it) b (sink p) else (b, sink p)) = (b', s') ->
      (committed s' <= n)%nat /\ forall m, m ∈ b_messages b' -> (committed s' <= f_offset m < n)%nat).
    { intros b n b' s' H1 H2 H3. destruct (shouldFlush (it_now' it) b); [by apply (flush_uncommitted _ _ _ _ _ _ H3)|by simplify_eq]. }
    destruct (it_poll it) as [[]|]; [destruct (log !! pos p) as [m|] eqn:Hm| |by simplify_eq].
    + destruct (proj1 (Forall_lookup _ _) Hlog _ _ Hm) as [sample Hd]. cbn [f_message] in Hx. rewrite Hd in Hx.
      destruct (if shouldFlush _ _ then _ else _) as [b' s'] eqn:Hf. simplify_eq. cbn.
      eapply Hcheck; [|lia|exact Hf]. destruct (batch_add_frame sample (mkFetched (pos p) m) (it_now it) (batch p)) as (_ & -> & _).
      intros m'. rewrite elem_of_app, list_elem_of_singleton. intros [Hin| ->]; [|cbn; lia]. apply Hb in Hin. lia.
    + destruct (if shouldFlush _ _ then _ else _) as [b' s'] eqn:Hf. simplify_eq. by apply (Hcheck _ _ _ _ Hb Hc Hf).
    + destruct (if shouldFlush _ _ then _ else _) as [b' s'] eqn:Hf. simplify_eq. by apply (Hcheck _ _ _ _ Hb Hc Hf).
  - destruct (workout_running p); [|done].
    destruct (flushWorkoutSampleBatch w (batch p) (sink p)) as [b' s'] eqn:Hf. simplify_eq. by apply (flush_uncommitted _ _ _ _ _ _ Hf).
  - destruct (race_running p); [|done]. apply bind_Some in Hx as (m & Hm & Hx). by simplify_eq.
  - destruct (race_running p); by simplify_eq.
  - destruct (race_running p); by simplify_eq.
  - by simplify_eq.
  - simplify_eq. cbn. split; [done|]. by intros m Hm%elem_of_nil.
Qed.

Lemma abandoned_wellformed sts p p' :
  wellformed -> batch_ahead p -> process_run sts p = Some p' -> abandoned sts p = [] /\ batch_ahead p'.
Proof.
  intros Hlog. revert p. induction sts as [|st sts IH]; intros p Hp Hrun; cbn [process_run abandoned] in *; [by simplify_eq|].
  apply bind_Some in Hrun as (p1 & H1 & Hrun). rewrite H1.
  destruct (IH p1 (process_exec_ahead _ _ _ Hlog Hp H1) Hrun) as [-> Hp']. split; [|done]. rewrite app_nil_r.
  destruct st; try done. cbn. destruct (filter _ _) as [|m ms] eqn:Hf; [done|]. exfalso.
  assert (m ∈ filter (fun m => f_offset m < committed (sink p))%nat (b_messages (batch p))) as [Hlt Hin]%list_elem_of_filter
    by (rewrite Hf; left). destruct Hp as [_ Hp]. apply Hp in Hin. lia.
Qed.

(** C7: at least once, as long as dead-letter publishes get through.  On any
    log - malformed messages included - and however polls, inserts and commits
    turn out, whatever the other loop and other writers do to the tables, and
    however often the process dies with a batch in memory and is started again:
    every message that has been read, and so every one below the committed
    offset, has its sample in the table, or stands in the dead-letter topic, or
    is in the batch, or was abandoned - it was in the batch of a process that
    ended while its offset was already below the committed one, which the next
    process does not read again.  Only the immediate commit of a malformed
    message can move the committed offset past the batch: if every message of
    the log decodes, nothing is ever abandoned, and everything below the
    committed offset is in the table or dead-lettered. *)
Theorem at_least_once_restarts db sts p :
  Forall publishes_through sts -> process_run sts (Run_start db) = Some p ->
  (committed (sink p) <= pos p)%nat /\
  (forall i m, (i < pos p)%nat -> log !! i = Some m ->
     handled (sink p) m \/ mkFetched i m ∈ b_messages (batch p) \/ mkFetched i m ∈ abandoned sts (Run_start db)) /\
  Forall2 (fun sample m => decodeWorkoutSample (km_Value (f_message m)) = Some sample)
    (b_samples (batch p)) (b_messages (batch p)) /\
  (wellformed -> abandoned sts (Run_start db) = [] /\
     forall i m, (i < committed (sink p))%nat -> log !! i = Some m -> handled (sink p) m).
Proof.
  intros Hup Hrun.
  assert (process_inv [] (Run_start db)) as Hi0
    by (split; cbn; [lia|by intros m Hm%elem_of_nil|constructor|intros i m Hlt; lia]).
  pose proof (process_run_inv [] _ _ _ Hup Hi0 Hrun) as [Hp Hb Hs Hr]. split_and!; [lia|exact Hr|exact Hs|].
  intros Hlog. destruct (abandoned_wellformed sts (Run_start db) p Hlog) as [Ha [_ Hahead]];
    [split; cbn; [lia|by intros m Hm%elem_of_nil]|done|]. split; [done|].
  intros i m Hi Hl. destruct (Hr i m ltac:(lia) Hl) as [Hh|[Hh|Hh]]; [done| |].
  - apply Hahead in Hh. cbn in Hh. lia.
  - rewrite Ha in Hh. by apply elem_of_nil in Hh.
Qed.

(** A shutdown whose last flush meets the database leaves nothing behind. *)
Lemma stop_drains w p p' :
  w_db w = Up -> forallb encodable (b_samples (batch p)) = true ->
  process_exec (WorkoutStop w) p = Some p' -> b_samples (batch p') = [] /\ workout_running p' = false.
Proof.
  intros Hw He Hx. cbn [process_exec] in Hx. destruct (workout_running p); [|done].
  unfold flushWorkoutSampleBatch, InsertBatch in Hx. rewrite Hw, He in Hx.
  destruct (b_samples (batch p)) eqn:Hb; [by simplify_eq|]. cbn [negb] in Hx. by destruct (forallb (known_sample _) _); simplify_eq.
Qed.

(** ** The size and the age of the batch *)

(** The database refuses, or loses its answer. *)
Definition outage (it : Iteration) : bool :=
  match w_db (it_weather it) with Up => false | _ => true end.

Definition outages (its : list Iteration) : nat := length (List.filter outage its).

(** The clock readings of successive iterations do not go back. *)
Fixpoint ticks (t : Z) (its : list Iteration) : Prop :=
  match its with
  | [] => True
  | it :: its' => t <= it_now it <= it_now' it /\ ticks (it_now' it) its'
  end.

(** When each message that was fetched came in, by offset. *)
Definition arrival (o : Poll) (it : Iteration) : list (nat * Z) :=
  match o with Got m => [(f_offset m, it_now it)] | _ => [] end.

Fixpoint arrivals (pos0 : nat) (its : list Iteration) : list (nat * Z) :=
  match its with
  | [] => []
  | it :: its' => let '(o, pos1) := poll_of log pos0 it in arrival o it ++ arrivals pos1 its'
  end.

(** The rows of the samples of the log can be encoded: their user ids are UUIDs,
    as the room's are. *)
Definition well_typed : Prop :=
  Forall (fun m => forall x, decodeWorkoutSample (km_Value m) = Some x -> encodable x = true) log.

(** An iteration that gets as far as its flush check: one that failed to fetch,
    or met a malformed message, does not. *)
Definition reaches_check (o : Poll) : Prop :=
  match o with
  | PollTimeout => True
  | Got m => is_Some (decodeWorkoutSample (km_Value (f_message m)))
  | FetchFailed => False
  end.

(** Every message of the batch came in at a known time, not before the batch was
    opened. *)
Record batch_inv (arr : list (nat * Z)) (t : Z) (b : sampleBatch) : Prop := {
  bi_length : length (b_samples b) = length (b_messages b);
  bi_encodable : forallb encodable (b_samples b) = true;
  bi_age m : m ∈ b_messages b -> exists ta, (f_offset m, ta) ∈ arr /\ b_openedAt b <= ta <= t
}.

Lemma batch_inv_later arr arr' t t' b :
  arr ⊆ arr' -> t <= t' -> batch_inv arr t b -> batch_inv arr' t' b.
Proof.
  intros Ha Ht [Hl He Hm]. split; [done..|]. intros m Hin. destruct (Hm m Hin) as (ta & ? & ?).
  exists ta. split; [by apply Ha|lia].
Qed.

Lemma batch_add_inv arr t b x m now :
  encodable x = true -> t <= now -> batch_inv arr t b -> batch_inv (arr ++ [(f_offset m, now)]) now (batch_add x m now b).
Proof.
  intros Hx Ht [Hl He Hm]. destruct (batch_add_frame x m now b) as (H1 & H2 & H3).
  split; rewrite ?H1, ?H2, ?H3.
  - rewrite !length_app. cbn. lia.
  - rewrite forallb_app, He. cbn. by rewrite Hx.
  - intros m'. rewrite elem_of_app, list_elem_of_singleton. intros [Hin| ->].
    + destruct (Hm m' Hin) as (ta & Hin' & ?). exists ta. rewrite bool_decide_false.
      * split; [rewrite elem_of_app; by left|lia].
      * intros He0. rewrite He0 in Hl. destruct (b_messages b); [by apply elem_of_nil in Hin|done].
    + exists now. split; [rewrite elem_of_app; right; by apply list_elem_of_singleton|].
      case_bool_decide as Hb; [lia|]. destruct (b_messages b) as [|m0 ms]; [by destruct (b_samples b)|].
      destruct (Hm m0) as (ta & _ & ?); [left|lia].
Qed.

(** The check at the end of an iteration leaves a young, small batch, or empties
    it, or meets an outage. *)
Lemma flush_check_result w now arr t b s b' s' :
  batch_inv arr t b -> (if shouldFlush now b then flushWorkoutSampleBatch w b s else (b, s)) = (b', s') ->
  batch_inv arr t b' /\
  ((length (b_samples b') < flushBatchSize)%nat /\ (b_messages b' = [] \/ now - b_openedAt b' < flushInterval) \/
   b' = b /\ w_db w <> Up).
Proof.
  intros Hi Hf. destruct (b_samples b) as [|x xs] eqn:Hb.
  { unfold shouldFlush in Hf. rewrite Hb in Hf. simplify_eq. split; [done|]. left. rewrite Hb.
    destruct Hi as [Hl _ _]. rewrite Hb in Hl. split; [cbn; unfold flushBatchSize; lia|left; by destruct (b_messages b')]. }
  destruct (shouldFlush now b) eqn:Hs.
  - destruct (flush_cases w b s b' s' ltac:(by rewrite Hb) Hf) as [_ [(_ & _ & -> & _)|([Hw|Hw] & -> & _)]].
    + split; [split; cbn; [done|done|by intros m Hm%elem_of_nil]|]. left. cbn. split; [unfold flushBatchSize; lia|by left].
    + auto.
    + rewrite (bi_encodable _ _ _ Hi) in Hw. done.
  - simplify_eq. split; [done|]. left. unfold shouldFlush in Hs. rewrite Hb in Hs.
    apply orb_false_iff in Hs as [H1 H2]. apply bool_decide_eq_false in H1. apply Z.leb_gt in H2.
    rewrite Hb. split; [lia|by right].
Qed.

Lemma iteration_batch pos0 it o pos1 arr t b s b' s' :
  well_typed -> batch_inv arr t b -> t <= it_now it <= it_now' it -> poll_of log pos0 it = (o, pos1) ->
  workout_iteration (it_weather it) (it_now it) (it_now' it) o b s = (b', s') ->
  batch_inv (arr ++ arrival o it) (it_now' it) b' /\
  ((length (b_samples b') < flushBatchSize)%nat /\ (b_messages b' = [] \/ it_now' it - b_openedAt b' < flushInterval) \/
   (length (b_samples b') <= length (b_samples b))%nat /\ ~ reaches_check o \/
   (length (b_samples b') <= S (length (b_samples b)))%nat /\ outage it = true).
Proof.
  intros Hlog Hi Ht Hp Hit. unfold workout_iteration in Hit. unfold outage.
  assert (Hcheck : forall b1, batch_inv (arr ++ arrival o it) (it_now' it) b1 ->
    (length (b_samples b1) <= S (length (b_samples b)))%nat ->
    (if shouldFlush (it_now' it) b1 then flushWorkoutSampleBatch (it_weather it) b1 s else (b1, s)) = (b', s') ->
    batch_inv (arr ++ arrival o it) (it_now' it) b' /\
    ((length (b_samples b') < flushBatchSize)%nat /\ (b_messages b' = [] \/ it_now' it - b_openedAt b' < flushInterval) \/
     (length (b_samples b') <= length (b_samples b))%nat /\ ~ reaches_check o \/
     (length (b_samples b') <= S (length (b_samples b)))%nat /\
       match w_db (it_weather it) with Up => false | _ => true end = true)).
  { intros b1 H1 H2 H3. destruct (flush_check_result _ _ _ _ _ _ _ _ H1 H3) as [H4 [H5|[-> H5]]]; [by auto|].
    split; [done|]. right. right. split; [done|]. by destruct (w_db (it_weather it)). }
  destruct o as [m| |].
  - destruct (decodeWorkoutSample (km_Value (f_message m))) as [x|] eqn:Hd.
    + assert (encodable x = true) as Hx.
      { unfold poll_of in Hp. destruct (it_poll it) as [[]|]; [destruct (log !! pos0) as [m'|] eqn:Hm| |]; simplify_eq.
        by apply (proj1 (Forall_lookup _ _) Hlog _ _ Hm). }
      apply (Hcheck (batch_add x m (it_now it) b)); [|destruct (batch_add_frame x m (it_now it) b) as (-> & _); rewrite length_app; cbn; lia|exact Hit].
      apply (batch_inv_later (arr ++ arrival (Got m) it) _ (it_now it)); [done|lia|].
      apply (batch_add_inv _ t); [done|lia|done].
    + simplify_eq. split; [apply (batch_inv_later arr _ t); [set_solver|lia|done]|]. right. left. split; [done|].
      cbn. rewrite Hd. by intros [? ?].
  - apply (Hcheck b); [apply (batch_inv_later arr _ t); [set_solver|lia|done]|lia|exact Hit].
  - simplify_eq. split; [apply (batch_inv_later arr _ t); [set_solver|lia|done]|]. right. left. by split; [|intros []].
Qed.

Lemma workout_run_batch its pos0 b s pos1 b' s' arr t n :
  well_typed -> ticks t its -> batch_inv arr t b -> (length (b_samples b) < flushBatchSize + n)%nat ->
  workout_run log pos0 its b s = (pos1, b', s') ->
  (length (b_samples b') < flushBatchSize + (n + outages its))%nat /\
  exists t', batch_inv (arr ++ arrivals pos0 its) t' b' /\
    forall it, ticks t (its ++ [it]) -> t' <= it_now it <= it_now' it.
Proof.
  intros Hlog. revert pos0 b s arr t n. induction its as [|it its IH]; intros pos0 b s arr t n Ht Hi Hn Hrun;
    cbn [workout_run arrivals ticks app] in *.
  - simplify_eq. unfold outages. cbn [List.filter length]. rewrite app_nil_r. split; [lia|]. exists t. split; [done|].
    by intros it [? _].
  - destruct (poll_of log pos0 it) as [o p1] eqn:Hp. destruct (workout_iteration _ _ _ o b s) as [b1 s1] eqn:Hit.
    destruct Ht as [Ht1 Ht]. destruct (iteration_batch _ _ _ _ _ _ _ _ _ _ Hlog Hi Ht1 Hp Hit) as [Hi1 Hl1].
    assert (length (b_samples b1) < flushBatchSize + (n + (if outage it then 1 else 0)))%nat as Hn1
      by (destruct (outage it); destruct Hl1 as [[? _]|[[? _]|[? ?]]]; try done; lia).
    destruct (IH _ _ _ _ _ _ Ht Hi1 Hn1 Hrun) as (H1 & t' & H2 & H3). split.
    + unfold outages in *. cbn [List.filter]. destruct (outage it); cbn [length]; lia.
    + exists t'. rewrite app_assoc. split; [done|]. intros it' [_ Hit']. by apply H3.
Qed.

(** C21: the batch stays small and young.  For samples whose rows can be
    encoded, and a clock that does not go back: after any iteration it holds
    fewer than 200 samples plus one for each iteration so far that met an outage
    of the database - so fewer than 200 as long as there was none.  And after an
    iteration that reaches its flush check with the database up it holds fewer
    than 200, none of which came in three seconds ago or earlier.  No age is
    bounded otherwise: a failed fetch or a malformed message skips the check, an
    outage keeps the whole batch. *)
Theorem batch_bounded its it o db pos0 pos1 b0 s0 b s t :
  well_typed -> ticks t (its ++ [it]) ->
  workout_run log 0 its batch_empty (mkSink db [] 0 []) = (pos0, b0, s0) -> poll_of log pos0 it = (o, pos1) ->
  workout_iteration (it_weather it) (it_now it) (it_now' it) o b0 s0 = (b, s) ->
  length (b_samples b) = length (b_messages b) /\
  (length (b_samples b) < flushBatchSize + outages (its ++ [it]))%nat /\
  (reaches_check o -> outage it = false -> (length (b_samples b) < flushBatchSize)%nat /\
   forall m, m ∈ b_messages b -> exists ta,
     (f_offset m, ta) ∈ arrivals 0 its ++ arrival o it /\ it_now' it - ta < flushInterval).
Proof.
  intros Hlog Ht Hrun Hp Hit.
  assert (ticks t its) as Hts by (clear -Ht; revert t Ht; induction its; cbn; [done|]; intros t [? ?]; auto).
  destruct (workout_run_batch its 0 batch_empty _ _ _ _ [] t 0 Hlog Hts
    ltac:(split; cbn; [done|done|by intros m Hm%elem_of_nil]) ltac:(cbn; unfold flushBatchSize; lia) Hrun)
    as (Hn & t' & Hi & Ht'). specialize (Ht' it Ht).
  destruct (iteration_batch _ _ _ _ _ _ _ _ _ _ Hlog Hi Ht' Hp Hit) as [[Hl _ Ha] Hcase]. split; [done|]. split.
  - unfold outages in *. rewrite List.filter_app, length_app. cbn [List.filter].
    destruct (outage it); cbn [length]; destruct Hcase as [[? _]|[[? _]|[? ?]]]; try done; lia.
  - intros Hr Ho. destruct Hcase as [[H1 H2]|[[_ ?]|[_ ?]]]; [|done|congruence]. split; [done|].
    intros m Hm. destruct (Ha m Hm) as (ta & Hin & ?). exists ta. split; [exact Hin|].
    destruct H2 as [H2|H2]; [rewrite H2 in Hm; by apply elem_of_nil in Hm|lia].
Qed.
End process.

(** ** Concrete runs *)

(** Two samples are fetched, the process dies before they are flushed, and the
    next one consumes them again. *)
Definition crash_run : list ProcessStep :=
  [WorkoutStep (fetches 0); WorkoutStep (fetches 10); RaceStep (Some fair); Restart;
   WorkoutStep (fetches 20); WorkoutStep (fetches 4000000000); WorkoutStop fair; RaceStop].

Definition crashed : Process :=
  default (Run_start demo_tables)
    (process_run pg_reconcile demo_log [finished_message "u1" 1] crash_run (Run_start demo_tables)).

Lemma at_least_once_restarts_witness :
  committed (sink crashed) = 2%nat /\ Run_returned crashed = true /\
  forall m, demo_log !! 1%nat = Some m -> handled (sink crashed) m.
Proof.
  split; [vm_compute; reflexivity|]. split; [vm_compute; reflexivity|].
  unfold crashed. destruct (process_run pg_reconcile demo_log _ crash_run _) as [p|] eqn:Hrun; [|vm_compute in Hrun; discriminate Hrun].
  intros m. apply (at_least_once_restarts pg_reconcile demo_log [finished_message "u1" 1] demo_tables crash_run p).
  - by repeat constructor.
  - exact Hrun.
  - repeat constructor; vm_compute; by eexists.
  - vm_compute in Hrun. injection Hrun as <-. cbn. lia.
Defined.

(** Two samples, the second of which comes in when the first is more than three
    seconds old: both are written. *)
Lemma batch_bounded_witness :
  let r := workout_run demo_log 0 [fetches 5] batch_empty (mkSink demo_tables [] 0 []) in
  let b := fst (workout_iteration fair 4000000000 4000000000 (Got (mkFetched 1 (sample_message 4))) (snd (fst r)) (snd r)) in
  (length (b_samples b) < 200)%nat /\ forall m, m ∈ b_messages b -> f_offset m = 1%nat \/ f_offset m = 0%nat.
Proof.
  cbv zeta. destruct (workout_run demo_log 0 [fetches 5] batch_empty (mkSink demo_tables [] 0 [])) as [[pos1 b] s] eqn:Hrun.
  cbn [fst snd].
  destruct (batch_bounded demo_log [fetches 5] (fetches 4000000000) (Got (mkFetched 1 (sample_message 4))) demo_tables
    pos1 2%nat b s _ _ 5 ltac:(unfold well_typed, demo_log; repeat constructor; intros x Hx; vm_compute in Hx; injection Hx as <-; reflexivity)
    ltac:(cbn; lia) Hrun ltac:(vm_compute in Hrun; injection Hrun as <- _ _; reflexivity) (surjective_pairing _))
    as (_ & H & Hage).
  destruct Hage as [Hlen Hage]; [vm_compute; by eexists|reflexivity|]. split; [exact Hlen|].
  intros m Hm. destruct (Hage m Hm) as (ta & Hin & _). cbn in Hin.
  rewrite !elem_of_cons, elem_of_nil in Hin. destruct Hin as [Hin|[Hin|[]]]; injection Hin as -> _; auto.
Defined.
