(* ===== verification/Processes.v ===== *)
(** * The processes: start, serve, shut down ([cmd/*/run.go])

    Each [Run] is a program of a small monad with Go's two ways out: a return,
    which runs the deferred calls last in first out, and [log.Fatalf], which
    ends the process without running them.  What happens is a trace.  The loop
    that waits for the rooms is a function of the clock and of the registry;
    times are in nanoseconds. *)
From Stdlib Require Import ZArith.
From stdpp Require Import base list gmap sets strings.
From S2P Require Import Prelude GoNum GoStrings Json Store Registry RegistryProps Relay RaceHub GatewayProxy.
Local Open Scope string_scope.
Local Open Scope Z_scope.
Local Open Scope list_scope.

(** ** Constructors of clients *)

(** [fmt.Errorf("prefix: %w", err)] *)
Definition wrap (prefix : string) (e : option error) : option error := (fun e => prefix +:+ ": " +:+ e) <$> e.

(** The first step that fails decides. *)
Fixpoint first_error (l : list (option error)) : option error :=
  match l with
  | [] => None
  | Some e :: _ => Some e
  | None :: l' => first_error l'
  end.

(** [db.NewPool]: what parsing, creating and pinging answer. *)
Definition NewPool (parse create ping : option error) : option error :=
  first_error [wrap "db: parse config" parse; wrap "db: create pool" create; wrap "db: ping" ping].

(** [db.Migrate]: [ErrNoChange] is not an error. *)
Inductive MigrateError := ErrNoChange | MigrateFailed (e : error).

Definition Migrate (open driver init : option error) (up : option MigrateError) : option error :=
  first_error [wrap "migrate: open" open; wrap "migrate: driver" driver; wrap "migrate: init" init;
    wrap "migrate: up" (match up with Some (MigrateFailed e) => Some e | _ => None end)].

(** [redisclient.NewClient] *)
Definition NewClient (parse ping : option error) : option error :=
  first_error [wrap "redisclient: parse url" parse; wrap "redisclient: ping" ping].

(** [tracing.Init] *)
Definition tracing_Init (exporter res : option error) : option error :=
  first_error [wrap "tracing: create otlp exporter" exporter; wrap "tracing: build resource" res].

(** ** Configuration of the gateway and of the alert relay *)

(** [wsgateway.Config] *)
Record GatewayConfig := mkGatewayConfig {
  gc_ListenAddr : string; gc_RedisURL : string; gc_NATSURL : string; gc_JWTSecret : string;
  gc_AllowedOrigin : string; gc_Backends : list string; gc_CacheTTL : Z; gc_PprofEnabled : bool;
  gc_OTelExporterEndpoint : string
}.

(** [time.ParseDuration] is a parameter; what does not parse falls back. *)
Definition getEnvDuration (ParseDuration : string -> option Z) (env : string -> string) (key : string) (fallback : Z) : Z :=
  if String.eqb (env key) "" then fallback else default fallback (ParseDuration (env key)).

(** [wsgateway.LoadConfig] *)
Definition LoadConfig (ParseDuration : string -> option Z) (env : string -> string) : GatewayConfig + error :=
  match config_backends env with
  | inr e => inr e
  | inl backends => inl (mkGatewayConfig
      (getEnv env "WS_GATEWAY_LISTEN_ADDR" ":8090")
      (getEnv env "REDIS_URL" "redis://localhost:6379/0")
      (getEnv env "NATS_URL" "nats://localhost:4222")
      (getEnv env "JWT_SECRET" "dev-only-secret-change-me")
      (getEnv env "CORS_ALLOWED_ORIGIN" "http://localhost:5173")
      backends
      (getEnvDuration ParseDuration env "ROUTING_CACHE_TTL" (30 * 1000000000))
      (getEnvBool env "PPROF_ENABLED" true)
      (getEnv env "OTEL_EXPORTER_OTLP_ENDPOINT" "otel-collector.aviron.svc.cluster.local:4317"))
  end.

(** A configuration that loads names a backend, and none is empty. *)
Lemma LoadConfig_backends ParseDuration env c :
  LoadConfig ParseDuration env = inl c -> gc_Backends c <> [] /\ "" ∉ gc_Backends c.
Proof.
  unfold LoadConfig, config_backends. case_bool_decide as Hl; [done|]. intros; simplify_eq. cbn. split.
  - by intros Hn; rewrite Hn in Hl.
  - unfold splitAndTrim. destruct (String.eqb (env _) ""); [by intros ?%not_elem_of_nil|].
    rewrite list_elem_of_In, filter_In. by intros [_ H].
Qed.

(** [telegramrelay.Config] and [telegramrelay.LoadConfig] *)
Record TelegramConfig := mkTelegramConfig { tc_BotToken : string; tc_ChatID : string; tc_ListenAddr : string }.

Definition telegram_LoadConfig (env : string -> string) : TelegramConfig :=
  mkTelegramConfig (env "TELEGRAM_BOT_TOKEN") (env "TELEGRAM_CHAT_ID") (getEnv env "TELEGRAM_RELAY_LISTEN_ADDR" ":8080").

(** ** The monad *)

Inductive Resource := Tracing | Pool | RedisClient | KafkaProducer | NatsConn | MetricsServer.

#[export] Instance Resource_eq_dec : EqDecision Resource.
Proof. solve_decision. Defined.

Inductive Action :=
  | Opened (r : Resource)
  | Migrated
  | Fatal (e : error)                  (** [log.Fatalf] *)
  | Listening
  | Signalled                          (** SIGTERM or SIGINT has arrived *)
  | MarkedUnready
  | Slept (d : Z)
  | HubsShutdown
  | ServerShutdown (clean : bool)
  | RoomsDrained (at_ : Z) (drained : bool)
  | LoopsReturned                      (** [Consumer.Run] has returned *)
  | Stopped                            (** [stop()] of [signal.NotifyContext] *)
  | Cancelled                          (** [cancel()] of the shutdown context *)
  | Closed (r : Resource).

#[export] Instance Action_eq_dec : EqDecision Action.
Proof. solve_decision. Defined.

Record Frame := mkFrame { trace : list Action; defers : list Action }.

(** [None] is a process that has exited. *)
Definition Proc : Type := Frame -> Frame * bool.

Definition act (a : Action) : Proc := fun f => (mkFrame (trace f ++ [a]) (defers f), true).
Definition defer (a : Action) : Proc := fun f => (mkFrame (trace f) (a :: defers f), true).
Definition fatal (e : error) : Proc := fun f => (mkFrame (trace f ++ [Fatal e]) (defers f), false).
Definition skip : Proc := fun f => (f, true).
Definition seq_ (p q : Proc) : Proc := fun f => let '(f', alive) := p f in if alive then q f' else (f', false).

Notation "p ;;; q" := (seq_ p q) (at level 60, right associativity) : aviron_scope.
Local Open Scope aviron_scope.

(** [if err != nil { log.Fatalf("stage: %v", err) }] *)
Definition must (stage : string) (err : option error) : Proc :=
  match err with Some e => fatal (stage +:+ ": " +:+ e) | None => skip end.

(** A resource that is opened, or ends the process; closed by a deferred call. *)
Definition open (stage : string) (err : option error) (r : Resource) : Proc :=
  must stage err ;;; act (Opened r) ;;; defer (Closed r).

(** What the process does, whether it returns or dies. *)
Definition run_main (p : Proc) : list Action :=
  let '(f, alive) := p (mkFrame [] []) in if alive then trace f ++ defers f else trace f.

(** ** Waiting for the rooms ([cmd/server/run.go]) *)

Definition shutdownTimeout : Z := 2 * 60 * 1000000000.
Definition roomDrainPollInterval : Z := 250 * 1000000.

Section drain.
Context {L : Type} (regs : Z -> Registry L) (tie : bool).

(** [registry.Count()] at a time. *)
Definition active_rooms (t : Z) : nat := Registry.Count (regs t).

(** The loop, before its tick at [t]: the [select] takes the tick if it comes
    before the deadline, [ctx.Done()] if that comes first, either when both are
    ready.  The answer is when the loop returned, and whether it saw no room. *)
Fixpoint wait_loop (fuel : nat) (t deadline : Z) : option (Z * bool) :=
  match fuel with
  | O => None
  | S fuel' =>
      if (t <? deadline) || ((t =? deadline) && tie) then
        if (active_rooms t =? 0)%nat then Some (t, true)
        else wait_loop fuel' (t + roomDrainPollInterval) deadline
      else Some (deadline, false)
  end.

(** [waitForRoomsToDrain], called at [start]. *)
Definition waitForRoomsToDrain (start deadline : Z) : option (Z * bool) :=
  if (active_rooms start =? 0)%nat then Some (start, true)
  else if deadline <=? start then Some (start, false)
  else wait_loop (S (Z.to_nat ((deadline - start) / roomDrainPollInterval))) (start + roomDrainPollInterval) deadline.

Lemma wait_loop_returns fuel t deadline :
  deadline - t < (Z.of_nat fuel - 1) * roomDrainPollInterval -> (0 < fuel)%nat -> exists res, wait_loop fuel t deadline = Some res.
Proof.
  revert t. induction fuel as [|fuel IH]; intros t Hf Hp; [lia|]. cbn [wait_loop].
  destruct ((t <? deadline) || ((t =? deadline) && tie)) eqn:Hc; [|by eexists].
  destruct (active_rooms t =? 0)%nat; [by eexists|].
  assert (t <= deadline).
  { apply orb_true_iff in Hc as [Hc|Hc]; [apply Z.ltb_lt in Hc; lia|].
    apply andb_true_iff in Hc as [Hc _]. apply Z.eqb_eq in Hc. lia. }
  unfold roomDrainPollInterval in *. apply IH; lia.
Qed.

Lemma wait_loop_result fuel t deadline r drained :
  wait_loop fuel t deadline = Some (r, drained) -> t <= deadline + roomDrainPollInterval ->
  r <= deadline /\
  (drained = true -> active_rooms r = 0%nat /\ t <= r) /\
  (drained = false -> r = deadline) /\
  (forall z, (forall u, z <= u -> active_rooms u = 0%nat) -> z < deadline - roomDrainPollInterval ->
     t <= z + roomDrainPollInterval -> drained = true /\ r <= z + roomDrainPollInterval).
Proof.
  revert t. induction fuel as [|fuel IH]; intros t Hx Ht; [done|]. cbn [wait_loop] in Hx.
  destruct ((t <? deadline) || ((t =? deadline) && tie)) eqn:Hc.
  - assert (t <= deadline) as Hle.
    { apply orb_true_iff in Hc as [Hc|Hc]; [apply Z.ltb_lt in Hc; lia|].
      apply andb_true_iff in Hc as [Hc _]. apply Z.eqb_eq in Hc. lia. }
    destruct (Nat.eqb_spec (active_rooms t) 0) as [H0|H0].
    + simplify_eq. split_and!; [done|done|done|]. intros z _ _ Htz. split; [done|lia].
    + destruct (IH _ Hx) as (H1 & H2 & H3 & H4); [unfold roomDrainPollInterval in *; lia|].
      split_and!; [done| |done|].
      * intros Hd. destruct (H2 Hd). split; [done|]. unfold roomDrainPollInterval in *; lia.
      * intros z Hz Hzd Htz. apply H4; [done|done|].
        assert (t < z); [|unfold roomDrainPollInterval in *; lia].
        destruct (Z.lt_ge_cases t z) as [|Hge]; [done|]. by destruct H0; apply Hz.
  - simplify_eq. split_and!; [done|done|done|]. intros z _ Hzd Htz. exfalso.
    apply orb_false_iff in Hc as [Hc _]. apply Z.ltb_ge in Hc. lia.
Qed.

(** What waiting for the rooms comes to. *)
Lemma drain_result start deadline :
  exists r drained, waitForRoomsToDrain start deadline = Some (r, drained) /\
    start <= r <= Z.max start deadline /\
    (drained = true -> active_rooms r = 0%nat) /\
    (drained = false -> r = Z.max start deadline) /\
    (forall z, start <= z -> (forall u, z <= u -> active_rooms u = 0%nat) ->
       z < deadline - roomDrainPollInterval -> drained = true /\ r <= z + roomDrainPollInterval).
Proof.
  unfold waitForRoomsToDrain. destruct (Nat.eqb_spec (active_rooms start) 0) as [H0|H0].
  { exists start, true. split_and!; [done|lia|lia|done|done|]. intros z Hz _ _. split; [done|].
    unfold roomDrainPollInterval. lia. }
  destruct (Z.leb_spec deadline start) as [Hd|Hd].
  { exists start, false. split_and!; [done|lia|lia|done|lia|]. intros z Hz _ Hzd. unfold roomDrainPollInterval in *. lia. }
  set (n := Z.to_nat _).
  destruct (wait_loop_returns (S n) (start + roomDrainPollInterval) deadline) as [[r drained] Hx]; [|lia|].
  { unfold n. rewrite Nat2Z.inj_succ, Z2Nat.id by (apply Z.div_pos; unfold roomDrainPollInterval; lia).
    pose proof (Z.mod_pos_bound (deadline - start) roomDrainPollInterval ltac:(unfold roomDrainPollInterval; lia)).
    replace (Z.succ ((deadline - start) / roomDrainPollInterval) - 1) with ((deadline - start) / roomDrainPollInterval) by lia.
    pose proof (Z.div_mod (deadline - start) roomDrainPollInterval ltac:(unfold roomDrainPollInterval; lia)).
    unfold roomDrainPollInterval in *. lia. }
  exists r, drained. split; [done|].
  destruct (wait_loop_result _ _ _ _ _ Hx) as (H1 & H2 & H3 & H4); [unfold roomDrainPollInterval; lia|].
  assert (start <= r).
  { destruct drained; [destruct (H2 eq_refl); unfold roomDrainPollInterval in *; lia|rewrite H3; [lia|done]]. }
  split_and!; [done|lia|by intros Hdr; apply H2|intros Hdr; rewrite H3 by done; lia|].
  intros z Hz Hall Hzd. apply H4; [done|done|lia].
Qed.

(** C20: waiting for the rooms ends: whatever the rooms do, the loop returns, at
    the deadline at the latest (at once, when the HTTP server has used the
    whole budget up); it reports the rooms drained only when it has just seen
    none, and gives up only at the deadline; and if the last room goes while
    more than one poll interval is left and no room follows, the loop returns
    within one interval of that. *)
Theorem drain_terminates start deadline :
  exists r drained, waitForRoomsToDrain start deadline = Some (r, drained) /\
    start <= r <= Z.max start deadline /\
    (drained = true -> active_rooms r = 0%nat) /\
    (drained = false -> r = Z.max start deadline) /\
    (forall z, start <= z -> (forall u, z <= u -> active_rooms u = 0%nat) ->
       z < deadline - roomDrainPollInterval -> drained = true /\ r <= z + roomDrainPollInterval).
Proof. apply drain_result. Qed.
End drain.

(** ** The four processes *)

(** What starting and stopping the race service meets; the signal arrives at
    time 0, and [http.Server.Shutdown] returns at [se_shutdown_end]. *)
Record ServerEnv := mkServerEnv {
  se_tracing : option error; se_pool : option error; se_migrate : option error; se_redis : option error;
  se_nats : option error; se_listen : option error; se_clean : bool; se_shutdown_end : Z
}.

(** [cmd/server/run.go] *)
Definition Run_server {L} (e : ServerEnv) (regs : Z -> Registry L) (tie : bool) : Proc :=
  open "tracing" (se_tracing e) Tracing ;;;
  open "db" (se_pool e) Pool ;;;
  must "migrate" (se_migrate e) ;;; act Migrated ;;;
  open "redisclient" (se_redis e) RedisClient ;;;
  open "kafka" None KafkaProducer ;;;
  open "nats" (se_nats e) NatsConn ;;;
  defer Stopped ;;;
  act Listening ;;; must "listen" (se_listen e) ;;;
  act Signalled ;;; act MarkedUnready ;;;
  defer Cancelled ;;;
  act (ServerShutdown (se_clean e)) ;;;
  match waitForRoomsToDrain regs tie (se_shutdown_end e) shutdownTimeout with
  | Some (t, drained) => act (RoomsDrained t drained)
  | None => skip
  end.

Record GatewayEnv := mkGatewayEnv {
  ge_tracing : option error; ge_redis : option error; ge_nats : option error; ge_discovery : option error;
  ge_listen : option error; ge_clean : bool
}.

Definition connFlushWindow : Z := 500 * 1000000.

(** [cmd/ws-gateway/run.go] *)
Definition Run_gateway (e : GatewayEnv) : Proc :=
  open "tracing" (ge_tracing e) Tracing ;;;
  open "redisclient" (ge_redis e) RedisClient ;;;
  open "nats" (ge_nats e) NatsConn ;;;
  must "backend discovery" (ge_discovery e) ;;;
  defer Stopped ;;;
  act Listening ;;; must "listen" (ge_listen e) ;;;
  act Signalled ;;; act MarkedUnready ;;;
  act (Slept connFlushWindow) ;;;
  act HubsShutdown ;;;
  defer Cancelled ;;;
  act (ServerShutdown (ge_clean e)).

Record ConsumerEnv := mkConsumerEnv {
  ce_tracing : option error; ce_pool : option error; ce_listen : option error; ce_run : option error
}.

(** [cmd/consumer/run.go]: [Consumer.Run] returns once both loops have seen the
    signal and flushed. *)
Definition Run_consumer (e : ConsumerEnv) : Proc :=
  defer Stopped ;;;
  open "tracing" (ce_tracing e) Tracing ;;;
  open "db" (ce_pool e) Pool ;;;
  open "kafka" None KafkaProducer ;;;
  act Listening ;;; must "consumer metrics listen" (ce_listen e) ;;;
  open "metrics" None MetricsServer ;;;
  act Signalled ;;; act LoopsReturned ;;;
  must "consumer" (ce_run e).

(** [cmd/telegram-relay/run.go] *)
Definition Run_telegram (listen : option error) (clean : bool) : Proc :=
  defer Stopped ;;;
  act Listening ;;; must "listen" listen ;;;
  act Signalled ;;;
  defer Cancelled ;;;
  act (ServerShutdown clean).

(** ** Every opened resource is closed, in reverse, and last *)

Definition opens (tr : list Action) : list Resource :=
  omap (fun a => match a with Opened r => Some r | _ => None end) tr.
Definition closes (tr : list Action) : list Resource :=
  omap (fun a => match a with Closed r => Some r | _ => None end) tr.

(** A program that closes nothing itself, and defers the closing of what it
    opens; it dies of [log.Fatalf] only. *)
Definition disciplined (p : Proc) : Prop :=
  forall f, exists new ds,
    fst (p f) = mkFrame (trace f ++ new) (ds ++ defers f) /\
    closes new = [] /\ opens ds = [] /\
    (snd (p f) = true -> closes ds = reverse (opens new)) /\
    (snd (p f) = false -> exists pre e, new = pre ++ [Fatal e]).

Lemma disciplined_act a : closes [a] = [] -> opens [a] = [] -> disciplined (act a).
Proof.
  intros Hc Ho f. exists [a], []. split_and!; [done|done|done| |done]. intros _. by rewrite Ho.
Qed.

Lemma disciplined_defer a : closes [a] = [] -> opens [a] = [] -> disciplined (defer a).
Proof.
  intros Hc Ho f. exists [], [a]. cbn [defer fst]. rewrite app_nil_r. split_and!; [done|done|done|done|done].
Qed.

Lemma disciplined_skip : disciplined skip.
Proof. intros [tr ds]. exists [], []. cbn. rewrite app_nil_r. split_and!; done. Qed.

Lemma disciplined_fatal e : disciplined (fatal e).
Proof. intros f. exists [Fatal e], []. split_and!; [done|done|done|done|]. intros _. by exists [], e. Qed.

Lemma disciplined_seq p q : disciplined p -> disciplined q -> disciplined (seq_ p q).
Proof.
  intros Hp Hq f. unfold seq_. destruct (Hp f) as (n1 & d1 & Hf1 & Hc1 & Ho1 & Ht1 & Hd1).
  destruct (p f) as [f1 alive]. cbn [fst snd] in *. destruct alive; [|by exists n1, d1].
  destruct (Hq f1) as (n2 & d2 & Hf2 & Hc2 & Ho2 & Ht2 & Hd2). exists (n1 ++ n2), (d2 ++ d1).
  rewrite Hf2, Hf1. cbn [trace defers]. rewrite !app_assoc. split_and!; [done| | | |].
  - unfold closes in *. by rewrite omap_app, Hc1, Hc2.
  - unfold opens in *. by rewrite omap_app, Ho1, Ho2.
  - intros Ha. rewrite <- Hf1 in Ha. unfold closes, opens in *. by rewrite !omap_app, reverse_app, Ht1, Ht2.
  - intros Ha. rewrite <- Hf1 in Ha. destruct (Hd2 Ha) as (pre & e & ->). exists (n1 ++ pre), e. by rewrite app_assoc.
Qed.

Lemma disciplined_must stage err : disciplined (must stage err).
Proof. destruct err; [apply disciplined_fatal|apply disciplined_skip]. Qed.

Lemma disciplined_open stage err r : disciplined (open stage err r).
Proof.
  unfold open. destruct err as [e|]; cbn [must].
  - intros f. exists [Fatal (stage +:+ ": " +:+ e)], []. split_and!; [done|done|done|done|]. intros _. by eexists [], _.
  - intros f. exists [Opened r], [Closed r]. split_and!; done.
Qed.

Create HintDb discipline.
#[local] Hint Resolve disciplined_act disciplined_defer disciplined_skip disciplined_seq disciplined_must
  disciplined_open : discipline.

(** What discipline means for a whole process. *)
Lemma disciplined_main p : disciplined p ->
  (exists pre e, run_main p = pre ++ [Fatal e] /\ closes pre = []) \/
  (exists work closing, run_main p = work ++ closing /\ closes work = [] /\ opens closing = [] /\
     closes closing = reverse (opens work)).
Proof.
  intros Hp. destruct (Hp (mkFrame [] [])) as (new & ds & Hf & Hc & Ho & Ht & Hd).
  unfold run_main. destruct (p (mkFrame [] [])) as [f alive]. cbn [fst snd] in *. subst f. cbn.
  rewrite app_nil_r. destruct alive.
  - right. exists new, ds. split_and!; auto.
  - left. destruct (Hd eq_refl) as (pre & e & ->). exists pre, e. split; [done|].
    unfold closes in *. rewrite omap_app in Hc. by apply app_eq_nil in Hc as [-> _].
Qed.

Lemma Run_server_disciplined {L} e (regs : Z -> Registry L) tie : disciplined (Run_server e regs tie).
Proof.
  unfold Run_server. repeat (apply disciplined_seq; [auto with discipline|]).
  destruct (waitForRoomsToDrain _ _ _ _) as [[]|]; auto with discipline.
Qed.

(** The start of each process succeeds. *)
Definition server_starts (e : ServerEnv) : bool :=
  bool_decide (Forall (eq None) [se_tracing e; se_pool e; se_migrate e; se_redis e; se_nats e; se_listen e]).
Definition gateway_starts (e : GatewayEnv) : bool :=
  bool_decide (Forall (eq None) [ge_tracing e; ge_redis e; ge_nats e; ge_discovery e; ge_listen e]).
Definition consumer_starts (e : ConsumerEnv) : bool :=
  bool_decide (Forall (eq None) [ce_tracing e; ce_pool e; ce_listen e]).

(** A run that dies of [log.Fatalf], with nothing closed. *)
Definition dies (tr : list Action) : Prop := exists pre err, tr = pre ++ [Fatal err] /\ closes pre = [].

(** A run that opens [rs], then does [middle], then only closes: all of [rs], the
    last opened first. *)
Definition shuts_down (rs : list Resource) (middle tr : list Action) : Prop :=
  exists starting closing, tr = starting ++ middle ++ closing /\ opens starting = rs /\ closes starting = [] /\
    opens closing = [] /\ closes closing = reverse rs.

Lemma dies_of tr err : last tr = Some (Fatal err) -> closes tr = [] -> dies tr.
Proof.
  intros [pre ->]%last_Some Hc. exists pre, err. split; [done|].
  unfold closes in *. rewrite omap_app in Hc. by apply app_eq_nil in Hc as [-> _].
Qed.

Lemma disciplined_ends p : disciplined p -> dies (run_main p) \/ shuts_down (opens (run_main p)) [] (run_main p).
Proof.
  intros [?|(work & closing & Hrun & Hw & Ho & Hc)]%disciplined_main; [by left|right].
  exists work, closing. rewrite Hrun. unfold opens in *. rewrite omap_app, Ho, app_nil_r. split_and!; done.
Qed.

(** A start that fails is a trace that ends in [Fatal]. *)
Ltac start_fails := cbn; eapply dies_of; [reflexivity|reflexivity].

(** A trace that opens, does the middle, and closes, cut after [n] actions. *)
Lemma shuts_down_cut (n : nat) rs middle tr :
  tr = take n tr ++ middle ++ drop (n + length middle) tr ->
  opens (take n tr) = rs -> closes (take n tr) = [] ->
  opens (drop (n + length middle) tr) = [] -> closes (drop (n + length middle) tr) = reverse rs ->
  shuts_down rs middle tr.
Proof. intros. by exists (take n tr), (drop (n + length middle) tr). Qed.


(** ** The gateway's backends ([newBackendDiscovery]) *)

Inductive InCluster := InClusterOk | ErrNotInCluster | InClusterFailed (e : error).

Inductive BackendDiscovery := StaticBackends (backends : list string) | K8sBackends (namespace : string).

(** [informer] is what starting the informer answers, [synced] what
    [WaitForSync] does. *)
Definition newBackendDiscovery (cluster : InCluster) (backends : list string) (clientset : option error)
    (namespace_file : string + error) (informer : option error) (synced : bool) : BackendDiscovery + error :=
  match cluster with
  | ErrNotInCluster => inl (StaticBackends backends)
  | InClusterFailed e => inr ("in-cluster config: " +:+ e)
  | InClusterOk =>
      match clientset with
      | Some e => inr ("build k8s clientset: " +:+ e)
      | None =>
          match namespace_file with
          | inr e => inr ("read in-cluster namespace: " +:+ e)
          | inl contents =>
              match informer with
              | Some e => inr ("start k8s backend discovery: " +:+ e)
              | None => if synced then inl (K8sBackends (trim_space contents))
                        else inr "k8s backend discovery: informer sync did not complete"
              end
          end
      end
  end.

(** A gateway that starts at all uses the configured list exactly outside a
    cluster, and never an informer that has not synced. *)
Lemma newBackendDiscovery_spec cluster backends clientset namespace_file informer synced d :
  newBackendDiscovery cluster backends clientset namespace_file informer synced = inl d ->
  (cluster = ErrNotInCluster /\ d = StaticBackends backends) \/
  (cluster = InClusterOk /\ synced = true /\ exists contents, namespace_file = inl contents /\ d = K8sBackends (trim_space contents)).
Proof.
  unfold newBackendDiscovery. destruct cluster, clientset, namespace_file, informer, synced; intros; simplify_eq; eauto 10.
Qed.

(** ** Disconnecting everybody ([RaceHubRegistry.Shutdown]) *)

(** The hubs of the map at one instant are told, one after the other; a hub that
    has closed is passed over. *)
Definition hubs_Shutdown (g : RaceHub.Gateway) : RaceHub.Gateway :=
  foldl (fun g entry => default g (g_exec (GShutdown (e_hub entry)) g)) g (values (hubs g)).

Lemma cancel_all_conn conns g i k :
  connections g !! i = Some k -> exists k', connections (cancel_all conns g) !! i = Some k' /\
    (k_cancelled k = true \/ i ∈ conns -> k_cancelled k' = true).
Proof.
  intros Hk. unfold cancel_all. cbn. rewrite map_lookup_imap, Hk. cbn. eexists. split; [done|].
  case_bool_decide; [done|]. by intros [|].
Qed.

Lemma shutdown_fold es g i k :
  connections g !! i = Some k -> exists k',
    let g' := foldl (fun g entry => default g (g_exec (GShutdown (e_hub entry)) g)) g es in
    connections g' !! i = Some k' /\ hub_heap g' = hub_heap g /\
    (k_cancelled k = true \/ (exists entry h, entry ∈ es /\ hub_heap g !! e_hub entry = Some h /\
       h_closed h = false /\ i ∈ h_conns h) -> k_cancelled k' = true).
Proof.
  revert g k. induction es as [|x es IH]; intros g k Hk; cbn [foldl].
  { exists k. split_and!; [done|done|]. intros [|(entry & h & Hin & _)]; [done|]. by apply not_elem_of_nil in Hin. }
  cbn [g_exec]. destruct (hub_heap g !! e_hub x) as [h|] eqn:Hh; cbn [mbind option_bind hub_step default from_option]; try unfold disconnectAll.
  - destruct (h_closed h) eqn:Hc; cbn.
    + destruct (IH g k Hk) as (k' & H1 & H2 & H3). exists k'. split_and!; [done|done|].
      intros [Hca|(entry & h' & [->|Hin]%elem_of_cons & Hh' & Hc' & Hi)]; apply H3; [by left|simplify_eq; congruence|].
      right. by exists entry, h'.
    + destruct (cancel_all_conn (h_conns h) g i k Hk) as (k1 & Hk1 & Hcan).
      destruct (IH _ _ Hk1) as (k' & H1 & H2 & H3). exists k'. split_and!; [exact H1|exact H2|].
      intros [Hca|(entry & h' & [->|Hin]%elem_of_cons & Hh' & Hc' & Hi)]; apply H3; [left; auto|left; apply Hcan; right; by simplify_eq|].
      right. by exists entry, h'.
  - destruct (IH g k Hk) as (k' & H1 & H2 & H3). exists k'. split_and!; [done|done|].
    intros [Hca|(entry & h' & [->|Hin]%elem_of_cons & Hh' & Hc' & Hi)]; apply H3; [by left|congruence|].
    right. by exists entry, h'.
Qed.

(** Every connection registered with a live hub of the map is cancelled, and no
    hub changes. *)
Lemma hubs_Shutdown_cancels g r entry h i k :
  hubs g !! r = Some entry -> hub_heap g !! e_hub entry = Some h -> h_closed h = false -> i ∈ h_conns h ->
  connections g !! i = Some k ->
  hub_heap (hubs_Shutdown g) = hub_heap g /\
  exists k', connections (hubs_Shutdown g) !! i = Some k' /\ k_cancelled k' = true.
Proof.
  intros He Hh Hc Hi Hk. destruct (shutdown_fold (values (hubs g)) g i k Hk) as (k' & H1 & H2 & H3).
  split; [exact H2|]. exists k'. split; [exact H1|]. apply H3. right. exists entry, h. split_and!; [|done..].
  apply list_elem_of_fmap. exists (r, entry). split; [done|]. by apply elem_of_map_to_list.
Qed.

(** ** Concrete runs *)

Definition smooth : ServerEnv := mkServerEnv None None None None None None true 1000000000.

(** One room that goes after two seconds. *)
Definition closing_room (t : Z) : Registry unit :=
  if t <? 3000000000 then Spawn "R" (NewRegistry tt) else NewRegistry tt.


(** A room leaves the registry's map before its last frames are published: the
    count of rooms that the shutdown waits for can be zero while a room's
    [race_finished] is still in its broadcast channel and [room_closed] and the
    release of its claim are still to come - and the connections they need are
    closed next. *)
Theorem drained_rooms_still_publishing :
  exists g h, reg_run (L := unit)
      [DoSpawn "R"; SpawnClaim 0 (tt : loc_env (L := unit)); SpawnStart 0 true; Broadcasts 0 (JStr "race_finished"); Cancels 0; CleanupMap 0]
      (NewRegistry tt) = Some g /\
    waitForRoomsToDrain (fun _ => g) true 0 shutdownTimeout = Some (0, true) /\
    handles g !! 0%nat = Some h /\ ac_broadcast h = [JStr "race_finished"] /\ bus g = [] /\ ac_released h = false.
Proof. eexists _, _. split; [vm_compute; reflexivity|]. vm_compute. split_and!; reflexivity. Qed.

(** A connection that is between [attach] and [registerConn] when the gateway
    disconnects everybody is not told: it goes on to serve. *)
Theorem shutdown_misses_attaching :
  exists g g' k, g_exec (GAttach "R" None) NewRaceHubRegistry = Some g /\
    g_exec (GRegister 1) (hubs_Shutdown g) = Some g' /\ connections g' !! 1%nat = Some k /\
    k_phase k = Serving /\ k_cancelled k = false /\ k_writer k = Waiting.
Proof. eexists _, _, _. split; [vm_compute; reflexivity|]. split; [vm_compute; reflexivity|]. vm_compute. split_and!; reflexivity. Qed.
