(* ===== verification/FakeBus.v ===== *)
(** * The in-memory bus ([internal/roomrelay/fake.go])

    A map from races to the channels of their subscribers, behind a mutex; the
    critical sections are the steps.  Channels are a heap: publishing walks the
    list of a race, [unsubscribe] takes its channel off the list and closes it,
    and a send on a closed channel panics.  The code is generic in the
    envelope, and so is the model. *)
From Stdlib Require Import ZArith.
From stdpp Require Import base list gmap sets strings.
From S2P Require Import Prelude.
Local Open Scope string_scope.
Local Open Scope list_scope.

Definition fakeSubscriptionBuffer : nat := 16.

Section fake_bus.
Context {T : Type}.

(** A subscription's channel.  History: [ch_received] is what the subscriber has
    taken, [ch_from] how much had been published for the race when it
    subscribed, [ch_dropped] whether a message found the channel full. *)
Record Channel := mkChannel {
  ch_race : string;
  ch_buf : list T;
  ch_closed : bool;
  ch_received : list T;
  ch_from : nat;
  ch_until : option nat;
  ch_dropped : bool
}.

#[export] Instance eta_Channel : Eta Channel := fun c =>
  mkChannel (ch_race c) (ch_buf c) (ch_closed c) (ch_received c) (ch_from c) (ch_until c) (ch_dropped c).

(** [FakeBus], one of its two maps; [published] is history. *)
Record FakeBus := mkFakeBus {
  subs : gmap string (list nat);
  chans : gmap nat Channel;
  next_chan : nat;
  published : gmap string (list T)
}.

#[export] Instance eta_FakeBus : Eta FakeBus := fun b => mkFakeBus (subs b) (chans b) (next_chan b) (published b).

Definition NewFakeBus : FakeBus := mkFakeBus ∅ ∅ 0 ∅.

Definition subs_of (r : string) (b : FakeBus) : list nat := default [] (subs b !! r).
Definition published_on (r : string) (b : FakeBus) : list T := default [] (published b !! r).

(** [select { case ch <- env: default: }] *)
Definition fake_send (env : T) (c : Channel) : Channel :=
  if bool_decide (length (ch_buf c) < fakeSubscriptionBuffer)%nat
  then c <| ch_buf := ch_buf c ++ [env] |> else c <| ch_dropped := true |>.

(** The loop over [subs[raceID]]; [None] is the panic of a send on a closed
    channel. *)
Fixpoint send_all (ids : list nat) (env : T) (cs : gmap nat Channel) : option (gmap nat Channel) :=
  match ids with
  | [] => Some cs
  | i :: ids' =>
      c ← cs !! i;
      if ch_closed c then None else send_all ids' env (<[i := fake_send env c]> cs)
  end.

(** [fakePublish]; [ctx_err] is what [ctx.Err()] answers. *)
Definition fakePublish (ctx_err : option string) (raceID : string) (env : T) (b : FakeBus) : option (FakeBus * option string) :=
  match ctx_err with
  | Some e => Some (b, Some e)
  | None =>
      cs ← send_all (subs_of raceID b) env (chans b);
      Some (b <| chans := cs |> <| published := <[raceID := published_on raceID b ++ [env]]> (published b) |>, None)
  end.

(** [fakeSubscribe] *)
Definition fakeSubscribe (raceID : string) (b : FakeBus) : FakeBus :=
  b <| subs := <[raceID := subs_of raceID b ++ [next_chan b]]> (subs b) |>
    <| chans := <[next_chan b := mkChannel raceID [] false [] (length (published_on raceID b)) None false]> (chans b) |>
    <| next_chan := S (next_chan b) |>.

(** [removeChan]: the first occurrence. *)
Fixpoint removeChan (chans : list nat) (target : nat) : list nat :=
  match chans with
  | [] => []
  | ch :: chans' => if bool_decide (ch = target) then chans' else ch :: removeChan chans' target
  end.

(** [unsubscribe], from a call or from the context: [once] makes it run once. *)
Definition unsubscribe (i : nat) (b : FakeBus) : option FakeBus :=
  c ← chans b !! i;
  if ch_closed c then Some b else
  Some (b <| subs := <[ch_race c := removeChan (subs_of (ch_race c) b) i]> (subs b) |>
          <| chans := <[i := c <| ch_closed := true |> <| ch_until := Some (length (published_on (ch_race c) b)) |>]> (chans b) |>).

(** The subscriber takes a message. *)
Definition receive (i : nat) (b : FakeBus) : option FakeBus :=
  c ← chans b !! i;
  match ch_buf c with
  | [] => None
  | m :: rest => Some (b <| chans := <[i := c <| ch_buf := rest |> <| ch_received := ch_received c ++ [m] |>]> (chans b) |>)
  end.

(** Reachable states: any interleaving of the operations. *)
Inductive bus_reachable : FakeBus -> Prop :=
  | bus_init : bus_reachable NewFakeBus
  | bus_publish b e r env b' res : bus_reachable b -> fakePublish e r env b = Some (b', res) -> bus_reachable b'
  | bus_subscribe b r : bus_reachable b -> bus_reachable (fakeSubscribe r b)
  | bus_unsubscribe b i b' : bus_reachable b -> unsubscribe i b = Some b' -> bus_reachable b'
  | bus_receive b i b' : bus_reachable b -> receive i b = Some b' -> bus_reachable b'.

(** ** The invariant *)

(** What was published for a channel's race while it was subscribed. *)
Definition offered (c : Channel) (b : FakeBus) : list T :=
  drop (ch_from c) (take (default (length (published_on (ch_race c) b)) (ch_until c)) (published_on (ch_race c) b)).

Record chan_ok (i : nat) (c : Channel) (b : FakeBus) : Prop := {
  co_buf : (length (ch_buf c) <= fakeSubscriptionBuffer)%nat;
  co_from : (ch_from c <= length (published_on (ch_race c) b))%nat;
  co_until u : ch_until c = Some u -> (u <= length (published_on (ch_race c) b))%nat;
  co_open : ch_closed c = false <-> ch_until c = None;
  co_listed : ch_closed c = false <-> i ∈ subs_of (ch_race c) b;
  co_sub : sublist (ch_received c ++ ch_buf c) (offered c b);
  co_all : ch_dropped c = false -> ch_received c ++ ch_buf c = offered c b
}.

Record bus_inv (b : FakeBus) : Prop := {
  bi_fresh i : (next_chan b <= i)%nat -> chans b !! i = None;
  bi_nodup r : NoDup (subs_of r b);
  bi_subs r i : i ∈ subs_of r b -> exists c, chans b !! i = Some c /\ ch_race c = r;
  bi_chan i c : chans b !! i = Some c -> chan_ok i c b
}.

Lemma send_all_lookup ids env cs :
  NoDup ids -> (forall i, i ∈ ids -> exists c, cs !! i = Some c /\ ch_closed c = false) ->
  exists cs', send_all ids env cs = Some cs' /\
    forall i, cs' !! i = if decide (i ∈ ids) then fake_send env <$> cs !! i else cs !! i.
Proof.
  intros Hnd. revert cs. induction Hnd as [|i ids Hi _ IH]; intros cs Hall.
  { exists cs. split; [done|]. intros j. rewrite decide_False; [done|]. apply not_elem_of_nil. }
  cbn [send_all]. destruct (Hall i) as (c & Hc & Hcl); [by left|]. rewrite Hc. cbn [mbind option_bind]. rewrite Hcl.
  destruct (IH (<[i := fake_send env c]> cs)) as (cs' & Hs & Hl).
  { intros j Hj. rewrite lookup_insert_ne by (by intros ->). apply Hall. by right. }
  exists cs'. split; [done|]. intros j. rewrite Hl. destruct (decide (j = i)) as [->|Hji].
  - rewrite decide_False by done. rewrite decide_True by (by left). by rewrite lookup_insert_eq, Hc.
  - rewrite lookup_insert_ne by done.
    destruct (decide (j ∈ ids)) as [Hj|Hj]; [by rewrite decide_True by (by right)|].
    rewrite decide_False; [done|]. by intros [?|?]%elem_of_cons.
Qed.

(** In a consistent state a publish goes through to every subscriber. *)
Lemma publish_ok r env b :
  bus_inv b -> exists cs, send_all (subs_of r b) env (chans b) = Some cs /\
    forall i, cs !! i = if decide (i ∈ subs_of r b) then fake_send env <$> chans b !! i else chans b !! i.
Proof.
  intros Hb. apply send_all_lookup; [by apply bi_nodup|]. intros i Hi.
  destruct (bi_subs _ Hb _ _ Hi) as (c & Hc & Hr). exists c. split; [done|].
  apply (co_listed _ _ _ (bi_chan _ Hb _ _ Hc)). by rewrite Hr.
Qed.

Lemma removeChan_elem l i j : NoDup l -> j ∈ removeChan l i <-> j ∈ l /\ j <> i.
Proof.
  induction 1 as [|x l Hx Hnd IH]; cbn [removeChan]; [set_solver|]. case_bool_decide as Heq.
  - subst. rewrite elem_of_cons. split; [intros Hj; split; [by right|]; by intros ->|by intros [[->|] ?]].
  - rewrite !elem_of_cons, IH. naive_solver.
Qed.

Lemma removeChan_nodup l i : NoDup l -> NoDup (removeChan l i).
Proof.
  intros Hnd. induction Hnd as [|x l Hx Hnd IH]; cbn [removeChan]; [constructor|]. case_bool_decide; [done|].
  constructor; [|done]. rewrite removeChan_elem by done. tauto.
Qed.

(** A channel keeps its promises while its race's history and list stay. *)
Lemma chan_ok_frame i c b b' :
  published_on (ch_race c) b' = published_on (ch_race c) b ->
  (i ∈ subs_of (ch_race c) b' <-> i ∈ subs_of (ch_race c) b) -> chan_ok i c b -> chan_ok i c b'.
Proof.
  intros Hp Hs [H1 H2 H3 H4 H5 H6 H7]. split; unfold offered; rewrite ?Hp; try done. by rewrite Hs.
Qed.

Lemma offered_open c b env : ch_until c = None -> (ch_from c <= length (published_on (ch_race c) b))%nat ->
  forall b', published_on (ch_race c) b' = published_on (ch_race c) b ++ [env] -> offered c b' = offered c b ++ [env].
Proof.
  intros Hu Hf b' Hp. unfold offered. rewrite Hu, Hp. cbn. rewrite !take_ge by lia. by rewrite drop_app_le.
Qed.

Lemma publish_chan i c b b' env :
  published_on (ch_race c) b' = published_on (ch_race c) b ++ [env] -> subs_of (ch_race c) b' = subs_of (ch_race c) b ->
  chan_ok i c b ->
  (i ∈ subs_of (ch_race c) b -> chan_ok i (fake_send env c) b') /\ (i ∉ subs_of (ch_race c) b -> chan_ok i c b').
Proof.
  intros Hp Hs [H1 H2 H3 H4 H5 H6 H7]. split; intros Hi.
  - assert (ch_until c = None) as Hu by (by apply H4, H5). pose proof (offered_open c b env Hu H2 b' Hp) as Ho.
    unfold fake_send. case_bool_decide as Hl; split; unfold offered in Ho |- *; cbn; rewrite ?Hs; try done;
      try (rewrite Hp, length_app; lia); try congruence.
    + rewrite length_app. cbn. lia.
    + rewrite Ho, app_assoc. by apply sublist_app.
    + intros Hd. by rewrite Ho, app_assoc, H7.
    + rewrite Ho. rewrite <- (app_nil_r (_ ++ _)). apply sublist_app; [done|apply sublist_nil_l].
  - destruct (ch_until c) as [u|] eqn:Hu; [|by destruct Hi; apply H5, H4].
    assert (Ho : offered c b' = offered c b).
    { unfold offered. rewrite Hu, Hp. cbn. rewrite take_app_le; [done|]. by apply H3. }
    split; rewrite ?Hp, ?Hs, ?length_app, ?Ho; try done; [lia| |by rewrite Hu].
    intros u' Hu'. specialize (H3 u ltac:(done)). simplify_eq. cbn. lia.
Qed.

Lemma subs_of_insert r r' l b : default [] (<[r := l]> (subs b) !! r') = if decide (r = r') then l else subs_of r' b.
Proof. case_decide as Hr; [by rewrite Hr, lookup_insert_eq|by rewrite lookup_insert_ne]. Qed.

Lemma published_insert r r' l b :
  default [] (<[r := l]> (published b) !! r') = if decide (r = r') then l else published_on r' b.
Proof. case_decide as Hr; [by rewrite Hr, lookup_insert_eq|by rewrite lookup_insert_ne]. Qed.

Lemma publish_inv e r env b b' res : bus_inv b -> fakePublish e r env b = Some (b', res) -> bus_inv b'.
Proof.
  intros Hb Hx. unfold fakePublish in Hx. destruct e as [e|]; [by simplify_eq|].
  destruct (publish_ok r env b Hb) as (cs & Hcs & Hl). rewrite Hcs in Hx. cbn in Hx. simplify_eq.
  destruct Hb as [Hf Hn Hs Hc]. split; cbn.
  - intros i Hi. rewrite Hl, (Hf i Hi). by destruct (decide _).
  - exact Hn.
  - intros r' i Hi. destruct (Hs r' i Hi) as (c & Hci & Hr). rewrite Hl, Hci. destruct (decide _); [|by exists c].
    eexists. split; [done|]. unfold fake_send. by case_bool_decide.
  - intros i c Hi. rewrite Hl in Hi.
    assert (Hkeep : forall c0, chans b !! i = Some c0 -> ch_race c0 <> r -> chan_ok i c0
      (b <| chans := cs |> <| published := <[r := published_on r b ++ [env]]> (published b) |>)).
    { intros c0 Hc0 Hne. eapply chan_ok_frame; [| |by apply Hc]; [|done]. unfold published_on at 1. cbn.
      rewrite published_insert. by rewrite decide_False. }
    assert (Hpub : forall c0, chans b !! i = Some c0 -> ch_race c0 = r ->
      (i ∈ subs_of (ch_race c0) b -> chan_ok i (fake_send env c0)
        (b <| chans := cs |> <| published := <[r := published_on r b ++ [env]]> (published b) |>)) /\
      (i ∉ subs_of (ch_race c0) b -> chan_ok i c0
        (b <| chans := cs |> <| published := <[r := published_on r b ++ [env]]> (published b) |>))).
    { intros c0 Hc0 Heq. apply publish_chan with (b := b); [|done|by apply Hc]. unfold published_on at 1. cbn.
      rewrite published_insert. by rewrite decide_True, Heq. }
    destruct (decide (i ∈ subs_of r b)) as [Hin|Hin].
    + destruct (Hs _ _ Hin) as (c0 & Hc0 & Hr). rewrite Hc0 in Hi. cbn in Hi. simplify_eq.
      by apply (proj1 (Hpub c0 Hc0 eq_refl)).
    + destruct (decide (ch_race c = r)) as [Heq|Hne]; [|by apply Hkeep].
      apply (proj2 (Hpub c Hi Heq)). by rewrite Heq.
Qed.

Lemma subscribe_inv r b : bus_inv b -> bus_inv (fakeSubscribe r b).
Proof.
  intros [Hf Hn Hs Hc]. unfold fakeSubscribe.
  assert (Hnew : forall r', next_chan b ∉ subs_of r' b).
  { intros r' Hin. destruct (Hs _ _ Hin) as (c & Hci & _). by rewrite Hf in Hci. }
  split; cbn.
  - intros i Hi. rewrite lookup_insert_ne by lia. apply Hf. lia.
  - intros r'. unfold subs_of at 1. cbn. rewrite subs_of_insert. case_decide; [|apply Hn].
    apply NoDup_app. split_and!; [apply Hn| |apply NoDup_singleton]. intros i Hi ->%list_elem_of_singleton. by apply (Hnew r).
  - intros r' i. unfold subs_of at 1. cbn. rewrite subs_of_insert. case_decide as Hr; intros Hi.
    + apply elem_of_app in Hi as [Hi| ->%list_elem_of_singleton].
      * destruct (Hs _ _ Hi) as (c & Hci & Hr'). exists c. split; [|congruence]. rewrite lookup_insert_ne; [done|].
        intros <-. by apply (Hnew r).
      * eexists. rewrite lookup_insert_eq. split; [done|done].
    + destruct (Hs _ _ Hi) as (c & Hci & Hr'). exists c. split; [|done]. rewrite lookup_insert_ne; [done|].
      intros <-. by apply (Hnew r').
  - intros i c Hi. apply lookup_insert_Some in Hi as [[<- <-]|[Hne Hi]].
    + split; unfold offered; cbn; try done; [lia| | |].
      * unfold subs_of. cbn. rewrite lookup_insert_eq. cbn. split; [|done]. intros _. apply elem_of_app. right. by left.
      * apply sublist_nil_l.
      * intros _. change (published_on r (fakeSubscribe r b)) with (published_on r b). by rewrite take_ge, drop_all.
    + eapply chan_ok_frame; [| |by apply Hc]; [done|]. unfold subs_of at 1. cbn. rewrite subs_of_insert.
      case_decide as Hr; [|done]. rewrite Hr, elem_of_app. split; [|by left].
      intros [?|Hn'%list_elem_of_singleton]; [done|]. by subst.
Qed.

Lemma unsubscribe_inv i b b' : bus_inv b -> unsubscribe i b = Some b' -> bus_inv b'.
Proof.
  intros [Hf Hn Hs Hc] Hx. unfold unsubscribe in Hx. apply bind_Some in Hx as (c & Hci & Hx).
  destruct (ch_closed c) eqn:Hcl; [by simplify_eq|]. simplify_eq. split; cbn.
  - intros j Hj. rewrite lookup_insert_ne; [by apply Hf|]. intros <-. by rewrite Hf in Hci.
  - intros r'. unfold subs_of at 1. cbn. rewrite subs_of_insert. case_decide; [apply removeChan_nodup|]; apply Hn.
  - intros r' j. unfold subs_of at 1. cbn. rewrite subs_of_insert. intros Hj.
    assert (j <> i /\ j ∈ subs_of r' b) as [Hji Hj'].
    { case_decide as Hr; [rewrite removeChan_elem in Hj by apply Hn; subst; tauto|]. split; [|done]. intros ->.
      destruct (Hs _ _ Hj) as (c' & Hc' & Hr'). congruence. }
    destruct (Hs _ _ Hj') as (c' & Hc' & Hr'). exists c'. split; [|done]. by rewrite lookup_insert_ne.
  - intros j x Hj. apply lookup_insert_Some in Hj as [[<- <-]|[Hne Hj]].
    + destruct (Hc _ _ Hci) as [H1 H2 H3 H4 H5 H6 H7].
      assert (Ho : ch_until c = None) by (by apply H4).
      split; unfold offered in H6, H7 |- *; rewrite Ho in H6, H7; cbn in *; try done.
      * intros u Hu. by simplify_eq.
      * split; [done|]. intros Hin. exfalso. unfold subs_of in Hin. cbn in Hin. rewrite lookup_insert_eq in Hin. cbn in Hin.
        apply removeChan_elem in Hin as [_ Hin]; [done|apply Hn].
    + eapply chan_ok_frame; [| |by apply Hc]; [done|]. unfold subs_of at 1. cbn. rewrite subs_of_insert.
      case_decide as Hr; [|done]. rewrite removeChan_elem by apply Hn. rewrite Hr. split; [tauto|]. by intros; split; [|congruence].
Qed.

Lemma receive_inv i b b' : bus_inv b -> receive i b = Some b' -> bus_inv b'.
Proof.
  intros [Hf Hn Hs Hc] Hx. unfold receive in Hx. apply bind_Some in Hx as (c & Hci & Hx).
  destruct (ch_buf c) as [|m rest] eqn:Hbuf; [done|]. simplify_eq. split; cbn.
  - intros j Hj. rewrite lookup_insert_ne; [by apply Hf|]. intros <-. by rewrite Hf in Hci.
  - exact Hn.
  - intros r' j Hj. destruct (Hs _ _ Hj) as (c' & Hc' & Hr'). destruct (decide (i = j)) as [<-|Hij].
    + simplify_eq. eexists. by rewrite lookup_insert_eq.
    + exists c'. by rewrite lookup_insert_ne.
  - intros j x Hj. apply lookup_insert_Some in Hj as [[<- <-]|[Hne Hj]].
    + destruct (Hc _ _ Hci) as [H1 H2 H3 H4 H5 H6 H7]. rewrite Hbuf in H1, H6, H7. unfold offered in H6, H7.
      split; unfold offered; cbn in *; rewrite <- ?app_assoc; try done. lia.
    + eapply chan_ok_frame; [| |by apply Hc]; done.
Qed.

Lemma bus_reachable_inv b : bus_reachable b -> bus_inv b.
Proof.
  induction 1 as [|b e r env b' res _ IH Hx|b r _ IH|b i b' _ IH Hx|b i b' _ IH Hx].
  - split; [done|intros; constructor|by intros r i ?%not_elem_of_nil|done].
  - by eapply publish_inv.
  - by apply subscribe_inv.
  - by eapply unsubscribe_inv.
  - by eapply receive_inv.
Qed.

(** The in-memory bus keeps the contract of the real one: in any interleaving
    of publishes, subscriptions, cancellations and receives, no publish ever
    sends on a closed channel; what a subscriber has taken or still holds is a
    subsequence, in order and at most [fakeSubscriptionBuffer] waiting, of what
    was published for its own race while it was subscribed, and all of it unless
    a message found the channel full; and a cancelled context publishes
    nothing. *)
Theorem fake_bus_contract b :
  bus_reachable b ->
  (forall r env, exists b', fakePublish None r env b = Some (b', None)) /\
  (forall e r env, fakePublish (Some e) r env b = Some (b, Some e)) /\
  (forall i c, chans b !! i = Some c ->
     sublist (ch_received c ++ ch_buf c) (offered c b) /\
     (length (ch_buf c) <= fakeSubscriptionBuffer)%nat /\
     (ch_dropped c = false -> ch_received c ++ ch_buf c = offered c b) /\
     (ch_closed c = true <-> i ∉ subs_of (ch_race c) b)).
Proof.
  intros Hb%bus_reachable_inv. split_and!.
  - intros r env. unfold fakePublish. destruct (publish_ok r env b Hb) as (cs & -> & _). by eexists.
  - done.
  - intros i c Hc. destruct (bi_chan _ Hb _ _ Hc) as [H1 H2 H3 H4 H5 H6 H7]. split_and!; [done..|].
    rewrite <- H5. by destruct (ch_closed c).
Qed.
End fake_bus.
Arguments FakeBus T : clear implicits.

(** ** A run: two subscribers, one of which leaves *)
Definition demo_bus : FakeBus string :=
  default NewFakeBus (
    b1 ← fakePublish None "R" "early" NewFakeBus;
    let b2 := fakeSubscribe "R" (fakeSubscribe "R" b1.1) in
    b3 ← fakePublish None "R" "a" b2;
    b4 ← receive 0 b3.1;
    b5 ← unsubscribe 1 b4;
    b6 ← fakePublish None "R" "b" b5;
    Some b6.1).

Lemma demo_bus_reachable : bus_reachable demo_bus.
Proof.
  unfold demo_bus. destruct (fakePublish None "R" "early" NewFakeBus) as [b1|] eqn:H1; [|constructor]. cbn [mbind option_bind].
  destruct (fakePublish None "R" "a" _) as [b3|] eqn:H3; [|constructor]. cbn [mbind option_bind].
  destruct (receive 0 b3.1) as [b4|] eqn:H4; [|constructor]. cbn [mbind option_bind].
  destruct (unsubscribe 1 b4) as [b5|] eqn:H5; [|constructor]. cbn [mbind option_bind].
  destruct (fakePublish None "R" "b" b5) as [b6|] eqn:H6; [|constructor]. cbn [mbind option_bind default].
  destruct b1 as [b1 r1], b3 as [b3 r3], b6 as [b6 r6]. cbn [fst] in *.
  eapply bus_publish; [|exact H6]. eapply bus_unsubscribe; [|exact H5]. eapply bus_receive; [|exact H4].
  eapply bus_publish; [|exact H3]. apply bus_subscribe, bus_subscribe. eapply bus_publish; [|exact H1]. constructor.
Qed.

Lemma fake_bus_contract_witness :
  exists c0 c1, chans demo_bus !! 0%nat = Some c0 /\ chans demo_bus !! 1%nat = Some c1 /\
    ch_received c0 ++ ch_buf c0 = ["a"; "b"] /\ ch_received c0 ++ ch_buf c0 = offered c0 demo_bus /\ ch_buf c1 = ["a"] /\
    1%nat ∉ subs_of "R" demo_bus.
Proof.
  destruct (fake_bus_contract demo_bus demo_bus_reachable) as (_ & _ & H).
  destruct (chans demo_bus !! 0%nat) as [c0|] eqn:H0; [|vm_compute in H0; discriminate H0].
  destruct (chans demo_bus !! 1%nat) as [c1|] eqn:H1; [|vm_compute in H1; discriminate H1].
  destruct (H 0%nat c0 H0) as (_ & _ & Hall & _). destruct (H 1%nat c1 H1) as (_ & _ & _ & Hcl).
  vm_compute in H0, H1. injection H0 as <-. injection H1 as <-.
  exists (mkChannel "R" ["b"] false ["a"] 1 None false), (mkChannel "R" ["a"] true [] 1 (Some 2%nat) false).
  split; [reflexivity|]. split; [reflexivity|]. split; [reflexivity|]. split; [by apply Hall|]. split; [reflexivity|].
  by apply Hcl.
Defined.
