(* ===== verification/Middleware.v ===== *)
(** * The chain around the handlers ([internal/middleware])

    [RequestID], [RequestLog], [Cors] and [Auth] as the server composes them
    ([cmd/server/run.go]).  A handler works on a response writer it shares with
    the handlers around it and on a context; what [RequestLog] puts in the
    context is a pointer, so a user id set deep inside is seen outside.
    [Hijack] only forwards, and no route of this server upgrades. *)
From Stdlib Require Import ZArith Strings.Ascii.
From stdpp Require Import base list gmap sets strings.
From S2P Require Import Prelude GoNum GoStrings Json Http Periphery.
Local Open Scope string_scope.
Local Open Scope Z_scope.
Local Open Scope list_scope.

(** A request, as the chain sees it. *)
Record Request := mkRequest { rq_Method : string; rq_Path : string; rq_Authorization : string }.

(** The values the chain puts in a context; [ctx_attrs]: [RequestLog] has put its
    pointer there. *)
Record Ctx := mkCtx { ctx_request_id : option string; ctx_user : option string; ctx_attrs : bool }.

#[export] Instance eta_Ctx : Eta Ctx := fun c => mkCtx (ctx_request_id c) (ctx_user c) (ctx_attrs c).

(** The line [RequestLog] writes; optional fields may be absent. *)
Record LogLine := mkLogLine {
  l_method : string; l_path : string; l_status : Z; l_request_id : option string; l_user_id : option string
}.

(** One exchange: the response so far, and the objects shared along the chain:
    the [requestLogAttrs] and the status in the [statusWriter]. *)
Record Exchange := mkExchange {
  x_headers : list (string * string);
  x_sent : option Z;            (** the status line that went out *)
  x_body : list json;           (** the documents written *)
  x_status : Z;                 (** [statusWriter.status] *)
  x_userID : string;            (** [requestLogAttrs.userID] *)
  x_log : list LogLine
}.

#[export] Instance eta_Exchange : Eta Exchange := fun x =>
  mkExchange (x_headers x) (x_sent x) (x_body x) (x_status x) (x_userID x) (x_log x).

(** A [http.ResponseWriter]: the server's, or wrapped in a [statusWriter]. *)
Inductive Writer := Plain | StatusWriter.

Definition Handler : Type := Writer -> Request -> Ctx -> Exchange -> Exchange.

(** [w.Header().Set] *)
Definition set_header (k v : string) (x : Exchange) : Exchange :=
  x <| x_headers := (k, v) :: List.filter (fun h => negb (String.eqb h.1 k)) (x_headers x) |>.

(** [WriteHeader]: the wrapper notes every call, the server heeds the first. *)
Definition WriteHeader (w : Writer) (status : Z) (x : Exchange) : Exchange :=
  let x := match w with StatusWriter => x <| x_status := status |> | Plain => x end in
  match x_sent x with None => x <| x_sent := Some status |> | Some _ => x end.

(** [Write]: implies a 200 that the wrapper does not see. *)
Definition Write (chunk : json) (x : Exchange) : Exchange :=
  let x := match x_sent x with None => x <| x_sent := Some 200 |> | Some _ => x end in
  x <| x_body := x_body x ++ [chunk] |>.

(** ** The middlewares *)

(** [RequestID]; [bytes] is what [crypto/rand] yields. *)
Definition RequestID (bytes : list ascii) (next : Handler) : Handler := fun w r ctx x =>
  let id := generateRequestID bytes in
  next w r (ctx <| ctx_request_id := Some id |>) (set_header "X-Request-ID" id x).

(** [RequestLog]: fresh attributes, a fresh [statusWriter], one line at the end. *)
Definition RequestLog (next : Handler) : Handler := fun w r ctx x =>
  let x := next StatusWriter r (ctx <| ctx_attrs := true |>) (x <| x_status := 200 |> <| x_userID := "" |>) in
  x <| x_log := x_log x ++
    [mkLogLine (rq_Method r) (rq_Path r) (x_status x) (ctx_request_id ctx)
       (if String.eqb (x_userID x) "" then None else Some (x_userID x))] |>.

(** [setUserIDForLog] *)
Definition setUserIDForLog (ctx : Ctx) (userID : string) (x : Exchange) : Exchange :=
  if ctx_attrs ctx then x <| x_userID := userID |> else x.

Definition CorsHandler (allowedOrigin : string) (next : Handler) : Handler := fun w r ctx x =>
  let '(headers, run_next) := Cors allowedOrigin (rq_Method r) in
  let x := foldl (fun x h => set_header h.1 h.2 x) x headers in
  if run_next then next w r ctx x else WriteHeader w 204 x.

Section auth.
Context `{Jwt} (jwtSecret : string) (now : Z).

(** [httpx.WriteError] of the middleware *)
Definition write_unauthorized (w : Writer) (x : Exchange) : Exchange :=
  Write (JObj [("error", JStr "unauthorized")]) (WriteHeader w 401 (set_header "Content-Type" "application/json" x)).

Definition AuthHandler (next : Handler) : Handler := fun w r ctx x =>
  match authenticated jwtSecret now (rq_Authorization r) with
  | Some userID => next w r (ctx <| ctx_user := Some userID |>) (setUserIDForLog ctx userID x)
  | None => write_unauthorized w x
  end.
End auth.

(** The order of [cmd/server/run.go], outermost first. *)
Definition chain (bytes : list ascii) (allowedOrigin : string) (mux : Handler) : Handler :=
  RequestID bytes (RequestLog (CorsHandler allowedOrigin mux)).

(** What the client gets when nothing was written. *)
Definition response_status (x : Exchange) : Z := default 200 (x_sent x).

(** ** Handlers that answer once *)

(** The wrapper has seen the status that goes out. *)
Definition in_step (x : Exchange) : Prop := x_status x = response_status x.

(** A handler that does not call [WriteHeader] after the response has begun, and
    leaves the log alone; it may set the user only through the context. *)
Record answers_once (h : Handler) : Prop := {
  ao_status r ctx x : in_step x -> x_sent x = None -> in_step (h StatusWriter r ctx x);
  ao_log w r ctx x : x_log (h w r ctx x) = x_log x;
  ao_id w r ctx x : List.find (fun e => String.eqb e.1 "X-Request-ID") (x_headers (h w r ctx x)) =
                    List.find (fun e => String.eqb e.1 "X-Request-ID") (x_headers x)
}.

Lemma find_set_header k v k' x : k <> k' ->
  List.find (fun e => String.eqb e.1 k') (x_headers (set_header k v x)) =
  List.find (fun e => String.eqb e.1 k') (x_headers x).
Proof.
  intros Hk. cbn. rewrite (proj2 (String.eqb_neq k k')) by done.
  induction (x_headers x) as [|h l IH]; [done|]. cbn. destruct (String.eqb_spec h.1 k) as [Hh|Hh]; cbn.
  - rewrite Hh, (proj2 (String.eqb_neq k k')) by done. exact IH.
  - by rewrite IH.
Qed.

Lemma headers_WriteHeader w s x : x_headers (WriteHeader w s x) = x_headers x.
Proof. unfold WriteHeader. by destruct w; cbn; destruct (x_sent x). Qed.

Lemma log_WriteHeader w s x : x_log (WriteHeader w s x) = x_log x.
Proof. unfold WriteHeader. by destruct w; cbn; destruct (x_sent x). Qed.

Lemma in_step_WriteHeader s x : x_sent x = None -> in_step (WriteHeader StatusWriter s x).
Proof. intros Hs. unfold in_step, response_status, WriteHeader. cbn. by rewrite Hs. Qed.

Lemma in_step_Write chunk x : in_step x -> in_step (Write chunk x).
Proof. unfold in_step, response_status, Write. destruct (x_sent x) eqn:Hs; cbn; by rewrite ?Hs. Qed.

Lemma headers_Write chunk x : x_headers (Write chunk x) = x_headers x.
Proof. unfold Write. by destruct (x_sent x). Qed.

Lemma log_Write chunk x : x_log (Write chunk x) = x_log x.
Proof. unfold Write. by destruct (x_sent x). Qed.

(** [httpx.WriteJSON] answers once. *)
Definition json_handler (status : Z) (body : json) : Handler := fun w _ _ x =>
  Write body (WriteHeader w status (set_header "Content-Type" "application/json" x)).

Lemma answers_json status body : answers_once (json_handler status body).
Proof.
  split; unfold json_handler.
  - intros r ctx x _ Hs. apply in_step_Write, in_step_WriteHeader. exact Hs.
  - intros w r ctx x. by rewrite log_Write, log_WriteHeader.
  - intros w r ctx x. rewrite headers_Write, headers_WriteHeader. by apply find_set_header.
Qed.

Lemma answers_auth `{Jwt} secret now next : answers_once next -> answers_once (AuthHandler secret now next).
Proof.
  intros [H1 H2 H3]. split; unfold AuthHandler.
  - intros r ctx x Hin Hs. destruct (authenticated _ _ _) as [u|].
    + apply H1; unfold setUserIDForLog; by destruct (ctx_attrs ctx).
    + apply in_step_Write, in_step_WriteHeader. exact Hs.
  - intros w r ctx x. destruct (authenticated _ _ _) as [u|].
    + rewrite H2. unfold setUserIDForLog. by destruct (ctx_attrs ctx).
    + unfold write_unauthorized. by rewrite log_Write, log_WriteHeader.
  - intros w r ctx x. destruct (authenticated _ _ _) as [u|].
    + rewrite H3. unfold setUserIDForLog. by destruct (ctx_attrs ctx).
    + unfold write_unauthorized. rewrite headers_Write, headers_WriteHeader. by apply find_set_header.
Qed.

Lemma answers_cors origin next : answers_once next -> answers_once (CorsHandler origin next).
Proof.
  intros [H1 H2 H3]. split; unfold CorsHandler, Cors.
  - intros r ctx x Hin Hs. destruct (negb _); [by apply H1|]. apply in_step_WriteHeader. exact Hs.
  - intros w r ctx x. destruct (negb _); [by rewrite H2|by rewrite log_WriteHeader].
  - intros w r ctx x. cbn [foldl]. destruct (negb _); [rewrite H3|rewrite headers_WriteHeader];
      by rewrite !find_set_header by done.
Qed.

(** ** What the log says *)

(** The chain is transparent and its log is true: whatever the routes do, as
    long as they answer once, each request leaves exactly one line, with the
    method and path of the request, the status the client was sent, and the id
    the client finds in its [X-Request-ID] header; a preflight request is
    answered 204 without reaching the routes, and then the line names no user. *)
Theorem log_tells_the_truth bytes origin mux w r ctx :
  answers_once mux ->
  let x := chain bytes origin mux w r ctx (mkExchange [] None [] 0 "" []) in
  exists line, x_log x = [line] /\ l_method line = rq_Method r /\ l_path line = rq_Path r /\
    l_status line = response_status x /\
    List.find (fun e => String.eqb e.1 "X-Request-ID") (x_headers x) = Some ("X-Request-ID", generateRequestID bytes) /\
    l_request_id line = Some (generateRequestID bytes) /\
    (rq_Method r = "OPTIONS" -> x_sent x = Some 204 /\ x_body x = [] /\ l_user_id line = None).
Proof.
  intros Hmux. cbv zeta. pose proof (answers_cors origin mux Hmux) as [H1 H2 H3].
  unfold chain, RequestID, RequestLog. remember (CorsHandler origin mux) as h eqn:Hh.
  eexists. split; [cbn; rewrite H2; reflexivity|]. cbn [l_method l_path l_status l_request_id l_user_id x_headers x_sent x_body].
  split_and!; [done|done| | |done|].
  - by apply H1.
  - cbn. rewrite H3. done.
  - intros Ho. subst h. unfold CorsHandler, Cors. rewrite Ho. done.
Qed.

(** The user on the line is the one [Auth] let through, though [Auth] runs inside
    [RequestLog]. *)
Lemma log_names_user `{Jwt} secret now bytes origin next r ctx u :
  (forall w r c x, x_userID (next w r c x) = x_userID x /\ x_log (next w r c x) = x_log x) ->
  authenticated secret now (rq_Authorization r) = Some u -> u <> "" -> rq_Method r <> "OPTIONS" ->
  l_user_id <$> x_log (chain bytes origin (AuthHandler secret now next) Plain r ctx (mkExchange [] None [] 0 "" [])) = [Some u].
Proof.
  intros Hnext Hauth Hu Hm. unfold chain, RequestID, RequestLog, CorsHandler, Cors, AuthHandler.
  rewrite (proj2 (String.eqb_neq _ _)) by exact Hm. cbn [negb]. rewrite Hauth. cbn.
  destruct (Hnext StatusWriter r (((ctx <| ctx_request_id := Some (generateRequestID bytes) |>) <| ctx_attrs := true |>)
    <| ctx_user := Some u |>) (setUserIDForLog ((ctx <| ctx_request_id := Some (generateRequestID bytes) |>) <| ctx_attrs := true |>) u
      (foldl (fun x h => set_header h.1 h.2 x) ((((set_header "X-Request-ID" (generateRequestID bytes)
        (mkExchange [] None [] 0 "" []))) <| x_status := 200 |>) <| x_userID := "" |>) (fst (Cors origin (rq_Method r)))))) as [H1 H2].
  cbn in H1, H2. rewrite H1, H2. cbn. by rewrite (proj2 (String.eqb_neq _ _)).
Qed.

Lemma log_tells_the_truth_witness :
  exists line, x_log (chain ["a"%char] "http://x" (json_handler 201 (JObj [])) Plain (mkRequest "POST" "/races" "") (mkCtx None None false)
      (mkExchange [] None [] 0 "" [])) = [line] /\ l_status line = 201 /\ l_request_id line = Some "61".
Proof.
  destruct (log_tells_the_truth ["a"%char] "http://x" (json_handler 201 (JObj [])) Plain (mkRequest "POST" "/races" "") (mkCtx None None false)
    (answers_json 201 (JObj []))) as (line & Hl & _ & _ & Hs & _ & Hid & _).
  exists line. split; [exact Hl|]. split; [rewrite Hs; reflexivity|exact Hid].
Defined.

(** A second [WriteHeader] would only be seen by the log. *)
Theorem second_status_only_logged :
  let h : Handler := fun w _ _ x => WriteHeader w 500 (WriteHeader w 200 x) in
  let x := chain [] "http://x" h Plain (mkRequest "GET" "/healthz" "") (mkCtx None None false) (mkExchange [] None [] 0 "" []) in
  response_status x = 200 /\ (l_status <$> x_log x) = [500].
Proof. vm_compute. split; reflexivity. Qed.
