(* ===== verification/RoomHost.v ===== *)
(** * Rooms and their registry

    The registry of [Registry] knows an actor by its broadcast channel and its
    context; the rooms of [RoomRun] know nothing of the registry.  Here they run
    together: each actor of the registry is a room, its goroutines share the
    room's channel, context and inbox.  The composition projects to a reachable
    registry and to reachable rooms, so every theorem about either holds of it;
    on top of that, a room keeps its place until its race is over, and then
    everything it held is given back, but for the goroutine of [feedInbox] and its
    subscription, which go by the context that [Spawn] was given. *)
From Stdlib Require Import ZArith.
From stdpp Require Import base list gmap sets strings.
From S2P Require Import Prelude GoNum Json Events Room RoomRun RoomInv RoomSys RoomProps RoomBehaviour Store Locator Registry RegistryProps.
Local Open Scope string_scope.
Local Open Scope Z_scope.
Local Open Scope list_scope.

(** ** What a room's own step does to what it shares *)

(** Broadcasts are only appended, within the channel's capacity; a context stays
    done, and only becomes done when the race's end has been persisted. *)
Record advances (w w' : World) : Prop := {
  adv_broadcast : exists added, broadcast (actor w') = broadcast (actor w) ++ added /\
    (length (broadcast (actor w)) <= broadcastBufferSize -> length (broadcast (actor w')) <= broadcastBufferSize)%nat;
  adv_done : done (actor w) = true -> done (actor w') = true;
  adv_finished : finished (actor w) = true -> finished (actor w') = true;
  adv_cause : done (actor w') = true -> done (actor w) = true \/ finished (actor w') = true
}.

#[export] Instance advances_preorder : PreOrder advances.
Proof.
  split.
  - intros w. split; auto. exists []. by rewrite app_nil_r.
  - intros w1 w2 w3 [(a1 & E1 & L1) D1 F1 C1] [(a2 & E2 & L2) D2 F2 C2]. split; [|by auto..|naive_solver].
    exists (a1 ++ a2). rewrite E2, E1, app_assoc. split; [done|]. intros H. rewrite <-E1, <-E2. auto.
Qed.

Lemma advances_same w w' : broadcast (actor w') = broadcast (actor w) -> done (actor w') = done (actor w) ->
  finished (actor w') = finished (actor w) -> advances w w'.
Proof. intros Hb Hd Hf. split; rewrite ?Hb, ?Hd, ?Hf; auto. exists []. by rewrite app_nil_r. Qed.

Lemma advances_broadcast m w : advances w (broadcast_marshalled m w).
Proof.
  destruct m as [b|]; [|reflexivity]. split; simpl; auto. unfold try_send. case_bool_decide.
  - exists [b]. split; [done|]. rewrite length_app. simpl. lia.
  - exists []. by rewrite app_nil_r.
Qed.

Lemma advances_snapshot e w : advances w (broadcastSnapshot e w).
Proof. unfold broadcastSnapshot. etrans; [|apply advances_broadcast]. by apply advances_same. Qed.

(** The end of a race: the outcome is persisted, announced, and the context
    cancelled. *)
Lemma advances_end m w : finished (actor w) = true -> advances w (cancel (broadcast_marshalled m w)).
Proof.
  intros Hf. destruct (advances_broadcast m w) as [Hb Hd Hf' _]. split; [done|done|done|]. intros _. right. by apply Hf'.
Qed.

Lemma advances_expire e w : advances w (expirePendingRoom e w).
Proof.
  unfold expirePendingRoom, broadcastRaceExpired. destruct (err_CancelRace e); [by apply advances_same|].
  destruct (advances_broadcast RaceExpiredMessage (record_call (CallCancelRace None) w)) as [Hb Hd _ _].
  by split; [|done|done|right].
Qed.

Lemma advances_check e w : advances w (checkRaceFinished e w).
Proof.
  unfold checkRaceFinished. destruct (finished (actor w)); [reflexivity|].
  destruct (existsb _ _); [reflexivity|]. destruct (negb _); [apply advances_expire|].
  unfold finishRace. etrans; [apply (advances_snapshot e)|]. destruct (err_FinishRace e); [by apply advances_same|].
  match goal with |- advances _ (cancel (broadcast_marshalled _ ?v)) => trans v; [|by apply advances_end] end.
  split; simpl; auto. exists []. by rewrite app_nil_r.
Qed.

(** Operations on participants, timers and calls leave it all alone. *)
Ltac aside := first [reflexivity | by apply advances_same | by repeat case_match; apply advances_same].

Lemma advances_applyEvent e ev w : advances w (applyEvent e ev w).
Proof.
  destruct ev as [u d|u seq words pace|u|u|u|u reply| |txt|]; cbn [applyEvent].
  - unfold applyJoined. etrans; [|apply advances_snapshot]. aside.
  - unfold applyTelemetry. destruct (negb _); [aside|]. destruct (participants (actor w) !! u); [|aside].
    destruct (_ <=? _); [aside|]. destruct (_ && _); [|aside]. etrans; [|apply advances_check]. aside.
  - unfold applyDisconnected. destruct (participants (actor w) !! u); aside.
  - unfold applyEvicted. destruct (participants (actor w) !! u); [|aside].
    case_bool_decide; [|aside]. etrans; [|apply advances_check]. aside.
  - unfold applyLeft. destruct (participants (actor w) !! u); [|aside].
    destruct (active (actor w)); (etrans; [|apply advances_check]; aside).
  - unfold applyEvictionQuery. aside.
  - apply advances_check.
  - unfold applyActivated, broadcastRaceStarted. etrans; [|apply advances_broadcast]. aside.
  - unfold applyPendingExpired. destruct (_ || _); [aside|apply advances_expire].
Qed.

(** The steps a room takes by itself; broadcasts are drained and contexts
    cancelled by others. *)
Definition own_label (l : Label) : bool := match l with Consume | Close => false | _ => true end.

Lemma advances_exec l s s' : own_label l = true -> exec l s = Some s' -> advances (world s) (world s').
Proof.
  intros Hl Hx. destruct l as [ev|i|i|e|e| |t| | |d]; simpl in Hx; try done.
  - by simplify_eq.
  - apply bind_Some in Hx as (ev & _ & Hx). case_bool_decide; simplify_eq. aside.
  - destruct (_ && _); simplify_eq. aside.
  - destruct (inbox (actor (world s))) as [|ev rest]; [done|]. destruct (_ && _); simplify_eq. simpl.
    etrans; [|apply advances_applyEvent]. aside.
  - destruct (running s); simplify_eq. simpl. etrans; [apply (advances_snapshot e)|aside].
  - destruct (_ && _); simplify_eq. aside.
  - apply bind_Some in Hx as (tm & _ & Hx). destruct (_ <=? _); simplify_eq. aside.
  - by simplify_eq.
Qed.

(** What only [Apply] and [Tick], the cases of [Run], can do. *)
Definition loop_label (l : Label) : bool := match l with Apply _ | Tick _ | Exit => true | _ => false end.

Lemma exec_outside_loop l s s' : own_label l = true -> loop_label l = false -> exec l s = Some s' ->
  broadcast (actor (world s')) = broadcast (actor (world s)) /\ done (actor (world s')) = done (actor (world s)).
Proof.
  intros Hl Hr Hx. destruct l as [ev|i|i|e|e| |t| | |d]; simpl in Hx; try done.
  - by simplify_eq.
  - apply bind_Some in Hx as (ev & _ & Hx). case_bool_decide; by simplify_eq.
  - destruct (_ && _); by simplify_eq.
  - apply bind_Some in Hx as (tm & _ & Hx). destruct (_ <=? _); by simplify_eq.
  - by simplify_eq.
Qed.

(** ** The composition *)

(** A room with the event [feedInbox] is handing to it, if any; [ho_accepted] is
    history: the events of the subscription its inbox has taken. *)
Record Hosted := mkHosted { ho_room : Sys; ho_feeding : option RoomEvent; ho_accepted : list RoomEvent }.

#[export] Instance eta_Hosted : Eta Hosted := fun a => mkHosted (ho_room a) (ho_feeding a) (ho_accepted a).

Section host.
Context {L : Type} `{!RoomLocator L}.

(** [closed] is history: the actors whose context was cancelled from outside, by
    [Remove] or with the context given to [Spawn]. *)
Record Host := mkHost { reg : Registry L; actors : gmap nat Hosted; closed : gset nat }.

Inductive HostStep :=
  | HSpawn (raceID : string) (distance : Z) (now : Z)
  | HRemove (raceID : string)
  | HReg (l : Step L)              (** [Spawn] goes on, or one of the registry's goroutines does *)
  | HRoom (id : nat) (l : Label)   (** a step of the room *)
  | HTakes (id : nat)              (** [feedInbox] receives an event and calls [Send] *)
  | HAccepts (id : nat)            (** that [Send] puts it into the inbox *)
  | HDropped (id : nat)            (** that [Send] sees [ctx.Done()] *)
  | HFeedEnd (id : nat)            (** [feedInbox] finds its subscription closed and returns *)
  | HDrain (id : nat) (c : Conn)   (** [drainBroadcast] receives from the channel *)
  | HClose (id : nat).             (** the parent context is cancelled *)

(** The registry's steps that do not touch what it shares with the room. *)
Definition own_step (l : Step L) : bool :=
  match l with
  | SpawnClaim _ _ | SpawnStart _ _ | Arrives _ _ | DrainDone _ | DrainClose _ _ | CleanupMap _
  | CleanupRelease _ _ | Beat _ _ | BeatStop _ => true
  | _ => false
  end.

(** The registry's view of an actor after a step of its room. *)
Definition share (h : Handle) (r : RoomActor) : Handle :=
  h <| ac_accepted := ac_accepted h ++ drop (length (ac_broadcast h)) (broadcast r) |>
    <| ac_broadcast := broadcast r |> <| ac_done := done r |>.

(** [Spawn] starts [Run] last. *)
Definition is_started (h : Handle) : bool := match ac_spawn h with Started => true | _ => false end.

Definition close_actor (id : nat) (r : Registry L) (H : Host) : option Host :=
  a ← actors H !! id;
  s' ← exec Close (ho_room a);
  Some (mkHost r (<[id := a <| ho_room := s' |>]> (actors H)) ({[id]} ∪ closed H)).

Definition host_exec (st : HostStep) (H : Host) : option Host :=
  match st with
  | HSpawn raceID distance now =>
      Some (mkHost (Spawn raceID (reg H))
        (<[spawned (reg H) := mkHosted (initial now raceID distance) None []]> (actors H)) (closed H))
  | HRemove raceID =>
      match rooms (reg H) !! raceID with
      | Some id => close_actor id (Remove raceID (reg H)) H
      | None => Some H
      end
  | HReg l => if own_step l then r ← reg_exec l (reg H); Some (mkHost r (actors H) (closed H)) else None
  | HRoom id l =>
      h ← handles (reg H) !! id;
      a ← actors H !! id;
      if own_label l && (negb (loop_label l) || is_started h) then
        s' ← exec l (ho_room a);
        Some (mkHost (put_handle id (share h (actor (world s'))) (reg H))
                (<[id := a <| ho_room := s' |>]> (actors H)) (closed H))
      else None
  | HTakes id =>
      h ← handles (reg H) !! id;
      a ← actors H !! id;
      match ho_feeding a, ac_feed h with
      | None, Some (ev :: _) =>
          r ← reg_exec (Feeds id) (reg H);
          Some (mkHost r (<[id := a <| ho_feeding := Some ev |>]> (actors H)) (closed H))
      | _, _ => None
      end
  | HAccepts id =>
      a ← actors H !! id;
      ev ← ho_feeding a;
      s' ← run [Send ev; Enqueue (length (sending (ho_room a)))] (ho_room a);
      Some (mkHost (reg H)
        (<[id := mkHosted s' None (ho_accepted a ++ [ev])]> (actors H)) (closed H))
  | HDropped id =>
      a ← actors H !! id;
      _ ← ho_feeding a;
      if done (actor (world (ho_room a)))
      then Some (mkHost (reg H) (<[id := a <| ho_feeding := None |>]> (actors H)) (closed H))
      else None
  | HFeedEnd id =>
      a ← actors H !! id;
      match ho_feeding a with
      | None => r ← reg_exec (FeedEnd id) (reg H); Some (mkHost r (actors H) (closed H))
      | Some _ => None
      end
  | HDrain id c =>
      a ← actors H !! id;
      r ← reg_exec (DrainOne id c) (reg H);
      s' ← exec Consume (ho_room a);
      Some (mkHost r (<[id := a <| ho_room := s' |>]> (actors H)) (closed H))
  | HClose id => r ← reg_exec (ParentDone id) (reg H); close_actor id r H
  end.

Fixpoint host_run (sts : list HostStep) (H : Host) : option Host :=
  match sts with
  | [] => Some H
  | st :: sts' => H' ← host_exec st H; host_run sts' H'
  end.

(** The inputs are those of decoded frames, as for a single room. *)
Definition host_step_ok (st : HostStep) : Prop :=
  match st with
  | HRoom _ l => label_ok l
  | HReg (Arrives _ ev) => event_ok ev
  | _ => True
  end.

Inductive host_reachable (l0 : L) : Host -> Prop :=
  | host_init : host_reachable l0 (mkHost (NewRegistry l0) ∅ ∅)
  | host_step st H H' : host_reachable l0 H -> host_step_ok st -> host_exec st H = Some H' -> host_reachable l0 H'.

Lemma host_reachable_run l0 sts H H' :
  host_reachable l0 H -> Forall host_step_ok sts -> host_run sts H = Some H' -> host_reachable l0 H'.
Proof.
  intros HH Hok. revert H HH. induction Hok as [|st sts Hst _ IH]; intros H HH Hrun; simpl in Hrun; [by simplify_eq|].
  apply bind_Some in Hrun as (H1 & Hx & Hrun). eapply IH; [|done]. by eapply host_step.
Qed.

(** ** The invariant *)

Record hosted_ok (cl : gset nat) (id : nat) (h : Handle) (a : Hosted) : Prop := {
  ho_reachable : exists now distance n, reachable now (ac_race h) distance n (ho_room a);
  ho_broadcast : ac_broadcast h = broadcast (actor (world (ho_room a)));
  ho_done : ac_done h = done (actor (world (ho_room a)));
  ho_cause : done (actor (world (ho_room a))) = true -> finished (actor (world (ho_room a))) = true \/ id ∈ cl;
  ho_feed : Forall event_ok (default [] (ac_feed h));
  ho_inflight : forall ev, ho_feeding a = Some ev -> event_ok ev;
  ho_fed : done (actor (world (ho_room a))) = false ->
    ac_fed h = ho_accepted a ++ (match ho_feeding a with Some ev => [ev] | None => [] end)
}.

Record host_inv (l0 : L) (H : Host) : Prop := {
  hi_reg : reg_reachable l0 (reg H);
  hi_actors id h : handles (reg H) !! id = Some h -> exists a, actors H !! id = Some a /\ hosted_ok (closed H) id h a
}.

(** One actor and its room make a step, the registry's part of which is [ls]. *)
Lemma host_inv_update l0 H id h' a' r cl :
  host_inv l0 H -> reg_reachable l0 r -> handles r = <[id := h']> (handles (reg H)) ->
  closed H ⊆ cl -> hosted_ok cl id h' a' -> host_inv l0 (mkHost r (<[id := a']> (actors H)) cl).
Proof.
  intros [Hr Ha] Hr' Hh Hcl Hok. split; [done|]. cbn. rewrite Hh.
  intros i x [[<- <-]|[Hne Hx]]%lookup_insert_Some.
  - exists a'. by rewrite lookup_insert_eq.
  - rewrite lookup_insert_ne by done. destruct (Ha _ _ Hx) as (a & Hai & []). exists a. split; [done|].
    split; [done..| |done|done|done]. set_solver.
Qed.

Lemma put_put id h1 h2 (g : Registry L) : put_handle id h2 (put_handle id h1 g) = put_handle id h2 g.
Proof. unfold put_handle. cbn. by rewrite insert_insert_eq. Qed.

Lemma put_same id h (g : Registry L) : handles g !! id = Some h -> put_handle id h g = g.
Proof. intros Hh. unfold put_handle. cbn. rewrite insert_id by done. by destruct g. Qed.

(** A room's step, as the registry sees it: it broadcasts what was added, and
    cancels if the context is now done. *)
Lemma share_run g id h added (d : bool) :
  handles g !! id = Some h -> (length (ac_broadcast h ++ added) <= broadcastBufferSize)%nat ->
  (ac_spawn h = Started \/ added = []) -> (ac_done h = true -> d = true) ->
  reg_run ((Broadcasts id <$> added) ++ (if d then [Cancels id] else [])) g =
  Some (put_handle id (h <| ac_accepted := ac_accepted h ++ added |> <| ac_broadcast := ac_broadcast h ++ added |>
                         <| ac_done := d |>) g).
Proof.
  revert g h. induction added as [|b added IH]; intros g h Hh Hlen Hsp Hd; cbn [fmap list_fmap app].
  - rewrite !app_nil_r. destruct d; cbn [reg_run reg_exec step_id].
    + rewrite Hh. cbn. by destruct h.
    + rewrite put_same; [done|]. rewrite Hh. destruct h as [? ? dn]; cbn in *. destruct dn; [by specialize (Hd eq_refl)|done].
  - destruct Hsp as [Hsp|]; [|done]. cbn [reg_run reg_exec step_id]. rewrite Hh. cbn [mbind option_bind handle_step].
    unfold if_started. rewrite Hsp. cbn [mbind option_bind]. rewrite length_app in Hlen. cbn [length] in Hlen.
    rewrite bool_decide_true by lia.
    set (h1 := h <| ac_broadcast := ac_broadcast h ++ [b] |> <| ac_accepted := ac_accepted h ++ [b] |>).
    assert (Hh1 : handles (put_handle id h1 g) !! id = Some h1) by (cbn; by rewrite lookup_insert_eq).
    rewrite (IH _ h1); [|done|unfold h1; cbn; rewrite !length_app; cbn [length]; lia|by left|done]. rewrite put_put.
    cbn. by rewrite <-!app_assoc.
Qed.

(** The registry's own steps change nothing the room knows of. *)
Lemma own_step_handles l (g g' : Registry L) :
  own_step l = true -> reg_exec l g = Some g' ->
  exists h h', handles g !! step_id l = Some h /\ handles g' = <[step_id l := h']> (handles g) /\
    ac_race h' = ac_race h /\ ac_broadcast h' = ac_broadcast h /\ ac_done h' = ac_done h /\ ac_fed h' = ac_fed h /\
    (host_step_ok (HReg l) -> Forall event_ok (default [] (ac_feed h)) -> Forall event_ok (default [] (ac_feed h'))).
Proof.
  intros Hl Hx. destruct l; try done; cbn [reg_exec step_id] in Hx |- *;
    (apply bind_Some in Hx as (h & Hh & Hx); cbn [handle_step] in Hx; unfold if_started in Hx;
     exists h; try match type of Hx with context [ac_spawn h] => destruct (ac_spawn h) eqn:Hsp; try done end;
     unfold spawn_claim, spawn_start, drain_done, drain_close, cleanup_map, cleanup_release, heartbeat, heartbeat_stop in Hx;
     repeat case_match; simplify_eq);
    try (eexists; split; [exact Hh|]; cbn; split; [reflexivity|]; by split_and!).
  - eexists. split; [exact Hh|]. cbn. split; [reflexivity|]. split_and!; try done.
    intros Hev Hf. by apply Forall_app_2; [|constructor].
  - exists h. rewrite insert_id by done. by split_and!.
Qed.

Lemma host_inv_reg l0 l H H' :
  host_step_ok (HReg l) -> host_inv l0 H -> host_exec (HReg l) H = Some H' -> host_inv l0 H'.
Proof.
  intros Hok HI Hx. cbn [host_exec] in Hx. destruct (own_step l) eqn:Hl; [|done].
  apply bind_Some in Hx as (r & Hr & Hx). simplify_eq.
  destruct (own_step_handles l _ _ Hl Hr) as (h & h' & Hh & Hh' & E1 & E2 & E3 & E4 & Hfeed).
  destruct (hi_actors _ _ HI _ _ Hh) as (a & Ha & [(nw & dist & n & Hre) Hb Hd Hc Hf Hi Hfd]).
  rewrite <-(insert_id _ _ _ Ha). eapply host_inv_update; [exact HI|eapply reg_step; [apply HI|exact Hr]|exact Hh'|done|].
  split; rewrite ?E1, ?E2, ?E3, ?E4; eauto.
Qed.

(** A room's step, as the registry sees it, is a run of the registry's. *)
Lemma room_step_run l0 id l H h a s' :
  host_inv l0 H -> handles (reg H) !! id = Some h -> actors H !! id = Some a ->
  own_label l = true -> negb (loop_label l) || is_started h = true -> exec l (ho_room a) = Some s' ->
  exists ls, reg_run ls (reg H) = Some (put_handle id (share h (actor (world s'))) (reg H)) /\ forall i, FeedEnd i ∉ ls.
Proof.
  intros HI Hh Ha Hl Hgo Hs. destruct (hi_actors _ _ HI _ _ Hh) as (a' & Ha' & [_ Hb Hd _ _ _ _]). simplify_eq.
  destruct (advances_exec _ _ _ Hl Hs) as [(added & Hadd & Hlen) Hdone _ _].
  assert (Hreg := reg_reachable_inv _ _ (hi_reg _ _ HI)).
  assert (Hshare : share h (actor (world s')) = h <| ac_accepted := ac_accepted h ++ added |>
    <| ac_broadcast := ac_broadcast h ++ added |> <| ac_done := done (actor (world s')) |>).
  { unfold share. rewrite Hadd, <-Hb. by rewrite drop_app_length. }
  rewrite Hshare. eexists. split; [apply share_run; [exact Hh| | |]|].
  - rewrite Hb, <-Hadd. apply Hlen. rewrite <-Hb. apply (hk_buffer _ _ (ri_ok _ Hreg _ _ Hh)).
  - destruct (loop_label l) eqn:Hloop; [left; unfold is_started in Hgo; by destruct (ac_spawn h)|right].
    destruct (exec_outside_loop _ _ _ Hl Hloop Hs) as [Hsame _]. rewrite Hadd in Hsame.
    apply (f_equal length) in Hsame. rewrite length_app in Hsame. destruct added; [done|]. simpl in Hsame. lia.
  - rewrite Hd. exact Hdone.
  - intros i. rewrite elem_of_app, list_elem_of_fmap. intros [(? & ? & _)|Hin]; [done|].
    destruct (done (actor (world s'))); [by apply list_elem_of_singleton in Hin|by apply elem_of_nil in Hin].
Qed.

Lemma host_inv_room l0 id l H H' :
  label_ok l -> host_inv l0 H -> host_exec (HRoom id l) H = Some H' -> host_inv l0 H'.
Proof.
  intros Hok HI Hx. cbn [host_exec] in Hx. apply bind_Some in Hx as (h & Hh & Hx). apply bind_Some in Hx as (a & Ha & Hx).
  destruct (own_label l) eqn:Hl; [|done]. destruct (negb (loop_label l) || is_started h) eqn:Hgo; [|done]. cbn [andb] in Hx.
  apply bind_Some in Hx as (s' & Hs & Hx). simplify_eq.
  destruct (hi_actors _ _ HI _ _ Hh) as (a' & Ha' & [(nw & dist & n & Hre) Hb Hd Hc Hf Hi Hfd]). simplify_eq.
  destruct (advances_exec _ _ _ Hl Hs) as [_ Hdone Hfin Hcause].
  destruct (room_step_run _ _ _ _ _ _ _ HI Hh Ha Hl Hgo Hs) as (ls & Hrun & _).
  eapply host_inv_update; [exact HI|eapply reg_reachable_run; [apply HI|exact Hrun]|reflexivity|done|].
  - split; cbn; try done.
    + exists nw, dist, (S n). by eapply reach_step.
    + intros [Hd'|Hd']%Hcause; [|by left]. destruct (Hc Hd') as [|]; [left; by apply Hfin|by right].
    + intros Hd'. apply Hfd. destruct (done (actor (world (ho_room a)))); [by rewrite Hdone in Hd'|done].
Qed.

Lemma host_inv_takes l0 id H H' :
  host_inv l0 H -> host_exec (HTakes id) H = Some H' -> host_inv l0 H'.
Proof.
  intros HI Hx. cbn [host_exec] in Hx. apply bind_Some in Hx as (h & Hh & Hx). apply bind_Some in Hx as (a & Ha & Hx).
  destruct (ho_feeding a) eqn:Hfe; [done|]. destruct (ac_feed h) as [[|ev evs]|] eqn:Hafe; try done.
  apply bind_Some in Hx as (r & Hr & Hx). simplify_eq.
  destruct (hi_actors _ _ HI _ _ Hh) as (a' & Ha' & [(nw & dist & n & Hre) Hb Hd Hc Hf Hi Hfd]). simplify_eq.
  rewrite Hafe in Hf. simpl in Hf. apply Forall_cons in Hf as [Hev Hevs].
  assert (Hr' := Hr). cbn [reg_exec step_id] in Hr. rewrite Hh in Hr. cbn [mbind option_bind handle_step] in Hr.
  unfold if_started, feedInbox in Hr. destruct (ac_spawn h); try done. rewrite Hafe in Hr.
  destruct (ac_unsubscribed h); [done|]. simplify_eq.
  eapply host_inv_update; [exact HI|eapply reg_step; [apply HI|exact Hr']|reflexivity|done|]. split; cbn; eauto.
  - by intros ? [= <-].
  - intros Hd'. by rewrite (Hfd Hd'), Hfe, app_nil_r.
Qed.

Lemma host_inv_accepts l0 id H H' :
  host_inv l0 H -> host_exec (HAccepts id) H = Some H' -> host_inv l0 H'.
Proof.
  intros HI Hx. cbn [host_exec] in Hx. apply bind_Some in Hx as (a & Ha & Hx). apply bind_Some in Hx as (ev & Hev & Hx).
  apply bind_Some in Hx as (s' & Hs & Hx). simplify_eq.
  destruct HI as [Hreg Hact]. split; [done|]. cbn. intros i h Hh. destruct (Hact i h Hh) as (b & Hi & Hok).
  destruct (decide (i = id)) as [->|Hne]; [|exists b; by rewrite lookup_insert_ne]. simplify_eq.
  destruct Hok as [(nw & dist & n & Hre) Hb Hd Hc Hf Hin Hfd].
  rewrite lookup_insert_eq. eexists. split; [done|].
  assert (Hsame : broadcast (actor (world s')) = broadcast (actor (world (ho_room a))) /\
    done (actor (world s')) = done (actor (world (ho_room a))) /\
    finished (actor (world s')) = finished (actor (world (ho_room a)))).
  { cbn [run exec mbind option_bind] in Hs. cbn in Hs. rewrite list_lookup_middle in Hs by done. cbn in Hs.
    case_bool_decide; cbn in Hs; by simplify_eq. }
  destruct Hsame as (E1 & E2 & E3). split; cbn; rewrite ?E1, ?E2, ?E3; try done.
  - exists nw, dist, (n + 2)%nat. eapply (reachable_run _ _ _ _ [_; _]); [exact Hre| |exact Hs].
    constructor; [by apply Hin|by repeat constructor].
  - intros Hd'. by rewrite (Hfd Hd'), Hev, app_nil_r.
Qed.

Lemma host_inv_dropped l0 id H H' :
  host_inv l0 H -> host_exec (HDropped id) H = Some H' -> host_inv l0 H'.
Proof.
  intros HI Hx. cbn [host_exec] in Hx. apply bind_Some in Hx as (a & Ha & Hx). apply bind_Some in Hx as (ev & Hev & Hx).
  destruct (done _) eqn:Hdn; [|done]. simplify_eq.
  destruct HI as [Hreg Hact]. split; [done|]. cbn. intros i h Hh. destruct (Hact i h Hh) as (b & Hi & Hok).
  destruct (decide (i = id)) as [->|Hne]; [|exists b; by rewrite lookup_insert_ne]. simplify_eq.
  destruct Hok. rewrite lookup_insert_eq. eexists. split; [done|]. split; cbn; try done. by rewrite Hdn.
Qed.

(** The goroutine of [feedInbox] ends, as the registry sees it. *)
Lemma feed_end_handles id (g g' : Registry L) :
  reg_exec (FeedEnd id) g = Some g' -> exists h, handles g !! id = Some h /\
    handles g' = <[id := h <| ac_unsubscribed := true |>]> (handles g) /\ is_Some (ac_feed h) /\ ac_parent_done h = true.
Proof.
  intros Hx. cbn [reg_exec step_id] in Hx. apply bind_Some in Hx as (h & Hh & Hx). cbn [handle_step] in Hx.
  unfold if_started, feedInbox_end in Hx. exists h. destruct (ac_spawn h), (ac_feed h), (ac_unsubscribed h), (ac_parent_done h); try done.
  simplify_eq. by split_and!.
Qed.

Lemma host_inv_feed_end l0 id H H' :
  host_inv l0 H -> host_exec (HFeedEnd id) H = Some H' -> host_inv l0 H'.
Proof.
  intros HI Hx. cbn [host_exec] in Hx. apply bind_Some in Hx as (a & Ha & Hx). destruct (ho_feeding a); [done|].
  apply bind_Some in Hx as (r & Hr & Hx). simplify_eq. destruct (feed_end_handles _ _ _ Hr) as (h & Hh & Hhr & _).
  destruct (hi_actors _ _ HI _ _ Hh) as (a' & Ha' & []). simplify_eq. rewrite <-(insert_id _ _ _ Ha).
  eapply host_inv_update; [exact HI|eapply reg_step; [apply HI|exact Hr]|exact Hhr|done|]. by split.
Qed.

Lemma host_inv_drain l0 id c H H' :
  host_inv l0 H -> host_exec (HDrain id c) H = Some H' -> host_inv l0 H'.
Proof.
  intros HI Hx. cbn [host_exec] in Hx. apply bind_Some in Hx as (a & Ha & Hx). apply bind_Some in Hx as (r & Hr & Hx).
  apply bind_Some in Hx as (s' & Hs & Hx). simplify_eq.
  assert (Hr' := Hr). cbn [reg_exec step_id] in Hr. apply bind_Some in Hr as (h & Hh & Hr). cbn [handle_step] in Hr.
  destruct (hi_actors _ _ HI _ _ Hh) as (a' & Ha' & [(nw & dist & n & Hre) Hb Hd Hc Hf Hi Hfd]). simplify_eq.
  assert (Hn : reachable nw (ac_race h) dist (S n) s') by (eapply (reach_step _ _ _ _ Consume); [exact Hre|exact I|exact Hs]).
  cbn [exec] in Hs. rewrite <-Hb in Hs. unfold if_started, drain_one in Hr.
  destruct (ac_spawn h); try done. destruct (ac_broadcast h) as [|b rest] eqn:Hbc; [done|].
  eapply (host_inv_update _ _ _ (h <| ac_broadcast := rest |> <| ac_drained := ac_drained h ++ [b] |>));
    [exact HI|eapply reg_step; [apply HI|exact Hr']| |done|].
  - destruct (ac_drain h); simplify_eq; done.
  - simplify_eq. split; cbn; eauto.
Qed.

Lemma close_actor_inv l0 id h (b : bool) r H H' :
  host_inv l0 H -> handles (reg H) !! id = Some h -> reg_reachable l0 r ->
  handles r = <[id := h <| ac_done := true |> <| ac_parent_done := b |>]> (handles (reg H)) ->
  close_actor id r H = Some H' -> host_inv l0 H'.
Proof.
  intros HI Hh Hr Hhr Hx. unfold close_actor in Hx. apply bind_Some in Hx as (a & Ha & Hx).
  apply bind_Some in Hx as (s' & Hs & Hx). simplify_eq.
  destruct (hi_actors _ _ HI _ _ Hh) as (a' & Ha' & [(nw & dist & n & Hre) Hb Hd Hc Hf Hi Hfd]). simplify_eq.
  eapply host_inv_update; [exact HI|exact Hr|exact Hhr|set_solver|].
  assert (Hn : reachable nw (ac_race h) dist (S n) s') by (eapply (reach_step _ _ _ _ Close); [exact Hre|exact I|exact Hs]).
  cbn [exec] in Hs. simplify_eq. split; cbn; eauto; try done. intros _. right. set_solver.
Qed.

Lemma host_inv_step l0 st H H' :
  host_step_ok st -> host_inv l0 H -> host_exec st H = Some H' -> host_inv l0 H'.
Proof.
  intros Hok HI Hx. assert (Hreg := reg_reachable_inv _ _ (hi_reg _ _ HI)).
  destruct st as [raceID dist nw|raceID|l|id l|id|id|id|id|id c|id].
  - cbn [host_exec] in Hx. simplify_eq. eapply (host_inv_update _ _ _ (new_handle raceID));
      [exact HI|by eapply (reg_step _ (DoSpawn raceID)), eq_refl; apply HI|reflexivity|done|].
    split; cbn; try done; [by exists nw, dist, 0%nat; constructor].
  - cbn [host_exec] in Hx. destruct (rooms (reg H) !! raceID) as [id|] eqn:Hr; [|by simplify_eq].
    destruct (ri_rooms _ Hreg _ _ Hr) as (h & Hh & _ & _).
    eapply (close_actor_inv _ _ _ (ac_parent_done h)); [exact HI|exact Hh| | |exact Hx].
    + by eapply (reg_step _ (DoRemove raceID)), eq_refl; apply HI.
    + unfold Remove, cancel_handle. rewrite Hr. cbn. by rewrite Hh.
  - by eapply host_inv_reg.
  - by eapply host_inv_room.
  - by eapply host_inv_takes.
  - by eapply host_inv_accepts.
  - by eapply host_inv_dropped.
  - by eapply host_inv_feed_end.
  - by eapply host_inv_drain.
  - cbn [host_exec] in Hx. apply bind_Some in Hx as (r & Hr & Hx). assert (Hr' := Hr).
    cbn [reg_exec step_id] in Hr. apply bind_Some in Hr as (h & Hh & Hr). cbn [handle_step] in Hr. simplify_eq.
    eapply (close_actor_inv _ _ _ true); [exact HI|exact Hh|eapply reg_step; [apply HI|exact Hr']|done|exact Hx].
Qed.

(** The composition projects to its parts: a reachable registry, and for each of
    its actors a reachable room that shares its channel and context. *)
Lemma host_reachable_inv l0 H : host_reachable l0 H -> host_inv l0 H.
Proof. induction 1 as [|st H H' _ IH Hok Hx]; [split; [constructor|done]|by eapply host_inv_step]. Qed.

(** Every step of an instance is a run of its registry, which ends [feedInbox] of
    an actor only when the step does. *)
Lemma host_exec_reg_run l0 st H H' :
  host_inv l0 H -> host_exec st H = Some H' ->
  exists ls, reg_run ls (reg H) = Some (reg H') /\ forall i, FeedEnd i ∈ ls -> st = HFeedEnd i.
Proof.
  intros HI Hx.
  assert (Hclose : forall id r, close_actor id r H = Some H' -> reg H' = r).
  { intros id r Hc. unfold close_actor in Hc. apply bind_Some in Hc as (a & _ & Hc). by apply bind_Some in Hc as (s & _ & [= <-]). }
  assert (Hone : forall l r, reg_exec l (reg H) = Some r -> (forall i, l = FeedEnd i -> st = HFeedEnd i) ->
    exists ls, reg_run ls (reg H) = Some r /\ forall i, FeedEnd i ∈ ls -> st = HFeedEnd i).
  { intros l r Hr Hl. exists [l]. cbn [reg_run]. rewrite Hr. split; [done|]. intros i Hi%list_elem_of_singleton. by apply Hl. }
  assert (Hnone : exists ls, reg_run ls (reg H) = Some (reg H) /\ forall i, FeedEnd i ∈ ls -> st = HFeedEnd i)
    by (exists []; split; [done|by intros i ?%elem_of_nil]).
  destruct st as [raceID dist nw|raceID|l|id l|id|id|id|id|id c|id]; cbn [host_exec] in Hx.
  - simplify_eq. by apply (Hone (DoSpawn raceID)).
  - destruct (rooms (reg H) !! raceID); [|by simplify_eq]. apply Hclose in Hx as ->. by apply (Hone (DoRemove raceID)).
  - destruct (own_step l) eqn:Hl; [|done]. apply bind_Some in Hx as (r & Hr & [= <-]). apply (Hone l); [done|].
    by intros i ->.
  - apply bind_Some in Hx as (h & Hh & Hx). apply bind_Some in Hx as (a & Ha & Hx).
    destruct (own_label l) eqn:Hl; [|done]. destruct (negb (loop_label l) || is_started h) eqn:Hgo; [|done]. cbn [andb] in Hx.
    apply bind_Some in Hx as (s' & Hs & [= <-]).
    destruct (room_step_run _ _ _ _ _ _ _ HI Hh Ha Hl Hgo Hs) as (ls & Hrun & Hno). exists ls. split; [done|].
    intros i Hi. by destruct (Hno i).
  - apply bind_Some in Hx as (h & _ & Hx). apply bind_Some in Hx as (a & _ & Hx).
    destruct (ho_feeding a), (ac_feed h) as [[|]|]; try done. apply bind_Some in Hx as (g & Hg & [= <-]). by apply (Hone (Feeds id)).
  - apply bind_Some in Hx as (a & _ & Hx). apply bind_Some in Hx as (ev & _ & Hx). by apply bind_Some in Hx as (s & _ & [= <-]).
  - apply bind_Some in Hx as (a & _ & Hx). apply bind_Some in Hx as (ev & _ & Hx). destruct (done _); [|done]. by simplify_eq.
  - apply bind_Some in Hx as (a & _ & Hx). destruct (ho_feeding a); [done|]. apply bind_Some in Hx as (r & Hr & [= <-]).
    apply (Hone (FeedEnd id)); [done|]. by intros i [= ->].
  - apply bind_Some in Hx as (a & _ & Hx). apply bind_Some in Hx as (r & Hr & Hx). apply bind_Some in Hx as (s & _ & [= <-]).
    by apply (Hone (DrainOne id c)).
  - apply bind_Some in Hx as (r & Hr & Hx). apply Hclose in Hx as ->. by apply (Hone (ParentDone id)).
Qed.

(** Only its own end unsubscribes [feedInbox] of an actor. *)
Lemma host_unsubscribed l0 st H H' id h h' :
  host_inv l0 H -> host_exec st H = Some H' -> handles (reg H) !! id = Some h -> handles (reg H') !! id = Some h' ->
  ac_unsubscribed h' = true -> ac_unsubscribed h = true \/ st = HFeedEnd id.
Proof.
  intros HI Hx Hh Hh' Hu. destruct (host_exec_reg_run _ _ _ _ HI Hx) as (ls & Hrun & Hls).
  assert (Hg := hi_reg _ _ HI). revert Hrun Hh Hg. generalize (reg H) as g. intros g. revert g h.
  assert (Hin : forall l, l ∈ ls -> l = FeedEnd id -> st = HFeedEnd id) by (intros l Hl ->; by apply Hls).
  clear Hls HI Hx. induction ls as [|l ls IH]; intros g h Hrun Hh Hg; cbn [reg_run] in Hrun; [left; congruence|].
  apply bind_Some in Hrun as (g1 & H1 & Hrun).
  assert (Hg1 : reg_reachable l0 g1) by by eapply reg_step.
  assert (Hi1 := reg_reachable_inv _ _ Hg). assert (Hlt := ri_fresh _ Hi1 id ltac:(by eexists)).
  destruct (reg_handles _ _ Hg1 id) as [h1 Hh1]; [apply reg_exec_spawned in H1; lia|].
  destruct (IH ltac:(intros l' Hl'; apply Hin; by right) g1 h1 Hrun Hh1 Hg1) as [Hu1|]; [|by right].
  destruct (reg_unsubscribed _ _ _ _ _ _ Hi1 H1 Hh Hh1) as [Heq|Hl]; [left; congruence|right]. eapply Hin; [left|exact Hl].
Qed.

(** C15: a room keeps its place until its race is over. In every reachable state
    of an instance, whatever the order in which its goroutines, rooms, timers,
    subscriptions and Redis proceed: a room's context is only done when it was
    cancelled from outside or the room has persisted the end of its race without
    an error; and as long as it is not done, [Run] has not returned, the
    heartbeat goes on, the claim has not been released, no cleanup has touched
    the map, requests find the room if no other was spawned for its race, and
    every event the subscription handed over is in or on its way into the inbox,
    in order. *)
Theorem room_kept_until_over l0 H id h :
  host_reachable l0 H -> handles (reg H) !! id = Some h ->
  exists a, actors H !! id = Some a /\
    (done (actor (world (ho_room a))) = true ->
       id ∈ closed H \/ exists c, c ∈ calls (world (ho_room a)) /\ terminal c = true) /\
    (done (actor (world (ho_room a))) = false ->
       running (ho_room a) = true /\ ac_beating h = true /\ ac_released h = false /\ ac_removed h = false /\
       ac_drain h = Selecting /\ (only_of_race id h (reg H) -> Get (ac_race h) (reg H) = Some id) /\
       ac_fed h = ho_accepted a ++ (match ho_feeding a with Some ev => [ev] | None => [] end)).
Proof.
  intros [Hr Ha]%host_reachable_inv Hh. destruct (Ha _ _ Hh) as (a & Hai & [(nw & dist & n & Hre) Hb Hd Hc _ _ Hfd]).
  exists a. split; [done|]. assert (Hreg := reg_reachable_inv _ _ Hr). split.
  - intros [Hf|?]%Hc; [right|by left]. destruct (teardown_reachable _ _ _ _ _ Hre) as [_ _ Ho _].
    rewrite Hf in Ho. unfold outcomes in Ho. destruct (filter _ _) as [|c cs] eqn:Hfl; [done|].
    assert (Hin : c ∈ filter (fun c => Is_true (terminal c)) (calls (world (ho_room a)))) by (rewrite Hfl; left).
    apply list_elem_of_filter in Hin as [Ht Hin]. exists c. split; [done|]. by apply Is_true_true.
  - intros Hnd. destruct (ri_ok _ Hreg _ _ Hh) as [_ _ _ Hdr Hrm Hrl _ Hbt]. rewrite Hnd in Hd.
    assert (Hrem : ac_removed h = false) by (destruct (ac_removed h); [by rewrite Hrm in Hd|done]).
    split_and!; auto.
    + destruct (running (ho_room a)) eqn:Hrun; [done|]. by rewrite (stopped_done _ _ _ _ _ Hre Hrun) in Hnd.
    + destruct (ac_beating h); [done|]. by rewrite Hbt in Hd.
    + destruct (ac_released h); [by rewrite Hrl in Hrem|done].
    + destruct (ac_drain h); [done|..]; by rewrite Hdr in Hd.
    + intros Hone. by apply Hreg.
Qed.

(** ** Teardown *)

(** [feedInbox] ends with its subscription, which ends with the parent context. *)
Definition feed_left (h : Handle) : nat :=
  match ac_feed h, ac_unsubscribed h, ac_parent_done h with Some _, false, true => 1 | _, _, _ => 0 end.

(** What an actor whose context is done still has to do. *)
Definition left_to_do (h : Handle) (a : Hosted) : nat :=
  (match ac_drain h with Selecting => 2 + length (ac_broadcast h) | Flushing => 1 + length (ac_broadcast h) | Returned => 0 end) +
  (if ac_removed h then 0 else 1) + (if ac_released h then 0 else 1) + (if ac_beating h then 1 else 0) +
  (if running (ho_room a) then 1 else 0) + (match ho_feeding a with Some _ => 1 | None => 0 end) + feed_left h.

(** While it does so, its frames stay the same, and none is left behind. *)
Record tearing (h : Handle) (a : Hosted) (h' : Handle) (a' : Hosted) : Prop := {
  te_spawn : ac_spawn h' = ac_spawn h;
  te_done : done (actor (world (ho_room a'))) = done (actor (world (ho_room a)));
  te_race : ac_race h' = ac_race h;
  te_accepted : ac_accepted h' = ac_accepted h;
  te_parent : ac_parent_done h' = ac_parent_done h;
  te_feed : ac_feed h' = ac_feed h;
  te_behind : ac_broadcast h = [] \/ ac_drain h <> Returned -> ac_broadcast h' = [] \/ ac_drain h' <> Returned
}.

(** A step of the actor [id] that brings it closer to the end. *)
Definition nearer (id : nat) (H : Host) (h : Handle) (a : Hosted) (st : HostStep) : Prop :=
  exists H' h' a', host_step_ok st /\ host_exec st H = Some H' /\
    handles (reg H') !! id = Some h' /\ actors H' !! id = Some a' /\
    tearing h a h' a' /\ (left_to_do h' a' < left_to_do h a)%nat.

Lemma nearer_own id H h a l g' h' :
  actors H !! id = Some a -> own_step l = true -> host_step_ok (HReg l) ->
  reg_exec l (reg H) = Some g' -> handles g' !! id = Some h' ->
  tearing h a h' a -> (left_to_do h' a < left_to_do h a)%nat -> nearer id H h a (HReg l).
Proof.
  intros Ha Hl Hok Hg Hh' Ht Hlt. exists (mkHost g' (actors H) (closed H)), h', a.
  cbn [host_exec]. rewrite Hl, Hg. by split_and!.
Qed.

(** A step of one of the registry's goroutines, computed. *)
Ltac own_goroutine Hh :=
  eapply nearer_own; [eassumption|done|done| | | |];
  [cbn [reg_exec step_id]; rewrite Hh; cbn [mbind option_bind handle_step];
   unfold if_started, drain_done, drain_close, cleanup_map, cleanup_release, heartbeat_stop;
   repeat match goal with E : _ = ?b |- context [?x] => match type of E with x = b => rewrite E end end; reflexivity
  |cbn; by rewrite lookup_insert_eq
  |split; cbn; auto; try (by intros; left); try (by right)
  |unfold left_to_do, feed_left; cbn;
   repeat match goal with E : _ = ?b |- context [?x] => match type of E with x = b => rewrite E end end;
   cbn; lia].

Lemma teardown_step l0 H id h a (e : loc_env) :
  host_reachable l0 H -> handles (reg H) !! id = Some h -> actors H !! id = Some a ->
  ac_spawn h = Started -> done (actor (world (ho_room a))) = true -> (0 < left_to_do h a)%nat ->
  exists st, nearer id H h a st.
Proof.
  intros HH Hh Ha Hsp Hd Hleft. destruct (host_reachable_inv _ _ HH) as [Hr Hact].
  destruct (Hact _ _ Hh) as (a' & Ha' & [_ Hb Hdd _ _ _ _]). simplify_eq. rewrite Hd in Hdd.
  destruct (ho_feeding a) as [ev|] eqn:Hfe.
  { exists (HDropped id), (mkHost (reg H) (<[id := a <| ho_feeding := None |>]> (actors H)) (closed H)), h, (a <| ho_feeding := None |>).
    cbn [host_exec]. rewrite Ha. cbn [mbind option_bind]. rewrite Hfe. cbn [mbind option_bind]. rewrite Hd.
    split_and!; [done|done|done|cbn; by rewrite lookup_insert_eq|by split|].
    unfold left_to_do. cbn. rewrite Hfe. lia. }
  destruct (feed_left h) as [|k] eqn:Hfl.
  2:{ unfold feed_left in Hfl. destruct (ac_feed h) as [q|] eqn:Haf; [|done]. destruct (ac_unsubscribed h) eqn:Hun; [done|].
      destruct (ac_parent_done h) eqn:Hpd; [|done].
      exists (HFeedEnd id), (mkHost (put_handle id (h <| ac_unsubscribed := true |>) (reg H)) (actors H) (closed H)),
        (h <| ac_unsubscribed := true |>), a.
      cbn [host_exec]. rewrite Ha. cbn [mbind option_bind]. rewrite Hfe. cbn [reg_exec step_id]. rewrite Hh.
      cbn [mbind option_bind handle_step]. unfold if_started, feedInbox_end. rewrite Hsp, Haf, Hun, Hpd. cbn [mbind option_bind].
      split_and!; [done|done|cbn; by rewrite lookup_insert_eq|done|by split|].
      unfold left_to_do, feed_left. cbn. rewrite Haf, Hun, Hpd. lia. }
  destruct (ac_drain h) eqn:Hdr.
  - exists (HReg (DrainDone id)). own_goroutine Hh.
  - destruct (ac_broadcast h) as [|msg rest] eqn:Hbc.
    + exists (HReg (DrainClose id Up)). own_goroutine Hh.
    + exists (HDrain id Up). cbn [host_exec]. unfold nearer. cbn [host_exec]. rewrite Ha.
      cbn [reg_exec step_id mbind option_bind]. rewrite Hh. cbn [handle_step mbind option_bind].
      unfold if_started, drain_one. rewrite Hsp, Hdr, Hbc. cbn [exec mbind option_bind]. rewrite <-Hb.
      eexists _, _, _. split_and!; [done|reflexivity|cbn; by rewrite lookup_insert_eq|cbn; by rewrite lookup_insert_eq| |].
      * split; cbn; auto. right. by rewrite Hdr.
      * unfold left_to_do, feed_left. cbn. rewrite Hdr, Hbc. cbn. lia.
  - destruct (ac_removed h) eqn:Hrm; [|exists (HReg (CleanupMap id)); own_goroutine Hh].
    destruct (ac_released h) eqn:Hrl; [|exists (HReg (CleanupRelease id e)); own_goroutine Hh].
    destruct (ac_beating h) eqn:Hbt; [exists (HReg (BeatStop id)); own_goroutine Hh|].
    destruct (running (ho_room a)) eqn:Hrun; [|unfold left_to_do in Hleft; rewrite Hdr, Hrm, Hrl, Hbt, Hrun, Hfe, Hfl in Hleft; simpl in Hleft; lia].
    assert (Hsame : share h (actor (world (ho_room a))) = h <| ac_done := true |>).
    { unfold share. rewrite <-Hb, drop_all, app_nil_r, Hd. by destruct h. }
    exists (HRoom id Exit). unfold nearer. cbn [host_exec]. rewrite Hh, Ha. cbn [mbind option_bind own_label loop_label negb orb andb].
    unfold is_started. rewrite Hsp. cbn [exec mbind option_bind]. rewrite Hrun, Hd. cbn [andb mbind option_bind world].
    eexists _, _, _. split_and!; [done|reflexivity|cbn; by rewrite lookup_insert_eq|cbn; by rewrite lookup_insert_eq| |].
    + change (world ((ho_room a) <| running := false |>)) with (world (ho_room a)). rewrite Hsame. by split; cbn.
    + change (world ((ho_room a) <| running := false |>)) with (world (ho_room a)). rewrite Hsame.
      unfold left_to_do, feed_left. cbn. rewrite Hrun. lia.
Qed.

Lemma teardown_run l0 n H id h a (e : loc_env) :
  host_reachable l0 H -> handles (reg H) !! id = Some h -> actors H !! id = Some a ->
  ac_spawn h = Started -> done (actor (world (ho_room a))) = true -> (left_to_do h a <= n)%nat ->
  exists sts H' h' a', (length sts <= n)%nat /\ Forall host_step_ok sts /\ host_run sts H = Some H' /\
    handles (reg H') !! id = Some h' /\ actors H' !! id = Some a' /\ tearing h a h' a' /\ left_to_do h' a' = 0%nat.
Proof.
  revert H h a. induction n as [|n IH]; intros H h a HH Hh Ha Hsp Hd Hn;
    (destruct (left_to_do h a) as [|m] eqn:Hm; [exists [], H, h, a; split_and!; try done; simpl; lia|]); [lia|].
  destruct (teardown_step _ _ _ _ _ e HH Hh Ha Hsp Hd) as (st & H1 & h1 & a1 & Hok & Hx & Hh1 & Ha1 & [T1 T2 T3 T4 Tp Tf T5] & Hlt); [lia|].
  destruct (IH H1 h1 a1) as (sts & H' & h' & a' & Hlen & Hoks & Hrun & Hh' & Ha' & [U1 U2 U3 U4 Up Uf U5] & Hz);
    [by eapply host_step|done|done|by rewrite T1|by rewrite T2|lia|].
  exists (st :: sts), H', h', a'. split_and!; try done; [simpl; lia|by constructor|by cbn [host_run]; rewrite Hx|].
  split; [congruence..|auto].
Qed.

(** C16: what is torn down of a finished room, and what is not. Once the context
    of a started actor is done - its race has ended, or it was removed - at most
    24 steps of the goroutines around it, and no step of anybody else, bring it
    to where [Run] and the heartbeat have ended, its entry is gone from the map,
    its claim has been released, no [Send] of [feedInbox] is pending, and the bus
    has been handed, in order, every frame the room had broadcast when draining
    ended - all of them, if that was still to come - and then, once and last,
    [room_closed].  The exception is [feedInbox] itself: it ranges over a
    subscription made with the context given to [Spawn], not the actor's, so at
    that point it has returned and unsubscribed exactly if that parent context
    is done too; if it is not, the goroutine and the subscription of a finished
    room are still there, and no step of this instance but the parent's end lets
    it return. *)
Theorem rooms_torn_down l0 H id h a (e : loc_env) :
  host_reachable l0 H -> handles (reg H) !! id = Some h -> actors H !! id = Some a ->
  ac_spawn h = Started -> done (actor (world (ho_room a))) = true ->
  exists sts H' h' a', (length sts <= 24)%nat /\ Forall host_step_ok sts /\ host_run sts H = Some H' /\
    handles (reg H') !! id = Some h' /\ actors H' !! id = Some a' /\
    (is_Some (ac_feed h) -> ac_unsubscribed h' = ac_parent_done h) /\ ho_feeding a' = None /\
    (ac_parent_done h = false -> host_exec (HFeedEnd id) H' = None) /\
    running (ho_room a') = false /\ ac_beating h' = false /\ ac_removed h' = true /\ ac_released h' = true /\
    Get (ac_race h) (reg H') <> Some id /\
    sent_by id (reg H') = (Out (ac_race h) <$> ac_drained h') ++ [RoomClosed (ac_race h)] /\
    (ac_drain h <> Returned -> ac_drained h' = ac_accepted h).
Proof.
  intros HH Hh Ha Hsp Hd. assert (Hreg := reg_reachable_inv _ _ (hi_reg _ _ (host_reachable_inv _ _ HH))).
  assert (Hbuf := hk_buffer _ _ (ri_ok _ Hreg _ _ Hh)). unfold broadcastBufferSize in Hbuf.
  destruct (teardown_run l0 24 H id h a e HH Hh Ha Hsp Hd) as (sts & H' & h' & a' & Hlen & Hok & Hrun & Hh' & Ha' & [_ _ T3 T4 Tp Tf T5] & Hz).
  { unfold left_to_do, feed_left.
    destruct (ac_drain h), (ac_removed h), (ac_released h), (ac_beating h), (running (ho_room a)), (ho_feeding a),
      (ac_feed h), (ac_unsubscribed h), (ac_parent_done h); lia. }
  assert (Hreg' : reg_inv (reg H')).
  { by apply (reg_reachable_inv l0), (hi_reg l0), host_reachable_inv; eapply host_reachable_run. }
  destruct (ri_ok _ Hreg' _ _ Hh') as [Hacc _ Hsent _ _ _ _ _ _ Hun _]. unfold left_to_do in Hz.
  destruct (ac_drain h') eqn:Hdr; [lia..|].
  destruct (ac_removed h') eqn:Hrm; [|lia]. destruct (ac_released h') eqn:Hrl; [|lia].
  destruct (ac_beating h') eqn:Hbt; [lia|]. destruct (running (ho_room a')) eqn:Hrn; [lia|].
  destruct (ho_feeding a') eqn:Hfe; [lia|]. assert (Hfl : feed_left h' = 0%nat) by lia. clear Hz.
  exists sts, H', h', a'. rewrite Hsent, T3. split_and!; try done.
  - intros [q Hq]. unfold feed_left in Hfl. rewrite Tf, Hq, Tp in Hfl. rewrite Tp in Hun.
    destruct (ac_unsubscribed h'), (ac_parent_done h); try done. symmetry. by apply Hun.
  - intros Hpd. cbn [host_exec]. rewrite Ha'. cbn [mbind option_bind]. rewrite Hfe. cbn [reg_exec step_id]. rewrite Hh'.
    cbn [mbind option_bind handle_step]. unfold if_started, feedInbox_end. rewrite Tp, Hpd.
    by destruct (ac_spawn h'), (ac_feed h'), (ac_unsubscribed h').
  - intros Hget. destruct (ri_rooms _ Hreg' _ _ Hget) as (x & Hx & _ & Hxr). congruence.
  - intros Hnr. destruct (T5 (or_intror Hnr)) as [Hbc|]; [|done]. by rewrite <-T4, Hacc, Hbc, app_nil_r.
Qed.
End host.

(** ** A lobby nobody joins *)

Definition lobby_steps : list (HostStep (L := unit)) :=
  [HSpawn "R" 5 0; HReg (SpawnClaim 0 ()); HReg (SpawnStart 0 true);
   HReg (Arrives 0 (ParticipantLeft "u")); HTakes 0; HAccepts 0; HRoom 0 (Apply (env_at 7))].

(** Nobody comes for thirty seconds: the lobby is cancelled. *)
Definition expiry_steps : list (HostStep (L := unit)) :=
  [HRoom 0 (Elapse 30000000000); HRoom 0 (Fire 0); HRoom 0 (Enqueue 0);
   HRoom 0 (Apply (env_at 30000000007))].

Definition empty_host : Host (L := unit) := mkHost (NewRegistry ()) ∅ ∅.

Lemma lobby_ok : Forall host_step_ok lobby_steps /\ Forall host_step_ok expiry_steps.
Proof. split; repeat constructor; apply env_at_ok. Qed.

Lemma room_kept_until_over_witness : exists H a,
  host_run lobby_steps empty_host = Some H /\ actors H !! 0%nat = Some a /\
  running (ho_room a) = true /\ Get "R" (reg H) = Some 0%nat /\ ho_accepted a = [ParticipantLeft "u"].
Proof.
  assert (Hrun : exists H h, host_run lobby_steps empty_host = Some H /\ handles (reg H) !! 0%nat = Some h /\
    (match actors H !! 0%nat with Some a => done (actor (world (ho_room a))) | None => true end) = false /\
    (match actors H !! 0%nat with Some a => ho_feeding a | None => None end) = None /\
    ac_fed h = [ParticipantLeft "u"] /\ ac_race h = "R" /\ forall i x, handles (reg H) !! i = Some x -> i = 0%nat).
  { eexists _, _. split; [vm_compute; reflexivity|]. split; [vm_compute; reflexivity|]. split_and!; [by vm_compute..|].
    intros i x Hx. destruct (decide (i = 0%nat)) as [|Hne]; [done|]. exfalso. revert Hx. cbn [reg handles].
    change (i <> 0%nat) in Hne. intros Hx.
    match type of Hx with ?m !! _ = _ => assert (Hd : dom m = {[0%nat]}) by (vm_compute; reflexivity) end.
    apply elem_of_dom_2 in Hx. rewrite Hd in Hx. set_solver. }
  destruct Hrun as (H & h & Hrun & Hh & Hnd & Hfe & Hfed & Hrace & Hone).
  assert (HH : host_reachable () H) by (eapply host_reachable_run; [apply host_init|exact (proj1 lobby_ok)|exact Hrun]).
  destruct (room_kept_until_over () H 0 h HH Hh) as (a & Ha & _ & Hk). rewrite Ha in Hnd, Hfe.
  destruct (Hk Hnd) as (Hr & _ & _ & _ & _ & Hget & Hf). exists H, a. split_and!; [done..| |].
  - rewrite <-Hrace. apply Hget. intros i x Hx _. by eapply Hone.
  - by rewrite Hfed, Hfe, app_nil_r in Hf.
Defined.

Lemma rooms_torn_down_witness : exists H sts H' h',
  host_run (lobby_steps ++ expiry_steps) empty_host = Some H /\ Get "R" (reg H) = Some 0%nat /\
  host_run sts H = Some H' /\ handles (reg H') !! 0%nat = Some h' /\ ac_released h' = true /\
  Get "R" (reg H') <> Some 0%nat /\ ac_unsubscribed h' = false.
Proof.
  assert (Hrun : exists H h a, host_run (lobby_steps ++ expiry_steps) empty_host = Some H /\ handles (reg H) !! 0%nat = Some h /\
    actors H !! 0%nat = Some a /\ ac_spawn h = Started /\ done (actor (world (ho_room a))) = true /\ ac_race h = "R" /\
    Get "R" (reg H) = Some 0%nat /\ ac_feed h = Some [] /\ ac_parent_done h = false).
  { eexists _, _, _. split; [vm_compute; reflexivity|]. split; [vm_compute; reflexivity|]. split; [vm_compute; reflexivity|].
    by split_and!; vm_compute. }
  destruct Hrun as (H & h & a & Hrun & Hh & Ha & Hsp & Hd & Hrace & Hget & Hfeed & Hpd).
  assert (HH : host_reachable () H).
  { eapply host_reachable_run; [apply host_init| |exact Hrun]. apply Forall_app_2; apply lobby_ok. }
  destruct (@rooms_torn_down unit NoopLocator () H 0 h a () HH Hh Ha Hsp Hd)
    as (sts & H' & h' & a' & _ & _ & Hr & Hh' & _ & Hun & _ & _ & _ & _ & _ & Hrel & Hg & _).
  exists H, sts, H', h'. rewrite Hrace in Hg. split_and!; try done. rewrite Hun by (rewrite Hfeed; by eexists). exact Hpd.
Defined.

(** The goroutines around a room whose lobby has expired end, all but one. *)
Definition teardown_steps : list (HostStep (L := unit)) :=
  [HReg (DrainDone 0); HDrain 0 Up; HReg (DrainClose 0 Up); HReg (CleanupMap 0); HReg (CleanupRelease 0 ());
   HReg (BeatStop 0); HRoom 0 Exit].

(** The goroutine and the subscription of a finished room stay for as long as
    the process does: the lobby has expired, everything else of the room is gone,
    and an event published for its race is still received. *)
Theorem feeder_outlives_room : exists H h,
  host_run (lobby_steps ++ expiry_steps ++ teardown_steps) empty_host = Some H /\ handles (reg H) !! 0%nat = Some h /\
  ac_released h = true /\ ac_drain h = Returned /\ ac_beating h = false /\ Get "R" (reg H) = None /\
  (match actors H !! 0%nat with Some a => running (ho_room a) | None => true end) = false /\
  ac_unsubscribed h = false /\ is_Some (host_run [HReg (Arrives 0 (ParticipantLeft "u")); HTakes 0; HDropped 0] H).
Proof.
  eexists _, _. split; [vm_compute; reflexivity|]. split; [vm_compute; reflexivity|].
  split_and!; try (vm_compute; reflexivity). vm_compute. by eexists.
Qed.
