(* ===== verification/Inbound.v ===== *)
(** * From the players' connections to the rooms

    The connections of the gateways, NATS, and an instance with its rooms, as
    one system: a connection exists after a handshake, and what it reads is
    published; the subscription that [Spawn] makes for a room is a position in
    what NATS was given, from which messages are delivered in order or dropped;
    [feedInbox] hands what they decode to into the room.  The theorems: the room
    is handed what the players said, in order; and whatever a room records of a
    player, and persists, publishes and announces about them, goes back to what
    their own connections said. *)
From Stdlib Require Import ZArith.
From stdpp Require Import base list gmap sets strings.
From S2P Require Import Prelude GoNum GoStrings Json Events Protocol Http Store Locator Room RoomRun RoomInv RoomSys RoomProps RoomBehaviour RoomTelemetry RoomProvenance Registry RegistryProps Relay Endpoint RoomHost.
Local Open Scope string_scope.
Local Open Scope Z_scope.
Local Open Scope list_scope.

(** ** The effect of an instance's step on one of its rooms *)
Section effects.
Context {L : Type} `{!RoomLocator L}.

(** The room whose subscription a step touches. *)
Definition touches (st : HostStep (L := L)) : option nat :=
  match st with HReg (SpawnStart id _) | HReg (Arrives id _) => Some id | _ => None end.

Inductive effect (st : HostStep (L := L)) (id : nat) (h : Handle) (a : Hosted) (h' : Handle) : Hosted -> Prop :=
  | ef_none : touches st <> Some id -> ac_accepted h' = ac_accepted h -> ac_feed h' = ac_feed h -> ac_fed h' = ac_fed h ->
      (ac_spawn h = Started -> ac_spawn h' = Started) -> effect st id h a h' a
  | ef_start b : st = HReg (SpawnStart id b) -> ac_accepted h' = ac_accepted h -> ac_spawn h = Claimed -> ac_spawn h' = Started ->
      ac_feed h' = (if b then Some [] else None) -> ac_fed h' = ac_fed h -> effect st id h a h' a
  | ef_arrives ev evs : st = HReg (Arrives id ev) -> ac_accepted h' = ac_accepted h -> ac_feed h = Some evs -> ac_feed h' = Some (evs ++ [ev]) ->
      ac_fed h' = ac_fed h -> ac_spawn h' = ac_spawn h -> effect st id h a h' a
  | ef_room l a' : touches st = None ->
      (exists added, ac_accepted h' = ac_accepted h ++ added /\ added ⊆ broadcast (actor (world (ho_room a')))) -> exec l (ho_room a) = Some (ho_room a') -> label_ok l -> st = HRoom id l \/ l = Consume \/ l = Close ->
      ho_feeding a' = ho_feeding a -> ac_feed h' = ac_feed h -> ac_fed h' = ac_fed h -> ac_spawn h' = ac_spawn h ->
      effect st id h a h' a'
  | ef_takes ev evs a' : touches st = None -> ac_accepted h' = ac_accepted h -> ac_feed h = Some (ev :: evs) -> ac_feed h' = Some evs -> ac_fed h' = ac_fed h ++ [ev] ->
      ac_spawn h' = ac_spawn h -> ho_room a' = ho_room a -> ho_feeding a' = Some ev -> effect st id h a h' a'
  | ef_accepts ev a' : touches st = None -> ho_feeding a = Some ev -> ho_feeding a' = None -> h' = h ->
      run [Send ev; Enqueue (length (sending (ho_room a)))] (ho_room a) = Some (ho_room a') -> effect st id h a h' a'
  | ef_dropped a' : touches st = None -> ho_feeding a' = None -> h' = h -> ho_room a' = ho_room a -> effect st id h a h' a'.

Lemma nothing_added h h' (bs : list json) :
  ac_accepted h' = ac_accepted h -> exists added, ac_accepted h' = ac_accepted h ++ added /\ added ⊆ bs.
Proof. intros ->. exists []. rewrite app_nil_r. split; [done|]. by intros b ?%elem_of_nil. Qed.

(** The registry's own steps, on the actor they are of. *)
Lemma own_step_effect l (g g' : Registry L) a :
  own_step l = true -> reg_exec l g = Some g' -> exists h h',
    handles g !! step_id l = Some h /\ handles g' = <[step_id l := h']> (handles g) /\
    ac_race h' = ac_race h /\ effect (HReg l) (step_id l) h a h' a.
Proof.
  intros Hl Hx. destruct l; try done; cbn [reg_exec step_id] in Hx |- *;
    (apply bind_Some in Hx as (h & Hh & Hx); cbn [handle_step] in Hx; unfold if_started in Hx;
     exists h; try match type of Hx with context [ac_spawn h] => destruct (ac_spawn h) eqn:Hsp; try done end;
     unfold spawn_claim, spawn_start, drain_done, drain_close, cleanup_map, cleanup_release, heartbeat, heartbeat_stop in Hx;
     repeat case_match; simplify_eq);
    try (eexists; split; [exact Hh|]; cbn; split; [reflexivity|]; split; [reflexivity|]; apply ef_none; cbn; congruence).
  - eexists. split; [exact Hh|]. cbn. split; [reflexivity|]. split; [done|]. by apply (ef_start _ _ _ _ _ true).
  - eexists. split; [exact Hh|]. cbn. split; [reflexivity|]. split; [done|]. by apply (ef_start _ _ _ _ _ false).
  - eexists. split; [exact Hh|]. cbn. split; [reflexivity|]. split; [done|]. by eapply ef_arrives.
  - exists h. rewrite insert_id by done. split_and!; try done. by apply ef_none.
Qed.

(** Actors are numbered upwards. *)
Lemma host_exec_spawned l0 st (H H' : Host (L := L)) :
  host_reachable l0 H -> host_exec st H = Some H' -> (spawned (reg H) <= spawned (reg H'))%nat.
Proof.
  intros HI%host_reachable_inv Hx. destruct (host_exec_reg_run _ _ _ _ HI Hx) as (ls & Hrun & _). generalize dependent (reg H).
  intros g. revert g. induction ls as [|l ls IH]; intros g Hrun; simpl in Hrun; [by simplify_eq|].
  apply bind_Some in Hrun as (g1 & H1%reg_exec_spawned & Hrun%IH). lia.
Qed.

(** A step of the instance starts a room, or has an effect on one. *)
Definition step_effect (st : HostStep (L := L)) (H H' : Host (L := L)) : Prop :=
  forall id h' a', handles (reg H') !! id = Some h' -> actors H' !! id = Some a' ->
    (exists raceID dist now, st = HSpawn raceID dist now /\ id = spawned (reg H) /\
       h' = new_handle raceID /\ a' = mkHosted (initial now raceID dist) None []) \/
    (exists h a, handles (reg H) !! id = Some h /\ actors H !! id = Some a /\ ac_race h' = ac_race h /\
       effect st id h a h' a').

(** The usual shape: one handle and one room are replaced. *)
Lemma step_effect_one st H r cl id h a h' a' :
  handles (reg H) !! id = Some h -> actors H !! id = Some a -> ac_race h' = ac_race h ->
  handles r = <[id := h']> (handles (reg H)) -> (touches st = None \/ touches st = Some id) -> effect st id h a h' a' ->
  step_effect st H (mkHost r (<[id := a']> (actors H)) cl).
Proof.
  intros Hh Ha Hr Hhr Ht He i x y. cbn. rewrite Hhr. intros Hx Hy. right.
  apply lookup_insert_Some in Hx as [[<- <-]|[Hne Hx]].
  - rewrite lookup_insert_eq in Hy. simplify_eq. by exists h, a.
  - rewrite lookup_insert_ne in Hy by done. exists x, y. split_and!; try done.
    apply ef_none; [destruct Ht as [-> | ->]; congruence|done..].
Qed.

(** Only a room is replaced. *)
Lemma step_effect_room st H m id a a' :
  touches st = None -> actors H !! id = Some a -> m = <[id := a']> (actors H) -> (forall h, effect st id h a h a') ->
  step_effect st H (mkHost (reg H) m (closed H)).
Proof.
  intros Ht Ha -> He i x y. cbn. intros Hx Hy. right. apply lookup_insert_Some in Hy as [[<- <-]|[Hne Hy]].
  - by exists x, a.
  - exists x, y. split_and!; try done. apply ef_none; congruence.
Qed.

Lemma close_actor_effect st id h (b : bool) r H H' :
  touches st = None ->
  handles (reg H) !! id = Some h ->
  handles r = <[id := h <| ac_done := true |> <| ac_parent_done := b |>]> (handles (reg H)) ->
  close_actor id r H = Some H' -> step_effect st H H'.
Proof.
  intros Ht Hh Hhr Hx. unfold close_actor in Hx. apply bind_Some in Hx as (a & Ha & Hx).
  apply bind_Some in Hx as (s' & Hs & Hx). simplify_eq.
  eapply step_effect_one; [exact Hh|exact Ha| |exact Hhr|by left|]; [done|]. eapply (ef_room _ _ _ _ _ Close); try done; [by apply nothing_added|]. by right; right.
Qed.

Lemma drain_effect id c H H' : host_exec (HDrain id c) H = Some H' -> step_effect (HDrain id c) H H'.
Proof.
  intros Hx. cbn [host_exec] in Hx.
  apply bind_Some in Hx as (a & Ha & Hx). apply bind_Some in Hx as (r & Hr & Hx).
  apply bind_Some in Hx as (s' & Hs & Hx). simplify_eq.
  cbn [reg_exec step_id] in Hr. apply bind_Some in Hr as (h & Hh & Hr). cbn [handle_step] in Hr.
  assert (Hdr : exists h', (handles r = <[id := h']> (handles (reg H))) /\ ac_race h' = ac_race h /\ ac_accepted h' = ac_accepted h /\
    ac_feed h' = ac_feed h /\ ac_fed h' = ac_fed h /\ ac_spawn h' = ac_spawn h).
  { unfold if_started, drain_one in Hr. destruct (ac_spawn h) eqn:Hsp, (ac_drain h), (ac_broadcast h); simplify_eq;
      (eexists; split; [reflexivity|by split_and!]). }
  destruct Hdr as (h' & Hhr & H1 & Hacc & H2 & H3 & H4). eapply step_effect_one; [exact Hh|exact Ha|exact H1|exact Hhr|by left|].
  eapply (ef_room _ _ _ _ _ Consume); try done; [by apply nothing_added|]. by right; left.
Qed.

Lemma host_exec_effect l0 st H H' :
  host_reachable l0 H -> host_step_ok st -> host_exec st H = Some H' -> step_effect st H H'.
Proof.
  intros HI%host_reachable_inv Hok Hx. assert (Hreg := reg_reachable_inv _ _ (hi_reg _ _ HI)).
  destruct st as [raceID dist nw|raceID|l|id l|id|id|id|id|id c|id]; cbn [host_exec] in Hx.
  - simplify_eq. intros id h' a'. cbn. intros Hh Ha. apply lookup_insert_Some in Hh as [[<- <-]|[Hne Hh]].
    + rewrite lookup_insert_eq in Ha. simplify_eq. left. by exists raceID, dist, nw.
    + rewrite lookup_insert_ne in Ha by done. right. exists h', a'. split_and!; try done. by apply ef_none.
  - destruct (rooms (reg H) !! raceID) as [id|] eqn:Hr.
    + destruct (ri_rooms _ Hreg _ _ Hr) as (h & Hh & _ & _). eapply (close_actor_effect _ _ _ (ac_parent_done h)); [done|exact Hh| |exact Hx].
      unfold Remove, cancel_handle. rewrite Hr. cbn. by rewrite Hh.
    + simplify_eq. intros id h a Hh Ha. right. exists h, a. split_and!; try done. by apply ef_none.
  - destruct (own_step l) eqn:Hl; [|done]. apply bind_Some in Hx as (r & Hr & Hx). simplify_eq.
    assert (Hh0 : exists h, handles (reg H) !! step_id l = Some h) by (destruct (own_step_handles l _ _ Hl Hr) as (h & _ & ? & _); eauto).
    destruct Hh0 as (h0 & Hh0). destruct (hi_actors _ _ HI _ _ Hh0) as (a & Ha & _).
    destruct (own_step_effect l _ _ a Hl Hr) as (h & h' & Hh & Hhr & Hrace & He).
    rewrite <-(insert_id _ _ _ Ha). eapply step_effect_one; [exact Hh|exact Ha|exact Hrace|exact Hhr| |exact He].
    destruct l; cbn; auto.
  - apply bind_Some in Hx as (h & Hh & Hx). apply bind_Some in Hx as (a & Ha & Hx). destruct (_ && _); [|done].
    apply bind_Some in Hx as (s' & Hs & Hx). simplify_eq. eapply step_effect_one; [done|done| |reflexivity|by left|]; [done|].
    eapply (ef_room _ _ _ _ _ l); try done; [|by left]. eexists. split; [reflexivity|].
    apply subseteq_drop.
  - apply bind_Some in Hx as (h & Hh & Hx). apply bind_Some in Hx as (a & Ha & Hx).
    destruct (ho_feeding a); [done|]. destruct (ac_feed h) as [[|ev evs]|] eqn:Hf; try done.
    apply bind_Some in Hx as (r & Hr & Hx). simplify_eq.
    cbn [reg_exec step_id] in Hr. rewrite Hh in Hr. cbn [mbind option_bind handle_step] in Hr.
    unfold if_started, feedInbox in Hr. destruct (ac_spawn h); try done. rewrite Hf in Hr.
    destruct (ac_unsubscribed h); [done|]. simplify_eq.
    eapply step_effect_one; [done|done| |reflexivity|by left|]; [done|]. by eapply ef_takes.
  - apply bind_Some in Hx as (a & Ha & Hx). apply bind_Some in Hx as (ev & Hev & Hx).
    apply bind_Some in Hx as (s' & Hs & Hx). simplify_eq. eapply step_effect_room; [done|exact Ha|done|].
    intros h. by eapply ef_accepts.
  - apply bind_Some in Hx as (a & Ha & Hx). apply bind_Some in Hx as (ev & Hev & Hx).
    destruct (done _); [|done]. simplify_eq. eapply step_effect_room; [done|exact Ha|done|]. intros h. by eapply ef_dropped.
  - apply bind_Some in Hx as (a & Ha & Hx). destruct (ho_feeding a); [done|]. apply bind_Some in Hx as (r & Hr & Hx). simplify_eq.
    destruct (feed_end_handles _ _ _ Hr) as (h & Hh & Hhr & _). rewrite <-(insert_id _ _ _ Ha).
    eapply step_effect_one; [exact Hh|exact Ha| |exact Hhr|by left|]; [done|]. by apply ef_none.
  - by eapply drain_effect.
  - apply bind_Some in Hx as (r & Hr & Hx). cbn [reg_exec step_id] in Hr. apply bind_Some in Hr as (h & Hh & Hr).
    cbn [handle_step] in Hr. simplify_eq. by eapply (close_actor_effect _ _ _ true); [done|exact Hh| |exact Hx].
Qed.

(** A room that was there still is, and the step has had an effect on it. *)
Lemma host_step_effect l0 st H H' id h a' :
  host_reachable l0 H -> host_step_ok st -> host_exec st H = Some H' -> handles (reg H) !! id = Some h ->
  actors H' !! id = Some a' -> exists h' a, actors H !! id = Some a /\ effect st id h a h' a'.
Proof.
  intros HH Hok Hx Hh Ha'. assert (Hreg := hi_reg _ _ (host_reachable_inv _ _ HH)).
  assert (Hlt := ri_fresh _ (reg_reachable_inv _ _ Hreg) id ltac:(by eexists)). assert (Hle := host_exec_spawned _ _ _ _ HH Hx).
  assert (Hreg' := hi_reg _ _ (host_reachable_inv _ _ (host_step _ _ _ _ HH Hok Hx))).
  destruct (reg_handles _ _ Hreg' id ltac:(lia)) as [h' Hh'].
  destruct (host_exec_effect _ _ _ _ HH Hok Hx id h' a' Hh' Ha') as [(? & ? & ? & _ & -> & _)|(x & a & Hx' & Ha & _ & He)]; [lia|].
  simplify_eq. by exists h', a.
Qed.
End effects.

(** ** The system *)

(** A connection: what [ServeHTTP] upgraded it for and with which token, and
    what [conn.Read] has returned since; [pl_end] tells whether [readLoop] is
    still in its loop. *)
Record Player := mkPlayer {
  pl_race : string;
  pl_user : string;
  pl_name : string;
  pl_token : string;
  pl_at : Z;
  pl_reads : list ReadResult;
  pl_end : ReadEnd
}.

Section live.
Context `{Jwt} `{Redis R} {L : Type} `{!RoomLocator L}.
Context (secret : string) (oob : float64 -> Z).

(** What NATS was given, tagged with the connection that gave it; the tags are
    history. *)
Record Live := mkLive {
  instance : Host (L := L);
  players : list Player;
  log : list (nat * (string * json));
  feeds : gmap nat Subscription
}.

Inductive LiveStep :=
  | Connects (sec now : Z) (c1 c2 : Conn) (accept : bool) (raceID token : string) (shared : Shared (R := R))
  | Reads (i : nat) (r : ReadResult)   (** [conn.Read] of connection [i] returns *)
  | Goes (st : HostStep (L := L))
  | NatsServes (id : nat)              (** the subscription of actor [id] receives *)
  | NatsSkips (id : nat).              (** its channel is full *)

(** Only the subscription hands events over, and the process itself only sends
    what [MarkActive] and [IsEvicted] send. *)
Definition allowed (st : HostStep (L := L)) : bool :=
  match st with
  | HReg (Arrives _ _) => false
  | HRoom _ (Send ev) => server_event ev
  | _ => true
  end.

(** A subscription that has ended misses whatever comes. *)
Definition su_ended (su : Subscription) : Subscription := mkSubscription (su_from su) (su_pos su) true.

(** [Spawn] subscribes: from here on, until [feedInbox] ends. *)
Definition subscribed (st : HostStep (L := L)) (s : Live) : gmap nat Subscription :=
  match st with
  | HReg (SpawnStart id true) => <[id := mkSubscription (length (log s)) (length (log s)) false]> (feeds s)
  | HFeedEnd id => alter su_ended id (feeds s)
  | _ => feeds s
  end.

Definition live_exec (st : LiveStep) (s : Live) : option Live :=
  match st with
  | Connects sec now c1 c2 accept raceID token shared =>
      match WSHandler_ServeHTTP secret sec now c1 c2 accept raceID token shared with
      | Upgraded r u d => Some (mkLive (instance s) (players s ++ [mkPlayer r u d token sec [] StillReading]) (log s) (feeds s))
      | _ => Some s
      end
  | Reads i r =>
      p ← players s !! i;
      match pl_end p with
      | StillReading =>
          let '(out, en) := readLoop (pl_race p) (pl_user p) (pl_name p) [r] [] in
          Some (mkLive (instance s)
            (<[i := mkPlayer (pl_race p) (pl_user p) (pl_name p) (pl_token p) (pl_at p) (pl_reads p ++ [r]) en]> (players s))
            (log s ++ (pair i <$> out)) (feeds s))
      | _ => None
      end
  | Goes st =>
      if allowed st then
        H' ← host_exec st (instance s); Some (mkLive H' (players s) (log s) (subscribed st s))
      else None
  | NatsServes id =>
      su ← feeds s !! id;
      h ← handles (reg (instance s)) !! id;
      m ← log s !! su_pos su;
      H' ← match room_SubscribeIn oob (ac_race h) [m.2] with
           | ev :: _ => host_exec (HReg (Arrives id ev)) (instance s)
           | [] => Some (instance s)
           end;
      Some (mkLive H' (players s) (log s)
        (<[id := mkSubscription (su_from su) (S (su_pos su)) (su_lost su)]> (feeds s)))
  | NatsSkips id =>
      su ← feeds s !! id;
      _ ← log s !! su_pos su;
      Some (mkLive (instance s) (players s) (log s)
        (<[id := mkSubscription (su_from su) (S (su_pos su)) true]> (feeds s)))
  end.

Fixpoint live_run (sts : list LiveStep) (s : Live) : option Live :=
  match sts with
  | [] => Some s
  | st :: sts' => s' ← live_exec st s; live_run sts' s'
  end.

Definition live_start (l0 : L) : Live := mkLive (mkHost (NewRegistry l0) ∅ ∅) [] [] ∅.

Definition live_step_ok (st : LiveStep) : Prop := match st with Goes st => host_step_ok st | _ => True end.

Inductive live_reachable (l0 : L) : Live -> Prop :=
  | live_init : live_reachable l0 (live_start l0)
  | live_step st s s' : live_reachable l0 s -> live_step_ok st -> live_exec st s = Some s' -> live_reachable l0 s'.

Lemma live_reachable_run l0 sts s s' :
  live_reachable l0 s -> Forall live_step_ok sts -> live_run sts s = Some s' -> live_reachable l0 s'.
Proof.
  intros Hs Hok. revert s Hs. induction Hok as [|st sts Hst _ IH]; intros s Hs Hrun; simpl in Hrun; [by simplify_eq|].
  apply bind_Some in Hrun as (s1 & H1 & Hrun). eapply IH; [|done]. by eapply live_step.
Qed.

(** ** What the players have said *)

(** The part of the log that connection [i] gave. *)
Definition own (i : nat) (lg : list (nat * (string * json))) : Nats :=
  omap (fun x => if bool_decide (x.1 = i) then Some x.2 else None) lg.

Definition events (p : Player) : list RoomEvent := events_of oob (pl_user p) (pl_name p) (pl_reads p).

(** An event was said to a race: by a connection to that race, of the user it
    is about, made with a session token for that user and that race. *)
Definition said (ps : list Player) (race : string) (ev : RoomEvent) : Prop :=
  exists i p, ps !! i = Some p /\ pl_race p = race /\ event_user ev = Some (pl_user p) /\ ev ∈ events p /\
    verifySessionToken secret (pl_at p) (pl_token p) = Some (pl_user p, race).

(** What the room side makes of the messages of a subscription so far. *)
Definition heard (race : string) (su : Subscription) (lg : list (nat * (string * json))) : list RoomEvent :=
  room_SubscribeIn oob race (take (su_pos su - su_from su) (drop (su_from su) lg.*2)).

Lemma room_SubscribeIn_app race n n' :
  room_SubscribeIn oob race (n ++ n') = room_SubscribeIn oob race n ++ room_SubscribeIn oob race n'.
Proof. unfold room_SubscribeIn, SubscribeIn, delivered. by rewrite omap_app, subscribe_app, omap_app. Qed.

Lemma heard_more race su lg lg' : (su_from su <= su_pos su <= length lg)%nat -> heard race su (lg ++ lg') = heard race su lg.
Proof.
  intros Hle. unfold heard. rewrite fmap_app. rewrite drop_app_le by (rewrite length_fmap; lia).
  by rewrite take_app_le by (rewrite length_drop, length_fmap; lia).
Qed.

Lemma heard_next race from pos lost lost' lg m : (from <= pos)%nat -> lg !! pos = Some m ->
  heard race (mkSubscription from (S pos) lost') lg =
  heard race (mkSubscription from pos lost) lg ++ room_SubscribeIn oob race [m.2].
Proof.
  intros Hle Hm. unfold heard. cbn [su_from su_pos]. rewrite <-room_SubscribeIn_app. f_equal.
  rewrite Nat.sub_succ_l by done. apply take_S_r. rewrite lookup_drop, list_lookup_fmap.
  replace (from + (pos - from))%nat with pos by lia. by rewrite Hm.
Qed.

Lemma own_app i lg lg' : own i (lg ++ lg') = own i lg ++ own i lg'.
Proof. apply omap_app. Qed.

Lemma own_tagged i j (out : Nats) : own i (pair j <$> out) = if bool_decide (j = i) then out else [].
Proof.
  unfold own. induction out as [|m out IH]; cbn; [by case_bool_decide|]. case_bool_decide; [by rewrite IH|done].
Qed.

Lemma own_none i lg : Forall (fun x : nat * (string * json) => (x.1 < i)%nat) lg -> own i lg = [].
Proof.
  unfold own. induction 1 as [|x lg Hx _ IH]; [done|]. cbn. rewrite bool_decide_false by lia. done.
Qed.

Lemma elem_of_own i m lg : (i, m) ∈ lg -> m ∈ own i lg.
Proof. intros Hm. apply list_elem_of_omap. exists (i, m). cbn. by rewrite bool_decide_true. Qed.

(** What NATS serves decodes to events with numbers in range. *)
Lemma toRoomEvent_ok env ev : (forall g, int64_ok (oob g)) -> toRoomEvent oob env = Some ev -> event_ok ev.
Proof.
  intros Hoob. unfold toRoomEvent. destruct (String.eqb _ _); [|destruct (String.eqb _ _); intros; by simplify_eq].
  destruct (DecodeClientMessage _) as [m|] eqn:Hd; [|done]. destruct (DecodeClientMessage_ok _ _ Hd) as (_ & Hseq & _ & _ & Hp).
  unfold ToRoomEvent. repeat case_match; intros; simplify_eq; try done.
  split_and!; [done|by apply int_of_float64_ok|done].
Qed.

Lemma room_SubscribeIn_ok race n : (forall g, int64_ok (oob g)) -> Forall event_ok (room_SubscribeIn oob race n).
Proof.
  intros Hoob. apply Forall_forall. intros ev (env & _ & He)%list_elem_of_omap. by eapply toRoomEvent_ok.
Qed.

Lemma elem_of_room_SubscribeIn race m n ev : m ∈ n -> ev ∈ room_SubscribeIn oob race [m] -> ev ∈ room_SubscribeIn oob race n.
Proof.
  intros (n1 & n2 & ->)%list_elem_of_split Hev. change (m :: n2) with ([m] ++ n2).
  rewrite !room_SubscribeIn_app, !elem_of_app. auto.
Qed.

(** ** The invariant *)

Record player_ok (lg : list (nat * (string * json))) (i : nat) (p : Player) : Prop := {
  po_own : readLoop (pl_race p) (pl_user p) (pl_name p) (pl_reads p) [] = (own i lg, pl_end p);
  po_token : verifySessionToken secret (pl_at p) (pl_token p) = Some (pl_user p, pl_race p)
}.

(** What was handed to a room, or waits for [feedInbox]. *)
Definition handed (h : Handle) : list RoomEvent := ac_fed h ++ default [] (ac_feed h).

Definition feed_ok (lg : list (nat * (string * json))) (su : option Subscription) (h : Handle) : Prop :=
  match su with
  | None => ac_feed h = None /\ ac_fed h = []
  | Some su => ac_spawn h = Started /\ is_Some (ac_feed h) /\ (su_from su <= su_pos su <= length lg)%nat /\
      handed h `sublist_of` heard (ac_race h) su lg /\ (su_lost su = false -> handed h = heard (ac_race h) su lg)
  end.

Record room_ok (P : RoomEvent -> Prop) (h : Handle) (a : Hosted) : Prop := {
  ro_room : exists dist, backed_sys dist P (ho_room a) /\ Forall (backed_frame dist P) (ac_accepted h);
  ro_feed : Forall (known P) (default [] (ac_feed h));
  ro_feeding ev : ho_feeding a = Some ev -> known P ev
}.

Record live_inv (l0 : L) (s : Live) : Prop := {
  li_host : host_reachable l0 (instance s);
  li_players i p : players s !! i = Some p -> player_ok (log s) i p;
  li_tags : Forall (fun x => (x.1 < length (players s))%nat) (log s);
  li_feeds id h : handles (reg (instance s)) !! id = Some h -> feed_ok (log s) (feeds s !! id) h;
  li_open id su h : feeds s !! id = Some su -> handles (reg (instance s)) !! id = Some h -> su_lost su = false ->
    ac_unsubscribed h = false;
  li_dom id : is_Some (feeds s !! id) -> (id < spawned (reg (instance s)))%nat;
  li_rooms id h a : handles (reg (instance s)) !! id = Some h -> actors (instance s) !! id = Some a ->
    room_ok (said (players s) (ac_race h)) h a
}.

Lemma room_ok_mono (P Q : RoomEvent -> Prop) h a : (forall ev, P ev -> Q ev) -> room_ok P h a -> room_ok Q h a.
Proof.
  intros HPQ [(d & H1 & Hf) H2 H3]. split; [|..].
  - exists d. split; [by eapply backed_sys_mono|]. eapply Forall_impl; [exact Hf|]. intros b. by apply backed_frame_mono.
  - eapply Forall_impl; [exact H2|]. intros ev. by apply known_mono.
  - intros ev Hev. eapply known_mono; [exact HPQ|auto].
Qed.

Lemma feed_ok_more lg lg' su h : feed_ok lg su h -> feed_ok (lg ++ lg') su h.
Proof.
  destruct su as [su|]; [|done]. intros (H1 & H2 & H3 & H4 & H5).
  cbn. rewrite heard_more by done. split_and!; try done; [lia|]. rewrite length_app. lia.
Qed.

(** ** Its steps *)

Lemma upgraded_token sec now c1 c2 accept raceID token (shared : Shared (R := R)) r u d :
  WSHandler_ServeHTTP secret sec now c1 c2 accept raceID token shared = Upgraded r u d ->
  verifySessionToken secret sec token = Some (u, r).
Proof.
  unfold WSHandler_ServeHTTP. destruct (verifySessionToken secret sec token) as [[u' r']|]; [|done].
  destruct (String.eqb_spec r' raceID) as [->|]; simpl; [|done]. repeat case_match; intros; by simplify_eq.
Qed.

Lemma live_inv_connects l0 sec now c1 c2 accept raceID token shared s s' :
  live_inv l0 s -> live_exec (Connects sec now c1 c2 accept raceID token shared) s = Some s' -> live_inv l0 s'.
Proof.
  intros HI Hx. cbn [live_exec] in Hx. destruct (WSHandler_ServeHTTP _ _ _ _ _ _ _ _ _) as [| |r u d] eqn:Hup; simplify_eq; try done.
  destruct HI as [H1 H2 H3 H4 Hop H5 H6]. split; cbn; try done.
  - intros i p [Hi|[Hle Hi]]%lookup_app_Some; [by apply H2|]. apply list_lookup_singleton_Some in Hi as [Hi <-].
    split; cbn; [|by eapply upgraded_token]. rewrite own_none; [done|]. eapply Forall_impl; [exact H3|]. cbn. lia.
  - eapply Forall_impl; [exact H3|]. intros x Hlt. rewrite length_app. cbn in *. lia.
  - intros id h a Hh Ha. eapply room_ok_mono; [|by eapply H6]. intros ev (i & p & Hp & ?). exists i, p.
    split; [|done]. by apply lookup_app_l_Some.
Qed.

Lemma live_inv_reads l0 i r s s' :
  live_inv l0 s -> live_exec (Reads i r) s = Some s' -> live_inv l0 s'.
Proof.
  intros HI Hx. cbn [live_exec] in Hx. apply bind_Some in Hx as (p & Hp & Hx). destruct (pl_end p) eqn:Hend; try done.
  destruct (readLoop _ _ _ [r] []) as [out en] eqn:Hr. simplify_eq. destruct HI as [H1 H2 H3 H4 Hop H5 H6].
  assert (Hlt : (i < length (players s))%nat) by by eapply lookup_lt_Some.
  split; cbn -[readLoop]; try done.
  - intros j q Hq. apply list_lookup_insert_Some in Hq as [(<- & <- & _)|[Hne Hq]].
    + destruct (H2 _ _ Hp) as [Ho Ht]. split; cbn -[readLoop]; [|done].
      rewrite readLoop_snoc, Ho, Hend, own_app, own_tagged, bool_decide_true by done. rewrite readLoop_app. by rewrite Hr.
    + destruct (H2 _ _ Hq) as [Ho Ht]. split; [|done]. by rewrite own_app, own_tagged, bool_decide_false, app_nil_r.
  - rewrite length_insert. apply Forall_app_2; [done|]. apply Forall_fmap, Forall_true. intros x. exact Hlt.
  - intros id h Hh. by apply feed_ok_more, H4.
  - intros id h a Hh Ha. eapply room_ok_mono; [|by eapply H6]. intros ev (j & q & Hq & Hrace & Hu & Hev & Ht).
    destruct (decide (i = j)) as [<-|Hne]; [|exists j, q; by rewrite list_lookup_insert_ne].
    rewrite Hp in Hq. injection Hq as <-. eexists i, _. rewrite list_lookup_insert_eq by done. split_and!; try done.
    unfold events in *. cbn. destruct (events_of_app oob (pl_user p) (pl_name p) (pl_reads p) [r]) as (evs & ->). set_solver.
Qed.

Lemma live_inv_skips l0 id s s' :
  live_inv l0 s -> live_exec (NatsSkips id) s = Some s' -> live_inv l0 s'.
Proof.
  intros HI Hx. cbn [live_exec] in Hx. apply bind_Some in Hx as (su & Hsu & Hx). apply bind_Some in Hx as (m & Hm & Hx).
  simplify_eq. destruct HI as [H1 H2 H3 H4 Hop H5 H6]. split; cbn; try done.
  - intros j h Hh. specialize (H4 j h Hh). destruct (decide (id = j)) as [<-|Hne]; [|by rewrite lookup_insert_ne].
    rewrite lookup_insert_eq. rewrite Hsu in H4. destruct su as [from pos lost]. destruct H4 as (E1 & E2 & E3 & E4 & _).
    assert (Hlt := lookup_lt_Some _ _ _ Hm). cbn [feed_ok su_from su_pos su_lost] in *. split_and!; try done; try lia.
    rewrite (heard_next _ _ _ lost _ _ m) by (done || lia). by apply sublist_inserts_r.
  - intros j su' h [[<- <-]|[_ Hj]]%lookup_insert_Some; [done|by apply Hop].
  - intros j Hj. destruct (decide (id = j)) as [<-|Hne]; [by apply H5; eexists|]. apply H5. by rewrite lookup_insert_ne in Hj.
Qed.

Lemma effect_room_ok P st id h a h' a' :
  effect st id h a h' a' -> (forall ev, st = HRoom id (Send ev) -> server_event ev = true) ->
  (forall ev, st = HReg (Arrives id ev) -> known P ev) -> room_ok P h a -> room_ok P h' a'.
Proof.
  intros He Hsend Harr [(dist & H1 & Hfr) H2 H3]. destruct He as [_ Ha Hf _ _|b _ Ha _ _ Hf _|ev evs Hst Ha Hf Hf' _ _
    |l x _ (added & Ha & Hin) Hx Hl Hst Hfe Hf _ _|ev evs x _ Ha Hf Hf' _ _ Hro Hfe|ev x _ Hfe Hfe' -> Hx|x _ Hfe -> Hro].
  - split; [exists dist; by rewrite Ha|by rewrite Hf|done].
  - split; [exists dist; by rewrite Ha| |done]. rewrite Hf. by destruct b.
  - split; [exists dist; by rewrite Ha| |done]. rewrite Hf'. rewrite Hf in H2. cbn in *. apply Forall_app_2; [done|].
    constructor; [by apply Harr|done].
  - split; [|by rewrite Hf|by rewrite Hfe]. exists dist. assert (Hs : backed_sys dist P (ho_room x)).
    { apply (backed_exec _ _ l (ho_room a)); [by intros e [-> | ->]| |exact H1|exact Hx].
      intros ev ->. destruct Hst as [->|[?|?]]; [|done..]. right; right. by apply Hsend. }
    split; [exact Hs|]. rewrite Ha. apply Forall_app_2; [done|]. apply Forall_forall. intros b Hb. apply Hin in Hb.
    assert (Hbf := bw_frames _ _ _ (bs_world _ _ _ Hs)). rewrite Forall_forall in Hbf. by apply Hbf.
  - rewrite Hf in H2. cbn in H2. apply Forall_cons in H2 as [Hev Hevs].
    split; [rewrite Hro, Ha; by exists dist|by rewrite Hf'|]. rewrite Hfe. by intros ? [= <-].
  - cbn [run] in Hx. apply bind_Some in Hx as (s1 & Hs1 & Hx). apply bind_Some in Hx as (s2 & Hs2 & [= Hro]).
    split; [|done|by rewrite Hfe']. exists dist. split; [|done]. rewrite <-Hro.
    apply (backed_exec _ _ (Enqueue (length (sending (ho_room a)))) s1); [by intros e [?|?]|done| |exact Hs2].
    apply (backed_exec _ _ (Send ev) (ho_room a)); [by intros e [?|?]| |exact H1|exact Hs1]. intros ? [= <-]. by apply H3.
  - split; [rewrite Hro; by exists dist|done|by rewrite Hfe].
Qed.

(** Where [Spawn] subscribes. *)
Definition at_start (st : HostStep (L := L)) (id : nat) : bool :=
  match st with HReg (SpawnStart i true) => bool_decide (i = id) | _ => false end.

(** Where [feedInbox] ends. *)
Definition at_end (st : HostStep (L := L)) (id : nat) : bool :=
  match st with HFeedEnd i => bool_decide (i = id) | _ => false end.

Lemma subscribed_lookup st s id :
  subscribed st s !! id = if at_start st id then Some (mkSubscription (length (log s)) (length (log s)) false)
                          else if at_end st id then su_ended <$> feeds s !! id else feeds s !! id.
Proof.
  destruct st as [| |l| | | | |i| |]; try done.
  - destruct l as [| | |i [|]| | | | | | | | | | | | |]; try done. cbn [subscribed at_start].
    case_bool_decide as Hi; [subst; by rewrite lookup_insert_eq|by rewrite lookup_insert_ne].
  - cbn [subscribed at_start at_end]. case_bool_decide as Hi; [subst; by rewrite lookup_alter_eq|by rewrite lookup_alter_ne].
Qed.

Lemma at_start_unsubscribed l0 st id X X' h :
  at_start st id = true -> host_inv l0 X -> host_exec st X = Some X' -> handles (reg X) !! id = Some h ->
  ac_unsubscribed h = false.
Proof.
  intros Hst HI Hx Hh. destruct st as [| |l| | | | | | |]; try done.
  destruct l as [| | |i [|]| | | | | | | | | | | | |]; try done. cbn in Hst. apply bool_decide_eq_true in Hst as ->.
  cbn [host_exec own_step reg_exec step_id] in Hx. rewrite Hh in Hx. cbn [mbind option_bind handle_step] in Hx.
  assert (Hok := ri_ok _ (reg_reachable_inv _ _ (hi_reg _ _ HI)) _ _ Hh).
  destruct (ac_unsubscribed h) eqn:Hu; [|done]. rewrite (hk_subscribed _ _ Hok Hu) in Hx. done.
Qed.

Lemma at_start_touches st id : at_start st id = true -> touches st = Some id.
Proof.
  destruct st as [| |l| | | | | | |]; try done. destruct l as [| | |i [|]| | | | | | | | | | | | |]; try done. cbn.
  by case_bool_decide; intros; subst.
Qed.

(** All that matters of an actor to its subscription. *)
Lemma feed_ok_same lg su h h' :
  handed h' = handed h -> (ac_feed h' = None <-> ac_feed h = None) -> (ac_spawn h = Started -> ac_spawn h' = Started) ->
  ac_race h' = ac_race h -> feed_ok lg su h -> feed_ok lg su h'.
Proof.
  intros Hh Hf Hs Hr. destruct su as [su|]; cbn.
  - intros (H1 & H2 & H3 & H4 & H5). rewrite Hh, Hr. split_and!; auto; try lia.
    apply not_eq_None_Some. intros ?%Hf. destruct H2; congruence.
  - intros [H1 H2]. unfold handed in Hh. rewrite H1, H2 in Hh. assert (Hn : ac_feed h' = None) by by apply Hf.
    rewrite Hn in Hh. cbn in Hh. rewrite app_nil_r in Hh. by split.
Qed.

Lemma feed_ok_ended lg su h : feed_ok lg su h -> feed_ok lg (su_ended <$> su) h.
Proof.
  destruct su as [su|]; [|done]. intros (H1 & H2 & H3 & H4 & _). cbn. split; [done|]. split; [done|]. split; [done|].
  split; [exact H4|done].
Qed.

Lemma effect_feed_ok lg su st id h a h' a' :
  effect st id h a h' a' -> (forall ev, st <> HReg (Arrives id ev)) -> ac_race h' = ac_race h -> feed_ok lg su h ->
  feed_ok lg (if at_start st id then Some (mkSubscription (length lg) (length lg) false) else su) h'.
Proof.
  intros He Harr Hrace Hok. destruct (at_start st id) eqn:Hst.
  - assert (Ht := at_start_touches _ _ Hst). destruct He as [|b -> _ Hcl Hsp Hf Hfd|? ? ->| | | |]; try congruence.
    destruct b; [|done]. destruct su as [su|]; [destruct Hok; congruence|]. destruct Hok as [H1 H2].
    assert (Hnil : handed h' = []) by (unfold handed; by rewrite Hf, Hfd, H2).
    assert (Hheard : heard (ac_race h') (mkSubscription (length lg) (length lg) false) lg = []) by (unfold heard; cbn; by rewrite Nat.sub_diag).
    unfold feed_ok. rewrite Hnil, Hheard. split_and!; [done|by eexists|done|done|done|done].
  - destruct He as [Ht _ Hf Hfd Hsp|b -> _ Hcl Hsp Hf Hfd|ev evs ->|l x _ _ _ _ _ _ Hf Hfd Hsp|ev evs x _ _ Hf Hf' Hfd Hsp _ _|ev x _ _ _ -> _|x _ _ -> _];
      [|destruct b; [cbn in Hst; by rewrite bool_decide_true in Hst|]|by destruct (Harr ev)| | |done|done].
    + apply (feed_ok_same _ _ h); [unfold handed; by rewrite Hf, Hfd|by rewrite Hf|done..].
    + destruct su as [su|]; [destruct Hok; congruence|]. destruct Hok as [H1 H2]. by split; [|rewrite Hfd].
    + apply (feed_ok_same _ _ h); [unfold handed; by rewrite Hf, Hfd|by rewrite Hf|congruence|done..].
    + apply (feed_ok_same _ _ h); [unfold handed; by rewrite Hf, Hf', Hfd, <-app_assoc|by rewrite Hf, Hf'|congruence|done..].
Qed.

(** The events that reach a room have been said to its race. *)
Lemma served_said l0 s race m ev :
  live_inv l0 s -> m ∈ log s -> ev ∈ room_SubscribeIn oob race [m.2] -> said (players s) race ev.
Proof.
  intros HI Hm Hev. destruct m as [i m]. assert (Hlt := li_tags _ _ HI). rewrite Forall_forall in Hlt. specialize (Hlt _ Hm).
  apply lookup_lt_is_Some in Hlt as [p Hp]. destruct (li_players _ _ HI _ _ Hp) as [Ho Ht].
  apply elem_of_own in Hm. apply (elem_of_room_SubscribeIn race m (own i (log s))) in Hev; [|exact Hm]. cbn in Hp.
  destruct (connection_to_room oob (pl_race p) (pl_user p) (pl_name p) (pl_reads p) []) as (H1 & H2 & H3).
  rewrite Ho in H1, H2. cbn [fst] in H1, H2. destruct (decide (race = pl_race p)) as [->|Hne].
  - rewrite H1 in Hev. exists i, p. split_and!; try done. rewrite Forall_forall in H3. by apply H3.
  - rewrite (H2 race Hne) in Hev. by apply elem_of_nil in Hev.
Qed.

(** A step of the instance, or a delivery: [lg] stays, and the subscriptions are
    [fs] afterwards. *)
Lemma live_inv_host l0 s st H' fs :
  live_inv l0 s -> host_step_ok st -> host_exec st (instance s) = Some H' ->
  (forall id ev, st = HRoom id (Send ev) -> server_event ev = true) ->
  (forall id ev h, st = HReg (Arrives id ev) -> handles (reg (instance s)) !! id = Some h ->
     known (said (players s) (ac_race h)) ev) ->
  (forall id h h' a a', handles (reg (instance s)) !! id = Some h -> handles (reg H') !! id = Some h' ->
     ac_race h' = ac_race h -> effect st id h a h' a' -> feed_ok (log s) (fs !! id) h') ->
  (forall id su h h', fs !! id = Some su -> handles (reg (instance s)) !! id = Some h -> handles (reg H') !! id = Some h' ->
     su_lost su = false -> ac_unsubscribed h' = false) ->
  (forall id, is_Some (fs !! id) -> is_Some (feeds s !! id) \/ is_Some (handles (reg (instance s)) !! id)) ->
  (forall raceID dist now, st = HSpawn raceID dist now -> fs = feeds s) ->
  live_inv l0 (mkLive H' (players s) (log s) fs).
Proof.
  intros [H1 H2 H3 H4 Hop H5 H6] Hok Hx Hsend Harr Hfeed Hopen Hfs Hspawn.
  assert (Hreach : host_reachable l0 H') by by eapply host_step.
  assert (HI := host_reachable_inv _ _ H1). assert (HI' := host_reachable_inv _ _ Hreach).
  assert (Heff := host_exec_effect _ _ _ _ H1 Hok Hx). assert (Hreg := reg_reachable_inv _ _ (hi_reg _ _ HI)).
  split; cbn; try done.
  - intros id h' Hh'. destruct (hi_actors _ _ HI' _ _ Hh') as (a' & Ha' & _).
    destruct (Heff id h' a' Hh' Ha') as [(raceID & dist & now & Hst & -> & -> & _)|(h & a & Hh & _ & Hr & He)]; [|by eapply Hfeed].
    rewrite (Hspawn _ _ _ Hst). destruct (feeds s !! spawned (reg (instance s))) eqn:Hsu; [|done].
    exfalso. apply (Nat.lt_irrefl (spawned (reg (instance s)))), H5. by eexists.
  - intros id su h' Hsu Hh' Hl. destruct (hi_actors _ _ HI' _ _ Hh') as (a' & Ha' & _).
    destruct (Heff id h' a' Hh' Ha') as [(raceID & dist & now & _ & _ & -> & _)|(h & a & Hh & _)]; [done|by eapply Hopen].
  - intros id Hid. apply (host_exec_spawned _ _ _ _ H1) in Hx. destruct (Hfs id Hid) as [Hs|Hs]; [apply H5 in Hs|apply (ri_fresh _ Hreg) in Hs]; lia.
  - intros id h' a' Hh' Ha'.
    destruct (Heff id h' a' Hh' Ha') as [(raceID & dist & now & Hst & -> & -> & ->)|(h & a & Hh & Ha & Hr & He)].
    + split; [|constructor|done]. exists dist. split; [apply backed_initial|constructor].
    + rewrite Hr. eapply effect_room_ok; [exact He|exact (Hsend id)|by intros ev Hst; eapply Harr|by apply (H6 id)].
Qed.

Lemma live_inv_goes l0 st s s' :
  host_step_ok st -> live_inv l0 s -> live_exec (Goes st) s = Some s' -> live_inv l0 s'.
Proof.
  intros Hok HI Hx. cbn [live_exec] in Hx. destruct (allowed st) eqn:Hal; [|done].
  apply bind_Some in Hx as (H' & Hx & [= <-]). apply (live_inv_host l0 s st); try done.
  - by intros id ev ->.
  - by intros id ev h ->.
  - intros id h h' a a' Hh Hh' Hr He. rewrite subscribed_lookup.
    assert (Hf := effect_feed_ok (log s) (feeds s !! id) _ _ _ _ _ _ He ltac:(by intros ev ->) Hr (li_feeds _ _ HI _ _ Hh)).
    destruct (at_start st id); [exact Hf|]. destruct (at_end st id); [by apply feed_ok_ended|exact Hf].
  - intros id su h h' Hsu Hh Hh' Hl. rewrite subscribed_lookup in Hsu.
    assert (Hcl : at_end st id = false -> ac_unsubscribed h = false -> ac_unsubscribed h' = false).
    { intros He Hu. destruct (ac_unsubscribed h') eqn:Hu'; [|done].
      destruct (host_unsubscribed _ _ _ _ _ _ _ (host_reachable_inv _ _ (li_host _ _ HI)) Hx Hh Hh' Hu') as [Hu1| ->]; [congruence|].
      cbn in He. by rewrite bool_decide_true in He. }
    destruct (at_start st id) eqn:Hst.
    + assert (Hne : at_end st id = false) by (by destruct st). apply Hcl; [done|].
      exact (at_start_unsubscribed _ _ _ _ _ _ Hst (host_reachable_inv _ _ (li_host _ _ HI)) Hx Hh).
    + destruct (at_end st id) eqn:Hen; [destruct (feeds s !! id); by simplify_eq/=|].
      apply Hcl; [done|]. by eapply (li_open _ _ HI).
  - intros id. rewrite subscribed_lookup. destruct (at_start st id) eqn:Hst.
    2:{ destruct (at_end st id); [intros [? Hs]; left; destruct (feeds s !! id); [by eexists|done]|by left]. }
    intros _. right.
    destruct st as [| |l| | | | | | |]; try done. destruct l as [| | |i [|]| | | | | | | | | | | | |]; try done. cbn in Hst.
    apply bool_decide_eq_true in Hst as ->. cbn [host_exec own_step reg_exec step_id] in Hx.
    destruct (handles (reg (instance s)) !! id); [by eexists|done].
  - by intros raceID dist now ->.
Qed.

(** A message is delivered: what it decodes to is handed on. *)
Lemma feed_ok_next lg from pos lost m h h' :
  lg !! pos = Some m -> feed_ok lg (Some (mkSubscription from pos lost)) h ->
  handed h' = handed h ++ room_SubscribeIn oob (ac_race h) [m.2] -> is_Some (ac_feed h') ->
  ac_spawn h' = ac_spawn h -> ac_race h' = ac_race h -> feed_ok lg (Some (mkSubscription from (S pos) lost)) h'.
Proof.
  intros Hm (H1 & H2 & H3 & H4 & H5) Hh Hf Hs Hr. assert (Hlt := lookup_lt_Some _ _ _ Hm).
  cbn [feed_ok su_from su_pos su_lost] in *. rewrite Hr, Hh, (heard_next _ _ _ lost _ _ m) by (done || lia).
  split_and!; try done; try lia; try congruence.
  - by apply sublist_app.
  - intros Hl. by rewrite H5.
Qed.

Lemma room_SubscribeIn_one race m ev evs : room_SubscribeIn oob race [m] = ev :: evs -> evs = [].
Proof.
  unfold room_SubscribeIn, SubscribeIn, delivered, subscribe. cbn. destruct (String.eqb _ _); [|done]. cbn.
  destruct (unmarshal_Inbound _); [|done]. cbn. destruct (toRoomEvent _ _); [|done]. intros; by simplify_eq.
Qed.

Lemma live_inv_serves l0 id s s' :
  (forall g, int64_ok (oob g)) -> live_inv l0 s -> live_exec (NatsServes id) s = Some s' -> live_inv l0 s'.
Proof.
  intros Hoob HI Hx. cbn [live_exec] in Hx. apply bind_Some in Hx as ([from pos lost] & Hsu & Hx).
  apply bind_Some in Hx as (h & Hh & Hx). apply bind_Some in Hx as (m & Hm & Hx). cbn [su_from su_pos su_lost] in *.
  apply bind_Some in Hx as (H' & Hx & [= <-]). assert (Hfd := li_feeds _ _ HI _ _ Hh). rewrite Hsu in Hfd.
  destruct (room_SubscribeIn oob (ac_race h) [m.2]) as [|ev evs] eqn:Hev.
  - simplify_eq. destruct HI as [H1 H2 H3 H4 Hop H5 H6]. split; cbn; try done.
    + intros j x Hj. destruct (decide (id = j)) as [<-|Hne]; [|rewrite lookup_insert_ne by done; by apply H4].
      rewrite lookup_insert_eq. simplify_eq. eapply feed_ok_next; [exact Hm|exact Hfd| |apply Hfd|done|done].
      by rewrite Hev, app_nil_r.
    + intros j su' x [[<- <-]|[_ Hj]]%lookup_insert_Some; [exact (Hop _ _ _ Hsu)|by apply Hop].
    + intros j Hj. destruct (decide (id = j)) as [<-|Hne]; [apply H5; by eexists|]. rewrite lookup_insert_ne in Hj by done. by apply H5.
  - assert (Hin : ev ∈ room_SubscribeIn oob (ac_race h) [m.2]) by (rewrite Hev; left).
    rewrite (room_SubscribeIn_one _ _ _ _ Hev) in Hev.
    apply (live_inv_host l0 s (HReg (Arrives id ev))); try done.
    + cbn. assert (Hok := room_SubscribeIn_ok (ac_race h) [m.2] Hoob). rewrite Forall_forall in Hok. by apply Hok.
    + intros i e x [= -> ->] Hx'. simplify_eq. left. eapply served_said; [done| |exact Hin]. by eapply list_elem_of_lookup_2.
    + intros j x x' a a' Hj Hj' Hr He. destruct (decide (id = j)) as [<-|Hne].
      * rewrite lookup_insert_eq. simplify_eq. destruct He as [? _ _ _ _|b Hst|e evs' Hst _ Hf Hf' Hfd' Hsp|? ? Ht|? ? ? Ht|? ? Ht|? Ht]; try done.
        simplify_eq. eapply feed_ok_next; [exact Hm|exact Hfd| |by eexists|done|done].
        unfold handed. by rewrite Hfd', Hf, Hf', Hev, <-app_assoc.
      * rewrite lookup_insert_ne by done. apply (effect_feed_ok (log s) (feeds s !! j)) in He; [done|congruence|done|].
        by apply (li_feeds _ _ HI).
    + intros j su' x x' Hsu' Hj Hj' Hl. assert (Hu : ac_unsubscribed x = false).
      { apply lookup_insert_Some in Hsu' as [[<- <-]|[_ Hsu']]; by eapply (li_open _ _ HI). }
      destruct (ac_unsubscribed x') eqn:Hu'; [|done].
      destruct (host_unsubscribed _ _ _ _ _ _ _ (host_reachable_inv _ _ (li_host _ _ HI)) Hx Hj Hj' Hu') as [|]; [congruence|done].
    + intros j Hj. destruct (decide (id = j)) as [<-|Hne]; [right; by eexists|left]. by rewrite lookup_insert_ne in Hj.
Qed.

Lemma live_reachable_inv l0 s : (forall g, int64_ok (oob g)) -> live_reachable l0 s -> live_inv l0 s.
Proof.
  intros Hoob. induction 1 as [|st s s' _ IH Hok Hx].
  - split; cbn; try done; [constructor|by intros ? [? ?]].
  - destruct st as [sec now c1 c2 accept raceID token shared|i r|st|id|id].
    + by eapply live_inv_connects.
    + by eapply live_inv_reads.
    + by eapply live_inv_goes.
    + by eapply live_inv_serves.
    + by eapply live_inv_skips.
Qed.

(** ** What a step does to what a room holds of a user *)

Lemma effect_entry st id h a h' a' u :
  effect st id h a h' a' -> entry u (actor (world (ho_room a'))) <> entry u (actor (world (ho_room a))) ->
  exists e, st = HRoom id (Apply e) /\ exec (Apply e) (ho_room a) = Some (ho_room a').
Proof.
  intros He Hne. destruct He as [| | |l x _ _ Hx _ Hst _ _ _ _|ev evs x _ _ _ _ _ _ Hro _|ev x _ _ _ _ Hx|x _ _ _ Hro];
    try done; try (by rewrite Hro in Hne).
  - destruct (entry_exec _ _ _ _ Hx Hne) as (e & ev & rest & -> & _). destruct Hst as [Hst|[Hst|Hst]]; [|discriminate Hst..].
    exists e. by split.
  - cbn [run] in Hx. apply bind_Some in Hx as (s1 & Hs1 & Hx). apply bind_Some in Hx as (s2 & Hs2 & [= Hro]).
    rewrite <-Hro in Hne. destruct Hne. trans (entry u (actor (world s1))).
    + by eapply entry_other; [|exact Hs2].
    + by eapply entry_other; [|exact Hs1].
Qed.

Lemma live_exec_actors st s s' : live_exec st s = Some s' ->
  (exists hst, st = Goes hst /\ host_exec hst (instance s) = Some (instance s')) \/ actors (instance s') = actors (instance s).
Proof.
  intros Hx. destruct st as [sec now c1 c2 accept raceID token shared|i r|st|id|id]; cbn [live_exec] in Hx.
  - right. destruct (WSHandler_ServeHTTP _ _ _ _ _ _ _ _ _); by simplify_eq.
  - right. apply bind_Some in Hx as (p & _ & Hx). destruct (pl_end p); try done.
    destruct (readLoop _ _ _ _ _). by simplify_eq.
  - left. destruct (allowed st); [|done]. apply bind_Some in Hx as (H' & Hx & [= <-]). by exists st.
  - right. apply bind_Some in Hx as (su & _ & Hx). apply bind_Some in Hx as (h & _ & Hx). apply bind_Some in Hx as (m & _ & Hx).
    apply bind_Some in Hx as (H' & Hx & [= <-]). destruct (room_SubscribeIn _ _ _); [by simplify_eq|].
    cbn [host_exec own_step] in Hx. by apply bind_Some in Hx as (g & _ & [= <-]).
  - right. apply bind_Some in Hx as (su & _ & Hx). by apply bind_Some in Hx as (m & _ & [= <-]).
Qed.

(** ** Deliveries go on *)

Lemma serves_step l0 id h s su :
  live_inv l0 s -> handles (reg (instance s)) !! id = Some h -> feeds s !! id = Some su -> su_lost su = false ->
  (su_pos su < length (log s))%nat -> exists s' h', live_exec (NatsServes id) s = Some s' /\ log s' = log s /\
    feeds s' !! id = Some (mkSubscription (su_from su) (S (su_pos su)) (su_lost su)) /\
    handles (reg (instance s')) !! id = Some h' /\ ac_race h' = ac_race h.
Proof.
  intros HI Hh Hsu Hl [m Hm]%lookup_lt_is_Some. assert (Hf := li_feeds _ _ HI _ _ Hh). rewrite Hsu in Hf.
  destruct Hf as (_ & [evs Hevs] & _). cbn [live_exec]. rewrite Hsu. cbn [mbind option_bind]. rewrite Hh. cbn [mbind option_bind].
  rewrite Hm. cbn [mbind option_bind]. destruct (room_SubscribeIn oob (ac_race h) [m.2]) as [|ev rest]; cbn [mbind option_bind].
  - eexists _, h. split; [done|]. cbn. by rewrite lookup_insert_eq.
  - cbn [host_exec own_step reg_exec step_id]. rewrite Hh. cbn [mbind option_bind handle_step].
    rewrite Hevs, (li_open _ _ HI _ _ _ Hsu Hh Hl). cbn [mbind option_bind].
    eexists _, _. split; [done|]. cbn. by rewrite !lookup_insert_eq.
Qed.

(** With a delivery for each message that is left, the room is handed all. *)
Lemma catches_up l0 n s id h su :
  (forall g, int64_ok (oob g)) -> live_inv l0 s -> handles (reg (instance s)) !! id = Some h -> feeds s !! id = Some su ->
  su_lost su = false -> (length (log s) - su_pos su)%nat = n ->
  exists s' h', live_run (replicate n (NatsServes id)) s = Some s' /\ handles (reg (instance s')) !! id = Some h' /\
    handed h' = room_SubscribeIn oob (ac_race h) (drop (su_from su) (log s).*2).
Proof.
  intros Hoob. revert s h su. induction n as [|n IH]; intros s h su HI Hh Hsu Hl Hn.
  - exists s, h. split; [done|]. split; [done|]. assert (Hf := li_feeds _ _ HI _ _ Hh). rewrite Hsu in Hf.
    destruct Hf as (_ & _ & Hle & _ & Hall). rewrite (Hall Hl). unfold heard. f_equal. apply take_ge.
    rewrite length_drop, length_fmap. lia.
  - destruct (serves_step _ _ _ _ _ HI Hh Hsu Hl ltac:(lia)) as (s1 & h1 & Hx & Hlog & Hsu1 & Hh1 & Hr1).
    destruct (IH s1 h1 _ (live_inv_serves _ _ _ _ Hoob HI Hx) Hh1 Hsu1 Hl) as (s' & h' & Hrun & Hh' & Hhd); [cbn; rewrite Hlog; lia|].
    exists s', h'. cbn [replicate live_run]. rewrite Hx. cbn [mbind option_bind]. split; [done|]. split; [done|].
    by rewrite Hhd, Hr1, Hlog.
Qed.

(** Every frame a room has broadcast is backed by what was said to its race. *)
Lemma frames_backed l0 s id h a b :
  live_inv l0 s -> handles (reg (instance s)) !! id = Some h -> actors (instance s) !! id = Some a -> b ∈ ac_accepted h ->
  backed_frame (distanceMeters (actor (world (ho_room a)))) (said (players s) (ac_race h)) b.
Proof.
  intros HI Hh Ha. destruct (li_rooms _ _ HI _ _ _ Hh Ha) as [(dist & [[[-> _ _] _ _] _ _ _] & Hfr) _ _].
  rewrite Forall_forall in Hfr. apply Hfr.
Qed.

(** ** The theorems *)

Definition option_list {A} (o : option A) : list A := match o with Some x => [x] | None => [] end.

(** C23: what a room is handed is what the players said. In every reachable state
    of the system, for every room with a subscription: the events handed over so
    far and those waiting for [feedInbox] are, in order and none twice, events
    its race's messages decode to since it subscribed - all of them, unless NATS
    dropped some or the subscription has ended with the process; while neither is
    so, one delivery for each message that is left is enough
    for everything published since; as long as the room's context is not done
    they have been accepted by the inbox, are in [Send], or wait. The messages are the players': every
    one is from a connection, and for the race of that connection its messages
    decode exactly to the events of the frames it has read, in order, and for any
    other race to nothing. *)
Theorem events_reach_room l0 s id h a su :
  (forall g, int64_ok (oob g)) -> live_reachable l0 s ->
  handles (reg (instance s)) !! id = Some h -> actors (instance s) !! id = Some a -> feeds s !! id = Some su ->
  (handed h `sublist_of` heard (ac_race h) su (log s) /\
   (su_lost su = false -> handed h = heard (ac_race h) su (log s)) /\
   (su_lost su = false -> exists s' h',
      live_run (replicate (length (log s) - su_pos su) (NatsServes id)) s = Some s' /\
      handles (reg (instance s')) !! id = Some h' /\
      handed h' = room_SubscribeIn oob (ac_race h) (drop (su_from su) (log s).*2)) /\
   (done (actor (world (ho_room a))) = false ->
      handed h = ho_accepted a ++ option_list (ho_feeding a) ++ default [] (ac_feed h))) /\
  (forall m, m ∈ log s -> is_Some (players s !! m.1)) /\
  (forall i p, players s !! i = Some p ->
     room_SubscribeIn oob (pl_race p) (own i (log s)) = events p /\
     forall race, race <> pl_race p -> room_SubscribeIn oob race (own i (log s)) = []).
Proof.
  intros Hoob HI%live_reachable_inv Hh Ha Hsu; [|done]. assert (Hf := li_feeds _ _ HI _ _ Hh). rewrite Hsu in Hf.
  destruct Hf as (_ & _ & _ & Hsub & Hall). split_and!; try done.
  - intros Hl. by eapply catches_up.
  - intros Hd. destruct (hi_actors _ _ (host_reachable_inv _ _ (li_host _ _ HI)) _ _ Hh) as (a' & Ha' & [_ _ _ _ _ _ Hfed]).
    simplify_eq. unfold handed. by rewrite (Hfed Hd), <-app_assoc.
  - intros m Hm. assert (Hlt := li_tags _ _ HI). rewrite Forall_forall in Hlt. by apply lookup_lt_is_Some, Hlt.
  - intros i p Hp. assert (Ho := po_own _ _ _ (li_players _ _ HI _ _ Hp)).
    destruct (connection_to_room oob (pl_race p) (pl_user p) (pl_name p) (pl_reads p) []) as (H1 & H2 & _).
    rewrite Ho in H1, H2. by split.
Qed.

(** C3: a room knows of a player only what that player's own connections said.
    In every reachable state, whatever anybody else sends: everyone a room holds
    has joined with a valid token of theirs for this race; the progress it has
    of them is that of a telemetry frame of theirs, or none; who has finished has
    reported the whole distance; who counts as disconnected, or has departed,
    had a connection of theirs drop or has left. The same holds of what the room
    has persisted, published and recorded - every workout sample, every result
    with its pace and its time, every lobby departure and every eviction - and of
    every frame it has ever broadcast. *)
Theorem room_knows_what_was_said l0 s id h a :
  (forall g, int64_ok (oob g)) -> live_reachable l0 s ->
  handles (reg (instance s)) !! id = Some h -> actors (instance s) !! id = Some a ->
  let r := actor (world (ho_room a)) in
  let P := said (players s) (ac_race h) in
  (forall u p, participants r !! u = Some p -> backed (distanceMeters r) P u p) /\
  (forall u p, departedParticipants r !! u = Some p -> backed (distanceMeters r) P u p /\ gone P u) /\
  (forall c, c ∈ calls (world (ho_room a)) -> backed_call (distanceMeters r) P c) /\
  (forall b, b ∈ ac_accepted h -> backed_frame (distanceMeters r) P b).
Proof.
  intros Hoob HI%live_reachable_inv Hh Ha; [|done]. destruct (li_rooms _ _ HI _ _ _ Hh Ha) as [(dist & [[[Hd Hl Hg] Hc _] _ _ _] & Hfr) _ _].
  cbn zeta. split_and!; [by rewrite Hd..| |by intros b; eapply frames_backed].
  rewrite Hd. by rewrite Forall_forall in Hc.
Qed.

(** C4: nobody acts for another. If any step of the system changes what a room
    holds under a user - live, departed or evicted - then the step is the room
    handling an event of that very user: one that a connection of theirs, with a
    valid token for this race, has sent, or the end of the grace period after
    such a connection dropped. *)
Theorem nobody_acts_for_another l0 st s s' id h a a' u :
  (forall g, int64_ok (oob g)) -> live_reachable l0 s -> live_step_ok st -> live_exec st s = Some s' ->
  handles (reg (instance s)) !! id = Some h ->
  actors (instance s) !! id = Some a -> actors (instance s') !! id = Some a' ->
  entry u (actor (world (ho_room a'))) <> entry u (actor (world (ho_room a))) ->
  exists e ev, st = Goes (HRoom id (Apply e)) /\ head (inbox (actor (world (ho_room a)))) = Some ev /\
    (event_user ev = Some u /\ said (players s) (ac_race h) ev \/
     ev = ParticipantEvicted u /\ said (players s) (ac_race h) (ParticipantDisconnected u)).
Proof.
  intros Hoob HI%live_reachable_inv Hok Hx Hh0 Ha Ha' Hne; [|done].
  destruct (live_exec_actors _ _ _ Hx) as [(hst & -> & Hh)|Heq]; [|rewrite Heq in Ha'; congruence]. cbn in Hok.
  destruct (host_step_effect _ _ _ _ _ _ _ (li_host _ _ HI) Hok Hh Hh0 Ha') as (h' & b & Hb & He).
  simplify_eq. destruct (effect_entry _ _ _ _ _ _ _ He Hne) as (e & -> & Hxe).
  destruct (entry_exec _ _ _ _ Hxe Hne) as (e' & ev & rest & _ & Hin & Hu & Hq & Hev).
  exists e, ev. split; [done|]. split; [by rewrite Hin|].
  destruct (li_rooms _ _ HI _ _ _ Hh0 Ha) as [(dist & [[[_ Hl _] _ _] Hbx _ _] & _) _ _]. rewrite Hin in Hbx.
  apply Forall_cons in Hbx as [[Hk|[Hk|Hk]] _]; [by left| |].
  - right. destruct ev as [| | |v| | | | |]; try done. cbn in Hu. injection Hu as ->. split; [done|].
    destruct (Hev u eq_refl) as (p & Hp & Hd). apply (bk_dropped _ _ _ _ (Hl _ _ Hp)). by left.
  - destruct ev as [| | | | |v reply| |txt|]; try done. by destruct (Hq v reply).
Qed.
End live.

(** ** A player joins and drops *)

Definition player_steps : list (LiveStep (R := MemRedis) (L := unit)) :=
  [Goes (HSpawn "race1" 5 0); Goes (HReg (SpawnClaim 0 ())); Goes (HReg (SpawnStart 0 true));
   Connects 2000 5 Up Up true "race1" "sk" demo_shared;
   Reads 0 (ReadFrame (Some (JObj [("type", JStr "join_race")])) None Up); NatsServes 0;
   Goes (HTakes 0); Goes (HAccepts 0); Goes (HRoom 0 (Apply (env_at 7)))].

(** The connection drops, and the room is about to handle that. *)
Definition drop_steps : list (LiveStep (R := MemRedis) (L := unit)) :=
  [Reads 0 (ReadErr false Up); NatsServes 0; Goes (HTakes 0); Goes (HAccepts 0)].

Definition demo_live_run (sts : list (LiveStep (R := MemRedis) (L := unit))) : option (Live (L := unit)) :=
  live_run "k" (fun _ => 0) sts (live_start ()).

Lemma player_steps_ok : Forall live_step_ok (player_steps ++ drop_steps).
Proof. repeat constructor; apply env_at_ok. Qed.

Lemma no_overflow : forall g : float64, int64_ok ((fun _ => 0) g).
Proof. intros g. by split. Qed.

Lemma player_reachable sts s :
  Forall live_step_ok sts -> demo_live_run sts = Some s -> live_reachable "k" (fun _ => 0) () s.
Proof. intros Hok Hrun. eapply live_reachable_run; [apply live_init|exact Hok|exact Hrun]. Qed.

Lemma events_reach_room_witness : exists s h a,
  demo_live_run (player_steps ++ drop_steps) = Some s /\ handles (reg (instance s)) !! 0%nat = Some h /\
  actors (instance s) !! 0%nat = Some a /\
  ho_accepted a = [ParticipantJoined "u1" "u1"; ParticipantDisconnected "u1"] /\
  handed h = [ParticipantJoined "u1" "u1"; ParticipantDisconnected "u1"].
Proof.
  assert (Hrun : exists s h a su, demo_live_run (player_steps ++ drop_steps) = Some s /\
    handles (reg (instance s)) !! 0%nat = Some h /\ actors (instance s) !! 0%nat = Some a /\ feeds s !! 0%nat = Some su /\
    (su_lost su = false /\ done (actor (world (ho_room a))) = false /\ ho_feeding a = None /\ ac_feed h = Some []) /\
    heard (fun _ => 0) (ac_race h) su (log s) = [ParticipantJoined "u1" "u1"; ParticipantDisconnected "u1"]).
  { eexists _, _, _, _. do 4 (split; [vm_compute; reflexivity|]). split; [by split_and!|]. vm_compute. reflexivity. }
  destruct Hrun as (s & h & a & su & Hrun & Hh & Ha & Hsu & (Hl & Hd & Hfe & Hf) & Hheard).
  destruct (events_reach_room "k" (fun _ => 0) () s 0 h a su no_overflow (player_reachable _ _ player_steps_ok Hrun) Hh Ha Hsu)
    as ((_ & H1 & _ & H2) & _).
  exists s, h, a. rewrite (H1 Hl), Hheard in *. specialize (H2 Hd). rewrite Hfe, Hf in H2. cbn in H2. rewrite app_nil_r in H2.
  by split_and!.
Defined.

Lemma room_knows_what_was_said_witness : exists s h a p,
  demo_live_run (player_steps ++ drop_steps) = Some s /\ handles (reg (instance s)) !! 0%nat = Some h /\
  actors (instance s) !! 0%nat = Some a /\ participants (actor (world (ho_room a))) !! "u1" = Some p /\
  said "k" (fun _ => 0) (players s) (ac_race h) (ParticipantJoined "u1" (ps_DisplayName p)).
Proof.
  assert (Hrun : exists s h a p, demo_live_run (player_steps ++ drop_steps) = Some s /\
    handles (reg (instance s)) !! 0%nat = Some h /\ actors (instance s) !! 0%nat = Some a /\
    participants (actor (world (ho_room a))) !! "u1" = Some p).
  { eexists _, _, _, _. by do 3 (split; [vm_compute; reflexivity|]). }
  destruct Hrun as (s & h & a & p & Hrun & Hh & Ha & Hp).
  destruct (room_knows_what_was_said "k" (fun _ => 0) () s 0 h a no_overflow (player_reachable _ _ player_steps_ok Hrun) Hh Ha)
    as (H1 & _).
  exists s, h, a, p. split_and!; [exact Hrun|exact Hh|exact Ha|exact Hp|]. apply (bk_joined _ _ _ _ (H1 _ _ Hp)).
Defined.

(** The room handles the drop: it is the player's own. *)
Lemma nobody_acts_for_another_witness : exists s s',
  demo_live_run (player_steps ++ drop_steps) = Some s /\
  live_exec "k" (fun _ => 0) (Goes (HRoom 0 (Apply (env_at 9)))) s = Some s' /\
  said "k" (fun _ => 0) (players s) "race1" (ParticipantDisconnected "u1").
Proof.
  assert (Hrun : exists s s' h a a', demo_live_run (player_steps ++ drop_steps) = Some s /\
    live_exec "k" (fun _ => 0) (Goes (HRoom 0 (Apply (env_at 9)))) s = Some s' /\
    handles (reg (instance s)) !! 0%nat = Some h /\ actors (instance s) !! 0%nat = Some a /\
    actors (instance s') !! 0%nat = Some a' /\ ac_race h = "race1" /\
    head (inbox (actor (world (ho_room a)))) = Some (ParticipantDisconnected "u1") /\
    (ps_DisconnectedAt <$> participants (actor (world (ho_room a))) !! "u1") <>
    (ps_DisconnectedAt <$> participants (actor (world (ho_room a'))) !! "u1")).
  { eexists _, _, _, _, _. do 5 (split; [vm_compute; reflexivity|]). split; [reflexivity|]. split; [reflexivity|].
    vm_compute. discriminate. }
  destruct Hrun as (s & s' & h & a & a' & Hrun & Hx & Hh & Ha & Ha' & Hrace & Hin & Hne).
  destruct (nobody_acts_for_another "k" (fun _ => 0) () (Goes (HRoom 0 (Apply (env_at 9)))) s s' 0 h a a' "u1"
    no_overflow (player_reachable _ _ player_steps_ok Hrun) (env_at_ok 9) Hx Hh Ha Ha') as (e & ev & _ & Hev & Hs).
  - intros Heq. apply Hne. unfold entry in Heq. by injection Heq as -> _ _.
  - rewrite Hin in Hev. injection Hev as <-. rewrite Hrace in Hs. exists s, s'. split_and!; [exact Hrun|exact Hx|].
    destruct Hs as [[_ Hs]|[Hs _]]; [exact Hs|discriminate Hs].
Defined.
