(* ===== verification/EndToEnd.v ===== *)
(** * From one player to another

    [Inbound], from the players' connections to the rooms, and [Delivery], from
    the rooms' broadcasts to the players' connections, as one system: the
    registry of the instance is the same, and so are the connections - a
    handshake that succeeds both starts a reader and attaches to the hub of the
    race.  The theorem: what is ever written to a player's socket is what the
    room of the race broadcast, in its order, and says of every player what that
    player's own connections said. *)
From Stdlib Require Import ZArith.
From stdpp Require Import base list gmap sets strings.
From S2P Require Import Prelude GoNum GoStrings Json Events Protocol Http Store Locator Room RoomRun RoomInv RoomProvenance Registry RegistryProps Relay RaceHub RaceHubProps Delivery Endpoint RoomHost Inbound.
Local Open Scope string_scope.
Local Open Scope Z_scope.
Local Open Scope list_scope.

(** ** The race of a connection *)

(** A step keeps the connections, each with its race. *)
Definition same_races (g g' : Gateway) : Prop :=
  forall i k', connections g' !! i = Some k' -> exists k, connections g !! i = Some k /\ k_race k' = k_race k.

Lemma same_races_conns g g' : connections g' = connections g -> same_races g g'.
Proof. intros Heq i k Hk. rewrite Heq in Hk. by exists k. Qed.

Lemma same_races_put g g' i k k' : connections g' = <[i := k']> (connections g) -> connections g !! i = Some k ->
  k_race k' = k_race k -> same_races g g'.
Proof.
  intros Heq Hk Hr j x Hx. rewrite Heq in Hx. apply lookup_insert_Some in Hx as [[<- <-]|[_ Hx]]; [by exists k|by exists x].
Qed.

Lemma same_races_imap g g' (f : nat -> Connection -> Connection) :
  connections g' = map_imap (fun i k => Some (f i k)) (connections g) -> (forall i k, k_race (f i k) = k_race k) -> same_races g g'.
Proof.
  intros Heq Hf j x Hx. rewrite Heq, map_lookup_imap in Hx. apply bind_Some in Hx as (k & Hk & [= <-]). exists k. by rewrite Hf.
Qed.

Lemma hub_step_races l i h g g' : hub_step l i h g = Some g' -> same_races g g'.
Proof.
  intros Hx. destruct l; cbn [hub_step] in Hx; try done.
  - simplify_eq. by apply same_races_conns.
  - destruct (h_closed h); [done|]. unfold hub_receive in Hx. destruct (h_out h) as [|env rest]; [done|]. simplify_eq.
    repeat case_match; [|by apply same_races_conns..].
    apply (same_races_imap _ _ (fun i k => if bool_decide (i ∈ h_conns (h <| h_out := rest |>)) then offer (out_Payload env) k else k)); [done|].
    intros j k. case_bool_decide; [apply offer_race|done].
  - destruct (h_closed h); simplify_eq. by apply same_races_conns.
  - destruct (_ && _); simplify_eq. by apply same_races_conns.
  - unfold disconnectAll in Hx. destruct (h_closed h); simplify_eq.
    apply (same_races_imap _ _ (fun i k => if bool_decide (i ∈ h_conns h) then k <| k_cancelled := true |> else k)); [done|].
    intros j k. by case_bool_decide.
  - destruct (_ && _); simplify_eq. by apply same_races_conns.
Qed.

Lemma detach_conns r g : connections (detach r g) = connections g.
Proof. unfold detach, signalStop. repeat case_match; done. Qed.

Lemma conn_step_races l i k h g g' :
  connections g !! i = Some k -> conn_step l i k h g = Some g' -> same_races g g'.
Proof.
  intros Hk Hx. destruct l; cbn [conn_step] in Hx; try done; destruct (k_phase k); try done.
  - unfold registerConn in Hx. simplify_eq. eapply (same_races_put _ _ i k); [|exact Hk|]; by destruct (h_closed h).
  - apply bind_Some in Hx as (k' & Hw & [= <-]). apply (same_races_put _ _ i k k'); [done|exact Hk|].
    unfold write_one in Hw. destruct (k_writer k), (k_buf k); simplify_eq; by destruct ok.
  - destruct (k_writer k), (h_closed h); simplify_eq; by eapply (same_races_put _ _ i k).
  - destruct (k_writer k), (k_buf k); simplify_eq; by eapply (same_races_put _ _ i k).
  - destruct (k_writer k), (k_cancelled k); simplify_eq; by eapply (same_races_put _ _ i k).
  - destruct (k_reading k); simplify_eq; by eapply (same_races_put _ _ i k).
  - destruct (k_writer k), (k_reading k); simplify_eq; unfold unregisterConn.
    eapply (same_races_put _ _ i k); [|exact Hk|]; by destruct (h_closed h).
  - simplify_eq. eapply (same_races_put _ _ i k); [by rewrite detach_conns|exact Hk|done].
Qed.

(** Only [attach] makes connections, for the race it is given. *)
Lemma g_exec_races l g g' i k' :
  g_exec l g = Some g' -> connections g' !! i = Some k' ->
  (exists k, connections g !! i = Some k /\ k_race k' = k_race k) \/ exists err, l = GAttach (k_race k') err.
Proof.
  intros Hx Hk'. destruct l as [raceID err| | | | | | | | | | | | | |]; cbn [g_exec] in Hx;
    try (apply bind_Some in Hx as (hub & _ & Hx); left; exact (hub_step_races _ _ _ _ _ Hx _ _ Hk'));
    try (apply bind_Some in Hx as (con & Hcon & Hx); apply bind_Some in Hx as (hub & _ & Hx); left;
         exact (conn_step_races _ _ _ _ _ _ Hcon Hx _ _ Hk')).
  destruct (attach raceID err g) as [g1 [h|e]] eqn:Ha; simplify_eq.
  - assert (Hc : connections g1 = connections g) by (unfold attach in Ha; repeat case_match; by simplify_eq).
    cbn in Hk'. apply lookup_insert_Some in Hk' as [[_ <-]|[_ Hk']]; [right; by exists err|left].
    rewrite Hc in Hk'. by exists k'.
  - left. assert (Hc : connections g' = connections g) by (unfold attach in Ha; repeat case_match; by simplify_eq).
    rewrite Hc in Hk'. by exists k'.
Qed.

(** ** The system *)
Section whole.
Context `{Jwt} `{Redis R} {L : Type} `{!RoomLocator L}.
Context (secret : string) (oob : float64 -> Z).
Abbreviation live_exec' := (live_exec (R := R) (L := L) secret oob).

(** The two halves share the registry, which is the instance's. *)
Record Whole := mkWhole { live : Live (L := L); gate : Gateway; outbound : gmap nat Subscription }.

Definition sys_of (w : Whole) : System := mkSystem (reg (instance (live w))) (gate w) (outbound w).

Inductive WholeStep :=
  | Joins (sec now : Z) (c1 c2 : Conn) (accept : bool) (raceID token : string) (shared : Shared (R := R))
      (subscribe_err : option error)              (** [ServeHTTP], up to [attach] in [serveConn] *)
  | Inner (st : LiveStep (R := R) (L := L))       (** a reader, NATS on the way in, or the instance *)
  | Outer (st : SysStep (L := L)).                (** NATS on the way out, a hub, or a writer *)

Definition handshakes (st : LiveStep (R := R) (L := L)) : bool :=
  match st with Connects _ _ _ _ _ _ _ _ => true | _ => false end.

Definition outwards (st : SysStep (L := L)) : bool :=
  match st with ServiceStep _ | GatewayStep (GAttach _ _) => false | _ => true end.

Definition whole_exec (st : WholeStep) (w : Whole) : option Whole :=
  match st with
  | Joins sec now c1 c2 accept raceID token shared err =>
      s' ← live_exec' (Connects sec now c1 c2 accept raceID token shared) (live w);
      match WSHandler_ServeHTTP secret sec now c1 c2 accept raceID token shared with
      | Upgraded r _ _ =>
          match snd (attach r err (gate w)) with
          | inr _ => Some w   (** the connection is closed at once *)
          | inl _ =>
              o ← sys_exec (GatewayStep (GAttach r err)) (sys_of w);
              Some (mkWhole s' (gateway o) (subscriptions o))
          end
      | _ => Some w
      end
  | Inner st =>
      if handshakes st then None else
      s' ← live_exec' st (live w); Some (mkWhole s' (gate w) (outbound w))
  | Outer st =>
      if outwards st then
        o ← sys_exec st (sys_of w); Some (mkWhole (live w) (gateway o) (subscriptions o))
      else None
  end.

Fixpoint whole_run (sts : list WholeStep) (w : Whole) : option Whole :=
  match sts with
  | [] => Some w
  | st :: sts' => w' ← whole_exec st w; whole_run sts' w'
  end.

Definition whole_start (l0 : L) : Whole := mkWhole (live_start l0) NewRaceHubRegistry ∅.

Definition whole_step_ok (st : WholeStep) : Prop := match st with Inner st => live_step_ok st | _ => True end.

Inductive whole_reachable (l0 : L) : Whole -> Prop :=
  | whole_init : whole_reachable l0 (whole_start l0)
  | whole_step st w w' : whole_reachable l0 w -> whole_step_ok st -> whole_exec st w = Some w' -> whole_reachable l0 w'.

Lemma whole_reachable_run l0 sts w w' :
  whole_reachable l0 w -> Forall whole_step_ok sts -> whole_run sts w = Some w' -> whole_reachable l0 w'.
Proof.
  intros Hw Hok. revert w Hw. induction Hok as [|st sts Hst _ IH]; intros w Hw Hrun; simpl in Hrun; [by simplify_eq|].
  apply bind_Some in Hrun as (w1 & H1 & Hrun). eapply IH; [|done]. by eapply whole_step.
Qed.

(** ** It projects to both halves *)

Record whole_inv (l0 : L) (w : Whole) : Prop := {
  wi_live : live_reachable secret oob l0 (live w);
  wi_sys : sys_reachable l0 (sys_of w);
  wi_viewer i k : connections (gate w) !! i = Some k -> exists j p, players (live w) !! j = Some p /\ pl_race p = k_race k
}.

(** Seen from the registry, a step of the first half is a run of its own. *)
Lemma live_exec_reg l0 st s s' :
  live_inv secret oob l0 s -> live_exec' st s = Some s' ->
  exists ls, reg_run ls (reg (instance s)) = Some (reg (instance s')).
Proof.
  intros HI Hx. assert (HH := host_reachable_inv _ _ (li_host _ _ _ _ HI)).
  destruct st as [sec now c1 c2 accept raceID token shared|i r|st|id|id]; cbn [live_exec] in Hx.
  - exists []. destruct (WSHandler_ServeHTTP _ _ _ _ _ _ _ _ _); by simplify_eq.
  - exists []. apply bind_Some in Hx as (p & _ & Hx). destruct (pl_end p); try done. destruct (readLoop _ _ _ _ _). by simplify_eq.
  - destruct (allowed st); [|done]. apply bind_Some in Hx as (H' & Hx & [= <-]).
    destruct (host_exec_reg_run _ _ _ _ HH Hx) as (ls & Hrun & _). by exists ls.
  - apply bind_Some in Hx as (su & _ & Hx). apply bind_Some in Hx as (h & _ & Hx). apply bind_Some in Hx as (m & _ & Hx).
    apply bind_Some in Hx as (H' & Hx & [= <-]). destruct (room_SubscribeIn _ _ _); [simplify_eq; by exists []|].
    destruct (host_exec_reg_run _ _ _ _ HH Hx) as (ls & Hrun & _). by exists ls.
  - exists []. apply bind_Some in Hx as (su & _ & Hx). by apply bind_Some in Hx as (m & _ & [= <-]).
Qed.

Lemma sys_run_service ls g g' gt su :
  reg_run ls g = Some g' -> sys_run (ServiceStep <$> ls) (mkSystem g gt su) = Some (mkSystem g' gt su).
Proof.
  revert g. induction ls as [|l ls IH]; intros g Hrun; simpl in Hrun; [by simplify_eq|].
  apply bind_Some in Hrun as (g1 & H1 & Hrun). cbn [fmap list_fmap sys_run sys_exec service]. rewrite H1. cbn. by apply IH.
Qed.

(** Connections of the gateways stay, with their race. *)
Lemma live_exec_players st s s' j p : live_exec' st s = Some s' -> players s !! j = Some p ->
  exists p', players s' !! j = Some p' /\ pl_race p' = pl_race p.
Proof.
  intros Hx Hp. destruct st as [sec now c1 c2 accept raceID token shared|i r|st|id|id]; cbn [live_exec] in Hx.
  - destruct (WSHandler_ServeHTTP _ _ _ _ _ _ _ _ _); simplify_eq; try by exists p.
    exists p. split; [|done]. cbn. by apply lookup_app_l_Some.
  - apply bind_Some in Hx as (q & Hq & Hx). destruct (pl_end q); try done. destruct (readLoop _ _ _ _ _). simplify_eq. cbn.
    destruct (decide (i = j)) as [<-|Hne]; [|exists p; by rewrite list_lookup_insert_ne].
    rewrite Hp in Hq. simplify_eq. rewrite list_lookup_insert_eq by by eapply lookup_lt_Some. by eexists.
  - destruct (allowed st); [|done]. apply bind_Some in Hx as (H' & Hx & [= <-]). by exists p.
  - apply bind_Some in Hx as (su & _ & Hx). apply bind_Some in Hx as (h & _ & Hx). apply bind_Some in Hx as (m & _ & Hx).
    apply bind_Some in Hx as (H' & Hx & [= <-]). by exists p.
  - apply bind_Some in Hx as (su & _ & Hx). apply bind_Some in Hx as (m & _ & [= <-]). by exists p.
Qed.

(** The gateway's part of a step of the second half. *)
Lemma sys_exec_outer st w o :
  sys_exec st (sys_of w) = Some o -> (forall l, st <> ServiceStep l) ->
  o = sys_of (mkWhole (live w) (gateway o) (subscriptions o)) /\
  (gateway o = gate w \/ exists l, g_exec l (gate w) = Some (gateway o) /\ (st = GatewayStep l \/ is_arrival l = true)).
Proof.
  intros Hx Hns. destruct st as [l|l|i|i]; [by destruct (Hns l)|..]; cbn [sys_exec sys_of service gateway subscriptions] in Hx.
  - destruct (is_arrival l); [done|]. apply bind_Some in Hx as (g & Hg & [= <-]). split; [done|right]. exists l. auto.
  - apply bind_Some in Hx as (su & _ & Hx). apply bind_Some in Hx as (h & _ & Hx). apply bind_Some in Hx as (m & _ & Hx).
    apply bind_Some in Hx as (g & Hg & [= <-]). split; [done|]. destruct (envelopes _ _) as [|env es]; [left; by simplify_eq|right].
    exists (GArrive i env). auto.
  - apply bind_Some in Hx as (su & _ & Hx). apply bind_Some in Hx as (m & _ & [= <-]). split; [done|by left].
Qed.

Lemma whole_inv_joins l0 sec now c1 c2 accept raceID token shared err w w' :
  whole_inv l0 w -> whole_exec (Joins sec now c1 c2 accept raceID token shared err) w = Some w' -> whole_inv l0 w'.
Proof.
  intros [HL HS HV] Hx. cbn [whole_exec] in Hx. apply bind_Some in Hx as (s' & Hl & Hx).
  assert (HL' : live_reachable secret oob l0 s') by by eapply live_step; [exact HL| |exact Hl].
  destruct (WSHandler_ServeHTTP _ _ _ _ _ _ _ _ _) as [| |r u d] eqn:Hup; [by simplify_eq..|].
  destruct (attach r err (gate w)).2; [|by simplify_eq]. apply bind_Some in Hx as (o & Ho & [= <-]).
  destruct (sys_exec_outer _ _ _ Ho ltac:(done)) as [Heq Hg].
  assert (Hs' : s' = mkLive (instance (live w)) (players (live w) ++ [mkPlayer r u d token sec [] StillReading]) (log (live w)) (feeds (live w))).
  { cbn [live_exec] in Hl. rewrite Hup in Hl. by simplify_eq. }
  split; cbn; [done| |].
  - replace (sys_of _) with o; [eapply sys_step; [exact HS|exact Ho]|]. rewrite Heq at 1. by rewrite Hs'.
  - assert (Hold : forall i k, connections (gate w) !! i = Some k -> exists j p, players s' !! j = Some p /\ pl_race p = k_race k).
    { intros i k Hk. destruct (HV _ _ Hk) as (j & p & Hp & Hr). destruct (live_exec_players _ _ _ _ _ Hl Hp) as (p' & Hp' & Hr').
      exists j, p'. split; [done|congruence]. }
    intros i k Hk. destruct Hg as [Hg|(l & Hg & Hl')]; [rewrite Hg in Hk; by eapply Hold|].
    destruct (g_exec_races _ _ _ _ _ Hg Hk) as [(k0 & Hk0 & Hkr)|(e & ->)]; [rewrite Hkr; by eapply Hold|].
    destruct Hl' as [[= <- _]|]; [|done]. rewrite Hs'. eexists (length (players (live w))), _. cbn.
    split; [by apply list_lookup_middle|done].
Qed.

Lemma whole_inv_inner l0 st w w' :
  (forall g, int64_ok (oob g)) -> live_step_ok st -> whole_inv l0 w -> whole_exec (Inner st) w = Some w' -> whole_inv l0 w'.
Proof.
  intros Hoob Hok [HL HS HV] Hx. cbn [whole_exec] in Hx. destruct (handshakes st); [done|].
  apply bind_Some in Hx as (s' & Hl & [= <-]). split; cbn; [by eapply live_step| |].
  - destruct (live_exec_reg _ _ _ _ (live_reachable_inv _ _ _ _ Hoob HL) Hl) as (ls & Hrun).
    eapply sys_reachable_run; [exact HS|]. by apply sys_run_service.
  - intros i k Hk. destruct (HV _ _ Hk) as (j & p & Hp & Hr). destruct (live_exec_players _ _ _ _ _ Hl Hp) as (p' & Hp' & Hr').
    exists j, p'. split; [done|congruence].
Qed.

Lemma whole_inv_outer l0 st w w' : whole_inv l0 w -> whole_exec (Outer st) w = Some w' -> whole_inv l0 w'.
Proof.
  intros [HL HS HV] Hx. cbn [whole_exec] in Hx. destruct (outwards st) eqn:Hout; [|done].
  apply bind_Some in Hx as (o & Ho & [= <-]).
  destruct (sys_exec_outer _ _ _ Ho ltac:(by intros l ->)) as [Heq Hg]. split; cbn; [done|rewrite <-Heq; by eapply sys_step|].
  intros i k Hk. destruct Hg as [Hg|(l & Hg & Hl)]; [rewrite Hg in Hk; by eapply HV|].
  destruct (g_exec_races _ _ _ _ _ Hg Hk) as [(k0 & Hk0 & Hkr)|(e & ->)]; [rewrite Hkr; by eapply HV|].
  by destruct Hl as [->|].
Qed.

Lemma whole_reachable_inv l0 w : (forall g, int64_ok (oob g)) -> whole_reachable l0 w -> whole_inv l0 w.
Proof.
  intros Hoob. induction 1 as [|st w w' _ IH Hok Hx].
  - split; cbn; [constructor|constructor|done].
  - destruct st; [by eapply whole_inv_joins|by eapply whole_inv_inner|by eapply whole_inv_outer].
Qed.

(** C5: players see what players said. In every reachable state of connections,
    NATS, instance and hubs together, whatever fails or is lost: every socket
    belongs to a connection that came in with a valid token for its race; what
    has been written to it is a subsequence of the frames its race's room
    broadcast, in order; and every one of them is one of the four messages of a
    room, in which each row and each result is of a player who joined with their
    own token, and shows the progress, the pace and the finish that this player's
    own connections reported - nobody else's, and nothing made up. *)
Theorem players_see_what_was_said l0 w i k id h a :
  (forall g, int64_ok (oob g)) -> whole_reachable l0 w ->
  connections (gate w) !! i = Some k ->
  let r := reg (instance (live w)) in
  handles r !! id = Some h -> actors (instance (live w)) !! id = Some a -> ac_race h = k_race k -> only_of_race id h r ->
  (exists j p, players (live w) !! j = Some p /\ pl_race p = k_race k /\
     verifySessionToken secret (pl_at p) (pl_token p) = Some (pl_user p, k_race k)) /\
  sublist (k_written k) (Some <$> ac_accepted h) /\
  (forall b, b ∈ k_written k -> exists frame, b = Some frame /\
     backed_frame (distanceMeters (actor (world (ho_room a)))) (said secret oob (players (live w)) (k_race k)) frame).
Proof.
  intros Hoob HW%whole_reachable_inv Hk r Hh Ha Hr Hone; [|done]. destruct HW as [HL HS HV].
  assert (Hsub : sublist (k_written k) (Some <$> ac_accepted h)) by by eapply (player_sees_subsequence l0 (sys_of w)).
  destruct (HV _ _ Hk) as (j & p & Hp & Hpr). split_and!; [|done|].
  - exists j, p. split_and!; [done|done|]. rewrite <-Hpr.
    exact (po_token _ _ _ _ (li_players _ _ _ _ (live_reachable_inv _ _ _ _ Hoob HL) _ _ Hp)).
  - intros b Hb. apply (sublist_subseteq _ _ Hsub), list_elem_of_fmap in Hb as (frame & -> & Hb). exists frame. split; [done|].
    rewrite <-Hr. by eapply frames_backed; [apply live_reachable_inv|..].
Qed.
End whole.

(** ** A player joins and is shown the race *)

Definition shown_steps : list (WholeStep (R := MemRedis) (L := unit)) :=
  [Inner (Goes (HSpawn "race1" 5 0)); Inner (Goes (HReg (SpawnClaim 0 ()))); Inner (Goes (HReg (SpawnStart 0 true)));
   Joins 2000 5 Up Up true "race1" "sk" demo_shared None; Outer (GatewayStep (GRegister 1));
   Inner (Reads 0 (ReadFrame (Some (JObj [("type", JStr "join_race")])) None Up)); Inner (NatsServes 0);
   Inner (Goes (HTakes 0)); Inner (Goes (HAccepts 0)); Inner (Goes (HRoom 0 (Apply (env_at 7))));
   Inner (Goes (HDrain 0 Up)); Outer (NatsDelivers 0); Outer (GatewayStep (GReceive 0)); Outer (GatewayStep (GWrite 1 true))].

Lemma shown_ok : Forall whole_step_ok shown_steps.
Proof. repeat constructor; apply env_at_ok. Qed.

Lemma players_see_what_was_said_witness : exists w k h a frame,
  whole_run "k" (fun _ => 0) shown_steps (whole_start ()) = Some w /\
  connections (gate w) !! 1%nat = Some k /\ handles (reg (instance (live w))) !! 0%nat = Some h /\
  actors (instance (live w)) !! 0%nat = Some a /\ Some frame ∈ k_written k /\
  backed_frame (distanceMeters (actor (world (ho_room a)))) (said "k" (fun _ => 0) (players (live w)) "race1") frame.
Proof.
  assert (Hrun : exists w k h a, whole_run "k" (fun _ => 0) shown_steps (whole_start ()) = Some w /\
    connections (gate w) !! 1%nat = Some k /\ handles (reg (instance (live w))) !! 0%nat = Some h /\
    actors (instance (live w)) !! 0%nat = Some a /\ (k_race k = "race1" /\ ac_race h = "race1" /\ length (k_written k) = 1%nat) /\
    map_Forall (fun i _ => i = 0%nat) (handles (reg (instance (live w))))).
  { eexists _, _, _, _. do 4 (split; [vm_compute; reflexivity|]). split; [by split_and!|].
    apply (bool_decide_unpack _). vm_compute. exact I. }
  destruct Hrun as (w & k & h & a & Hrun & Hk & Hh & Ha & (Hkr & Hhr & Hlen) & Hall).
  assert (Hw : whole_reachable "k" (fun _ => 0) () w) by (eapply whole_reachable_run; [apply whole_init|exact shown_ok|exact Hrun]).
  destruct (players_see_what_was_said "k" (fun _ => 0) () w 1 k 0 h a no_overflow Hw Hk Hh Ha) as (_ & _ & H).
  { by rewrite Hkr, Hhr. }
  { intros i x Hx _. exact (Hall _ _ Hx). }
  destruct (k_written k) as [|b rest] eqn:Hb; [discriminate Hlen|].
  destruct (H b) as (frame & -> & Hf); [left|]. rewrite Hkr in Hf.
  exists w, k, h, a, frame. split_and!; [exact Hrun|exact Hk|exact Hh|exact Ha|rewrite Hb; left|exact Hf].
Defined.
