(* ===== verification/Metrics.v ===== *)
(** * Metrics ([internal/metrics], the metrics of [roomlocator] and [roomrelay])

    What each process registers with its Prometheus registry, in the order of
    its [run.go], and what the instrumented calls record.  [MustRegister] and
    [WithLabelValues] panic, so the first question is whether a process survives
    its own instrumentation; the second is whether the counters tell what
    happened.  Durations are left out: an observation of a histogram counts. *)
From Stdlib Require Import ZArith Ascii.
From stdpp Require Import base list gmap sets strings.
From S2P Require Import Prelude GoNum GoStrings Json Events Room RoomRun RoomInv RoomSys Store Locator Registry RegistryProps Relay Kafka Consumer Periphery RoomHost.
Local Open Scope string_scope.
Local Open Scope list_scope.

(** ** The client library

    A descriptor is a fully-qualified name, a help text, constant labels and the
    names of variable labels. *)
Record Desc := mkDesc {
  d_name : string; d_help : string; d_const : list (string * string); d_labels : list string
}.

#[export] Instance Desc_eq_dec : EqDecision Desc.
Proof. solve_decision. Defined.

Definition letter (c : ascii) : bool :=
  let n := N_of_ascii c in
  ((65 <=? n) && (n <=? 90) || (97 <=? n) && (n <=? 122) || (n =? 95))%N.

Definition digit (c : ascii) : bool := let n := N_of_ascii c in ((48 <=? n) && (n <=? 57))%N.

Fixpoint all_chars (f : ascii -> bool) (s : string) : bool :=
  match s with EmptyString => true | String c s' => f c && all_chars f s' end.

(** The names the library accepts. *)
Definition valid_label (s : string) : bool :=
  match s with EmptyString => false | String c s' => letter c && all_chars (fun c => letter c || digit c) s' end.

Definition label_names (d : Desc) : list string := (d_const d).*1 ++ d_labels d.

Definition valid_desc (d : Desc) : bool :=
  valid_label (d_name d) && forallb valid_label (label_names d) && bool_decide (NoDup (label_names d)).

(** Two collectors of one registry have different names, or the same help and
    labels and different values of the constant labels. *)
Definition consistent (d d' : Desc) : bool :=
  negb (String.eqb (d_name d) (d_name d')) ||
  (String.eqb (d_help d) (d_help d') && bool_decide (label_names d = label_names d') &&
   negb (bool_decide (d_const d = d_const d'))).

Class Prometheus (P : Type) := {
  registered : P -> list Desc;
  prom_new : P;
  prom_register : Desc -> P -> option P;   (** [None]: an error *)
  prom_new_registered : registered prom_new = [];
  prom_register_ok d p : valid_desc d = true -> forallb (consistent d) (registered p) = true ->
    exists p', prom_register d p = Some p' /\ registered p' = registered p ++ [d];
  prom_register_twice d p : d ∈ registered p -> prom_register d p = None
}.

Section registration.
Context {P : Type} `{!Prometheus P}.

(** [MustRegister]: [None] is a panic. *)
Fixpoint MustRegister (ds : list Desc) (p : P) : option P :=
  match ds with
  | [] => Some p
  | d :: ds' => p' ← prom_register d p; MustRegister ds' p'
  end.

(** ** What each constructor registers *)

(** The collectors the library brings for the runtime and the process. *)
Context (go_collector process_collector : list Desc).

Definition standard_collectors (p : P) : option P :=
  p ← MustRegister go_collector p; MustRegister process_collector p.

Definition tickLatency : Desc :=
  mkDesc "aviron_tick_latency_seconds"
    "Duration of a single room actor broadcast tick (marshal + non-blocking send)." [] [].

(** [metrics.NewMetrics] *)
Definition NewMetrics : option P :=
  p ← standard_collectors prom_new;
  MustRegister [tickLatency] p.

Definition channel_help : string := "Messages currently queued in a channel, summed across every live room/connection.".

Definition room_gauges : list Desc :=
  [mkDesc "aviron_rooms_active" "Number of race rooms currently running." [] [];
   mkDesc "aviron_channel_buffer_used" channel_help [("channel", "inbox")] [];
   mkDesc "aviron_channel_buffer_used" channel_help [("channel", "broadcast")] []].

Definition RegisterRoomGauges (p : P) : option P := MustRegister room_gauges p.

Definition pool_gauges : list Desc :=
  [mkDesc "aviron_pg_pool_acquired_conns" "Postgres connection pool: connections currently acquired." [] [];
   mkDesc "aviron_pg_pool_max_conns" "Postgres connection pool: configured maximum connections." [] []].

Definition RegisterPgPoolGauges (p : P) : option P := MustRegister pool_gauges p.

Definition nats_reconnects : Desc :=
  mkDesc "aviron_nats_reconnects_total"
    "Number of times this process's NATS connection has reconnected after a disconnect." [] [].

Definition RegisterNATSReconnectCounter (p : P) : option P := MustRegister [nats_reconnects] p.

(** [metrics.NewGatewayMetrics] *)
Definition NewGatewayMetrics : option P := standard_collectors prom_new.

Definition connections_active : Desc :=
  mkDesc "aviron_ws_connections_active"
    "Number of local WebSocket connections this gateway instance currently holds, summed across every race." [] [].

Definition RegisterConnectionGauge (p : P) : option P := MustRegister [connections_active] p.

Definition batchInsertDuration : Desc :=
  mkDesc "aviron_consumer_batch_insert_duration_seconds"
    "Duration of a single batch write to Postgres (InsertBatch or ReconcileParticipantResults)." [] ["topic"].
Definition batchInsertErrors : Desc :=
  mkDesc "aviron_consumer_batch_insert_errors_total"
    "Batch writes to Postgres that returned an error, transient or permanent." [] ["topic"].
Definition dlqTotal : Desc :=
  mkDesc "aviron_consumer_dlq_total" "Messages republished to a dead-letter topic." [] ["topic"].

(** [metrics.NewConsumerMetrics] *)
Definition NewConsumerMetrics : option P :=
  p ← standard_collectors prom_new;
  MustRegister [batchInsertDuration; batchInsertErrors; dlqTotal] p.

Definition lag_help : string := "Kafka consumer group lag, in messages, for this topic's reader.".

Definition lag_gauges : list Desc :=
  [mkDesc "aviron_kafka_consumer_lag" lag_help [("topic", TopicWorkoutSample)] [];
   mkDesc "aviron_kafka_consumer_lag" lag_help [("topic", TopicRaceFinished)] []].

Definition RegisterLagGauge (p : P) : option P := MustRegister lag_gauges p.

Definition telegram_errors : Desc :=
  mkDesc "aviron_telegram_relay_errors_total"
    "Webhook calls where forwarding the alert to the Telegram Bot API failed." [] [].

(** [metrics.NewTelegramRelayMetrics] *)
Definition NewTelegramRelayMetrics : option P :=
  p ← standard_collectors prom_new;
  MustRegister [telegram_errors] p.

Definition lookupDuration : Desc :=
  mkDesc "aviron_roomlocator_lookup_duration_seconds" "Duration of a single Locator method call against Redis."
    [] ["op"; "outcome"].
Definition errorsTotal : Desc :=
  mkDesc "aviron_roomlocator_errors_total" "Locator method calls that returned an error." [] ["op"].

(** [roomlocator.NewLocator], what it does to the registry. *)
Definition NewLocator (p : P) : option P := MustRegister [lookupDuration; errorsTotal] p.

Definition publishTotal : Desc :=
  mkDesc "aviron_roomrelay_publish_total" "Publish attempts on a room's NATS subjects." [] ["subject_kind"].
Definition publishErrors : Desc :=
  mkDesc "aviron_roomrelay_publish_errors_total"
    "Publish attempts on a room's NATS subjects that returned an error." [] ["subject_kind"].
Definition publishDuration : Desc :=
  mkDesc "aviron_roomrelay_publish_duration_seconds"
    "Duration of a single publish call on a room's NATS subjects." [] ["subject_kind"].

(** [roomrelay.NewBus], what it does to the registry. *)
Definition NewBus (p : P) : option P := MustRegister [publishTotal; publishErrors; publishDuration] p.

(** ** The four processes, in the order of their [run.go] *)

Definition server_metrics : option P :=
  p ← NewMetrics;
  p ← RegisterPgPoolGauges p;
  p ← NewLocator p;
  p ← RegisterNATSReconnectCounter p;
  p ← NewBus p;
  RegisterRoomGauges p.

Definition gateway_metrics : option P :=
  p ← NewGatewayMetrics;
  p ← NewLocator p;
  p ← RegisterNATSReconnectCounter p;
  p ← NewBus p;
  RegisterConnectionGauge p.

Definition consumer_metrics : option P :=
  p ← NewConsumerMetrics;
  RegisterLagGauge p.

Definition telegram_metrics : option P := NewTelegramRelayMetrics.

(** ** Registration succeeds *)

Lemma MustRegister_app ds ds' p : MustRegister (ds ++ ds') p = p' ← MustRegister ds p; MustRegister ds' p'.
Proof.
  revert p. induction ds as [|d ds IH]; intros p; [done|]. cbn [app MustRegister].
  destruct (prom_register d p) as [p'|]; [|done]. apply IH.
Qed.

(** A list of collectors no two of which are at odds. *)
Fixpoint compatible (ds : list Desc) : bool :=
  match ds with
  | [] => true
  | d :: ds' => valid_desc d && forallb (fun d' => consistent d' d) ds' && compatible ds'
  end.

Lemma MustRegister_ok ds p :
  compatible ds = true -> forallb (fun d => forallb (consistent d) (registered p)) ds = true ->
  exists p', MustRegister ds p = Some p' /\ registered p' = registered p ++ ds.
Proof.
  revert p. induction ds as [|d ds IH]; intros p Hc Hp; [exists p; by rewrite app_nil_r|].
  cbn [compatible forallb] in Hc, Hp. rewrite !andb_true_iff in Hc. apply andb_true_iff in Hp as [Hd Hp].
  destruct Hc as [[Hv Hds] Hc]. destruct (prom_register_ok d p Hv Hd) as (p1 & H1 & Hr1).
  destruct (IH p1 Hc) as (p' & Hx & Hr).
  { rewrite forallb_forall in Hp, Hds. apply forallb_forall. intros d' Hd'. rewrite Hr1, forallb_app, (Hp _ Hd').
    cbn. by rewrite (Hds _ Hd'). }
  exists p'. cbn [MustRegister]. rewrite H1. split; [exact Hx|]. by rewrite Hr, Hr1, <-app_assoc.
Qed.

Lemma compatible_app ds ds' :
  compatible ds = true -> compatible ds' = true -> forallb (fun d => forallb (fun d' => consistent d' d) ds') ds = true ->
  compatible (ds ++ ds') = true.
Proof.
  induction ds as [|d ds IH]; [done|]. cbn [app compatible forallb]. rewrite !andb_true_iff, forallb_app.
  intros [[Hv Hd] Hc] Hc' [Hx Hxs]. by rewrite Hd, Hx, Hv, IH.
Qed.

(** What the library's own collectors are called. *)
Definition standard_name (d : Desc) : bool := has_prefix (d_name d) "go_" || has_prefix (d_name d) "process_".
Definition own_name (d : Desc) : bool := has_prefix (d_name d) "aviron_".

Lemma own_standard_consistent d d' : standard_name d = true -> own_name d' = true -> consistent d' d = true.
Proof.
  unfold standard_name, own_name, consistent. intros Hs (t & Ht)%has_prefix_spec. apply orb_true_iff. left.
  apply negb_true_iff, String.eqb_neq. rewrite Ht.
  apply orb_true_iff in Hs as [(u & Hu)%has_prefix_spec|(u & Hu)%has_prefix_spec]; by rewrite Hu.
Qed.

(** The collectors of a process: the library's, then its own. *)
Lemma process_registers own :
  compatible (go_collector ++ process_collector) = true ->
  forallb standard_name (go_collector ++ process_collector) = true ->
  compatible own = true -> forallb own_name own = true ->
  exists p, MustRegister (go_collector ++ process_collector ++ own) prom_new = Some p /\
    registered p = go_collector ++ process_collector ++ own.
Proof.
  intros Hstd Hn Hown Ho. destruct (MustRegister_ok (go_collector ++ process_collector ++ own) prom_new) as (p & Hp & Hr).
  - rewrite app_assoc. apply compatible_app; [done|done|]. rewrite forallb_forall in Hn, Ho. apply forallb_forall.
    intros d Hd. apply forallb_forall. intros d' Hd'. apply own_standard_consistent; auto.
  - rewrite prom_new_registered. apply forallb_forall. done.
  - exists p. by rewrite Hr, prom_new_registered.
Qed.

Lemma MustRegister_twice ds d p : d ∈ registered p -> MustRegister (d :: ds) p = None.
Proof. intros Hd. cbn [MustRegister]. by rewrite prom_register_twice. Qed.

Definition server_collectors : list Desc :=
  [tickLatency] ++ pool_gauges ++ [lookupDuration; errorsTotal] ++ [nats_reconnects] ++
  [publishTotal; publishErrors; publishDuration] ++ room_gauges.
Definition gateway_collectors : list Desc :=
  [lookupDuration; errorsTotal] ++ [nats_reconnects] ++ [publishTotal; publishErrors; publishDuration] ++ [connections_active].
Definition consumer_collectors : list Desc := [batchInsertDuration; batchInsertErrors; dlqTotal] ++ lag_gauges.

(** Registering list after list is registering them all. *)
Ltac registers := rewrite ?MustRegister_app;
  repeat match goal with |- context [MustRegister ?ds ?p] => destruct (MustRegister ds p); cbn [mbind option_bind]; [|done];
    rewrite ?MustRegister_app end; done.

(** No process dies of its own instrumentation: whatever the collectors of
    the library are called, as long as they keep to their prefixes, the
    [MustRegister] calls of each of the four processes all succeed, in the order
    [Run] makes them, and leave exactly the collectors of that process
    registered; a second locator or bus on the registry of the race service would
    panic. *)
Theorem registration_never_panics :
  compatible (go_collector ++ process_collector) = true ->
  forallb standard_name (go_collector ++ process_collector) = true ->
  (exists p, server_metrics = Some p /\ registered p = go_collector ++ process_collector ++ server_collectors /\
     NewLocator p = None /\ NewBus p = None) /\
  (exists p, gateway_metrics = Some p /\ registered p = go_collector ++ process_collector ++ gateway_collectors) /\
  (exists p, consumer_metrics = Some p /\ registered p = go_collector ++ process_collector ++ consumer_collectors) /\
  (exists p, telegram_metrics = Some p /\ registered p = go_collector ++ process_collector ++ [telegram_errors]).
Proof.
  intros Hc Hn. pose proof (fun own => process_registers own Hc Hn) as Hall.
  unfold server_metrics, gateway_metrics, consumer_metrics, telegram_metrics, NewMetrics, NewGatewayMetrics,
    NewConsumerMetrics, NewTelegramRelayMetrics, standard_collectors, RegisterPgPoolGauges, NewLocator,
    RegisterNATSReconnectCounter, NewBus, RegisterRoomGauges, RegisterConnectionGauge, RegisterLagGauge.
  split_and!.
  - destruct (Hall server_collectors) as (p & Hp & Hr); [reflexivity|reflexivity|]. exists p. rewrite <-Hp. split_and!.
    + unfold server_collectors. registers.
    + exact Hr.
    + apply MustRegister_twice. rewrite Hr, !elem_of_app. right. right. by apply list_elem_of_In; cbn; auto 20.
    + apply MustRegister_twice. rewrite Hr, !elem_of_app. right. right. by apply list_elem_of_In; cbn; auto 20.
  - destruct (Hall gateway_collectors) as (p & Hp & Hr); [reflexivity|reflexivity|]. exists p. split; [|done].
    rewrite <-Hp. unfold gateway_collectors. registers.
  - destruct (Hall consumer_collectors) as (p & Hp & Hr); [reflexivity|reflexivity|]. exists p. split; [|done].
    rewrite <-Hp. unfold consumer_collectors. registers.
  - destruct (Hall [telegram_errors]) as (p & Hp & Hr); [reflexivity|reflexivity|]. exists p. split; [|done].
    rewrite <-Hp. registers.
Qed.
End registration.

(** ** A registry that satisfies the contract *)

#[export, refine] Instance list_prometheus : Prometheus (list Desc) := {|
  registered p := p;
  prom_new := [];
  prom_register d p := if valid_desc d && forallb (consistent d) p then Some (p ++ [d]) else None
|}.
Proof.
  - done.
  - intros d p Hv Hc. rewrite Hv, Hc. by eexists.
  - intros d p Hd. destruct (forallb (consistent d) p) eqn:Hf; [|by rewrite andb_false_r].
    rewrite forallb_forall in Hf. apply list_elem_of_In, Hf in Hd. unfold consistent in Hd.
    by rewrite !String.eqb_refl, !bool_decide_true in Hd.
Defined.

Lemma registration_never_panics_witness : exists p : list Desc,
  server_metrics [mkDesc "go_goroutines" "g" [] []] [mkDesc "process_cpu_seconds_total" "c" [] []] = Some p /\
  length (registered p) = 14%nat.
Proof.
  destruct (registration_never_panics (P := list Desc) [mkDesc "go_goroutines" "g" [] []]
    [mkDesc "process_cpu_seconds_total" "c" [] []]) as [(p & Hp & Hr & _) _]; [reflexivity|reflexivity|].
  exists p. split; [exact Hp|]. by rewrite Hr.
Defined.

(** ** Recording

    [vec.WithLabelValues(vs...).Inc()] of a counter and [.Observe(...)] of a
    histogram, by what they count: one more for these label values and nothing
    else, and a panic ([None]) when the number of values is not that of the
    labels. *)
Class Vectors (C : Type) := {
  value : C -> Desc -> list string -> nat;
  fresh : C;
  Inc : Desc -> list string -> C -> option C;
  value_fresh d vs : value fresh d vs = 0;
  Inc_ok d vs m : length vs = length (d_labels d) -> exists m', Inc d vs m = Some m';
  Inc_panics d vs m : length vs <> length (d_labels d) -> Inc d vs m = None;
  value_Inc d vs m m' d' vs' : Inc d vs m = Some m' ->
    value m' d' vs' = (if bool_decide ((d_name d, vs) = (d_name d', vs')) then 1 else 0) + value m d' vs'
}.

#[export, refine] Instance map_vectors : Vectors (gmap (string * list string) nat) := {|
  value m d vs := default 0 (m !! (d_name d, vs));
  fresh := ∅;
  Inc d vs m := if bool_decide (length vs = length (d_labels d))
                then Some (<[(d_name d, vs) := S (default 0 (m !! (d_name d, vs)))]> m) else None
|}.
Proof.
  - done.
  - intros d vs m Hl. rewrite bool_decide_true by done. by eexists.
  - intros d vs m Hl. by rewrite bool_decide_false.
  - intros d vs m m' d' vs'. case_bool_decide; [|done]. intros [= <-]. case_bool_decide as He.
    + by rewrite He, lookup_insert_eq.
    + by rewrite lookup_insert_ne.
Defined.

Section recording.
Context {Counters : Type} `{!Vectors Counters}.

(** *** The locator *)

(** [Locator.observe] *)
Definition observe (op outcome : string) (m : Counters) : option Counters :=
  m ← Inc lookupDuration [op; outcome] m;
  if String.eqb outcome "error" then Inc errorsTotal [op] m else Some m.

Section observed.
Context {R : Type} `{HR : Redis R}.
Implicit Types s : Shared (R := R).

(** The methods as they are instrumented: the state, the counters and the answer. *)
Definition observed_Claim (me : string) (c1 c2 : Conn) (now : Z) (raceID : string) s (m : Counters)
    : option (Counters * (Shared * (bool + error))) :=
  match cmd_setnx c1 now (roomKey raceID) (instance_prefix +:+ me) claimTTL (redis s) with
  | (r, inr e) =>
      m ← observe "claim" "error" m; Some (m, (mkShared r (room_events s), inr (locator_error ("claim " +:+ raceID) e)))
  | (r, inl false) => m ← observe "claim" "ok" m; Some (m, (mkShared r (room_events s), inl false))
  | (r, inl true) =>
      match publish c2 (mkLocatorEvent RoomEventCreated raceID me) (mkShared r (room_events s)) with
      | (s', inr e) => m ← observe "claim" "error" m; Some (m, (s', inr e))
      | (s', inl ()) => m ← observe "claim" "ok" m; Some (m, (s', inl true))
      end
  end.

Definition observed_Refresh (c : Conn) (now : Z) (raceID : string) s (m : Counters)
    : option (Counters * (Shared * (unit + error))) :=
  match cmd_expire c now (roomKey raceID) claimTTL (redis s) with
  | (r, inr e) =>
      m ← observe "refresh" "error" m; Some (m, (mkShared r (room_events s), inr (locator_error ("refresh " +:+ raceID) e)))
  | (r, inl false) =>
      m ← observe "refresh" "error" m;
      Some (m, (mkShared r (room_events s), inr (locator_error ("refresh " +:+ raceID) "claim expired before heartbeat")))
  | (r, inl true) => m ← observe "refresh" "ok" m; Some (m, (mkShared r (room_events s), inl ()))
  end.

Definition observed_Release (me : string) (c1 c2 : Conn) (now : Z) (raceID : string) s (m : Counters)
    : option (Counters * (Shared * (unit + error))) :=
  match cmd_del c1 now (roomKey raceID) (redis s) with
  | (r, inr e) =>
      m ← observe "release" "error" m; Some (m, (mkShared r (room_events s), inr (locator_error ("release " +:+ raceID) e)))
  | (r, inl ()) =>
      match publish c2 (mkLocatorEvent RoomEventRemoved raceID me) (mkShared r (room_events s)) with
      | (s', inr e) => m ← observe "release" "error" m; Some (m, (s', inr e))
      | (s', inl ()) => m ← observe "release" "ok" m; Some (m, (s', inl ()))
      end
  end.

Definition observed_MarkEvicted (c : Conn) (raceID userID : string) s (m : Counters)
    : option (Counters * (Shared * (unit + error))) :=
  match cmd_sadd c (evictedKey raceID) userID (redis s) with
  | (r, inr e) =>
      m ← observe "mark_evicted" "error" m;
      Some (m, (mkShared r (room_events s), inr (locator_error ("mark evicted " +:+ raceID +:+ "/" +:+ userID) e)))
  | (r, inl ()) => m ← observe "mark_evicted" "ok" m; Some (m, (mkShared r (room_events s), inl ()))
  end.

Definition observed_IsEvicted (c : Conn) (raceID userID : string) s (m : Counters) : option (Counters * (bool + error)) :=
  match snd (cmd_sismember c (evictedKey raceID) userID (redis s)) with
  | inr e =>
      m ← observe "is_evicted" "error" m;
      Some (m, inr (locator_error ("is evicted " +:+ raceID +:+ "/" +:+ userID) e))
  | inl b => m ← observe "is_evicted" "ok" m; Some (m, inl b)
  end.

Definition observed_Owner (c : Conn) (now : Z) (raceID : string) s (m : Counters)
    : option (Counters * (option string + error)) :=
  match snd (cmd_get c now (roomKey raceID) (redis s)) with
  | inl None => m ← observe "owner" "not_found" m; Some (m, inl None)
  | inr e => m ← observe "owner" "error" m; Some (m, inr (locator_error ("owner " +:+ raceID) e))
  | inl (Some val) => m ← observe "owner" "ok" m; Some (m, inl (Some (trim_prefix val instance_prefix)))
  end.

(** ** Calls and what they count *)

Inductive LocatorCall :=
  | CallClaim (me : string) (c1 c2 : Conn) (now : Z) (raceID : string)
  | CallRefresh (c : Conn) (now : Z) (raceID : string)
  | CallRelease (me : string) (c1 c2 : Conn) (now : Z) (raceID : string)
  | CallMarkEvicted (c : Conn) (raceID userID : string)
  | CallIsEvicted (c : Conn) (raceID userID : string)
  | CallOwner (c : Conn) (now : Z) (raceID : string).

Definition op_name (k : LocatorCall) : string :=
  match k with
  | CallClaim _ _ _ _ _ => "claim" | CallRefresh _ _ _ => "refresh" | CallRelease _ _ _ _ _ => "release"
  | CallMarkEvicted _ _ _ => "mark_evicted" | CallIsEvicted _ _ _ => "is_evicted" | CallOwner _ _ _ => "owner"
  end.

(** How a call ends. *)
Definition verdict {A} (r : A + error) : string := match r with inl _ => "ok" | inr _ => "error" end.

Definition owner_verdict (r : option string + error) : string :=
  match r with inl None => "not_found" | _ => verdict r end.

(** The uninstrumented call: what it leaves, and how it ends. *)
Definition plain_call (k : LocatorCall) s : Shared * string :=
  match k with
  | CallClaim me c1 c2 now raceID => let '(s', r) := Claim me c1 c2 now raceID s in (s', verdict r)
  | CallRefresh c now raceID => let '(s', r) := Refresh c now raceID s in (s', verdict r)
  | CallRelease me c1 c2 now raceID => let '(s', r) := Release me c1 c2 now raceID s in (s', verdict r)
  | CallMarkEvicted c raceID userID => let '(s', r) := MarkEvicted c raceID userID s in (s', verdict r)
  | CallIsEvicted c raceID userID => (s, verdict (IsEvicted c raceID userID s))
  | CallOwner c now raceID =>
      (s, owner_verdict (Owner c now raceID s))
  end.

Definition observed_call (k : LocatorCall) s (m : Counters) : option (Counters * Shared) :=
  let ans {A} (x : option (Counters * (Shared * A))) := '(m', (s', _)) ← x; Some (m', s') in
  let query {A} (x : option (Counters * A)) := '(m', _) ← x; Some (m', s) in
  match k with
  | CallClaim me c1 c2 now raceID => ans (observed_Claim me c1 c2 now raceID s m)
  | CallRefresh c now raceID => ans (observed_Refresh c now raceID s m)
  | CallRelease me c1 c2 now raceID => ans (observed_Release me c1 c2 now raceID s m)
  | CallMarkEvicted c raceID userID => ans (observed_MarkEvicted c raceID userID s m)
  | CallIsEvicted c raceID userID => query (observed_IsEvicted c raceID userID s m)
  | CallOwner c now raceID => query (observed_Owner c now raceID s m)
  end.

(** An instrumented method answers and does what the plain one does, and
    observes once, under what it answers. *)

Lemma observed_Claim_spec me c1 c2 now raceID s m :
  observed_Claim me c1 c2 now raceID s m =
    m' ← observe "claim" (verdict (snd (Claim me c1 c2 now raceID s))) m; Some (m', Claim me c1 c2 now raceID s).
Proof.
  unfold observed_Claim, Claim. destruct (cmd_setnx _ _ _ _ _ _) as [r [[]|e]]; [|done..].
  by destruct (publish _ _ _) as [s' [[]|e]].
Qed.

Lemma observed_Refresh_spec c now raceID s m :
  observed_Refresh c now raceID s m =
    m' ← observe "refresh" (verdict (snd (Refresh c now raceID s))) m; Some (m', Refresh c now raceID s).
Proof. unfold observed_Refresh, Refresh. by destruct (cmd_expire _ _ _ _ _) as [r [[]|e]]. Qed.

Lemma observed_Release_spec me c1 c2 now raceID s m :
  observed_Release me c1 c2 now raceID s m =
    m' ← observe "release" (verdict (snd (Release me c1 c2 now raceID s))) m; Some (m', Release me c1 c2 now raceID s).
Proof.
  unfold observed_Release, Release. destruct (cmd_del _ _ _ _) as [r [[]|e]]; [|done].
  by destruct (publish _ _ _) as [s' [[]|e]].
Qed.

Lemma observed_MarkEvicted_spec c raceID userID s m :
  observed_MarkEvicted c raceID userID s m =
    m' ← observe "mark_evicted" (verdict (snd (MarkEvicted c raceID userID s))) m; Some (m', MarkEvicted c raceID userID s).
Proof. unfold observed_MarkEvicted, MarkEvicted. by destruct (cmd_sadd _ _ _ _) as [r [[]|e]]. Qed.

Lemma observed_IsEvicted_spec c raceID userID s m :
  observed_IsEvicted c raceID userID s m =
    m' ← observe "is_evicted" (verdict (IsEvicted c raceID userID s)) m; Some (m', IsEvicted c raceID userID s).
Proof. unfold observed_IsEvicted, IsEvicted. by destruct (snd _) as [[]|e]. Qed.

Lemma observed_Owner_spec c now raceID s m :
  observed_Owner c now raceID s m =
    m' ← observe "owner" (owner_verdict (Owner c now raceID s)) m; Some (m', Owner c now raceID s).
Proof. unfold observed_Owner, Owner. by destruct (snd _) as [[val|]|e]. Qed.

Lemma observed_call_spec k s m :
  observed_call k s m = m' ← observe (op_name k) (snd (plain_call k s)) m; Some (m', fst (plain_call k s)).
Proof.
  destruct k; cbn [observed_call op_name];
    rewrite ?observed_Claim_spec, ?observed_Refresh_spec, ?observed_Release_spec, ?observed_MarkEvicted_spec,
      ?observed_IsEvicted_spec, ?observed_Owner_spec; cbn [plain_call];
    repeat match goal with |- context [let '(_, _) := ?x in _] => destruct x as [s' r] end; cbn [fst snd];
    by destruct (observe _ _ m).
Qed.

Fixpoint observed_run (ks : list LocatorCall) s (m : Counters) : option (Counters * Shared) :=
  match ks with
  | [] => Some (m, s)
  | k :: ks' => '(m', s') ← observed_call k s m; observed_run ks' s' m'
  end.

(** The plain run: the state it leaves, and each call with how it ended. *)
Fixpoint plain_run (ks : list LocatorCall) s : Shared * list (string * string) :=
  match ks with
  | [] => (s, [])
  | k :: ks' => let '(s', v) := plain_call k s in let '(s'', vs) := plain_run ks' s' in (s'', (op_name k, v) :: vs)
  end.

Definition ended (op outcome : string) (l : list (string * string)) : nat :=
  length (filter (fun x => x = (op, outcome)) l).

Lemma observe_value op outcome m : exists m', observe op outcome m = Some m' /\
  forall op' outcome',
    value m' lookupDuration [op'; outcome'] =
      (if bool_decide ((op, outcome) = (op', outcome')) then 1 else 0) + value m lookupDuration [op'; outcome'] /\
    value m' errorsTotal [op'] =
      (if bool_decide ((op, outcome) = (op', "error")) then 1 else 0) + value m errorsTotal [op'].
Proof.
  unfold observe. destruct (Inc_ok lookupDuration [op; outcome] m eq_refl) as [m1 H1]. rewrite H1. cbn [mbind option_bind].
  destruct (String.eqb_spec outcome "error") as [->|Hne].
  - destruct (Inc_ok errorsTotal [op] m1 eq_refl) as [m2 H2]. exists m2. split; [done|]. intros op' oc'. split.
    + rewrite (value_Inc _ _ _ _ _ _ H2), (value_Inc _ _ _ _ _ _ H1). unfold lookupDuration, errorsTotal. cbn [d_name].
      repeat case_bool_decide; naive_solver.
    + rewrite (value_Inc _ _ _ _ _ _ H2), (value_Inc _ _ _ _ _ _ H1). unfold lookupDuration, errorsTotal. cbn [d_name].
      repeat case_bool_decide; naive_solver.
  - exists m1. split; [done|]. intros op' oc'.
    split; rewrite (value_Inc _ _ _ _ _ _ H1); unfold lookupDuration, errorsTotal; cbn [d_name];
      repeat case_bool_decide; naive_solver.
Qed.

(** The locator's metrics change nothing and tell the truth: whatever is
    called and whatever Redis does, no instrumented call panics, the run leaves
    what it would leave without instrumentation, the histogram of a method and an
    outcome has counted exactly the calls of that method that ended so, and
    [errors_total] of a method exactly its calls that returned an error. *)
Theorem locator_metrics_truth ks s :
  exists m, observed_run ks s fresh = Some (m, fst (plain_run ks s)) /\
    (forall op outcome, value m lookupDuration [op; outcome] = ended op outcome (snd (plain_run ks s))) /\
    (forall op, value m errorsTotal [op] = ended op "error" (snd (plain_run ks s))).
Proof.
  assert (Hgen : forall m0, exists m, observed_run ks s m0 = Some (m, fst (plain_run ks s)) /\
    (forall op outcome, value m lookupDuration [op; outcome] =
       ended op outcome (snd (plain_run ks s)) + value m0 lookupDuration [op; outcome]) /\
    (forall op, value m errorsTotal [op] = ended op "error" (snd (plain_run ks s)) + value m0 errorsTotal [op])).
  { revert s. induction ks as [|k ks IH]; intros s m0; [by exists m0|]. cbn [observed_run plain_run].
    rewrite observed_call_spec. destruct (plain_call k s) as [s1 v]. cbn [fst snd].
    destruct (observe_value (op_name k) v m0) as (m1 & -> & Hm1). cbn [mbind option_bind].
    destruct (IH s1 m1) as (m & Hrun & Hl & He). destruct (plain_run ks s1) as [s2 vs]. exists m. split; [exact Hrun|].
    cbn [fst snd] in *. unfold ended in *. split; intros op; [intros oc|].
    - destruct (Hm1 op oc) as [Hv _]. rewrite Hl, Hv, filter_cons. case_decide; case_bool_decide; try done; simpl; lia.
    - destruct (Hm1 op "") as [_ Hv]. rewrite He, Hv, filter_cons. case_decide; case_bool_decide; try done; simpl; lia. }
  destruct (Hgen fresh) as (m & Hrun & Hl & He). exists m. split; [done|].
  split; intros; [rewrite Hl|rewrite He]; rewrite value_fresh; apply Nat.add_0_r.
Qed.
End observed.

(** *** The bus *)

(** [Bus.observePublish] *)
Definition observePublish (subjectKind : string) {A} (err : A + error) (m : Counters) : option Counters :=
  m ← Inc publishTotal [subjectKind] m;
  m ← Inc publishDuration [subjectKind] m;
  match err with inr _ => Inc publishErrors [subjectKind] m | inl _ => Some m end.

Definition observed_PublishIn (ctx_err : option error) (c : Conn) (raceID : string) (env : InboundEnvelope) (n : Nats)
    (m : Counters) : option (Counters * (Nats * (unit + error))) :=
  let '(n', err) := publish_nats ctx_err c (inSubject raceID) (marshal_Inbound env) n in
  m ← observePublish "in" err m; Some (m, (n', err)).

Definition observed_PublishOut (ctx_err : option error) (c : Conn) (raceID : string) (env : OutboundEnvelope) (n : Nats)
    (m : Counters) : option (Counters * (Nats * (unit + error))) :=
  let '(n', err) := publish_nats ctx_err c (outSubject raceID) (marshal_Outbound env) n in
  m ← observePublish "out" err m; Some (m, (n', err)).

Definition failed {A} (r : A + error) : nat := match r with inr _ => 1 | inl _ => 0 end.

Lemma observePublish_value kind {A} (err : A + error) m : exists m', observePublish kind err m = Some m' /\
  forall k, value m' publishTotal [k] = (if bool_decide (kind = k) then 1 else 0) + value m publishTotal [k] /\
    value m' publishErrors [k] = (if bool_decide (kind = k) then failed err else 0) + value m publishErrors [k].
Proof.
  unfold observePublish. destruct (Inc_ok publishTotal [kind] m eq_refl) as [m1 H1]. rewrite H1. cbn [mbind option_bind].
  destruct (Inc_ok publishDuration [kind] m1 eq_refl) as [m2 H2]. rewrite H2. cbn [mbind option_bind].
  destruct err as [a|e]; [exists m2|destruct (Inc_ok publishErrors [kind] m2 eq_refl) as [m3 H3]; exists m3];
    (split; [done|]); intros k; rewrite ?(value_Inc _ _ _ _ _ _ H3), !(value_Inc _ _ _ _ _ _ H2), !(value_Inc _ _ _ _ _ _ H1);
    unfold publishTotal, publishDuration, publishErrors; cbn [d_name failed];
    split; repeat case_bool_decide; naive_solver.
Qed.

(** An instrumented publish is a publish, counted once, and once more if it
    failed - a context that is done included. *)
Theorem publish_metrics ctx_err c raceID env env' n m :
  (exists m', observed_PublishIn ctx_err c raceID env n m = Some (m', PublishIn ctx_err c raceID env n) /\
     value m' publishTotal ["in"] = S (value m publishTotal ["in"]) /\
     value m' publishErrors ["in"] = failed (snd (PublishIn ctx_err c raceID env n)) + value m publishErrors ["in"] /\
     value m' publishTotal ["out"] = value m publishTotal ["out"]) /\
  (exists m', observed_PublishOut ctx_err c raceID env' n m = Some (m', PublishOut ctx_err c raceID env' n) /\
     value m' publishTotal ["out"] = S (value m publishTotal ["out"]) /\
     value m' publishErrors ["out"] = failed (snd (PublishOut ctx_err c raceID env' n)) + value m publishErrors ["out"] /\
     value m' publishTotal ["in"] = value m publishTotal ["in"]).
Proof.
  unfold observed_PublishIn, observed_PublishOut, PublishIn, PublishOut. split.
  - destruct (publish_nats _ _ _ _ _) as [n' err]. destruct (observePublish_value "in" err m) as (m' & -> & Hm).
    exists m'. by split_and!; [|apply (proj1 (Hm "in"))|apply (proj2 (Hm "in"))|apply (proj1 (Hm "out"))].
  - destruct (publish_nats _ _ _ _ _) as [n' err]. destruct (observePublish_value "out" err m) as (m' & -> & Hm).
    exists m'. by split_and!; [|apply (proj1 (Hm "out"))|apply (proj2 (Hm "out"))|apply (proj1 (Hm "in"))].
Qed.

(** *** The consumer *)

(** [ConsumerMetrics.ObserveBatchInsert] *)
Definition ObserveBatchInsert (topic : string) (err : WriteResult) (m : Counters) : option Counters :=
  m ← Inc batchInsertDuration [topic] m;
  match err with Written => Some m | _ => Inc batchInsertErrors [topic] m end.

(** [ConsumerMetrics.IncDLQ] *)
Definition IncDLQ (topic : string) (m : Counters) : option Counters := Inc dlqTotal [topic] m.

Definition observed_deadLetter (ok : bool) (topic : string) (msg : Fetched) (x : Counters * Sink)
    : option (Counters * Sink) :=
  m ← IncDLQ topic x.1; Some (m, deadLetter ok topic msg x.2).

Fixpoint observed_deadLetters (ok : nat -> bool) (topic : string) (msgs : list Fetched) (x : Counters * Sink)
    : option (Counters * Sink) :=
  match msgs with
  | [] => Some x
  | msg :: msgs' => x' ← observed_deadLetter (ok 0) topic msg x;
      observed_deadLetters (fun j => ok (S j)) topic msgs' x'
  end.

Definition observed_flush `{SampleColumns} (w : Weather) (b : sampleBatch) (s : Sink) (m : Counters)
    : option (Counters * (sampleBatch * Sink)) :=
  match b_samples b with
  | [] => Some (m, (b, s))
  | _ =>
      let '(s', err) := InsertBatch (w_db w) (b_samples b) s in
      m ← ObserveBatchInsert TopicWorkoutSample err m;
      match err with
      | Written => Some (m, (batch_reset b, CommitMessages (w_commit w) (b_messages b) s'))
      | Permanent =>
          '(m, s') ← observed_deadLetters (w_dlq w) workoutSampleDLQTopic (b_messages b) (m, s');
          Some (m, (batch_reset b, CommitMessages (w_commit w) (b_messages b) s'))
      | Transient => Some (m, (b, s'))
      end
  end.

Lemma observed_deadLetters_spec ok topic msgs m s : exists m',
  observed_deadLetters ok topic msgs (m, s) = Some (m', deadLetters ok topic msgs s) /\
  (forall t, value m' dlqTotal [t] = (if bool_decide (topic = t) then length msgs else 0) + value m dlqTotal [t]) /\
  (forall t, value m' batchInsertErrors [t] = value m batchInsertErrors [t]).
Proof.
  revert ok m s. induction msgs as [|msg msgs IH]; intros ok m s.
  - exists m. split_and!; [done| |done]. intros t. by case_bool_decide.
  - cbn [observed_deadLetters deadLetters]. unfold observed_deadLetter, IncDLQ. cbn [fst snd].
    destruct (Inc_ok dlqTotal [topic] m eq_refl) as [m1 H1]. rewrite H1. cbn [mbind option_bind].
    destruct (IH (fun j => ok (S j)) m1 (deadLetter (ok 0) topic msg s)) as (m' & Hrun & Hd & He). exists m'. split; [exact Hrun|].
    split; intros t; rewrite ?Hd, ?He, (value_Inc _ _ _ _ _ _ H1);
      unfold dlqTotal, batchInsertErrors; cbn [d_name length]; repeat case_bool_decide; naive_solver lia.
Qed.

(** A flush is what it is without metrics; it counts one error unless everything
    was written, and every message it tries to dead-letter. *)
Theorem flush_metrics `{SampleColumns} w b s m : exists m',
  observed_flush w b s m = Some (m', flushWorkoutSampleBatch w b s) /\
  value m' batchInsertErrors [TopicWorkoutSample] =
    (if bool_decide (b_samples b = []) then 0
     else match snd (InsertBatch (w_db w) (b_samples b) s) with Written => 0 | _ => 1 end) +
    value m batchInsertErrors [TopicWorkoutSample] /\
  value m' dlqTotal [workoutSampleDLQTopic] =
    (if bool_decide (b_samples b = []) then 0
     else match snd (InsertBatch (w_db w) (b_samples b) s) with Permanent => length (b_messages b) | _ => 0 end) +
    value m dlqTotal [workoutSampleDLQTopic].
Proof.
  unfold observed_flush, flushWorkoutSampleBatch. destruct (b_samples b) as [|x l]; [by exists m|].
  rewrite (bool_decide_false (_ :: _ = [])) by done. destruct (InsertBatch _ _ _) as [s' err]. cbn [snd].
  unfold ObserveBatchInsert. destruct (Inc_ok batchInsertDuration [TopicWorkoutSample] m eq_refl) as [m1 H1].
  rewrite H1. cbn [mbind option_bind].
  assert (Hq : forall t, value m1 batchInsertErrors [t] = value m batchInsertErrors [t] /\ value m1 dlqTotal [t] = value m dlqTotal [t]).
  { intros t. rewrite !(value_Inc _ _ _ _ _ _ H1). split; by rewrite bool_decide_false. }
  destruct err; [exists m1; by rewrite !(proj1 (Hq _)), !(proj2 (Hq _))|..];
    (destruct (Inc_ok batchInsertErrors [TopicWorkoutSample] m1 eq_refl) as [m2 H2]; rewrite H2; cbn [mbind option_bind];
     assert (He : value m2 batchInsertErrors [TopicWorkoutSample] = S (value m batchInsertErrors [TopicWorkoutSample]))
       by (rewrite (value_Inc _ _ _ _ _ _ H2), (proj1 (Hq _)); by rewrite bool_decide_true);
     assert (Hd : value m2 dlqTotal [workoutSampleDLQTopic] = value m dlqTotal [workoutSampleDLQTopic])
       by (rewrite (value_Inc _ _ _ _ _ _ H2), (proj2 (Hq _)); by rewrite bool_decide_false)).
  - destruct (observed_deadLetters_spec (w_dlq w) workoutSampleDLQTopic (b_messages b) m2 s') as (m' & -> & Hdl & Hel).
    exists m'. split; [done|]. split; [by rewrite Hel|]. rewrite Hdl, Hd. by rewrite bool_decide_true.
  - by exists m2.
Qed.

Lemma deadLetters_none ok topic msgs s : (forall j, ok j = false) -> deadLetters ok topic msgs s = s.
Proof.
  revert ok. induction msgs as [|msg msgs IH]; intros ok Hok; [done|]. cbn [deadLetters].
  unfold deadLetter. rewrite Hok. apply IH. intros j. apply Hok.
Qed.

(** The counter of dead letters counts attempts: with the dead-letter topic
    unreachable it grows by the whole batch while nothing is republished. *)
Theorem dlq_counts_attempts `{SampleColumns} w b s m :
  (forall j, w_dlq w j = false) -> b_samples b <> [] -> snd (InsertBatch (w_db w) (b_samples b) s) = Permanent ->
  exists m' b' s', observed_flush w b s m = Some (m', (b', s')) /\ dead_letters s' = dead_letters s /\
    value m' dlqTotal [workoutSampleDLQTopic] = length (b_messages b) + value m dlqTotal [workoutSampleDLQTopic].
Proof.
  intros Hdlq Hne Hperm. destruct (flush_metrics w b s m) as (m' & Hrun & _ & Hd).
  rewrite bool_decide_false, Hperm in Hd by done.
  destruct (flushWorkoutSampleBatch w b s) as [b' s'] eqn:Hf. exists m', b', s'. split_and!; [done| |done].
  unfold flushWorkoutSampleBatch in Hf. destruct (b_samples b) as [|x l] eqn:Hb; [done|].
  destruct (InsertBatch _ _ _) as [s1 err] eqn:Hi. cbn [snd] in Hperm. subst err.
  assert (Hs1 : dead_letters s1 = dead_letters s) by (unfold InsertBatch in Hi; repeat case_match; by simplify_eq).
  injection Hf as _ <-.
  rewrite deadLetters_none by done. unfold CommitMessages. repeat case_match; done.
Qed.

(** [processRaceFinishedMessage], as it is instrumented. *)
Definition observed_processRaceFinished (reconcile : Conn -> string -> list RaceResultJSON -> DB -> DB * WriteResult)
    (w : Weather) (msg : Fetched) (s : Sink) (m : Counters) : option (Counters * Sink) :=
  match decodeRaceFinished (km_Value (f_message msg)) with
  | None =>
      '(m, s') ← observed_deadLetter (w_dlq w 0) raceFinishedDLQTopic msg (m, s);
      Some (m, CommitMessages (w_commit w) [msg] s')
  | Some decoded =>
      let '(db', err) := reconcile (w_db w) (rf_RaceID decoded) (rf_Results decoded) (tables s) in
      m ← ObserveBatchInsert TopicRaceFinished err m;
      match err with
      | Written => Some (m, CommitMessages (w_commit w) [msg] (s <| tables := db' |>))
      | Permanent =>
          '(m, s') ← observed_deadLetter (w_dlq w 0) raceFinishedDLQTopic msg (m, s <| tables := db' |>);
          Some (m, CommitMessages (w_commit w) [msg] s')
      | Transient => Some (m, s <| tables := db' |>)
      end
  end.

Lemma ObserveBatchInsert_value topic err m : exists m', ObserveBatchInsert topic err m = Some m' /\
  (forall t, value m' batchInsertErrors [t] =
     (if bool_decide (topic = t) then match err with Written => 0 | _ => 1 end else 0) + value m batchInsertErrors [t]) /\
  (forall t, value m' dlqTotal [t] = value m dlqTotal [t]).
Proof.
  unfold ObserveBatchInsert. destruct (Inc_ok batchInsertDuration [topic] m eq_refl) as [m1 H1]. rewrite H1.
  cbn [mbind option_bind]. destruct err; [exists m1|..];
    try (destruct (Inc_ok batchInsertErrors [topic] m1 eq_refl) as [m2 H2]; exists m2); (split; [done|]);
    split; intros t; rewrite ?(value_Inc _ _ _ _ _ _ H2), (value_Inc _ _ _ _ _ _ H1);
    unfold batchInsertErrors, batchInsertDuration, dlqTotal; cbn [d_name]; repeat case_bool_decide; naive_solver.
Qed.

Lemma observed_deadLetter_value ok topic msg m s : exists m',
  observed_deadLetter ok topic msg (m, s) = Some (m', deadLetter ok topic msg s) /\
  (forall t, value m' dlqTotal [t] = (if bool_decide (topic = t) then 1 else 0) + value m dlqTotal [t]) /\
  (forall t, value m' batchInsertErrors [t] = value m batchInsertErrors [t]).
Proof.
  unfold observed_deadLetter, IncDLQ. cbn [fst snd]. destruct (Inc_ok dlqTotal [topic] m eq_refl) as [m1 H1]. rewrite H1.
  exists m1. split; [done|]. split; intros t; rewrite (value_Inc _ _ _ _ _ _ H1);
    unfold dlqTotal, batchInsertErrors; cbn [d_name]; repeat case_bool_decide; naive_solver.
Qed.

(** Reconciling a finished race is what it is without metrics; it counts an error
    when the tables refused or were away, and a dead letter when the message was
    malformed or refused for good. *)
Theorem race_finished_metrics reconcile w msg s m :
  let outcome := decoded ← decodeRaceFinished (km_Value (f_message msg));
                 Some (snd (reconcile (w_db w) (rf_RaceID decoded) (rf_Results decoded) (tables s))) in
  exists m', observed_processRaceFinished reconcile w msg s m = Some (m', processRaceFinishedMessage reconcile w msg s) /\
    value m' batchInsertErrors [TopicRaceFinished] =
      match outcome with Some Transient | Some Permanent => 1 | _ => 0 end + value m batchInsertErrors [TopicRaceFinished] /\
    value m' dlqTotal [raceFinishedDLQTopic] =
      match outcome with None | Some Permanent => 1 | _ => 0 end + value m dlqTotal [raceFinishedDLQTopic].
Proof.
  unfold observed_processRaceFinished, processRaceFinishedMessage.
  destruct (decodeRaceFinished (km_Value (f_message msg))) as [decoded|]; cbn [mbind option_bind].
  - destruct (reconcile _ _ _ _) as [db' err]. cbn [snd].
    destruct (ObserveBatchInsert_value TopicRaceFinished err m) as (m1 & -> & He & Hd). cbn [mbind option_bind].
    destruct err; [exists m1| |exists m1]; [by rewrite He, Hd, bool_decide_true| |by rewrite He, Hd, bool_decide_true].
    destruct (observed_deadLetter_value (w_dlq w 0) raceFinishedDLQTopic msg m1 (s <| tables := db' |>)) as (m2 & -> & Hd2 & He2).
    exists m2. by rewrite He2, He, Hd2, Hd, !bool_decide_true.
  - destruct (observed_deadLetter_value (w_dlq w 0) raceFinishedDLQTopic msg m s) as (m2 & -> & Hd2 & He2).
    exists m2. by rewrite He2, Hd2, bool_decide_true.
Qed.

(** *** The alert relay and the room's ticks *)

(** [TelegramRelayMetrics.IncError] *)
Definition IncError (m : Counters) : option Counters := Inc telegram_errors [] m.

(** [Metrics.ObserveTick] *)
Definition ObserveTick (m : Counters) : option Counters := Inc tickLatency [] m.

Definition observed_AlertHandler (baseURL botToken chatID : string) (answer : option Z) (payload : option AlertmanagerWebhook)
    (m : Counters) : option (Counters * Z) :=
  match payload with
  | None => Some (m, 400%Z)
  | Some w =>
      m ← if snd (Notify baseURL botToken chatID answer w) then IncError m else Some m;
      Some (m, 200%Z)
  end.

Lemma alert_metrics baseURL botToken chatID answer payload m : exists m',
  observed_AlertHandler baseURL botToken chatID answer payload m =
    Some (m', fst (AlertHandler baseURL botToken chatID answer payload)) /\
  value m' telegram_errors [] = snd (AlertHandler baseURL botToken chatID answer payload) + value m telegram_errors [].
Proof.
  unfold observed_AlertHandler, AlertHandler, IncError. destruct payload as [w|]; [|by exists m].
  destruct (snd (Notify _ _ _ _ _)); [|by exists m]. destruct (Inc_ok telegram_errors [] m eq_refl) as [m1 H1].
  rewrite H1. exists m1. split; [done|]. rewrite (value_Inc _ _ _ _ _ _ H1). by rewrite bool_decide_true.
Qed.

(** The observations a room makes: one for every tick of its loop. *)
Fixpoint observe_calls (cs : list Call) (m : Counters) : option Counters :=
  match cs with
  | [] => Some m
  | CallObserveTick :: cs' => m' ← ObserveTick m; observe_calls cs' m'
  | _ :: cs' => observe_calls cs' m
  end.

Lemma observe_calls_value cs : forall m, exists m', observe_calls cs m = Some m' /\
  value m' tickLatency [] = length (filter (fun c => c = CallObserveTick) cs) + value m tickLatency [].
Proof.
  induction cs as [|c cs IH]; intros m; [by exists m|]. rewrite filter_cons. case_decide as Hc.
  - subst c. cbn [observe_calls]. unfold ObserveTick. destruct (Inc_ok tickLatency [] m eq_refl) as [m1 H1]. rewrite H1.
    destruct (IH m1) as (m' & Hm' & Hv). exists m'. split; [exact Hm'|].
    rewrite Hv, (value_Inc _ _ _ _ _ _ H1), bool_decide_true by done. cbn [length]. lia.
  - destruct c; try done; apply IH.
Qed.
End recording.

Example locator_metrics_run :
  (fun x => (value x.1 lookupDuration ["claim"; "ok"], value x.1 lookupDuration ["owner"; "not_found"],
             value x.1 errorsTotal ["refresh"], value x.1 errorsTotal ["owner"], value x.1 errorsTotal ["claim"])) <$>
  observed_run
    [CallClaim "a" Up Up 0%Z "r"; CallClaim "b" Up Up 1%Z "r"; CallOwner Up 1%Z "q"; CallRefresh Up 1%Z "q";
     CallOwner (Failed "down") 1%Z "r"] (mkShared (mkMemRedis ∅ ∅) []) (fresh (C := gmap (string * list string) nat)) = Some (2, 1, 1, 1, 0).
Proof. vm_compute. reflexivity. Qed.

(** ** Gauges

    [GaugeFunc]s are read at scrape time; here from an instance of [RoomHost],
    whose inboxes are those of its rooms. *)
Section gauges.
Context {L : Type} `{!RoomLocator L}.

(** [RoomActor.InboxLen] *)
Definition InboxLen (H : Host (L := L)) (id : nat) : nat :=
  match actors H !! id with Some a => length (inbox (actor (world (ho_room a)))) | None => 0 end.

Definition scrape_rooms (H : Host (L := L)) : list (Desc * nat) :=
  zip room_gauges [Registry.Count (reg H); InboxBufferUsage (InboxLen H) (reg H); BroadcastBufferUsage (reg H)].

Lemma sum_list_with_bound {A} (f : A -> nat) k l : (forall x, x ∈ l -> f x <= k) -> sum_list_with f l <= k * length l.
Proof.
  induction l as [|x l IH]; intros Hf; [simpl; lia|]. cbn. pose proof (Hf x ltac:(left)).
  assert (sum_list_with f l <= k * length l) by (apply IH; intros; apply Hf; by right). lia.
Qed.

(** What a scrape of the race service shows is consistent: the buffer gauges
    never show more than the capacity of the channels of the rooms counted. *)
Theorem room_gauges_bounded l0 H :
  host_reachable l0 H ->
  InboxBufferUsage (InboxLen H) (reg H) <= 64 * Registry.Count (reg H) /\
  BroadcastBufferUsage (reg H) <= 16 * Registry.Count (reg H).
Proof.
  intros [Hr Ha]%host_reachable_inv. assert (Hreg := reg_reachable_inv _ _ Hr).
  assert (Hlen : Registry.Count (reg H) = length (values (rooms (reg H)))).
  { unfold Registry.Count, values. by rewrite length_fmap, length_map_to_list. }
  rewrite Hlen. split; apply sum_list_with_bound; intros id (r & Hid)%elem_of_values;
    destruct (ri_rooms _ Hreg _ _ Hid) as (h & Hh & _ & _).
  - destruct (Ha _ _ Hh) as (a & Hai & [(nw & dist & n & Hre) _ _ _ _ _ _]). unfold InboxLen. rewrite Hai.
    by eapply inbox_capacity.
  - rewrite Hh. apply (hk_buffer _ _ (ri_ok _ Hreg _ _ Hh)).
Qed.
End gauges.
