(* ===== verification/Tracing.v ===== *)
(** * Traces across processes ([roomrelay/bus.go], [kafka/producer.go],
    [consumer], [tracing/logattrs.go], [wsgateway/endpoint.go])

    A span's context rides in the headers of what is published, and the receiver
    continues the trace.  NATS and Kafka headers are two carriers behind one
    interface; what crosses a hop is proved for any carrier that keeps its
    contract, and both keep it. *)
From Stdlib Require Import ZArith.
From stdpp Require Import base list gmap sets strings pretty.
From S2P Require Import Prelude GoNum GoStrings Json Events Store Relay Kafka.
Local Open Scope string_scope.
Local Open Scope list_scope.

(** ** Carriers *)

(** What the propagation library asks of a [TextMapCarrier]. *)
Class TextMapCarrier (C : Type) := {
  carrier_new : C;
  Get : C -> string -> string;
  Set_ : C -> string -> string -> C;
  Keys : C -> list string;
  get_new k : Get carrier_new k = "";
  get_set c k v k' : Get (Set_ c k v) k' = if String.eqb k k' then v else Get c k';
  keys_set c k v k' : k' ∈ Keys (Set_ c k v) <-> k' = k \/ k' ∈ Keys c
}.

(** [nats.Header], a map that the carrier updates in place. *)
Abbreviation Header := (gmap string (list string)).

(** [natsHeaderCarrier]: [Keys] comes in the order of an iteration of the map. *)
Definition header_Get (h : Header) (key : string) : string :=
  match h !! key with Some (v :: _) => v | _ => "" end.
Definition header_Set (h : Header) (key value : string) : Header := <[key := [value]]> h.
Definition header_Keys (h : Header) : list string := (map_to_list h).*1.

#[export, refine] Instance nats_carrier : TextMapCarrier Header := {|
  carrier_new := ∅; Get := header_Get; Set_ := header_Set; Keys := header_Keys
|}.
Proof.
  - done.
  - intros h k v k'. unfold header_Get, header_Set. destruct (String.eqb_spec k k') as [->|Hk].
    + by rewrite lookup_insert_eq.
    + by rewrite lookup_insert_ne.
  - intros h k v k'. unfold header_Keys, header_Set. rewrite !list_elem_of_fmap. split.
    + intros ([k1 v1] & -> & Hin). apply elem_of_map_to_list, lookup_insert_Some in Hin as [[<- _]|[_ Hin]]; [by left|right].
      exists (k1, v1). by rewrite elem_of_map_to_list.
    + intros [->|([k1 v1] & -> & Hin)].
      * exists (k, [v]). split; [done|]. apply elem_of_map_to_list, lookup_insert_eq.
      * apply elem_of_map_to_list in Hin. destruct (decide (k1 = k)) as [->|Hne].
        -- exists (k, [v]). split; [done|]. apply elem_of_map_to_list, lookup_insert_eq.
        -- exists (k1, v1). split; [done|]. apply elem_of_map_to_list. by rewrite lookup_insert_ne.
Defined.

(** [kafka.HeaderCarrier] over a list of headers. *)
#[export, refine] Instance kafka_carrier : TextMapCarrier (list (string * string)) := {|
  carrier_new := []; Get := carrier_Get; Set_ := carrier_Set; Keys := carrier_Keys
|}.
Proof.
  - done.
  - apply carrier_get_set.
  - intros hs k v k'. unfold carrier_Keys. induction hs as [|[k1 v1] hs IH]; cbn [carrier_Set fmap list_fmap fst].
    + rewrite elem_of_cons. naive_solver.
    + destruct (String.eqb_spec k1 k) as [->|Hne]; cbn [fmap list_fmap fst]; rewrite !elem_of_cons; [naive_solver|].
      rewrite IH. naive_solver.
Defined.

(** ** OpenTelemetry

    Span contexts, starting a span under a parent, and the W3C propagator that
    [tracing.Init] installs: the headers it sets, and what it makes of a
    carrier. *)
Class OpenTelemetry (Sc : Type) := {
  no_span : Sc;
  IsValid : Sc -> bool;
  TraceID : Sc -> string;
  SpanID : Sc -> string;
  start : Sc -> N -> Sc;                       (** the number: fresh randomness *)
  headers_of : Sc -> list (string * string);
  parse_headers : (string -> string) -> option Sc;
  no_span_invalid : IsValid no_span = false;
  start_valid p r : IsValid (start p r) = true;
  start_continues p r : IsValid p = true -> TraceID (start p r) = TraceID p;
  parse_set sc get : IsValid sc = true ->
    (forall k v, (k, v) ∈ headers_of sc -> get k = v) ->
    (forall k, k ∉ (headers_of sc).*1 -> get k = "") ->
    exists sc', parse_headers get = Some sc' /\ IsValid sc' = true /\ TraceID sc' = TraceID sc /\ SpanID sc' = SpanID sc;
  headers_once sc : NoDup (headers_of sc).*1
}.

Section tracing.
Context {Sc : Type} `{!OpenTelemetry Sc}.

(** A span as the exporter sees it. *)
Record Span := mkSpan { sp_name : string; sp_context : Sc; sp_parent : option string }.

Definition parent_of (sc : Sc) : option string := if IsValid sc then Some (SpanID sc) else None.

(** [tracer.Start(ctx, name)] *)
Definition StartSpan (ctx : Sc) (name : string) (r : N) : Sc * Span :=
  let sc := start ctx r in (sc, mkSpan name sc (parent_of ctx)).

Definition Inject {C} `{!TextMapCarrier C} (sc : Sc) (c : C) : C :=
  foldl (fun c kv => Set_ c kv.1 kv.2) c (headers_of sc).

(** [Extract(ctx, carrier)]: [ctx] when there is nothing to extract. *)
Definition Extract {C} `{!TextMapCarrier C} (ctx : Sc) (c : C) : Sc := default ctx (parse_headers (Get c)).

(** [tracing.LogAttrs] *)
Definition LogAttrs (ctx : Sc) : list (string * string) :=
  if IsValid ctx then [("trace_id", TraceID ctx); ("span_id", SpanID ctx)] else [].

(** ** Injecting and extracting *)

Lemma get_injected {C} `{!TextMapCarrier C} (fs : list (string * string)) (c : C) k :
  NoDup fs.*1 ->
  (forall v, (k, v) ∈ fs -> Get (foldl (fun c kv => Set_ c kv.1 kv.2) c fs) k = v) /\
  (k ∉ fs.*1 -> Get (foldl (fun c kv => Set_ c kv.1 kv.2) c fs) k = Get c k).
Proof.
  revert c. induction fs as [|[k1 v1] fs IH]; intros c Hd; cbn [fmap list_fmap foldl fst snd].
  - split; [by intros v Hv%elem_of_nil|done].
  - cbn in Hd. apply NoDup_cons in Hd as [Hk1 Hd]. destruct (IH (Set_ c k1 v1) Hd) as [IH1 IH2]. split.
    + intros v [[= -> ->]|Hv]%elem_of_cons; [|by apply IH1]. rewrite IH2 by done. by rewrite get_set, String.eqb_refl.
    + rewrite not_elem_of_cons. intros [Hne Hk]. rewrite IH2, get_set by done. by rewrite (proj2 (String.eqb_neq k1 k)).
Qed.

(** What is injected into a fresh carrier is extracted from it, up to what the
    library notes about where a context comes from. *)
Lemma extract_inject {C} `{!TextMapCarrier C} (ctx sc : Sc) : IsValid sc = true ->
  let sc' := Extract ctx (Inject sc (carrier_new : C)) in
  IsValid sc' = true /\ TraceID sc' = TraceID sc /\ SpanID sc' = SpanID sc.
Proof.
  intros Hv. unfold Extract, Inject.
  destruct (parse_set sc (Get (foldl (fun c kv => Set_ c kv.1 kv.2) (carrier_new : C) (headers_of sc))) Hv) as (sc' & -> & Hsc); [..|exact Hsc].
  - intros k v Hkv. by apply get_injected; [apply headers_once|].
  - intros k Hk. rewrite (proj2 (get_injected (headers_of sc) carrier_new k (headers_once sc)) Hk). apply get_new.
Qed.

(** ** The NATS hop ([publish], [subscribe]) *)

Record NatsMsg := mkNatsMsg { nm_Subject : string; nm_Data : json; nm_Header : Header }.

Definition publish_traced (ctx_err : option error) (c : Conn) (ctx : Sc) (r : N) (subject : string) (payload : json)
    (n : list NatsMsg) : list NatsMsg * (unit + error) * list Span :=
  match ctx_err with
  | Some e => (n, inr e, [])
  | None =>
      let '(sc, span) := StartSpan ctx "roomrelay.publish" r in
      let msg := mkNatsMsg subject payload (Inject sc carrier_new) in
      let failed e := inr ("roomrelay: publish " +:+ subject +:+ ": " +:+ e) in
      match c with
      | Up => (n ++ [msg], inl (), [span])
      | Failed e => (n, failed e, [span])
      | Lost e => (n ++ [msg], failed e, [span])
      end
  end.

Definition receive_traced (msg : NatsMsg) (r : N) : Span := snd (StartSpan (Extract no_span (nm_Header msg)) "roomrelay.receive" r).

(** Without headers and spans this is [publish_nats]. *)
Definition erase (n : list NatsMsg) : Nats := (fun m => (nm_Subject m, nm_Data m)) <$> n.

Lemma publish_traced_erase ctx_err c ctx r subject payload n :
  (fun x => (erase x.1.1, x.1.2)) (publish_traced ctx_err c ctx r subject payload n) =
  publish_nats ctx_err c subject payload (erase n).
Proof.
  unfold publish_traced, publish_nats, erase. destruct ctx_err; [done|]. destruct c; cbn; by rewrite ?fmap_app.
Qed.

(** [publishInboundTraced]: the [ws.frame] span around the publish, and the
    context the line about it is logged with. *)
Definition publishInboundTraced (ctx_err : option error) (c : Conn) (ctx : Sc) (r r' : N) (raceID : string)
    (env : InboundEnvelope) (n : list NatsMsg) : list NatsMsg * (unit + error) * list Span * Sc :=
  let '(sc, span) := StartSpan ctx "ws.frame" r in
  let '(n', err, spans) := publish_traced ctx_err c sc r' (inSubject raceID) (marshal_Inbound env) n in
  (n', err, span :: spans, sc).

(** ** The Kafka hop ([PublishWorkoutSample], [PublishRaceFinished]; the loops) *)

Definition produce_traced (ctx : Sc) (r : N) (msg : option KMessage) : option (KMessage * list (string * string)) * Span :=
  let '(sc, span) := StartSpan ctx "kafka.produce" r in
  ((fun m => (m, Inject sc carrier_new)) <$> msg, span).

Definition consume_traced (headers : list (string * string)) (r : N) : Span :=
  snd (StartSpan (Extract no_span headers) "kafka.consume" r).

(** [span'] continues the trace of [span] as its child. *)
Definition continues (span span' : Span) : Prop :=
  TraceID (sp_context span') = TraceID (sp_context span) /\ sp_parent span' = Some (SpanID (sp_context span)).

Lemma start_continues_span ctx name r : IsValid ctx = true ->
  TraceID (sp_context (snd (StartSpan ctx name r))) = TraceID ctx /\ sp_parent (snd (StartSpan ctx name r)) = Some (SpanID ctx).
Proof. intros Hv. cbn. unfold parent_of. by rewrite Hv, start_continues. Qed.

Lemma hop_continues {C} `{!TextMapCarrier C} ctx name name' r r' :
  continues (snd (StartSpan ctx name r)) (snd (StartSpan (Extract no_span (Inject (fst (StartSpan ctx name r)) (carrier_new : C))) name' r')).
Proof.
  destruct (extract_inject (C := C) no_span (start ctx r) (start_valid ctx r)) as (Hv & Ht & Hs).
  destruct (start_continues_span _ name' r' Hv) as [H1 H2]. split; [exact (eq_trans H1 Ht)|]. refine (eq_trans H2 _). by f_equal.
Qed.

(** A trace is not lost on the way: every frame the gateway gets published
    starts its receiver's span as a child of the publishing span, which is a
    child of the frame's, all in one trace - that of the connection when it has
    one - and the line the gateway logs about the frame names this trace; what
    the producer writes to Kafka does the same for the consumer's span; and the
    headers change nothing else about a publish. *)
Theorem trace_crosses ctx_err c ctx r r1 r2 raceID env n :
  let '(n', err, spans, sc) := publishInboundTraced ctx_err c ctx r r1 raceID env n in
  (erase n', err) = PublishIn ctx_err c raceID env (erase n) /\
  LogAttrs sc = [("trace_id", TraceID sc); ("span_id", SpanID sc)] /\
  (IsValid ctx = true -> TraceID sc = TraceID ctx) /\
  (n' = n \/ exists frame publish msg, spans = [frame; publish] /\ n' = n ++ [msg] /\ sp_context frame = sc /\
     continues frame publish /\ continues publish (receive_traced msg r2) /\
     TraceID (sp_context (receive_traced msg r2)) = TraceID sc) /\
  forall kctx kmsg m headers, fst (produce_traced kctx r1 kmsg) = Some (m, headers) ->
    kmsg = Some m /\ continues (snd (produce_traced kctx r1 kmsg)) (consume_traced headers r2).
Proof.
  destruct (publishInboundTraced ctx_err c ctx r r1 raceID env n) as [[[n' err] spans] sc] eqn:Hp.
  unfold publishInboundTraced in Hp. cbn [StartSpan] in Hp.
  pose proof (publish_traced_erase ctx_err c (start ctx r) r1 (inSubject raceID) (marshal_Inbound env) n) as Herase.
  destruct (publish_traced _ _ _ _ _ _ _) as [[n1 e1] sps] eqn:Hpub. injection Hp as <- <- <- <-. cbn in Herase. split_and!.
  - exact Herase.
  - unfold LogAttrs. by rewrite start_valid.
  - apply start_continues.
  - unfold publish_traced in Hpub. destruct ctx_err as [e|]; [left; congruence|]. cbn [StartSpan] in Hpub.
    set (msg := mkNatsMsg _ _ _) in *.
    assert (Hmsg : continues (mkSpan "ws.frame" (start ctx r) (parent_of ctx)) (snd (StartSpan (start ctx r) "roomrelay.publish" r1)) /\
      continues (snd (StartSpan (start ctx r) "roomrelay.publish" r1)) (receive_traced msg r2)).
    { split; [apply start_continues_span, start_valid|]. apply (hop_continues (C := Header)). }
    destruct Hmsg as [H1 H2]. assert (Htr : TraceID (sp_context (receive_traced msg r2)) = TraceID (start ctx r))
      by (destruct H1 as [H1 _], H2 as [H2 _]; by rewrite H2, H1).
    destruct c; injection Hpub as <- <- <-; [right|by left|right];
      eexists _, _, msg; by split_and!.
  - intros kctx kmsg m headers Hk. unfold produce_traced in *. cbn [StartSpan fst snd] in *.
    destruct kmsg as [m'|]; [|done]. injection Hk as -> <-. split; [done|]. exact (hop_continues (C := list (string * string)) kctx "kafka.produce" "kafka.consume" r1 r2).
Qed.
End tracing.

(** ** An instance *)

#[export, refine] Instance demo_otel : OpenTelemetry (option (string * string)) := {|
  no_span := None;
  IsValid sc := match sc with Some (t, _) => negb (String.eqb t "") | None => false end;
  TraceID sc := match sc with Some (t, _) => t | None => "" end;
  SpanID sc := match sc with Some (_, s) => s | None => "" end;
  start p r := match p with Some (String c t, _) => Some (String c t, pretty r) | _ => Some ("t" +:+ pretty r, pretty r) end;
  headers_of sc := match sc with Some (t, s) => [("traceparent", t); ("spanparent", s)] | None => [] end;
  parse_headers get := if String.eqb (get "traceparent") "" then None else Some (Some (get "traceparent", get "spanparent"))
|}.
Proof.
  - done.
  - by intros [[[|c t] s]|] r.
  - by intros [[[|c t] s]|] r.
  - intros [[t s]|] get Hv Hg _; [|done]. rewrite (Hg "traceparent" t), (Hg "spanparent" s) by set_solver.
    pose proof (proj1 (negb_true_iff _) Hv) as ->. by eexists.
  - intros [[t s]|]; repeat constructor; set_solver.
Defined.

(** A frame of a connection without a trace, from the gateway to the service. *)
Example frame_trace :
  let '(n', _, spans, _) := publishInboundTraced None Up (None : option (string * string)) 1 2 "r"
    (mkInbound InboundKindMessage "r" "u" "U" None) [] in
  (sp_parent <$> spans, (fun msg => let s := receive_traced (Sc := option (string * string)) msg 3 in (TraceID (sp_context s), sp_parent s)) <$> n') =
  ([None; Some "1"], [("t1", Some "2")]).
Proof. vm_compute. reflexivity. Qed.

Lemma trace_crosses_witness :
  LogAttrs (Some ("t1", "1")) = [("trace_id", "t1"); ("span_id", "1")] /\
  (erase (mkNatsMsg (inSubject "r") (marshal_Inbound (mkInbound InboundKindMessage "r" "u" "U" None))
            {["traceparent" := ["t1"]; "spanparent" := ["2"]]} :: nil), inl ()) =
  PublishIn None Up "r" (mkInbound InboundKindMessage "r" "u" "U" None) [].
Proof.
  pose proof (trace_crosses None Up (None : option (string * string)) 1 2 3 "r" (mkInbound InboundKindMessage "r" "u" "U" None) [])
    as (He & Hl & _).
  split; [exact Hl|]. exact He.
Defined.
