(* ===== verification/Cluster.v ===== *)
(** * Several instances, one Redis, one gateway: who is asked about a race

    The registries of the race-service instances work on the same Redis through
    their locators; a gateway resolves races with [Owner], caches the answers,
    and listens to the room events.  Instances die and come back under their old
    names; Redis and the gateway have clocks of their own.  The theorem is about
    the composition: a request that names a race is only ever proxied to an
    instance that has claimed a room for that race, and by a fresh answer to one
    that still serves it. *)
From Stdlib Require Import ZArith.
From stdpp Require Import base list gmap sets strings.
From S2P Require Import Prelude GoNum GoStrings Json Events Room Store Locator Registry RegistryProps GatewayProxy.
Local Open Scope string_scope.
Local Open Scope Z_scope.
Local Open Scope list_scope.

Section cluster.
Context {R : Type} `{HR : Redis R} (cacheTTL : Z).
Abbreviation Reg := (Registry (Shared (R := R))).

(** The state.  [cl_clock] is Redis's clock, [gw_clock] the gateway's.  Two
    fields are history: [claimed] has the race and the instance of every claim
    that Redis has recorded, [clean] says that every DEL of a release has been
    executed and that no instance has died. *)
Record Cluster := mkCluster {
  shared : Shared (R := R);
  instances : gmap string Reg;
  routing : Routing;
  cl_clock : Z;
  gw_clock : Z;
  claimed : gset (string * string);
  clean : bool
}.

Inductive ClusterStep :=
  | Boot (me : string)                                              (** an instance starts, or restarts *)
  | Instance_ (me : string) (l : @Step Shared (RedisLocator me))    (** a step of its registry *)
  | Routes (c : Conn) (delay : N) (backends : list string) (path : string)  (** a request at the gateway *)
  | Hears (i : nat)                                                 (** the [i]-th room event is delivered *)
  | Elapses (d : N)                                                 (** Redis's clock goes on *)
  | Elapses_gw (d : N).                                             (** the gateway's clock goes on *)

(** When a step of a registry talks to Redis, and how. *)
Definition redis_env {me : string} (l : @Step Shared (RedisLocator me)) : option RedisEnv :=
  match l with
  | SpawnClaim _ e | CleanupRelease _ e | Beat _ e => Some e
  | _ => None
  end.

(** Steps happen at the time of the cluster's clock. *)
Definition timely_step {me : string} (l : @Step Shared (RedisLocator me)) (now : Z) : bool :=
  match redis_env l with Some e => re_now e =? now | None => true end.

Definition executes_release {me : string} (l : @Step Shared (RedisLocator me)) : bool :=
  match l with CleanupRelease _ e => match re_conn e with Failed _ => false | _ => true end | _ => true end.

(** The claim a step makes, if Redis then names the claimant. *)
Definition claims {me : string} (l : @Step Shared (RedisLocator me)) (g : Reg) (s' : Shared (R := R)) : gset (string * string) :=
  match l with
  | SpawnClaim id e =>
      match handles g !! id with
      | Some h =>
          if bool_decide (live (redis s') (re_now e) (roomKey (ac_race h)) = Some (instance_prefix +:+ me))
          then {[ (ac_race h, me) ]} else ∅
      | None => ∅
      end
  | _ => ∅
  end.

Definition cluster_exec (st : ClusterStep) (s : Cluster) : option Cluster :=
  match st with
  | Boot me =>
      Some (mkCluster (shared s) (<[me := NewRegistry (shared s)]> (instances s)) (routing s) (cl_clock s) (gw_clock s)
              (claimed s) (clean s && bool_decide (instances s !! me = None)))
  | Instance_ me l =>
      g ← instances s !! me;
      if timely_step l (cl_clock s) then
        g' ← @reg_exec _ (RedisLocator me) l (g <| locator := shared s |>);
        Some (mkCluster (locator g') (<[me := g']> (instances s)) (routing s) (cl_clock s) (gw_clock s)
                (claims l g (locator g') ∪ claimed s) (clean s && executes_release l))
      else None
  | Routes c delay backends path =>
      let now := gw_clock s in
      let now' := now + Z.of_N delay in
      let '(r, _) := Gateway_ServeHTTP cacheTTL now now' (fun raceID => Owner c (cl_clock s) raceID (shared s)) backends path (routing s) in
      Some (mkCluster (shared s) (instances s) r (cl_clock s) now' (claimed s) (clean s))
  | Hears i =>
      payload ← room_events (shared s) !! i;
      Some (mkCluster (shared s) (instances s)
        match decode_room_event (Some payload) with
        | Some ev => watch_event cacheTTL (gw_clock s) ev (routing s)
        | None => routing s
        end (cl_clock s) (gw_clock s) (claimed s) (clean s))
  | Elapses d =>
      Some (mkCluster (shared s) (instances s) (routing s) (cl_clock s + Z.of_N d) (gw_clock s) (claimed s) (clean s))
  | Elapses_gw d =>
      Some (mkCluster (shared s) (instances s) (routing s) (cl_clock s) (gw_clock s + Z.of_N d) (claimed s) (clean s))
  end.

Fixpoint cluster_run (sts : list ClusterStep) (s : Cluster) : option Cluster :=
  match sts with
  | [] => Some s
  | st :: sts' => s' ← cluster_exec st s; cluster_run sts' s'
  end.

Inductive cluster_reachable (r0 : R) : Cluster -> Prop :=
  | cluster_init : cluster_reachable r0 (mkCluster (mkShared r0 []) ∅ NewGateway 0 0 ∅ true)
  | cluster_step st s s' : cluster_reachable r0 s -> cluster_exec st s = Some s' -> cluster_reachable r0 s'.

Lemma cluster_reachable_run r0 sts s s' :
  cluster_reachable r0 s -> cluster_run sts s = Some s' -> cluster_reachable r0 s'.
Proof.
  revert s. induction sts as [|st sts IH]; intros s Hs Hrun; simpl in Hrun; [by simplify_eq|].
  apply bind_Some in Hrun as (s1 & H1 & Hrun). eapply IH; [|done]. by eapply cluster_step.
Qed.

(** ** Hosts *)

(** Instance [me] has a room for the race that it has claimed the race for, and
    has not released. *)
Definition holds (m : gmap string Reg) (raceID me : string) : Prop :=
  exists g id h, m !! me = Some g /\ handles g !! id = Some h /\ ac_race h = raceID /\ ac_spawn h <> Registered /\
    ac_released h = false.

(** It serves the race: as long as that room's context is not done, and no other
    room was spawned there for the race, a lookup of the race finds it; and the
    map has only lost it because the context was done - the cleanup is then
    between the map and the release of the claim. *)
Definition serves (m : gmap string Reg) (raceID me : string) : Prop :=
  exists g id h, m !! me = Some g /\ handles g !! id = Some h /\ ac_race h = raceID /\ ac_spawn h <> Registered /\
    ac_released h = false /\ (ac_removed h = true -> ac_done h = true) /\
    (ac_done h = false -> only_of_race id h g -> Registry.Get raceID g = Some id).

(** What a step of a registry does to its rooms: they stay, with their race, and
    a claim stays claimed; only a release makes one released. *)
Definition same_handles {me : string} (l : @Step Shared (RedisLocator me)) (g g' : Reg) : Prop :=
  forall id h, handles g !! id = Some h -> exists h', handles g' !! id = Some h' /\ ac_race h' = ac_race h /\
    (ac_spawn h <> Registered -> ac_spawn h' <> Registered) /\
    (ac_released h = false -> ac_released h' = false \/ exists e, l = CleanupRelease id e).

Lemma same_handles_put me (l : @Step Shared (RedisLocator me)) (g g' : Reg) id0 h0 h1 :
  handles g !! id0 = Some h0 -> handles g' = <[id0 := h1]> (handles g) -> ac_race h1 = ac_race h0 ->
  (ac_spawn h0 <> Registered -> ac_spawn h1 <> Registered) ->
  (ac_released h0 = false -> ac_released h1 = false \/ exists e, l = CleanupRelease id0 e) ->
  same_handles l g g'.
Proof.
  intros H0 Hg Hr Hs Hl id h Hh. rewrite Hg. destruct (decide (id0 = id)) as [<-|Hne].
  - rewrite lookup_insert_eq. simplify_eq. by exists h1.
  - rewrite lookup_insert_ne by done. exists h. split_and!; auto.
Qed.

Lemma same_handles_refl me (l : @Step Shared (RedisLocator me)) (g g' : Reg) :
  handles g' = handles g -> same_handles l g g'.
Proof. intros Heq id h Hh. rewrite Heq. exists h. split_and!; auto. Qed.

Ltac put Hh := eapply same_handles_put;
  [exact Hh|cbn; try case_bool_decide; reflexivity|done|try done; by intros
  |first [by left|right; by eexists|by intros; left]].

Lemma handle_step_handles me (l : @Step Shared (RedisLocator me)) (g g' : Reg) id h :
  handles g !! id = Some h -> step_id l = id -> handle_step l id h g = Some g' -> same_handles l g g'.
Proof.
  intros Hh Hid Hx. destruct l; cbn [handle_step step_id] in Hx, Hid; try done; subst;
    unfold if_started in Hx;
    try match type of Hx with context [ac_spawn h] => destruct (ac_spawn h) eqn:Hsp; try done end;
    unfold feedInbox, feedInbox_end, drain_one, drain_done, drain_close, cleanup_map, cleanup_release, heartbeat, heartbeat_stop in Hx;
    repeat case_match; simplify_eq; first [by apply same_handles_refl|put Hh].
Qed.

Lemma reg_exec_handles me (l : @Step Shared (RedisLocator me)) (g g' : Reg) :
  reg_inv g -> reg_exec l g = Some g' -> same_handles l g g'.
Proof.
  intros Hg Hx. destruct l; cbn [reg_exec] in Hx;
    try (apply bind_Some in Hx as (h & Hh & Hx); by eapply handle_step_handles).
  - simplify_eq. intros i x Hi. exists x. unfold Spawn. cbn. rewrite lookup_insert_ne; [split_and!; auto|].
    intros <-. apply (Nat.lt_irrefl (spawned g)). apply (ri_fresh g Hg). by exists x.
  - simplify_eq. unfold Remove, cancel_handle. destruct (rooms g !! raceID) as [i|]; [|by apply same_handles_refl]. cbn.
    destruct (handles g !! i) as [x|] eqn:Hi; [|by apply same_handles_refl]. put Hi.
Qed.

(** ** What Redis and the announcements say

    [P] is what the value of every live claim says of race and instance, now
    and for as long as it lives; [Q] what every announcement of a room says. *)
Definition keys_say (P : string -> string -> Prop) (now : Z) (s : Shared (R := R)) : Prop :=
  forall t raceID v, now <= t -> live (redis s) t (roomKey raceID) = Some v ->
    exists me, v = (instance_prefix +:+ me)%string /\ P raceID me.

Definition announcements_say (Q : string -> string -> Prop) (s : Shared (R := R)) : Prop :=
  forall i payload ev, room_events s !! i = Some payload -> decode_room_event (Some payload) = Some ev ->
    le_Type ev = RoomEventCreated -> Q (le_RaceID ev) (le_InstanceID ev).

Lemma keys_say_mono (P P' : string -> string -> Prop) now now' s :
  (forall r m, P r m -> P' r m) -> now <= now' -> keys_say P now s -> keys_say P' now' s.
Proof. intros Hi Hle Hk t r v Ht Hv. destruct (Hk t r v) as (m & -> & Hm); [lia|done|]. exists m. auto. Qed.

Lemma announcements_say_mono (Q Q' : string -> string -> Prop) s :
  (forall r m, Q r m -> Q' r m) -> announcements_say Q s -> announcements_say Q' s.
Proof. intros Hi Ha i p ev Hp Hd Ht. apply Hi. by eapply Ha. Qed.

Lemma publish_redis c ev (s : Shared (R := R)) : redis (fst (publish c ev s)) = redis s.
Proof. by destruct c. Qed.

Lemma publish_say c ev Q (s : Shared (R := R)) :
  announcements_say Q s -> (le_Type ev = RoomEventCreated -> Q (le_RaceID ev) (le_InstanceID ev)) ->
  announcements_say Q (fst (publish c ev s)).
Proof.
  intros Ha Hq. assert (H : announcements_say Q (mkShared (redis s) (room_events s ++ [marshal_LocatorEvent ev]))).
  { intros i p ev' Hp Hd Ht. cbn in Hp. apply lookup_app_Some in Hp as [Hp|[_ Hp]]; [by eapply Ha|].
    apply list_lookup_singleton_Some in Hp as [_ <-]. destruct ev as [ty r m].
    assert (ev' = mkLocatorEvent ty r m) as -> by (by injection Hd). by apply Hq. }
  by destruct c.
Qed.

(** A claim: whatever its connection does and whatever it answers, a key that
    is new carries the name of the claimant, and so does an announcement. *)
Lemma Claim_redis me c1 c2 now r0 (s : Shared (R := R)) :
  redis (fst (Claim me c1 c2 now r0 s)) = fst (cmd_setnx c1 now (roomKey r0) (instance_prefix +:+ me) claimTTL (redis s)).
Proof.
  unfold Claim. destruct (cmd_setnx _ _ _ _ _ _) as [r1 [[]|e]]; [|done..].
  assert (H := publish_redis c2 (mkLocatorEvent RoomEventCreated r0 me) (mkShared r1 (room_events s))).
  by destruct (publish _ _ _) as [s' [[]|e]].
Qed.

Lemma setnx_free_now now r0 me r : live r now (roomKey r0) = None ->
  live (fst (cmd_setnx Up now (roomKey r0) (instance_prefix +:+ me) claimTTL r)) now (roomKey r0) = Some (instance_prefix +:+ me)%string.
Proof.
  intros Hn. destruct (setnx_free now (roomKey r0) (instance_prefix +:+ me) claimTTL _ Hn) as (r1 & -> & _ & Hl & _).
  cbn [fst]. rewrite Hl by lia. by rewrite (proj2 (Z.ltb_lt _ _)) by (unfold claimTTL; lia).
Qed.

Lemma Claim_keys me c1 c2 now r0 (P : string -> string -> Prop) s :
  keys_say P now s ->
  (live (redis (fst (Claim me c1 c2 now r0 s))) now (roomKey r0) = Some (instance_prefix +:+ me)%string -> P r0 me) ->
  keys_say P now (fst (Claim me c1 c2 now r0 s)).
Proof.
  intros Hk Hp t r v Ht. rewrite Claim_redis in *.
  destruct (setnx_any c1 now (roomKey r0) (instance_prefix +:+ me) claimTTL (redis s)) as [E|E]; rewrite E in *; [by apply Hk|].
  destruct (live (redis s) now (roomKey r0)) as [w|] eqn:Hn.
  - rewrite (setnx_taken _ _ _ _ _ _ Hn). by apply Hk.
  - specialize (Hp (setnx_free_now _ _ _ _ Hn)). clear E.
    destruct (setnx_free now (roomKey r0) (instance_prefix +:+ me) claimTTL _ Hn) as (r1 & -> & _ & Hl & Ho).
    cbn [fst]. destruct (decide (r = r0)) as [->|Hne].
    + rewrite Hl by done. case_match; intros; simplify_eq. by exists me.
    + rewrite Ho by (by intros ?%roomKey_inj). by apply Hk.
Qed.

Lemma Claim_announces me c1 c2 now r0 Q s :
  announcements_say Q s ->
  (live (redis (fst (Claim me c1 c2 now r0 s))) now (roomKey r0) = Some (instance_prefix +:+ me)%string -> Q r0 me) ->
  announcements_say Q (fst (Claim me c1 c2 now r0 s)).
Proof.
  intros Ha Hq. rewrite Claim_redis in Hq. unfold Claim.
  destruct (cmd_setnx c1 _ _ _ _ _) as [r1 [[]|e]] eqn:Hx; [|exact Ha..].
  assert (Hans := setnx_answer c1 now (roomKey r0) (instance_prefix +:+ me) claimTTL (redis s)).
  rewrite Hx in Hans. specialize (Hans eq_refl).
  destruct (live (redis s) now (roomKey r0)) as [w|] eqn:Hn.
  { by rewrite (setnx_taken _ _ _ _ _ _ Hn) in Hans. }
  assert (Hnow := setnx_free_now _ _ me _ Hn). rewrite <-Hans in Hnow.
  assert (H := publish_say c2 (mkLocatorEvent RoomEventCreated r0 me) Q (mkShared r1 (room_events s)) Ha (fun _ => Hq Hnow)).
  by destruct (publish _ _ _) as [s' [[]|e]].
Qed.

Lemma Refresh_shared c now r0 (s : Shared (R := R)) :
  fst (Refresh c now r0 s) = mkShared (fst (cmd_expire c now (roomKey r0) claimTTL (redis s))) (room_events s).
Proof. unfold Refresh. by destruct (cmd_expire _ _ _ _ _) as [r1 [[]|e]]. Qed.

(** A heartbeat prolongs what it finds. *)
Lemma Refresh_keys c now r0 P s : keys_say P now s -> keys_say P now (fst (Refresh c now r0 s)).
Proof.
  intros Hk t r v Ht. rewrite Refresh_shared. cbn [redis].
  destruct (expire_any c now (roomKey r0) claimTTL (redis s)) as [->| ->]; [by apply Hk|].
  destruct (live (redis s) now (roomKey r0)) as [w|] eqn:Hn.
  - destruct (expire_live now (roomKey r0) claimTTL _ _ Hn) as (r1 & -> & _ & Hl & Ho). cbn [fst].
    destruct (decide (r = r0)) as [->|Hne].
    + rewrite Hl by done. case_match; intros; simplify_eq. by apply (Hk now).
    + rewrite Ho by (by intros ?%roomKey_inj). by apply Hk.
  - rewrite (expire_dead _ _ _ _ Hn). by apply Hk.
Qed.

(** A release leaves no claim on the race if its DEL is executed, and never
    changes another one. *)
Lemma Release_keys me c1 c2 now r0 (P : string -> string -> Prop) s : keys_say P now s ->
  keys_say (fun r m => P r m /\ (match c1 with Failed _ => True | _ => r <> r0 end)) now
    (fst (Release me c1 c2 now r0 s)).
Proof.
  intros Hk. assert (Hr : redis (fst (Release me c1 c2 now r0 s)) = fst (cmd_del c1 now (roomKey r0) (redis s))).
  { unfold Release. destruct (cmd_del _ _ _ _) as [r1 [[]|e]]; [|done]. by rewrite publish_redis. }
  intros t r v Ht. rewrite Hr. clear Hr.
  assert (Hup : live (fst (cmd_del Up now (roomKey r0) (redis s))) t (roomKey r) = Some v ->
    exists m, v = (instance_prefix +:+ m)%string /\ P r m /\ r <> r0).
  { destruct (del_spec now (roomKey r0) (redis s)) as (r1 & -> & _ & Hl & Ho). cbn [fst].
    destruct (decide (r = r0)) as [->|Hne]; [by rewrite Hl by done|].
    rewrite Ho by (by intros ?%roomKey_inj). intros Hv. destruct (Hk t r v Ht Hv) as (m & ? & ?). eauto. }
  destruct c1 as [|e|e].
  - intros (m & ? & ? & ?)%Hup. eauto.
  - destruct (del_any (Failed e) now (roomKey r0) (redis s)) as [->| ->].
    + intros Hv. destruct (Hk t r v Ht Hv) as (m & ? & ?). eauto.
    + intros (m & ? & ? & ?)%Hup. eauto.
  - rewrite del_executed by done. intros (m & ? & ? & ?)%Hup. eauto.
Qed.

Lemma Release_announces me c1 c2 now r0 Q (s : Shared (R := R)) :
  announcements_say Q s -> announcements_say Q (fst (Release me c1 c2 now r0 s)).
Proof.
  intros Ha. unfold Release. destruct (cmd_del _ _ _ _) as [r1 [[]|e]]; [|exact Ha]. by apply publish_say.
Qed.

(** ** The invariant *)

(** What a step of a registry does to Redis. *)
Lemma reg_exec_shared me (l : @Step Shared (RedisLocator me)) (g g' : Reg) :
  reg_exec l g = Some g' ->
  match l with
  | SpawnClaim id e => exists h, handles g !! id = Some h /\
      handles g' !! id = Some (h <| ac_spawn := Claimed |>) /\ ac_spawn h = Registered /\
      locator g' = fst (Claim me (re_conn e) (re_publish e) (re_now e) (ac_race h) (locator g))
  | CleanupRelease id e => exists h, handles g !! id = Some h /\
      locator g' = fst (Release me (re_conn e) (re_publish e) (re_now e) (ac_race h) (locator g))
  | Beat id e => exists h, handles g !! id = Some h /\
      locator g' = fst (Refresh (re_conn e) (re_now e) (ac_race h) (locator g))
  | _ => locator g' = locator g
  end.
Proof.
  intros Hx. destruct l; cbn [reg_exec step_id] in Hx;
    try (apply bind_Some in Hx as (h & Hh & Hx); cbn [handle_step] in Hx; unfold if_started in Hx;
         try match type of Hx with context [ac_spawn h] => destruct (ac_spawn h) eqn:Hsp; try done end;
         unfold spawn_claim, feedInbox, feedInbox_end, drain_one, drain_done, drain_close, cleanup_map, cleanup_release, heartbeat,
           heartbeat_stop in Hx;
         repeat case_match; simplify_eq; cbn; try done; try (case_bool_decide; done); exists h; split_and!; try done;
         by rewrite ?lookup_insert_eq).
  - by simplify_eq.
  - simplify_eq. unfold Remove, cancel_handle. repeat case_match; done.
Qed.

(** What a live claim says of race and instance. *)
Definition named (cl : gset (string * string)) (clean0 : bool) (m : gmap string Reg) (raceID me : string) : Prop :=
  (raceID, me) ∈ cl /\ (clean0 = true -> holds m raceID me).

Record cluster_inv (s : Cluster) : Prop := {
  ci_regs me g : instances s !! me = Some g -> reg_inv g;
  ci_keys : keys_say (named (claimed s) (clean s) (instances s)) (cl_clock s) (shared s);
  ci_announced : announcements_say (fun r m => (r, m) ∈ claimed s) (shared s);
  ci_cache raceID e : cache (routing s) !! raceID = Some e -> (raceID, ce_instance e) ∈ claimed s
}.

(** A claim is only given up by a release, of its own race. *)
Lemma holds_step m me (l : @Step Shared (RedisLocator me)) g g1 g' raceID who :
  m !! me = Some g -> handles g1 = handles g -> same_handles l g1 g' ->
  (forall id e h, l = CleanupRelease id e -> handles g !! id = Some h -> ac_race h <> raceID) ->
  holds m raceID who -> holds (<[me := g']> m) raceID who.
Proof.
  intros Hm Hg1 Hs Hl (g0 & id & h & H0 & Hh & Hr & Hsp & Hrel). destruct (decide (who = me)) as [->|Hne].
  - simplify_eq. pose proof Hh as Hh1. rewrite <-Hg1 in Hh1.
    destruct (Hs _ _ Hh1) as (h' & Hh' & Hr' & Hsp' & Hrel').
    exists g', id, h'. rewrite lookup_insert_eq. split_and!; auto; [congruence..|].
    destruct (Hrel' Hrel) as [?|[e ->]]; [done|]. by destruct (Hl id e h).
  - exists g0, id, h. by rewrite lookup_insert_ne.
Qed.

Lemma holds_boot m me g0 raceID who : m !! me = None -> holds m raceID who -> holds (<[me := g0]> m) raceID who.
Proof.
  intros Hm (g & id & h & Hg & Hr). exists g, id, h. rewrite lookup_insert_ne; [done|]. intros <-. by rewrite Hm in Hg.
Qed.

(** A registry's step: Redis and the announcements still name claimants. *)
Lemma instance_step_keys me (l : @Step Shared (RedisLocator me)) m g g' now (clean0 : bool) cl s :
  m !! me = Some g -> reg_inv g -> timely_step l now = true ->
  reg_exec l (g <| locator := s |>) = Some g' ->
  keys_say (named cl clean0 m) now s -> announcements_say (fun r w => (r, w) ∈ cl) s ->
  keys_say (named (claims l g (locator g') ∪ cl) (clean0 && executes_release l) (<[me := g']> m)) now (locator g') /\
  announcements_say (fun r w => (r, w) ∈ claims l g (locator g') ∪ cl) (locator g').
Proof.
  intros Hm Hg Ht Hx Hk Ha.
  assert (Hs : same_handles l (g <| locator := s |>) g') by (eapply reg_exec_handles; [by apply locator_inv|done]).
  assert (Ha' : announcements_say (fun r w => (r, w) ∈ claims l g (locator g') ∪ cl) s)
    by (eapply announcements_say_mono; [|exact Ha]; set_solver).
  assert (Hmono : (forall id e, l <> CleanupRelease id e) -> forall r w, named cl clean0 m r w ->
    named (claims l g (locator g') ∪ cl) (clean0 && executes_release l) (<[me := g']> m) r w).
  { intros Hl r w [Hin Hw]. split; [set_solver|]. intros [Hc _]%andb_true_iff.
    eapply holds_step; [exact Hm|reflexivity|exact Hs| |by apply Hw]. intros ? ? ? ->. by destruct (Hl id e). }
  apply reg_exec_shared in Hx. destruct l; cbn [timely_step redis_env] in Ht;
    try (rewrite Hx; split; [|exact Ha']; by eapply keys_say_mono; [apply Hmono| |]).
  - destruct Hx as (h & Hh & Hh' & Hsp & Hlc). rewrite Hlc in Hmono, Ha' |- *. apply Z.eqb_eq in Ht. subst now. cbn in Hh.
    cbn [locator] in *. set (s' := fst (Claim me (re_conn e) (re_publish e) (re_now e) (ac_race h) s)) in *.
    assert (Hin : live (redis s') (re_now e) (roomKey (ac_race h)) = Some (instance_prefix +:+ me)%string ->
      (ac_race h, me) ∈ claims (@SpawnClaim _ (RedisLocator me) id e) g s' ∪ cl).
    { intros Hl. cbn. rewrite Hh, bool_decide_true by done. set_solver. }
    split; [|by apply Claim_announces].
    apply Claim_keys; [by eapply keys_say_mono; [apply Hmono| |]|]. intros Hl. split; [by apply Hin|]. intros _.
    exists g', id, (h <| ac_spawn := Claimed |>). rewrite lookup_insert_eq. split_and!; try done. cbn.
    destruct (ac_released h) eqn:Hrel; [|done]. by rewrite (hk_started _ _ (ri_ok g Hg _ _ Hh) Hrel) in Hsp.
  - destruct Hx as (h & Hh & Hlc). rewrite Hlc in Hmono, Ha' |- *. apply Z.eqb_eq in Ht. subst now. cbn in Hh. split; [|by apply Release_announces].
    eapply keys_say_mono; [|reflexivity|by apply Release_keys]. cbn beta.
    intros r w [[Hin Hw] Hne]. split; [set_solver|]. cbn [executes_release].
    destruct (re_conn e); rewrite ?andb_true_r, ?andb_false_r; [|done|];
      (intros Hc; eapply holds_step; [exact Hm|reflexivity|exact Hs| |by apply Hw]; intros i e1 h0 Hi Hh0; simplify_eq; congruence).
  - destruct Hx as (h & Hh & Hlc). rewrite Hlc in Hmono, Ha' |- *. apply Z.eqb_eq in Ht. subst now. rewrite !Refresh_shared. split; [|exact Ha'].
    rewrite <-Refresh_shared. apply Refresh_keys. by eapply keys_say_mono; [apply Hmono| |].
Qed.

(** An answer of the locator names the instance of the claim. *)
Lemma Owner_names c now raceID P (s : Shared (R := R)) me :
  keys_say P now s -> Owner c now raceID s = inl (Some me) -> P raceID me.
Proof.
  intros Hk. unfold Owner. destruct (snd _) as [[v|]|e] eqn:Ha; [|done..]. intros [= <-].
  apply get_answer in Ha. destruct (Hk now raceID v) as (m & -> & Hm); [lia|done|]. by rewrite trim_prefix_app.
Qed.

(** Where the proxied host comes from, and what the cache gains. *)
Lemma ServeHTTP_cases now now' owner backends path g g' res :
  Gateway_ServeHTTP cacheTTL now now' owner backends path g = (g', res) ->
  (forall r e, cache g' !! r = Some e -> cache g !! r = Some e \/ owner r = inl (Some (ce_instance e))) /\
  (forall r host, extractRaceID path = Some r -> res = Proxied host ->
    (exists e, cache g !! r = Some e /\ ce_instance e = host /\ now < ce_expiresAt e) \/ owner r = inl (Some host)).
Proof.
  unfold Gateway_ServeHTTP, resolveTarget, nextBackend. intros Hx.
  destruct (extractRaceID path) as [r0|].
  - destruct (cache g !! r0) as [e0|] eqn:Hc; [destruct (Z.ltb_spec now (ce_expiresAt e0))|].
    + simplify_eq. split; [auto|]. intros r host ? ?. simplify_eq. left. eauto.
    + destruct (owner r0) as [[m|]|e] eqn:Ho; simplify_eq; (split; [|intros; by simplify_eq; auto]); [|auto..].
      intros r e. cbn. intros [[<- <-]|[_ He]]%lookup_insert_Some; auto.
    + destruct (owner r0) as [[m|]|e] eqn:Ho; simplify_eq; (split; [|intros; by simplify_eq; auto]); [|auto..].
      intros r e. cbn. intros [[<- <-]|[_ He]]%lookup_insert_Some; auto.
  - repeat case_match; simplify_eq; split; by auto.
Qed.

Lemma watch_event_cache now ev g r e :
  cache (watch_event cacheTTL now ev g) !! r = Some e -> cache g !! r = Some e \/
    (le_Type ev = RoomEventCreated /\ le_RaceID ev = r /\ le_InstanceID ev = ce_instance e).
Proof.
  unfold watch_event. destruct (String.eqb_spec (le_Type ev) RoomEventCreated) as [Ht|_].
  - cbn. intros [[<- <-]|[_ He]]%lookup_insert_Some; auto.
  - destruct (String.eqb _ _); [|auto]. cbn. intros [_ He]%lookup_delete_Some. auto.
Qed.

Lemma cluster_exec_inv st s s' : cluster_inv s -> cluster_exec st s = Some s' -> cluster_inv s'.
Proof.
  intros [Hregs Hk Ha Hc] Hx. destruct st as [me|me l|c delay backends path|i|d|d]; cbn [cluster_exec] in Hx.
  - simplify_eq. split; cbn; [|eapply keys_say_mono; [|reflexivity|exact Hk]|exact Ha|exact Hc].
    + intros w g [[<- <-]|[_ Hg]]%lookup_insert_Some; [apply reg_inv_init|by eapply Hregs].
    + intros r w [Hin Hw]. split; [done|]. intros [Hcl Hm%bool_decide_eq_true]%andb_true_iff.
      apply holds_boot; [done|by apply Hw].
  - apply bind_Some in Hx as (g & Hm & Hx). destruct (timely_step l _) eqn:Ht; [|done].
    apply bind_Some in Hx as (g' & Hx & Heq). simplify_eq.
    assert (Hg := Hregs _ _ Hm).
    destruct (instance_step_keys _ l _ _ _ _ _ _ _ Hm Hg Ht Hx Hk Ha) as [Hk' Ha']. split; cbn; [|done|done|].
    + intros w g0 [[<- <-]|[_ Hg0]]%lookup_insert_Some; [|by eapply Hregs].
      eapply reg_exec_inv; [|exact Hx]. by apply locator_inv.
    + intros r e He. specialize (Hc r e He). set_solver.
  - destruct (Gateway_ServeHTTP _ _ _ _ _ _ _) as [g' res] eqn:Hs. simplify_eq.
    apply ServeHTTP_cases in Hs as [Hcache _]. split; cbn; [done|exact Hk|done|].
    intros r e He. destruct (Hcache r e He) as [?|Ho]; [by eapply Hc|]. apply (Owner_names _ _ _ _ _ _ Hk Ho).
  - apply bind_Some in Hx as (p & Hp & Hx). simplify_eq.
    split; cbn [instances shared routing cl_clock clean claimed]; [done|exact Hk|exact Ha|].
    intros r e He. destruct (decode_room_event (Some p)) as [ev|] eqn:Hd; [|by eapply Hc].
    apply watch_event_cache in He as [?|(Ht & <- & <-)]; [by eapply Hc|]. by eapply Ha.
  - simplify_eq. split; cbn; [done| |done|done]. eapply keys_say_mono; [| |exact Hk]; [done|lia].
  - by simplify_eq.
Qed.

Lemma cluster_reachable_inv r0 s :
  (forall t raceID, live r0 t (roomKey raceID) = None) -> cluster_reachable r0 s -> cluster_inv s.
Proof.
  intros H0. induction 1 as [|st s s' _ IH Hx]; [|by eapply cluster_exec_inv]. split; cbn; try done.
  intros t r v _. cbn. by rewrite H0.
Qed.

(** In registries that keep their invariant, who holds a race serves it. *)
Lemma holds_serves (m : gmap string Reg) raceID me :
  (forall w g, m !! w = Some g -> reg_inv g) -> holds m raceID me -> serves m raceID me.
Proof.
  intros Hregs (g & id & h & Hg & Hh & <- & Hsp & Hrel). destruct (Hregs _ _ Hg) as [_ _ Hok _ Hlive].
  exists g, id, h. split_and!; try done; [apply (hk_removed _ _ (Hok _ _ Hh))|]. by apply Hlive.
Qed.

(** C19: a request about a race reaches an instance that runs it: in every
    state that several race-service instances, their Redis and a gateway can
    reach from a Redis without claims - with commands that fail, answers that are
    lost, heartbeats that come too late, announcements that never come or come
    again and out of order, instances that die and come back, clocks that differ -
    a host a request for a race is proxied to is an instance that has spawned a
    room for that race and whose claim of the race Redis has recorded; when the
    answer is not from the routing cache, no release has failed to reach Redis and
    no instance has died, the instance moreover serves the race: it has not
    released the claim, a lookup of the race in its map finds the room as long as
    that room's context is not done, and only a room whose context is done - in the
    moment between the map and the release - is no longer found. *)
Theorem routed_to_host r0 s c delay backends path g' raceID host :
  (forall t id, live r0 t (roomKey id) = None) -> cluster_reachable r0 s ->
  Gateway_ServeHTTP cacheTTL (gw_clock s) (gw_clock s + Z.of_N delay) (fun id => Owner c (cl_clock s) id (shared s))
    backends path (routing s) = (g', Proxied host) ->
  extractRaceID path = Some raceID ->
  (raceID, host) ∈ claimed s /\
  (clean s = true ->
   (forall e, cache (routing s) !! raceID = Some e -> ce_expiresAt e <= gw_clock s) ->
   serves (instances s) raceID host).
Proof.
  intros H0 Hs Hx Hr. destruct (cluster_reachable_inv _ _ H0 Hs) as [Hregs Hk _ Hc].
  apply ServeHTTP_cases in Hx as [_ Hx]. destruct (Hx raceID host Hr eq_refl) as [(e & He & <- & Hlt)|Ho].
  - split; [by apply Hc|]. intros _ Hexp. specialize (Hexp e He). lia.
  - destruct (Owner_names _ _ _ _ _ _ Hk Ho) as [Hin Hw]. split; [done|]. intros Hcl _. apply holds_serves; [exact Hregs|by apply Hw].
Qed.
End cluster.

(** Two instances; "b" claims r1 and announces it, "a" claims r2 and its
    announcement is lost. *)
Definition demo_steps : list (ClusterStep (R := MemRedis)) :=
  [Boot "a"; Boot "b"; Instance_ "b" (DoSpawn "r1"); Instance_ "b" (@SpawnClaim _ (RedisLocator _) 0 (mkRedisEnv 0 Up Up));
   Hears 0; Instance_ "a" (DoSpawn "r2"); Elapses 5;
   Instance_ "a" (@SpawnClaim _ (RedisLocator _) 0 (mkRedisEnv 5 Up (Failed "timeout")));
   Instance_ "a" (SpawnStart 0 true); Routes Up 1 [] "/races/r1/leave"].

Definition empty_cluster : Cluster (R := MemRedis) :=
  mkCluster (mkShared (mkMemRedis ∅ ∅) []) ∅ NewGateway 0 0 ∅ true.

Lemma routed_to_host_witness :
  exists s, cluster_run 30 demo_steps empty_cluster = Some s /\
    ("r1", "b") ∈ claimed s /\ serves (instances s) "r2" "a".
Proof.
  assert (H0 : forall t id, live (mkMemRedis ∅ ∅) t (roomKey id) = None) by (intros; reflexivity).
  assert (Hrun : exists s, cluster_run 30 demo_steps empty_cluster = Some s /\
    clean s = true /\ cache (routing s) !! "r2" = None /\
    snd (Gateway_ServeHTTP 30 (gw_clock s) (gw_clock s + 1) (fun id => Owner Up (cl_clock s) id (shared s)) []
           "/races/r1/start" (routing s)) = Proxied "b" /\
    snd (Gateway_ServeHTTP 30 (gw_clock s) (gw_clock s + 1) (fun id => Owner Up (cl_clock s) id (shared s)) []
           "/races/r2/start" (routing s)) = Proxied "a").
  { eexists. split; [vm_compute; reflexivity|]. by vm_compute. }
  destruct Hrun as (s & Hrun & Hcl & Hca & H1 & H2). exists s. split; [exact Hrun|].
  assert (Hs : cluster_reachable 30 (mkMemRedis ∅ ∅) s)
    by (eapply cluster_reachable_run; [apply cluster_init|exact Hrun]).
  destruct (Gateway_ServeHTTP _ _ _ _ _ "/races/r1/start" _) as [g1 x1] eqn:E1 in H1.
  destruct (Gateway_ServeHTTP _ _ _ _ _ "/races/r2/start" _) as [g2 x2] eqn:E2 in H2.
  cbn [snd] in H1, H2. subst x1 x2. split.
  - by apply (routed_to_host 30 _ s Up 1 [] "/races/r1/start" g1 "r1" "b" H0 Hs E1).
  - apply (routed_to_host 30 _ s Up 1 [] "/races/r2/start" g2 "r2" "a" H0 Hs E2); [done|done|].
    intros e. by rewrite Hca.
Defined.
